(* ===== verification/_CoqProject ===== *)
-Q . S2P
Prelude.v
KVList.v
Schema.v
SecIndex.v
BNode.v
NodeLayout.v
NodeOps.v
Disk.v
FreeList.v
Commit.v
Lexer.v
Parser.v
ParserFacts.v
PrintParse.v
BTree.v
TreeRep.v
TreeGet.v
TreeInsert.v
TreeDelete.v
TreeRoot.v
TreeSpec.v
TreeMap.v
Iter.v
Cursor.v
KVStore.v
Util.v
Tx.v
Db.v
Scanner.v
Range.v
Tables.v
Catalog.v
TxTable.v
Eval.v
Planner.v
Exec.v
Select.v
IndexKeys.v
TableScan.v
Spans.v
Listing.v
Query.v
Modify.v
Cli.v
