(* ===== verification/Prelude.v ===== *)
(** * AuroraDB: a verification library

    AuroraDB is an embedded relational database in Go: a file of pages managed by
    a free list, a B+tree over them, key-value transactions, tables with secondary
    indexes, a small query language and an interactive client.  This library is a
    shallow embedding of all of it that is not input and output, written so that it can be
    read beside the code: definitions keep the names of the functions they
    translate, structs are records, slices of bytes are lists of bytes, integers are
    [Z] with the wrap-around of their width written out, and a function that
    can panic returns a [res].

    ** The program and the files that model it

    - storage/btree.go: nodes as byte strings ([BNode], the operations on one
      page), the tree over a page store ([BTree]) and its iterators ([Iter]).
      Facts: [NodeLayout], [NodeOps] (a page as a list of entries), [KVList] (the
      sorted list that is the reference), [TreeRep], [TreeGet], [TreeInsert],
      [TreeDelete], [TreeRoot], [TreeSpec], [TreeMap] (the tree), [Cursor]
      (iterators as positions in the list).
    - storage/disk.go: the file, its memory map, the pages not written yet, the
      free list, the meta page, [updateFile], [Abort] and [Open] ([Disk]); the
      methods [Get], [Set], [Del] of [KV] ([KVStore]); transactions, the type
      [KVTX], and their commit ([Tx]).  Facts: [FreeList] (the list of free pages is a
      queue), [Commit] (the file after a commit and a failed one), and the second
      halves of [KVStore] and [Tx].
    - util/util.go: [Util].
    - types/schema.go: values, records, definitions of tables and the key codec ([Schema]).
    - index/secondary.go: the keys of secondary indexes ([SecIndex]).
    - db/db.go: rows and the catalogue ([Db]), scanners ([Scanner]).  Facts:
      [Tables] (a table is a finite map of rows), [Catalog] (creating tables),
      [TxTable] (tables in the transactions of [Tx], commits that conflict),
      [Range] (what a scanner lists).
    - parser/lexer.go and parser/parser.go: [Lexer], [Parser].  Facts:
      [ParserFacts] (the parser ends; where it does not), [PrintParse] (printing
      and parsing back).
    - engine/executor.go: expressions ([Eval], with a big-step semantics), the
      statements and [ExecuteQuery] ([Exec]).
    - engine/planner.go: the choice of a scan, and the iterators that filter rows
      and count them for offset and limit ([Planner]).  Facts: [Select] (the iterators over any
      scanner), [IndexKeys] (the order of the keys of an index, and the bounds of a scan),
      [TableScan] (the rows of a table between two bounds, as a scanner lists them), [Spans]
      (the index and the bounds the planner gives a statement), [Listing] (what a statement
      lists), [Query] (inserts, selects and queries that do not parse, from their text to
      the file), [Modify] (deletes and updates, in a transaction and from
      their text to the file).
    - cmd/auroradb.go and db/cli.go: the client ([Cli]), with opening and closing a
      database by its path.

    ** How the parts meet

    In Go a tree has three closures that read, allocate and free pages; here they
    are the class [PageStore] ([BTree]), and [PageLaws] ([TreeRep]) is what the
    tree asks of them, with the number of operations a store still has room for.  The
    theorems on trees hold for every store with these laws.  There are three:
    pages in memory, [KV] with its free list ([kv_store], [kv_pages]), the pages
    of a pending transaction ([pending_store]); and [readable] for a store that is
    only read.  In the same way the operations of db/db.go use a transaction
    through the class [TxOps] ([Db]), and [TxLaws] and [TxDelLaws] ([Tables]) say
    what they rely on: [holds n tx m W] reads as: the transaction stands for the
    map [m], has written the keys [W] and has room for [n] more operations.
    [TxTable] shows that [KVTX] keeps them.  The JSON text of columns and definitions
    is behind [JsonVals] ([Schema]) and [JsonTable] ([Db]), whose law is that
    decoding gives back what was encoded; both have instances.  What the run
    time and the system choose in a query (the orders in which maps are iterated,
    which system calls fail, the capacities of slices) is the record [Env] of
    [Exec]; the theorems hold for every choice.

    ** What the theorems show

    - Refinement: a database is a finite map through [Set], [Get], commit and
      reopening ([KVStore.database_refines_map], [Tx.commit_correct]); the free list is a
      queue; a table with its indexes is a finite map of rows ([Tables.table_refines_map]); an insert, a
      delete and an update, from their texts, change the rows of the table in the file
      ([Query.insert_query], [Modify.delete_query], [Modify.update_query]); a session of the
      client runs its queries one after the other on the file ([Cli.session]).
    - Function: inserting, deleting and looking up in the tree and its nodes, the moves of an
      iterator, what a scanner lists, and what a select, a delete and an update list and do,
      on the primary index and on others.
    - Safety and errors: a failed commit and an abort restore the database;
      transactions read their own writes; the order of the key codec.
    - Termination and round trips: the parser ends on every input but for
      [create table], which does not without its primary clause; expressions, inserts
      and keys come back from their encodings; a scan from a key ends.
    - Where the code departs from what it means to do: pages reused too early, page
      numbers handed out twice after reopening, a shrunken tree that loses
      entries, conflicting commits that both succeed, scanners that miss or never find
      their start, syntax errors that panic, input that is lost.

    ** Bounds and fuel

    Recursion that Go leaves to the data has fuel here; [OutOfFuel] is not a
    behaviour of the program, and each use has a statement that some fuel is
    enough.  On a tree the height suffices ([h < fuel]), and an insertion raises it
    by one at most; a scan needs more than the number of keys; the parser needs the length of its
    input ([ParserFacts.PStmt_total]) except in [create table], which need not end;
    [getQueryInput] one more than the number of reads; doubling the memory map 64
    turns.  Where the code loops for ever the theorem says that no fuel is enough.
    Room for page operations is counted before use: an insertion into a tree of
    height [h] takes [3h+5] at most, a deletion [2h+2]; a database has room while
    its page numbers stay below [PAGE_LIMIT] = 2^49, where file offsets fit 64 bits.
    A deletion replaces a separator in the nodes above by the key that follows, and
    nothing splits a node that grows beyond its page by that: commits with deletions
    ask that no key after a deleted one, up to the next that stays, is longer
    ([TreeSpec.run_fits]).  A file
    that is opened again is at most 2^61 bytes long, which the doubling of the map covers.

    ** What is not modelled, and why

    The system calls themselves, the texts of error messages that nothing reads, and the drawing of
    tables by the client, which is a package of its own, with the two lines of its
    greeting.  [FileExists] and [NewTempFileLoc] of util.go, which nothing uses.  The
    types [DB] and [DBTX] hand on each call to the key-value store; [ExecuteQuery] makes these
    calls directly.  A failing write writes nothing: torn writes are not considered.
    A slice has no capacity beyond its length, except where an append can reach
    it: the buffer of the parser and the values of a record to insert. *)
From Stdlib Require Import ZArith Lia.
From stdpp Require Import base gmap list strings countable.
From coqutil Require Import Byte Word.LittleEndianList.

Declare Scope aurora_scope.
Delimit Scope aurora_scope with aurora.
Global Open Scope Z_scope.

(** ** Results of Go code

    A Go call ends in a value or takes the process down: by a run-time
    panic (index or slice out of range, nil dereference, integer division by
    zero), by an explicit [panic]/[log.Panicln], or by [log.Fatalf].  Nothing
    in the repository recovers from a panic.  [OutOfFuel] is not a behaviour
    of the program: it marks a bounded loop of the model that was given too
    small a bound, and termination theorems rule it out. *)

Inductive crash :=
  | IndexOutOfRange
  | NilDereference
  | DivideByZero
  | Panicked
  | FatalExit
  | OutOfFuel.

#[export] Instance crash_eq_dec : EqDecision crash.
Proof. solve_decision. Defined.

Inductive res (A : Type) :=
  | Ok (a : A)
  | Crash (c : crash).
Arguments Ok {_} _.
Arguments Crash {_} _.

#[export] Instance res_ret : MRet res := fun A a => Ok a.
#[export] Instance res_bind : MBind res := fun A B f m =>
  match m with Ok a => f a | Crash c => Crash c end.
#[export] Instance res_eq_dec {A} `{EqDecision A} : EqDecision (res A).
Proof. solve_decision. Defined.

(** [guard_else c b k]: go on with [k] when the run-time check [b] succeeds,
    crash with [c] otherwise. *)
Definition guard_else {A} (c : crash) (b : bool) (k : res A) : res A :=
  if b then k else Crash c.

Notation "'check' b 'or' c ';;' k" := (guard_else c b k)
  (at level 100, b at level 99, c at level 0, k at level 200, right associativity) : aurora_scope.
Open Scope aurora_scope.

(** A step that runs under a bound; used by the loops of the model. *)
Definition is_Ok {A} (m : res A) : Prop := exists a, m = Ok a.

Lemma bind_Ok {A B} (f : A -> res B) a : (Ok a ≫= f) = f a.
Proof. reflexivity. Qed.
Lemma bind_Crash {A B} (f : A -> res B) c : (Crash c ≫= f) = Crash c.
Proof. reflexivity. Qed.
Lemma bind_inv {A B} (m : res A) (f : A -> res B) b :
  (m ≫= f) = Ok b -> exists a, m = Ok a /\ f a = Ok b.
Proof. destruct m; cbn; [eauto | discriminate]. Qed.
Lemma bind_assoc {A B C} (m : res A) (f : A -> res B) (g : B -> res C) :
  ((m ≫= f) ≫= g) = (m ≫= fun a => f a ≫= g).
Proof. by destruct m. Qed.
Lemma guard_true {A} c (b : bool) (k : res A) : b = true -> guard_else c b k = k.
Proof. by intros ->. Qed.
Lemma guard_false {A} c (b : bool) (k : res A) : b = false -> guard_else c b k = Crash c.
Proof. by intros ->. Qed.
Lemma guard_inv {A} c (b : bool) (k : res A) a :
  guard_else c b k = Ok a -> b = true /\ k = Ok a.
Proof. destruct b; cbn; [done | discriminate]. Qed.

(** [rstep H] runs one bind of the goal whose first computation [H] evaluates;
    [rguard] passes a run-time check that [lia] can discharge. *)
Ltac rstep H := rewrite H; cbn [mbind res_bind mret res_ret].
Ltac bool_lia :=
  rewrite ?andb_true_iff, ?orb_true_iff, ?Z.leb_le, ?Z.ltb_lt, ?Z.eqb_eq; lia.
Ltac bool_to_prop :=
  rewrite ?andb_true_iff, ?orb_true_iff, ?Z.leb_le, ?Z.ltb_lt, ?Z.eqb_eq in *.
Ltac rguard := rewrite guard_true by bool_lia.
Ltac rinv H :=
  repeat match type of H with
  | (_ ≫= _) = Ok _ =>
      let a := fresh "a" in let E := fresh "E" in
      apply bind_inv in H as (a & E & H)
  | guard_else _ _ _ = Ok _ =>
      let E := fresh "E" in apply guard_inv in H as (E & H)
  end.

(** ** Machine integers

    An unsigned [w]-bit integer is a [Z] in [0, 2^w); the operations wrap.  A
    signed 64-bit integer is a [Z] in [-2^63, 2^63). *)

Definition u16 (z : Z) : Z := z mod 65536.
Definition u32 (z : Z) : Z := z mod 4294967296.
Definition u64 (z : Z) : Z := z mod 18446744073709551616.
Definition i64 (z : Z) : Z := (z + 9223372036854775808) mod 18446744073709551616 - 9223372036854775808.
Definition i32 (z : Z) : Z := (z + 2147483648) mod 4294967296 - 2147483648.

Definition in_u16 (z : Z) : Prop := 0 <= z < 65536.
Definition in_u64 (z : Z) : Prop := 0 <= z < 18446744073709551616.
Definition in_i64 (z : Z) : Prop := -9223372036854775808 <= z < 9223372036854775808.

Lemma u16_small z : in_u16 z -> u16 z = z.
Proof. apply Z.mod_small. Qed.
Lemma u32_small z : 0 <= z < 4294967296 -> u32 z = z.
Proof. apply Z.mod_small. Qed.
Lemma u64_small z : in_u64 z -> u64 z = z.
Proof. apply Z.mod_small. Qed.
Lemma i64_small z : in_i64 z -> i64 z = z.
Proof. unfold i64, in_i64. intros. rewrite Z.mod_small; lia. Qed.
Lemma u16_range z : in_u16 (u16 z).
Proof. apply Z.mod_pos_bound. lia. Qed.
Lemma u64_range z : in_u64 (u64 z).
Proof. apply Z.mod_pos_bound. lia. Qed.
Lemma i64_range z : in_i64 (i64 z).
Proof.
  unfold i64, in_i64.
  pose proof (Z.mod_pos_bound (z + 9223372036854775808) 18446744073709551616). lia.
Qed.

(** ** Bytes and byte slices

    A [[]byte] value is the list of its bytes.  The capacity of a slice is
    taken to be its length: re-slicing above the length crashes here, where Go
    would read on in the backing array (the well-formed values of the theorems
    never do). *)

Abbreviation bytes := (list Byte.byte).

#[export] Instance byte_eq_dec : EqDecision Byte.byte := Byte.byte_eq_dec.
#[export] Program Instance byte_countable : Countable Byte.byte :=
  inj_countable' (fun b => Byte.to_N b) (fun n => default Byte.x00 (Byte.of_N n)) _.
Next Obligation. intros b. cbn beta. by rewrite Byte.of_to_N. Qed.

Definition blen (b : bytes) : Z := Z.of_nat (length b).

(** [make([]byte, n)] *)
Definition make_bytes (n : Z) : bytes := replicate (Z.to_nat n) Byte.x00.

(** The [n] bytes of [b] from offset [i]; the bytes of [b] overwritten with
    [s] from offset [i]. *)
Definition bsub (b : bytes) (i n : Z) : bytes := take (Z.to_nat n) (drop (Z.to_nat i) b).
Definition bwrite (b : bytes) (i : Z) (s : bytes) : bytes :=
  take (Z.to_nat i) b ++ s ++ drop (Z.to_nat i + length s) b.

(** [b[i:]], [b[i:j]] and [b[i]] *)
Definition slice_from (b : bytes) (i : Z) : res bytes :=
  check (0 <=? i) && (i <=? blen b) or IndexOutOfRange;; Ok (drop (Z.to_nat i) b).
Definition slice (b : bytes) (i j : Z) : res bytes :=
  check (0 <=? i) && (i <=? j) && (j <=? blen b) or IndexOutOfRange;; Ok (bsub b i (j - i)).
Definition index {A} (l : list A) (i : Z) : res A :=
  check (0 <=? i) or IndexOutOfRange;;
  match l !! Z.to_nat i with Some a => Ok a | None => Crash IndexOutOfRange end.

(** [binary.LittleEndian.UintN(b[i:])], [PutUintN(b[i:], v)] and the
    big-endian ones, for an integer of [n] bytes. *)
Definition get_le (n : nat) (b : bytes) (i : Z) : res Z :=
  check (0 <=? i) && (i + Z.of_nat n <=? blen b) or IndexOutOfRange;;
  Ok (le_combine (bsub b i (Z.of_nat n))).
Definition put_le (n : nat) (b : bytes) (i v : Z) : res bytes :=
  check (0 <=? i) && (i + Z.of_nat n <=? blen b) or IndexOutOfRange;;
  Ok (bwrite b i (le_split n v)).
Definition be_split (n : nat) (v : Z) : bytes := rev (le_split n v).
Definition be_combine (b : bytes) : Z := le_combine (rev b).

(** [copy(b[i:], s)] *)
Definition copy_at (b : bytes) (i : Z) (s : bytes) : res bytes :=
  check (0 <=? i) && (i <=? blen b) or IndexOutOfRange;;
  Ok (bwrite b i (take (Z.to_nat (blen b - i)) s)).

(** [bytes.Compare] as a [comparison]; Go's -1, 0, 1 is [Compare]. *)
Fixpoint bcmp (a b : bytes) : comparison :=
  match a, b with
  | [], [] => Eq
  | [], _ :: _ => Lt
  | _ :: _, [] => Gt
  | x :: a', y :: b' =>
      match Z.compare (byte.unsigned x) (byte.unsigned y) with
      | Eq => bcmp a' b'
      | c => c
      end
  end.
Definition Compare (a b : bytes) : Z :=
  match bcmp a b with Lt => -1 | Eq => 0 | Gt => 1 end.
Definition blt (a b : bytes) : Prop := bcmp a b = Lt.
Definition ble (a b : bytes) : Prop := bcmp a b <> Gt.

#[export] Instance blt_dec a b : Decision (blt a b).
Proof. unfold blt. apply _. Defined.
#[export] Instance ble_dec a b : Decision (ble a b).
Proof. unfold ble. apply _. Defined.

(** *** Reading back what was written *)

Lemma blen_nonneg b : 0 <= blen b.
Proof. unfold blen. lia. Qed.
Lemma blen_app a b : blen (a ++ b) = blen a + blen b.
Proof. unfold blen. rewrite length_app. lia. Qed.
Lemma blen_nil : blen [] = 0.
Proof. reflexivity. Qed.
Lemma blen_make n : 0 <= n -> blen (make_bytes n) = n.
Proof. intros. unfold blen, make_bytes. rewrite length_replicate. lia. Qed.
Lemma blen_le_split n v : blen (le_split n v) = Z.of_nat n.
Proof. unfold blen. by rewrite length_le_split. Qed.
Lemma blen_bsub b i n : 0 <= i -> 0 <= n -> i + n <= blen b -> blen (bsub b i n) = n.
Proof. unfold blen, bsub. intros. rewrite length_take, length_drop. lia. Qed.
Lemma blen_bwrite b i s : 0 <= i -> i + blen s <= blen b -> blen (bwrite b i s) = blen b.
Proof. unfold blen, bwrite. intros. rewrite !length_app, length_take, length_drop. lia. Qed.

Lemma lookup_bsub b i n (k : nat) :
  bsub b i n !! k = if decide (Z.of_nat k < n) then b !! (Z.to_nat i + k)%nat else None.
Proof.
  unfold bsub. case_decide.
  - rewrite lookup_take_lt by lia. by rewrite lookup_drop.
  - apply lookup_take_ge. lia.
Qed.
Lemma lookup_bwrite b i s (k : nat) : 0 <= i -> i + blen s <= blen b ->
  bwrite b i s !! k =
    if decide (Z.of_nat k < i) then b !! k
    else if decide (Z.of_nat k < i + blen s) then s !! (k - Z.to_nat i)%nat
    else b !! k.
Proof.
  unfold blen, bwrite. intros Hi Hl. repeat case_decide.
  - rewrite lookup_app_l by (rewrite length_take; lia). rewrite lookup_take_lt by lia. done.
  - rewrite lookup_app_r by (rewrite length_take; lia).
    rewrite length_take, Nat.min_l by lia. rewrite lookup_app_l by lia. done.
  - rewrite lookup_app_r by (rewrite length_take; lia).
    rewrite length_take, Nat.min_l by lia. rewrite lookup_app_r by lia.
    rewrite lookup_drop. f_equal. lia.
Qed.

Lemma bsub_bwrite_same b i s : 0 <= i -> i + blen s <= blen b -> bsub (bwrite b i s) i (blen s) = s.
Proof.
  intros. apply list_eq. intros k. rewrite lookup_bsub. case_decide.
  - rewrite lookup_bwrite by lia. repeat case_decide; try lia. f_equal. lia.
  - symmetry. apply lookup_ge_None. unfold blen in *. lia.
Qed.
Lemma bsub_bwrite_disjoint b i s j n : 0 <= i -> i + blen s <= blen b -> 0 <= j ->
  j + n <= i \/ i + blen s <= j -> bsub (bwrite b i s) j n = bsub b j n.
Proof.
  intros. apply list_eq. intros k. rewrite !lookup_bsub. case_decide; [|done].
  rewrite lookup_bwrite by lia. repeat case_decide; try done; lia.
Qed.
Lemma bsub_app b i m n : 0 <= i -> 0 <= m -> 0 <= n ->
  bsub b i (m + n) = bsub b i m ++ bsub b (i + m) n.
Proof.
  intros. unfold bsub. rewrite Z2Nat.inj_add by lia.
  rewrite <- take_take_drop, drop_drop. do 3 f_equal. lia.
Qed.
Lemma bsub_bsub b i m j n : 0 <= i -> 0 <= j -> 0 <= n -> j + n <= m ->
  bsub (bsub b i m) j n = bsub b (i + j) n.
Proof.
  intros. apply list_eq. intros k. rewrite !lookup_bsub. case_decide; [|done].
  case_decide; [|lia]. f_equal. lia.
Qed.
Lemma bsub_0 b i : bsub b i 0 = [].
Proof. reflexivity. Qed.
Lemma bsub_all b : bsub b 0 (blen b) = b.
Proof. unfold bsub, blen. cbn. rewrite Nat2Z.id. apply firstn_all. Qed.
Lemma bwrite_nil b i : bwrite b i [] = b.
Proof. unfold bwrite. cbn. rewrite Nat.add_0_r. apply take_drop. Qed.

Lemma bsub_inside b b' i n j m : 0 <= i -> 0 <= m -> i <= j -> j + m <= i + n ->
  bsub b i n = bsub b' i n -> bsub b j m = bsub b' j m.
Proof.
  intros ? ? ? ? H.
  replace j with (i + (j - i)) by lia.
  rewrite <- (bsub_bsub b i n), <- (bsub_bsub b' i n) by lia. by rewrite H.
Qed.

(** *** Fixed-width integers in a byte string *)

Lemma get_le_Ok n b i : 0 <= i -> i + Z.of_nat n <= blen b ->
  get_le n b i = Ok (le_combine (bsub b i (Z.of_nat n))).
Proof. intros. unfold get_le. by rguard. Qed.
Lemma put_le_Ok n b i v : 0 <= i -> i + Z.of_nat n <= blen b ->
  put_le n b i v = Ok (bwrite b i (le_split n v)).
Proof. intros. unfold put_le. by rguard. Qed.
Lemma copy_at_Ok b i s : 0 <= i -> i + blen s <= blen b -> copy_at b i s = Ok (bwrite b i s).
Proof.
  intros Hi Hs. pose proof (blen_nonneg s). unfold copy_at. rguard.
  do 2 f_equal. apply take_ge. unfold blen in *. lia.
Qed.
Lemma slice_from_Ok b i : 0 <= i <= blen b -> slice_from b i = Ok (drop (Z.to_nat i) b).
Proof. intros. unfold slice_from. by rguard. Qed.
Lemma slice_Ok b i j : 0 <= i -> i <= j -> j <= blen b -> slice b i j = Ok (bsub b i (j - i)).
Proof. intros. unfold slice. by rguard. Qed.
Lemma index_Ok {A} (l : list A) (i : nat) x : l !! i = Some x -> index l (Z.of_nat i) = Ok x.
Proof. intros H. unfold index. rguard. by rewrite Nat2Z.id, H. Qed.
Lemma index_out {A} (l : list A) (i : nat) : (length l <= i)%nat ->
  index l (Z.of_nat i) = Crash IndexOutOfRange.
Proof. intros H. unfold index. rguard. by rewrite Nat2Z.id, lookup_ge_None_2. Qed.

Lemma le_combine_split_small n v : 0 <= v < 2 ^ (8 * Z.of_nat n) -> le_combine (le_split n v) = v.
Proof. intros. rewrite le_combine_split. apply Z.mod_small. by rewrite Z.mul_comm. Qed.
Lemma le_split_combine_len n b : length b = n -> le_split n (le_combine b) = b.
Proof. intros <-. apply split_le_combine. Qed.

Lemma get_put_le_same n b i v : 0 <= i -> i + Z.of_nat n <= blen b ->
  0 <= v < 2 ^ (8 * Z.of_nat n) -> get_le n (bwrite b i (le_split n v)) i = Ok v.
Proof.
  intros. rewrite get_le_Ok; [|lia|rewrite blen_bwrite; rewrite ?blen_le_split; lia].
  f_equal. replace (Z.of_nat n) with (blen (le_split n v)) by apply blen_le_split.
  rewrite bsub_bwrite_same by (rewrite ?blen_le_split; lia). by apply le_combine_split_small.
Qed.
Lemma get_le_bwrite_disjoint n b i s j : 0 <= i -> i + blen s <= blen b -> 0 <= j ->
  j + Z.of_nat n <= i \/ i + blen s <= j -> get_le n (bwrite b i s) j = get_le n b j.
Proof.
  intros. unfold get_le. rewrite blen_bwrite by lia. by rewrite bsub_bwrite_disjoint by lia.
Qed.
Lemma get_le_app_l n a b i : 0 <= i -> i + Z.of_nat n <= blen a -> get_le n (a ++ b) i = get_le n a i.
Proof.
  intros. pose proof (blen_nonneg b).
  rewrite !get_le_Ok by (rewrite ?blen_app; lia). do 2 f_equal.
  unfold bsub, blen in *. rewrite drop_app_le by lia. apply take_app_le.
  rewrite length_drop. lia.
Qed.
Lemma get_le_range n b i v : get_le n b i = Ok v -> 0 <= v < 2 ^ (8 * Z.of_nat n).
Proof.
  unfold get_le. intros H. rinv H. injection H as <-.
  pose proof (le_combine_bound (bsub b i (Z.of_nat n))).
  assert (Hl : Z.of_nat (length (bsub b i (Z.of_nat n))) = Z.of_nat n)
    by (apply blen_bsub; bool_to_prop; lia).
  by rewrite Hl in *.
Qed.
Lemma get_le_eq n b b' i : blen b = blen b' ->
  bsub b i (Z.of_nat n) = bsub b' i (Z.of_nat n) -> get_le n b i = get_le n b' i.
Proof. intros Hl Hs. unfold get_le. by rewrite Hl, Hs. Qed.

Lemma blen_be_split n v : blen (be_split n v) = Z.of_nat n.
Proof. unfold blen, be_split. by rewrite length_rev, length_le_split. Qed.
Lemma be_combine_split n v : 0 <= v < 2 ^ (8 * Z.of_nat n) -> be_combine (be_split n v) = v.
Proof. intros. unfold be_combine, be_split. rewrite rev_involutive. by apply le_combine_split_small. Qed.

Lemma le_split_snoc n v :
  le_split (S n) v = le_split n v ++ [byte.of_Z (Z.shiftr v (8 * Z.of_nat n))].
Proof.
  revert v; induction n as [|n IH]; intros v; [reflexivity|].
  change (le_split (S (S n)) v) with (byte.of_Z v :: le_split (S n) (Z.shiftr v 8)).
  rewrite IH. rewrite Z.shiftr_shiftr by lia.
  change (le_split (S n) v) with (byte.of_Z v :: le_split n (Z.shiftr v 8)). cbn [app].
  by replace (8 + 8 * Z.of_nat n) with (8 * Z.of_nat (S n)) by lia.
Qed.
Lemma be_split_S n v :
  be_split (S n) v = byte.of_Z (Z.shiftr v (8 * Z.of_nat n)) :: be_split n v.
Proof. unfold be_split. rewrite le_split_snoc, rev_unit. done. Qed.

(** *** The order of byte strings *)

Lemma bcmp_refl a : bcmp a a = Eq.
Proof. induction a as [|x a IH]; cbn; [done|]. by rewrite Z.compare_refl. Qed.
Lemma bcmp_eq a b : bcmp a b = Eq <-> a = b.
Proof.
  split; [|intros ->; apply bcmp_refl].
  revert b; induction a as [|x a IH]; intros [|y b]; cbn; try done.
  destruct (Z.compare_spec (byte.unsigned x) (byte.unsigned y)) as [E| |]; try done.
  intros H. f_equal; [by apply byte.unsigned_inj | by apply IH].
Qed.
Lemma bcmp_antisym a b : bcmp b a = CompOpp (bcmp a b).
Proof.
  revert b; induction a as [|x a IH]; intros [|y b]; cbn; try done.
  rewrite Z.compare_antisym. by destruct (Z.compare (byte.unsigned x) (byte.unsigned y)); cbn.
Qed.
Lemma blt_trans a b c : blt a b -> blt b c -> blt a c.
Proof.
  unfold blt. revert b c; induction a as [|x a IH]; intros [|y b] [|z c]; cbn; try done.
  destruct (Z.compare_spec (byte.unsigned x) (byte.unsigned y)),
    (Z.compare_spec (byte.unsigned y) (byte.unsigned z)),
    (Z.compare_spec (byte.unsigned x) (byte.unsigned z)); try done; try lia. apply IH.
Qed.
Lemma blt_irrefl a : ~ blt a a.
Proof. unfold blt. by rewrite bcmp_refl. Qed.
Lemma ble_lt_eq a b : ble a b <-> blt a b \/ a = b.
Proof.
  unfold ble, blt. destruct (bcmp a b) eqn:E; split; intros H; try done; eauto.
  - right. by apply bcmp_eq.
  - destruct H as [H| ->]; [done|]. by rewrite bcmp_refl in E.
Qed.
Lemma not_ble_lt a b : ~ ble a b <-> blt b a.
Proof.
  unfold ble, blt. rewrite (bcmp_antisym a b).
  destruct (bcmp a b); cbn; split; intros H; try done; [by destruct H..| by intros []].
Qed.
Lemma blt_ble a b : blt a b -> ble a b.
Proof. rewrite ble_lt_eq. auto. Qed.
Lemma ble_refl a : ble a a.
Proof. rewrite ble_lt_eq. auto. Qed.
Lemma ble_lt_trans a b c : ble a b -> blt b c -> blt a c.
Proof. rewrite ble_lt_eq. intros [?| ->]; eauto using blt_trans. Qed.
Lemma blt_le_trans a b c : blt a b -> ble b c -> blt a c.
Proof. rewrite ble_lt_eq. intros ? [?| <-]; eauto using blt_trans. Qed.

Lemma blt_total a b : blt a b \/ a = b \/ blt b a.
Proof. unfold blt. rewrite (bcmp_antisym a b), <- (bcmp_eq a b). destruct (bcmp a b); cbn; auto. Qed.
Lemma blt_ne a b : blt a b -> a <> b.
Proof. intros H ->. by apply blt_irrefl in H. Qed.
Lemma blt_asym a b : blt a b -> ~ blt b a.
Proof. intros H1 H2. apply (blt_irrefl a). by eapply blt_trans. Qed.
#[export] Instance blt_transitive : Transitive blt.
Proof. intros a b c. apply blt_trans. Qed.
#[export] Instance blt_irreflexive : Irreflexive blt.
Proof. intros a H. by apply blt_irrefl in H. Qed.
#[export] Instance ble_preorder : PreOrder ble.
Proof.
  split; [intros a; apply ble_refl|]. intros a b c H1 H2. apply ble_lt_eq in H1 as [H1| ->]; [|done].
  apply blt_ble. by eapply blt_le_trans.
Qed.
(** The order facts that close most goals about keys. *)
Create HintDb key_order discriminated.
#[export] Hint Resolve blt_trans blt_ble ble_refl blt_le_trans ble_lt_trans blt_ne : key_order.

Lemma Compare_lt a b : Compare a b < 0 <-> blt a b.
Proof. unfold Compare, blt. destruct (bcmp a b); split; intros; try done; lia. Qed.
Lemma Compare_eq a b : Compare a b = 0 <-> a = b.
Proof. unfold Compare. rewrite <- bcmp_eq. destruct (bcmp a b); split; intros; try done; lia. Qed.

(** Comparison of concatenations: equal-length heads decide first. *)
Lemma bcmp_app a a' b b' : length a = length b ->
  bcmp (a ++ a') (b ++ b') = match bcmp a b with Eq => bcmp a' b' | c => c end.
Proof.
  revert b; induction a as [|x a IH]; intros [|y b]; cbn; try done.
  intros [= H]. destruct (Z.compare _ _); [by apply IH|done|done].
Qed.

(** Big-endian strings of one width are ordered as the integers they stand for. *)
Lemma bcmp_be_split n x y : 0 <= x < 2 ^ (8 * Z.of_nat n) -> 0 <= y < 2 ^ (8 * Z.of_nat n) ->
  bcmp (be_split n x) (be_split n y) = Z.compare x y.
Proof.
  revert x y; induction n as [|n IH]; intros x y Hx Hy.
  { change (2 ^ (8 * Z.of_nat 0)) with 1 in *. replace x with 0 by lia. by replace y with 0 by lia. }
  rewrite !be_split_S. cbn [bcmp].
  set (p := 2 ^ (8 * Z.of_nat n)) in *.
  assert (Hp : 0 < p) by (apply Z.pow_pos_nonneg; lia).
  assert (E : 2 ^ (8 * Z.of_nat (S n)) = p * 256).
  { replace (8 * Z.of_nat (S n)) with (8 * Z.of_nat n + 8) by lia. by rewrite Z.pow_add_r by lia. }
  rewrite E in *. rewrite !Z.shiftr_div_pow2, !byte.unsigned_of_Z by lia. fold p.
  unfold byte.wrap. change (2 ^ 8) with 256.
  pose proof (Z.div_pos x p). pose proof (Z.div_pos y p).
  pose proof (Z.div_lt_upper_bound x p 256). pose proof (Z.div_lt_upper_bound y p 256).
  rewrite !Z.mod_small by lia.
  assert (Hlow : forall z, be_split n z = be_split n (z mod p)).
  { intros z. unfold be_split. f_equal. rewrite le_split_mod. do 2 f_equal. unfold p. f_equal. lia. }
  rewrite (Hlow x), (Hlow y), IH by (apply Z.mod_pos_bound; lia).
  pose proof (Z.div_mod x p). pose proof (Z.div_mod y p).
  pose proof (Z.mod_pos_bound x p Hp). pose proof (Z.mod_pos_bound y p Hp).
  destruct (Z.compare_spec (x / p) (y / p)), (Z.compare_spec (x mod p) (y mod p)),
    (Z.compare_spec x y); try done; nia.
Qed.

(** ** Go strings

    A Go [string] is its bytes; a literal is written [gostr "..."]. *)
Definition gostr (s : string) : bytes := String.list_byte_of_string s.

(** [l[:n]] and [l[n:]] on a slice of any element type. *)
Definition slice_to {A} (l : list A) (n : Z) : res (list A) :=
  check (0 <=? n) && (n <=? Z.of_nat (length l)) or IndexOutOfRange;; Ok (take (Z.to_nat n) l).
Definition slice_after {A} (l : list A) (n : Z) : res (list A) :=
  check (0 <=? n) && (n <=? Z.of_nat (length l)) or IndexOutOfRange;; Ok (drop (Z.to_nat n) l).

Lemma slice_to_Ok {A} (l : list A) (n : nat) : (n <= length l)%nat ->
  slice_to l (Z.of_nat n) = Ok (take n l).
Proof. intros. unfold slice_to. rguard. by rewrite Nat2Z.id. Qed.
Lemma slice_after_Ok {A} (l : list A) (n : nat) : (n <= length l)%nat ->
  slice_after l (Z.of_nat n) = Ok (drop n l).
Proof. intros. unfold slice_after. rguard. by rewrite Nat2Z.id. Qed.

(** Loops over a slice whose body can crash. *)
Section Loops.
Context {A S : Type}.
Fixpoint foldM (f : S -> A -> res S) (s : S) (l : list A) : res S :=
  match l with
  | [] => Ok s
  | a :: l' => s' ← f s a; foldM f s' l'
  end.
Lemma foldM_app f s l1 l2 : foldM f s (l1 ++ l2) = (s' ← foldM f s l1; foldM f s' l2).
Proof.
  revert s; induction l1 as [|a l1 IH]; intros s; cbn; [done|].
  destruct (f s a); cbn; [apply IH|done].
Qed.
End Loops.

(** ** Regions of a byte string

    [holds b i r]: the bytes [r] are in [b] at offset [i]. *)
Definition holds (b : bytes) (i : Z) (r : bytes) : Prop :=
  0 <= i /\ i + blen r <= blen b /\ bsub b i (blen r) = r.

Lemma holds_app b i r s : holds b i (r ++ s) <-> holds b i r /\ holds b (i + blen r) s.
Proof.
  pose proof (blen_nonneg r). pose proof (blen_nonneg s). unfold holds.
  rewrite blen_app. split.
  - intros (Hi & Hl & E). rewrite bsub_app in E by lia.
    apply app_inj_1 in E as [E1 E2].
    2:{ apply Nat2Z.inj. change (blen (bsub b i (blen r)) = blen r). by rewrite blen_bsub by lia. }
    repeat split; try lia; done.
  - intros [(Hi & Hl & E1) (Hi' & Hl' & E2)]. repeat split; try lia.
    rewrite bsub_app by lia. by rewrite E1, E2.
Qed.
Lemma holds_nil b i : 0 <= i <= blen b -> holds b i [].
Proof. intros. unfold holds. rewrite blen_nil. repeat split; try lia. Qed.
Lemma holds_bwrite_same b i r : 0 <= i -> i + blen r <= blen b -> holds (bwrite b i r) i r.
Proof.
  intros. unfold holds. rewrite blen_bwrite by lia. repeat split; try lia.
  by apply bsub_bwrite_same.
Qed.
Lemma holds_bwrite_disjoint b i r j s : 0 <= i -> i + blen r <= blen b ->
  j + blen s <= i \/ i + blen r <= j -> holds b j s -> holds (bwrite b i r) j s.
Proof.
  intros ? ? ? (Hj & Hl & E). unfold holds. rewrite blen_bwrite by lia.
  repeat split; try lia. by rewrite bsub_bwrite_disjoint by lia.
Qed.
Lemma holds_sub b i r j n : holds b i r -> 0 <= j -> 0 <= n -> j + n <= blen r ->
  bsub b (i + j) n = bsub r j n.
Proof. intros (Hi & Hl & E) ? ? ?. rewrite <- E. by rewrite bsub_bsub by lia. Qed.
Lemma holds_get_le b i n v : holds b i (le_split n v) -> 0 <= v < 2 ^ (8 * Z.of_nat n) ->
  get_le n b i = Ok v.
Proof.
  intros (Hi & Hl & E) Hv. rewrite blen_le_split in *. rewrite get_le_Ok by lia.
  rewrite E. f_equal. by apply le_combine_split_small.
Qed.
Lemma get_le_holds b i n v : get_le n b i = Ok v -> holds b i (le_split n v).
Proof.
  unfold get_le. intros H. rinv H. bool_to_prop. injection H as <-.
  assert (Hl : length (bsub b i (Z.of_nat n)) = n) by (apply Nat2Z.inj; apply blen_bsub; lia).
  unfold holds. rewrite blen_le_split. repeat split; try lia.
  symmetry. by apply le_split_combine_len.
Qed.
Lemma holds_slice b i r : holds b i r -> slice b i (i + blen r) = Ok r.
Proof.
  intros (Hi & Hl & E). pose proof (blen_nonneg r). rewrite slice_Ok by lia.
  f_equal. by rewrite Z.add_simpl_l.
Qed.

Lemma bwrite_bwrite_app b i r s : 0 <= i -> i + blen r + blen s <= blen b ->
  bwrite (bwrite b i r) (i + blen r) s = bwrite b i (r ++ s).
Proof.
  intros Hi Hl. pose proof (blen_nonneg r). pose proof (blen_nonneg s).
  apply list_eq. intros k.
  rewrite (lookup_bwrite (bwrite b i r)) by (rewrite ?blen_bwrite; lia).
  rewrite !lookup_bwrite by (rewrite ?blen_app; lia). rewrite blen_app.
  repeat case_decide; try lia; try done.
  - by rewrite lookup_app_l by (unfold blen in *; lia).
  - rewrite lookup_app_r by (unfold blen in *; lia). f_equal. unfold blen in *. lia.
Qed.

(** A loop that writes consecutive fixed-width integers is one write of their
    concatenation. *)
Lemma foldM_put (P : bytes -> Prop) w (body : bytes -> nat -> res bytes) base (vs : list Z) (s : nat) b :
  P b -> 0 <= base -> base + Z.of_nat w * Z.of_nat (length vs) <= blen b ->
  (forall b' i v, P b' -> blen b' = blen b -> vs !! i = Some v ->
     let b'' := bwrite b' (base + Z.of_nat w * Z.of_nat i) (le_split w v) in
     body b' (s + i)%nat = Ok b'' /\ P b'') ->
  let b' := bwrite b base (concat (map (le_split w) vs)) in
  foldM body b (seq s (length vs)) = Ok b' /\ P b'.
Proof.
  intros HP Hb Hl Hbody.
  assert (Hlen : forall us, blen (concat (map (le_split w) us)) = Z.of_nat w * Z.of_nat (length us)).
  { induction us as [|u us IH]; cbn; [unfold blen; cbn; lia|].
    rewrite blen_app, blen_le_split, IH. lia. }
  induction vs as [|v vs IH] using rev_ind; cbn.
  { rewrite bwrite_nil. done. }
  rewrite length_app in *. cbn [length] in *.
  destruct IH as [IH1 IH2].
  { lia. }
  { intros b' i u HPb Hlb Hi. apply Hbody; [done..|].
    rewrite lookup_app_l; [done|by eapply lookup_lt_Some]. }
  rewrite Nat.add_1_r, seq_S, foldM_app. rstep IH1. cbn [foldM].
  destruct (Hbody _ (length vs) v IH2) as [E1 E2].
  { rewrite blen_bwrite by (rewrite ?Hlen; lia). done. }
  { by rewrite lookup_app_r, Nat.sub_diag. }
  rstep E1. rewrite map_app, concat_app. cbn [map concat]. rewrite app_nil_r.
  rewrite <- (Hlen vs), bwrite_bwrite_app in * by (rewrite ?blen_le_split, ?Hlen in *; lia).
  done.
Qed.

(** ** Lists *)

Lemma list_filter_all {A} (P : A -> Prop) `{!forall x, Decision (P x)} l :
  Forall P l -> filter P l = l.
Proof. induction 1; [done|]. rewrite filter_cons_True by done. by f_equal. Qed.
Lemma list_filter_none {A} (P : A -> Prop) `{!forall x, Decision (P x)} l :
  Forall (fun x => ~ P x) l -> filter P l = [].
Proof. induction 1; [done|]. by rewrite filter_cons_False. Qed.
Lemma list_filter_ext {A} (P Q : A -> Prop) `{!forall x, Decision (P x), !forall x, Decision (Q x)} (l : list A) :
  (forall x, x ∈ l -> P x <-> Q x) -> filter P l = filter Q l.
Proof.
  induction l as [|x l IH]; intros HPQ; [done|]. rewrite !filter_cons, IH by (intros y Hy; apply HPQ; by right).
  pose proof (HPQ x ltac:(by left)). by repeat case_decide; tauto || done.
Qed.
