(* ===== verification/KVList.v ===== *)
(** * Sorted key-value lists

    The reference implementation of a map from byte strings to byte strings:
    insertion, removal and lookup on lists sorted by key, their laws over
    concatenation (what a B+tree uses), and the finite map they stand for. *)
From Stdlib Require Import ZArith Lia Sorted.
From stdpp Require Import base gmap list strings countable sorting.
From coqutil Require Import Byte.
From S2P Require Import Prelude.

Abbreviation kvl := (list (bytes * bytes)).
Definition kv_sorted (l : kvl) : Prop := StronglySorted blt l.*1.
Fixpoint kv_insert (key val : bytes) (l : kvl) : kvl :=
  match l with
  | [] => [(key, val)]
  | (k, v) :: l' => if decide (key = k) then (key, val) :: l'
                    else if bool_decide (blt key k) then (key, val) :: l else (k, v) :: kv_insert key val l'
  end.
Definition kv_remove (key : bytes) (l : kvl) : kvl := filter (fun kv => kv.1 <> key) l.
Fixpoint kv_get (key : bytes) (l : kvl) : option bytes :=
  match l with
  | [] => None
  | (k, v) :: l' => if decide (k = key) then Some v else kv_get key l'
  end.
Definition kv_map (l : kvl) : gmap bytes bytes := list_to_map l.

(** All keys of [l] are below, above [key]. *)
Definition keys_lt (l : kvl) (key : bytes) : Prop := Forall (fun kv => blt kv.1 key) l.
Definition keys_gt (key : bytes) (l : kvl) : Prop := Forall (fun kv => blt key kv.1) l.

Lemma keys_lt_trans l a b : keys_lt l a -> ble a b -> keys_lt l b.
Proof. intros H Hab. eapply list.Forall_impl; [exact H|]. cbn. intros kv Hk. eauto with key_order. Qed.
Lemma keys_gt_trans l a b : keys_gt b l -> ble a b -> keys_gt a l.
Proof. intros H Hab. eapply list.Forall_impl; [exact H|]. cbn. intros kv Hk. eauto with key_order. Qed.
#[export] Hint Resolve keys_lt_trans keys_gt_trans : key_order.

Lemma kv_sorted_nil : kv_sorted [].
Proof. constructor. Qed.
Lemma kv_sorted_cons k v l : kv_sorted ((k, v) :: l) <-> keys_gt k l /\ kv_sorted l.
Proof.
  unfold kv_sorted, keys_gt. cbn. rewrite StronglySorted_cons, list.Forall_fmap. cbn. done.
Qed.
Lemma kv_sorted_app l1 l2 : kv_sorted (l1 ++ l2) <->
  kv_sorted l1 /\ kv_sorted l2 /\ Forall (fun kv => keys_gt kv.1 l2) l1.
Proof.
  unfold kv_sorted. rewrite fmap_app, StronglySorted_app. unfold keys_gt. setoid_rewrite list_elem_of_fmap. split.
  - intros (H & H1 & H2). split; [done|]. split; [done|]. rewrite list.Forall_forall. intros x Hx.
    rewrite list.Forall_forall. intros y Hy. apply H; by eexists.
  - intros (H1 & H2 & H). split; [|done]. intros ? ? (x & -> & Hx) (y & -> & Hy). rewrite list.Forall_forall in H.
    specialize (H x Hx). rewrite list.Forall_forall in H. by apply H.
Qed.
Lemma kv_sorted_head k l : head l.*1 = Some k -> kv_sorted l -> Forall (fun kv => ble k kv.1) l.
Proof.
  destruct l as [|[k' v] l]; [done|]. cbn. intros [= ->] [H _]%kv_sorted_cons. constructor; [apply ble_refl|].
  eapply list.Forall_impl; [exact H|]. eauto with key_order.
Qed.

(** ** The operations over concatenation *)

Lemma kv_insert_skip l1 l2 k v : keys_lt l1 k -> kv_insert k v (l1 ++ l2) = l1 ++ kv_insert k v l2.
Proof.
  induction 1 as [|[k' v'] l1 H _ IH]; [done|]. cbn in *. rewrite decide_False by (intros ->; by apply blt_irrefl in H).
  rewrite bool_decide_false by by apply blt_asym. by rewrite IH.
Qed.
Lemma kv_insert_before l1 l2 k v : keys_gt k l2 -> kv_insert k v (l1 ++ l2) = kv_insert k v l1 ++ l2.
Proof.
  intros H. induction l1 as [|[k' v'] l1 IH]; cbn.
  - destruct l2 as [|[k' v'] l2]; [done|]. apply list.Forall_cons in H as [H _]. cbn in *.
    rewrite decide_False by (intros ->; by apply blt_irrefl in H). by rewrite bool_decide_true.
  - case_decide; [done|]. case_bool_decide; [done|]. cbn. by rewrite IH.
Qed.
Lemma kv_insert_hit k v v' l : kv_insert k v ((k, v') :: l) = (k, v) :: l.
Proof. cbn. by rewrite decide_True. Qed.
Lemma kv_insert_head k v l : keys_gt k l -> kv_insert k v l = (k, v) :: l.
Proof. apply (kv_insert_before []). Qed.
Lemma kv_insert_ne k v l : kv_insert k v l <> [].
Proof. destruct l as [|[k' v'] l]; cbn; [done|]. repeat case_match; done. Qed.

Lemma kv_get_skip l1 l2 k : keys_lt l1 k -> kv_get k (l1 ++ l2) = kv_get k l2.
Proof.
  induction 1 as [|[k' v'] l1 H _ IH]; [done|]. cbn in *. by rewrite decide_False by (intros ->; by apply blt_irrefl in H).
Qed.
Lemma kv_get_above k l : keys_gt k l -> kv_get k l = None.
Proof.
  induction 1 as [|[k' v'] l H _ IH]; [done|]. cbn in *. by rewrite decide_False by (intros ->; by apply blt_irrefl in H).
Qed.
Lemma kv_get_before l1 l2 k : keys_gt k l2 -> kv_get k (l1 ++ l2) = kv_get k l1.
Proof.
  intros H. induction l1 as [|[k' v'] l1 IH]; cbn; [by apply kv_get_above|]. by case_decide.
Qed.

Lemma kv_remove_app l1 l2 k : kv_remove k (l1 ++ l2) = kv_remove k l1 ++ kv_remove k l2.
Proof. apply filter_app. Qed.
Lemma kv_remove_lt l k : keys_lt l k -> kv_remove k l = l.
Proof.
  intros H. apply list_filter_all. eapply list.Forall_impl; [exact H|]. cbn. eauto with key_order.
Qed.
Lemma kv_remove_gt l k : keys_gt k l -> kv_remove k l = l.
Proof.
  intros H. apply list_filter_all. eapply list.Forall_impl; [exact H|]. cbn. intros kv Hk E. subst k.
  by apply blt_irrefl in Hk.
Qed.
Lemma kv_remove_hit k v l : keys_gt k l -> kv_remove k ((k, v) :: l) = l.
Proof.
  intros H. unfold kv_remove. rewrite filter_cons_False by (cbn; naive_solver). by apply kv_remove_gt.
Qed.

Lemma kv_remove_none k l : kv_get k l = None -> kv_remove k l = l.
Proof.
  induction l as [|[k' v'] l IH]; [done|]. cbn [kv_get]. case_decide as Hk; [done|]. intros H. unfold kv_remove in *.
  rewrite filter_cons_True by (cbn; naive_solver). by rewrite IH.
Qed.

(** ** Sortedness is kept *)

Lemma keys_gt_insert a k v l : keys_gt a l -> blt a k -> keys_gt a (kv_insert k v l).
Proof.
  intros H Hk. induction H as [|[k' v'] l H H' IH]; cbn; [by apply list.Forall_singleton|].
  case_decide; [by constructor|]. case_bool_decide; constructor; try done. by constructor.
Qed.
Lemma kv_insert_sorted k v l : kv_sorted l -> kv_sorted (kv_insert k v l).
Proof.
  induction l as [|[k' v'] l IH]; intros H; cbn; [apply kv_sorted_cons; by repeat constructor|].
  apply kv_sorted_cons in H as [H1 H2]. case_decide as Hk; [subst; by apply kv_sorted_cons|].
  case_bool_decide as Hlt; apply kv_sorted_cons.
  - split; [|by apply kv_sorted_cons]. constructor; [done|]. change (keys_gt k l). eauto with key_order.
  - split; [|by apply IH]. apply keys_gt_insert; [done|]. by destruct (blt_total k k') as [?|[?|?]].
Qed.
Lemma kv_remove_sorted k l : kv_sorted l -> kv_sorted (kv_remove k l).
Proof.
  induction l as [|[k' v'] l IH]; intros H; [done|]. apply kv_sorted_cons in H as [H1 H2].
  unfold kv_remove. rewrite filter_cons. case_decide; [|by apply IH]. apply kv_sorted_cons.
  split; [|by apply IH]. unfold keys_gt in *. rewrite list.Forall_forall in *. intros x [_ Hx]%list_elem_of_filter.
  by apply H1.
Qed.

(** ** The map *)

Lemma kv_sorted_filter (P : bytes * bytes -> Prop) `{!forall kv, Decision (P kv)} l : kv_sorted l -> kv_sorted (filter P l).
Proof.
  induction l as [|[k v] l IH]; [done|]. intros [Hg Hs]%kv_sorted_cons. rewrite filter_cons. case_decide; [|by apply IH].
  apply kv_sorted_cons. split; [|by apply IH]. unfold keys_gt in *. rewrite list.Forall_forall in *. intros kv [_ Hin]%list_elem_of_filter. by apply Hg.
Qed.
Lemma kv_sorted_nodup l : kv_sorted l -> NoDup l.*1.
Proof.
  induction l as [|[k v] l IH]; [constructor|]. intros [Hg Hs]%kv_sorted_cons. cbn. apply list.NoDup_cons. split; [|by apply IH].
  intros (kv & E & Hin)%list_elem_of_fmap. unfold keys_gt in Hg. rewrite list.Forall_forall in Hg. specialize (Hg kv Hin). rewrite <- E in Hg. by apply blt_irrefl in Hg.
Qed.
Lemma kv_get_map k l : kv_map l !! k = kv_get k l.
Proof.
  induction l as [|[k' v'] l IH]; [done|]. cbn. unfold kv_map in *. cbn. case_decide as Hk.
  - subst. by rewrite lookup_insert_eq.
  - by rewrite lookup_insert_ne.
Qed.
Lemma kv_insert_map k v l : kv_map (kv_insert k v l) = <[k := v]> (kv_map l).
Proof.
  induction l as [|[k' v'] l IH]; [done|]. cbn. unfold kv_map in *. case_decide as Hk.
  - subst. cbn. by rewrite insert_insert_eq.
  - case_bool_decide; cbn; [done|]. rewrite IH. by rewrite insert_insert_ne.
Qed.
Lemma kv_remove_map k l : kv_map (kv_remove k l) = delete k (kv_map l).
Proof.
  induction l as [|[k' v'] l IH]; [cbn; unfold kv_map; cbn; by rewrite delete_empty|].
  unfold kv_remove, kv_map in *. rewrite filter_cons. cbn. case_decide as Hk; cbn.
  - rewrite IH. cbn in Hk. by rewrite delete_insert_ne.
  - rewrite IH. subst k'. by rewrite delete_insert_eq.
Qed.
Lemma kv_map_empty l : kv_map l = ∅ -> l = [].
Proof. destruct l as [|[k v] l]; [done|]. intros H. apply (f_equal (.!! k)) in H. unfold kv_map in H. cbn in H. by rewrite lookup_insert_eq in H. Qed.
