(* ===== verification/Schema.v ===== *)
(** * types/schema.go: values, records, table definitions and key encoding

    [Value], [Rec] (the Go type [Record]) and [TableDef] mirror the structs;
    a Go string is its bytes.  The key codec is modelled byte by byte; the JSON
    text of the non-key columns is the interface [JsonVals] of
    [encoding/json]. *)
From Stdlib Require Import ZArith Lia.
From stdpp Require Import base gmap list strings countable.
From coqutil Require Import Byte Word.LittleEndianList.
From S2P Require Import Prelude.

Definition TYPE_BYTES : Z := 1.
Definition TYPE_INT64 : Z := 2.

Record Value := mkValue { vType : Z; vI64 : Z; vStr : bytes }.
Record Rec := mkRec { rCols : list bytes; rVals : list Value }.
Record TableDef := mkTableDef {
  tName : bytes;
  tCols : list bytes;
  tTypes : list Z;
  tPkeys : Z;
  tPrefixes : list Z;
  tIndexes : list (list bytes)
}.

#[export] Instance Value_eq_dec : EqDecision Value.
Proof. solve_decision. Defined.
#[export] Instance Rec_eq_dec : EqDecision Rec.
Proof. solve_decision. Defined.

Definition zeroValue : Value := mkValue 0 0 [].
Definition BytesVal (s : bytes) : Value := mkValue TYPE_BYTES 0 s.
Definition IntVal (n : Z) : Value := mkValue TYPE_INT64 n [].
Definition emptyRec : Rec := mkRec [] [].

Definition AddStr (r : Rec) (col val : bytes) : Rec :=
  mkRec (rCols r ++ [col]) (rVals r ++ [BytesVal val]).
Definition AddI64 (r : Rec) (col : bytes) (val : Z) : Rec :=
  mkRec (rCols r ++ [col]) (rVals r ++ [IntVal val]).

(** [Get] returns a pointer into [r.Vals]; [GetIdx] is the index it points
    at, [Get] the value found there ([nil] is [None]). *)
Fixpoint find_col (cols : list bytes) (col : bytes) (i : nat) : option nat :=
  match cols with
  | [] => None
  | c :: cols' => if decide (c = col) then Some i else find_col cols' col (S i)
  end.
Definition GetIdx (r : Rec) (col : bytes) : option nat := find_col (rCols r) col 0.
Definition Get (r : Rec) (col : bytes) : res (option Value) :=
  match GetIdx r col with
  | Some i => v ← index (rVals r) (Z.of_nat i); Ok (Some v)
  | None => Ok None
  end.

Definition TDEF_TABLE : TableDef :=
  mkTableDef (gostr "@table") [gostr "name"; gostr "def"] [TYPE_BYTES; TYPE_BYTES] 1 [2]
    [[gostr "name"]].
Definition TDEF_META : TableDef :=
  mkTableDef (gostr "@meta") [gostr "key"; gostr "value"] [TYPE_BYTES; TYPE_BYTES] 1 [1]
    [[gostr "key"]].

(** ** The order-preserving key codec *)

Definition SerializeByte (b : Byte.byte) : bytes :=
  match b with
  | Byte.x00 => [Byte.x01; Byte.x01]
  | Byte.x01 => [Byte.x01; Byte.x02]
  | b => [b]
  end.
Definition SerializeBytes (s : bytes) : bytes := concat (map SerializeByte s).

Fixpoint DeserializeLoop (escape : bool) (encoded decoded : bytes) : res bytes :=
  match encoded with
  | [] => Ok decoded
  | b :: rest =>
      if bool_decide (b = Byte.x01) && negb escape then DeserializeLoop true rest decoded
      else if escape then
        match b with
        | Byte.x01 => DeserializeLoop false rest (decoded ++ [Byte.x00])
        | Byte.x02 => DeserializeLoop false rest (decoded ++ [Byte.x01])
        | _ => Crash Panicked
        end
      else DeserializeLoop false rest (decoded ++ [b])
  end.
Definition DeserializeBytes (encoded : bytes) : res bytes := DeserializeLoop false encoded [].

Definition MinInt64 : Z := -9223372036854775808.
Definition SignBit : Z := Z.shiftl 1 63.

Definition SerializeInt (num : Z) : res bytes :=
  if decide (num = MinInt64) then Crash Panicked
  else Ok (be_split 8 (Z.lxor (u64 num) SignBit)).

Definition DeserializeInt (encoded : bytes) : res Z :=
  check 8 <=? blen encoded or IndexOutOfRange;;
  Ok (i64 (Z.lxor (be_combine (take 8 encoded)) SignBit)).

Definition EncodeVal1 (key : bytes) (val : Value) : res bytes :=
  if decide (vType val = TYPE_BYTES) then Ok (key ++ SerializeBytes (vStr val) ++ [Byte.x00])
  else if decide (vType val = TYPE_INT64) then s ← SerializeInt (vI64 val); Ok (key ++ s)
  else Crash Panicked.
Definition EncodeKey (prefix : Z) (pks : list Value) : res bytes :=
  foldM EncodeVal1 (be_split 4 prefix) pks.

(** The loops of [DecodeKey] carry [bytePtr] into [encodedBytes]; here the
    state is the suffix [encodedBytes[bytePtr:]]. *)
Fixpoint scan_delim (rest key : bytes) : res (bytes * bytes) :=
  match rest with
  | [] => Crash IndexOutOfRange
  | b :: rest' => if decide (b = Byte.x00) then Ok (key, rest') else scan_delim rest' (key ++ [b])
  end.
Definition split_key1 (st : list bytes * bytes) (keyType : Z) : res (list bytes * bytes) :=
  let '(pks, rest) := st in
  if decide (keyType = TYPE_BYTES) then
    '(key, rest') ← scan_delim rest []; Ok (pks ++ [key], rest')
  else if decide (keyType = TYPE_INT64) then
    key ← slice rest 0 8; rest' ← slice_from rest 8; Ok (pks ++ [key], rest')
  else Crash Panicked.
Definition decode_pk (keyType : Z) (pk : bytes) : res Value :=
  if decide (keyType = TYPE_INT64) then n ← DeserializeInt pk; Ok (IntVal n)
  else if decide (keyType = TYPE_BYTES) then s ← DeserializeBytes pk; Ok (BytesVal s)
  else Ok zeroValue.
Definition decode_pks (types : list Z) (pks : list bytes) : res (list Value) :=
  foldM (fun vals '(t, pk) => v ← decode_pk t pk; Ok (vals ++ [v])) [] (zip types pks).
Definition DecodeKey (encoded : bytes) (tdef : TableDef) : res (list Value) :=
  rest ← slice_from encoded 4;
  types ← slice_to (tTypes tdef) (tPkeys tdef);
  '(pks, _) ← foldM split_key1 ([], rest) types;
  decode_pks types pks.

(** ** Non-key columns: the JSON codec and records *)

(** The fields of a Go [Value] are within their width. *)
Definition value_wf (v : Value) : Prop := 0 <= vType v < 4294967296 /\ in_i64 (vI64 v).

(** What the code uses of [encoding/json] on [[]Value]: a text for every
    list, and the list back from that text ([nil] and the empty [Str] are one
    value here). *)
Class JsonVals := {
  marshal_vals : list Value -> bytes;
  unmarshal_vals : bytes -> option (list Value);
  unmarshal_marshal_vals vs : Forall value_wf vs -> unmarshal_vals (marshal_vals vs) = Some vs
}.

Section Columns.
Context `{JsonVals}.

Definition EncodeVal (vals : list Value) : bytes := marshal_vals vals.

(** [DecodeVal] appends to the record in place; the [error] result is the
    boolean, false for an error. *)
Definition decode_col (tdef : TableDef) (st : Rec * Z) (val : Value) : res (Rec * Z) :=
  let '(rec, i) := st in
  colName ← index (tCols tdef) (i + tPkeys tdef);
  Ok (mkRec (rCols rec ++ [colName]) (rVals rec ++ [val]), i + 1).
Definition DecodeVal (tdef : TableDef) (rec : Rec) (val : bytes) : res (Rec * bool) :=
  match unmarshal_vals val with
  | None => Ok (rec, false)
  | Some vals => '(rec', _) ← foldM (decode_col tdef) (rec, 0) vals; Ok (rec', true)
  end.
End Columns.

Definition get_pk1 (rec : Rec) (newRec : Rec) (i : nat) : res Rec :=
  v ← index (rVals rec) (Z.of_nat i);
  if decide (vType v = TYPE_BYTES) then
    c ← index (rCols rec) (Z.of_nat i); Ok (AddStr newRec c (vStr v))
  else if decide (vType v = TYPE_INT64) then
    c ← index (rCols rec) (Z.of_nat i); Ok (AddI64 newRec c (vI64 v))
  else Ok newRec.
Definition GetPKs (rec : Rec) (Pkeys : Z) : res Rec :=
  foldM (get_pk1 rec) emptyRec (seq 0 (Z.to_nat Pkeys)).

(** [None] is the error "invalid number of columns in record". *)
Definition GetRecordVals (tdef : TableDef) (rec : Rec) (n : Z) : option (list Value) :=
  if (Z.of_nat (length (rCols rec)) <? n) || negb (n =? tPkeys tdef) then None
  else Some (rVals rec).

(** ** Specification of the key codec *)

(** A value a key can hold: a byte string, or an integer other than the
    smallest one. *)
Definition keyable (v : Value) : bool :=
  bool_decide (vType v = TYPE_BYTES) ||
  (bool_decide (vType v = TYPE_INT64) && negb (bool_decide (vI64 v = MinInt64))).

(** A keyable value as [AddStr]/[AddI64] build it for a column of type [t]. *)
Inductive wf_key_val : Z -> Value -> Prop :=
  | wf_bytes s : wf_key_val TYPE_BYTES (BytesVal s)
  | wf_int n : in_i64 n -> n <> MinInt64 -> wf_key_val TYPE_INT64 (IntVal n).

(** The order of values of one column, and of tuples of values. *)
Definition val_cmp (v w : Value) : comparison :=
  if decide (vType v = TYPE_INT64) then Z.compare (vI64 v) (vI64 w) else bcmp (vStr v) (vStr w).
Fixpoint vals_cmp (vs ws : list Value) : comparison :=
  match vs, ws with
  | [], [] => Eq
  | [], _ :: _ => Lt
  | _ :: _, [] => Gt
  | v :: vs', w :: ws' => match val_cmp v w with Eq => vals_cmp vs' ws' | c => c end
  end.

(** The bytes one value contributes to a key. *)
Definition enc_val (v : Value) : bytes :=
  if decide (vType v = TYPE_BYTES) then SerializeBytes (vStr v) ++ [Byte.x00]
  else be_split 8 (vI64 v + SignBit).

(** ** Lemmas: escaping *)

Lemma SerializeByte_cases b :
  (b = Byte.x00 /\ SerializeByte b = [Byte.x01; Byte.x01]) \/
  (b = Byte.x01 /\ SerializeByte b = [Byte.x01; Byte.x02]) \/
  (2 <= byte.unsigned b /\ SerializeByte b = [b]).
Proof. destruct b; (left; by split) || (right; left; by split) || (right; right; by split). Qed.

Lemma unsigned_ge_2 b : 2 <= byte.unsigned b -> b <> Byte.x00 /\ b <> Byte.x01.
Proof. intros H; split; intros ->; by vm_compute in H. Qed.

Lemma SerializeBytes_cons b s : SerializeBytes (b :: s) = SerializeByte b ++ SerializeBytes s.
Proof. reflexivity. Qed.

Lemma DeserializeLoop_byte b rest d :
  DeserializeLoop false (SerializeByte b ++ rest) d = DeserializeLoop false rest (d ++ [b]).
Proof.
  destruct (SerializeByte_cases b) as [[-> ->]|[[-> ->]|[Hb ->]]]; [done|done|].
  apply unsigned_ge_2 in Hb as [_ Hb]. cbn. by rewrite bool_decide_false.
Qed.
Lemma DeserializeLoop_SerializeBytes s d :
  DeserializeLoop false (SerializeBytes s) d = Ok (d ++ s).
Proof.
  revert d; induction s as [|b s IH]; intros d; [by rewrite app_nil_r|].
  rewrite SerializeBytes_cons, DeserializeLoop_byte, IH. by rewrite <- app_assoc.
Qed.
Lemma DeserializeBytes_SerializeBytes s : DeserializeBytes (SerializeBytes s) = Ok s.
Proof. apply DeserializeLoop_SerializeBytes. Qed.

Lemma SerializeBytes_no_delim s : Forall (fun b => b <> Byte.x00) (SerializeBytes s).
Proof.
  induction s as [|b s IH]; [constructor|]. rewrite SerializeBytes_cons.
  apply Forall_app; split; [|done].
  destruct (SerializeByte_cases b) as [[-> ->]|[[-> ->]|[Hb ->]]];
    repeat constructor; try done. by apply unsigned_ge_2.
Qed.

Lemma scan_delim_app s rest key : Forall (fun b => b <> Byte.x00) s ->
  scan_delim (s ++ Byte.x00 :: rest) key = Ok (key ++ s, rest).
Proof.
  intros H; revert key; induction H as [|b s Hb _ IH]; intros key; cbn.
  - by rewrite app_nil_r.
  - rewrite decide_False by done. rewrite IH. by rewrite <- app_assoc.
Qed.

(** Escaped strings followed by the delimiter compare as the strings do, and
    decide before anything that follows. *)
Lemma bcmp_SerializeByte_ne x y r1 r2 : x <> y ->
  bcmp (SerializeByte x ++ r1) (SerializeByte y ++ r2) = Z.compare (byte.unsigned x) (byte.unsigned y).
Proof.
  intros Hne.
  assert (byte.unsigned x <> byte.unsigned y) by (intros E; by apply byte.unsigned_inj in E).
  change (byte.unsigned Byte.x01) with 1 in *.
  destruct (SerializeByte_cases x) as [[-> ->]|[[-> ->]|[Hx ->]]],
    (SerializeByte_cases y) as [[-> ->]|[[-> ->]|[Hy ->]]]; try done; cbn [app bcmp].
  - change (byte.unsigned Byte.x01) with 1. change (byte.unsigned Byte.x00) with 0.
    rewrite (proj2 (Z.compare_lt_iff 1 _)), (proj2 (Z.compare_lt_iff 0 _)) by lia. done.
  - change (byte.unsigned Byte.x01) with 1.
    rewrite (proj2 (Z.compare_lt_iff 1 _)) by lia. done.
  - change (byte.unsigned Byte.x01) with 1. change (byte.unsigned Byte.x00) with 0.
    rewrite (proj2 (Z.compare_gt_iff _ 1)), (proj2 (Z.compare_gt_iff _ 0)) by lia. done.
  - change (byte.unsigned Byte.x01) with 1.
    rewrite (proj2 (Z.compare_gt_iff _ 1)) by lia. done.
  - destruct (Z.compare_spec (byte.unsigned x) (byte.unsigned y)); try done; lia.
Qed.

Lemma bcmp_delim_SerializeByte x r1 r2 : bcmp (Byte.x00 :: r1) (SerializeByte x ++ r2) = Lt.
Proof.
  destruct (SerializeByte_cases x) as [[-> ->]|[[-> ->]|[Hx ->]]]; try done. cbn [app bcmp].
  change (byte.unsigned Byte.x00) with 0. by rewrite (proj2 (Z.compare_lt_iff 0 _)) by lia.
Qed.

Lemma bcmp_SerializeBytes s t r1 r2 :
  bcmp (SerializeBytes s ++ Byte.x00 :: r1) (SerializeBytes t ++ Byte.x00 :: r2) =
  match bcmp s t with Eq => bcmp r1 r2 | c => c end.
Proof.
  revert t; induction s as [|x s IH]; intros [|y t].
  - cbn. done.
  - rewrite SerializeBytes_cons, <- app_assoc. apply bcmp_delim_SerializeByte.
  - rewrite SerializeBytes_cons, <- app_assoc. change (SerializeBytes [] ++ ?r) with r.
    by rewrite bcmp_antisym, bcmp_delim_SerializeByte.
  - rewrite !SerializeBytes_cons, <- !app_assoc. cbn [bcmp].
    destruct (decide (x = y)) as [->|Hne].
    + rewrite bcmp_app, bcmp_refl by done. by rewrite Z.compare_refl, IH.
    + rewrite bcmp_SerializeByte_ne by done.
      assert (byte.unsigned x <> byte.unsigned y) by (intros E; by apply byte.unsigned_inj in E).
      destruct (Z.compare_spec (byte.unsigned x) (byte.unsigned y)); done.
Qed.

(** ** Lemmas: integers *)

Lemma lxor_sign_low x : 0 <= x < SignBit -> Z.lxor x SignBit = x + SignBit.
Proof.
  intros Hx. symmetry. apply Z.add_nocarry_lxor.
  apply Z.bits_inj'. intros i Hi. rewrite Z.land_spec, Z.bits_0.
  unfold SignBit. rewrite Z.shiftl_spec by done.
  destruct (decide (i = 63)) as [->|].
  - replace x with (x mod 2 ^ 63) by (apply Z.mod_small; exact Hx).
    by rewrite Z.mod_pow2_bits_high.
  - destruct (decide (i < 63)).
    + rewrite (Z.testbit_neg_r 1) by lia. by rewrite andb_false_r.
    + rewrite (Z.bits_above_log2 1) by (cbn; lia). by rewrite andb_false_r.
Qed.

Lemma SignBit_eq : SignBit = 9223372036854775808.
Proof. reflexivity. Qed.

Lemma lxor_sign num : in_i64 num -> Z.lxor (u64 num) SignBit = num + SignBit.
Proof.
  unfold in_i64. intros Hn. pose proof SignBit_eq.
  destruct (decide (0 <= num)) as [Hp|Hp].
  - rewrite u64_small by (unfold in_u64; lia). by rewrite lxor_sign_low by lia.
  - assert (E : u64 num = Z.lxor (num + SignBit) SignBit).
    { rewrite lxor_sign_low by lia.
      unfold u64. symmetry. apply (Z.mod_unique_pos _ _ (-1)); lia. }
    by rewrite E, Z.lxor_assoc, Z.lxor_nilpotent, Z.lxor_0_r.
Qed.

Lemma SerializeInt_Ok n : in_i64 n -> n <> MinInt64 -> SerializeInt n = Ok (be_split 8 (n + SignBit)).
Proof. intros ? ?. unfold SerializeInt. by rewrite decide_False, lxor_sign by done. Qed.

Lemma DeserializeInt_be n : in_i64 n -> DeserializeInt (be_split 8 (n + SignBit)) = Ok n.
Proof.
  intros Hn. assert (Hl := blen_be_split 8 (n + SignBit)). unfold DeserializeInt. rguard.
  rewrite take_ge by (unfold blen in Hl; lia).
  rewrite be_combine_split by (change (2 ^ _) with 18446744073709551616; unfold in_i64 in Hn; pose proof SignBit_eq; lia).
  rewrite <- (lxor_sign n) by done. rewrite Z.lxor_assoc, Z.lxor_nilpotent, Z.lxor_0_r.
  f_equal. unfold i64, u64, in_i64 in *. rewrite Z.add_mod_idemp_l by lia. rewrite Z.mod_small; lia.
Qed.

(** ** Lemmas: keys *)

#[local] Arguments be_split : simpl never.

Lemma enc_val_bytes s : enc_val (BytesVal s) = SerializeBytes s ++ [Byte.x00].
Proof. reflexivity. Qed.
Lemma enc_val_int n : enc_val (IntVal n) = be_split 8 (n + SignBit).
Proof. reflexivity. Qed.

Lemma EncodeVal1_wf t v key : wf_key_val t v -> EncodeVal1 key v = Ok (key ++ enc_val v).
Proof.
  intros [s|n Hn Hm]; [done|]. unfold EncodeVal1. cbn [vType IntVal vI64].
  rewrite decide_False, decide_True by done. by rstep (SerializeInt_Ok n Hn Hm).
Qed.
Lemma EncodeKey_wf ts vs key : Forall2 wf_key_val ts vs ->
  foldM EncodeVal1 key vs = Ok (key ++ concat (map enc_val vs)).
Proof.
  intros H; revert key; induction H as [|t v ts vs Hv _ IH]; intros key; cbn.
  - by rewrite app_nil_r.
  - rstep (EncodeVal1_wf t v key Hv). by rewrite IH, <- app_assoc.
Qed.

Lemma val_cmp_bytes s t : val_cmp (BytesVal s) (BytesVal t) = bcmp s t.
Proof. reflexivity. Qed.
Lemma val_cmp_int m n : val_cmp (IntVal m) (IntVal n) = Z.compare m n.
Proof. reflexivity. Qed.

Lemma bcmp_enc_val t v w r1 r2 : wf_key_val t v -> wf_key_val t w ->
  bcmp (enc_val v ++ r1) (enc_val w ++ r2) = match val_cmp v w with Eq => bcmp r1 r2 | c => c end.
Proof.
  intros Hv Hw. destruct Hv as [s|m Hm _]; inversion Hw as [s'|n Hn _]; subst.
  - rewrite !enc_val_bytes, val_cmp_bytes, <- !app_assoc. apply bcmp_SerializeBytes.
  - rewrite !enc_val_int, val_cmp_int.
    rewrite bcmp_app by (apply Nat2Z.inj; fold (blen (be_split 8 (m + SignBit)));
      fold (blen (be_split 8 (n + SignBit))); by rewrite !blen_be_split).
    unfold in_i64 in *. pose proof SignBit_eq.
    rewrite bcmp_be_split by (change (2 ^ _) with 18446744073709551616; lia).
    replace (m + SignBit ?= n + SignBit) with (m ?= n); [done|].
    by rewrite !(Z.add_comm _ SignBit), Z.add_compare_mono_l.
Qed.

Lemma enc_val_nonempty t v : wf_key_val t v -> exists b r, enc_val v = b :: r.
Proof.
  intros [s|n _ _]; [|rewrite enc_val_int, (be_split_S 7); eauto].
  rewrite enc_val_bytes. destruct (SerializeBytes s); cbn; eauto.
Qed.

Lemma bcmp_enc_vals ts us vs ws : Forall2 wf_key_val ts vs -> Forall2 wf_key_val us ws ->
  ts `prefix_of` us \/ us `prefix_of` ts ->
  bcmp (concat (map enc_val vs)) (concat (map enc_val ws)) = vals_cmp vs ws.
Proof.
  intros Hv; revert us ws; induction Hv as [|t v ts vs Hv Hvs IH];
    intros us ws Hw Hp; destruct Hw as [|u w us ws Hw Hws]; cbn [map concat vals_cmp]; [done| | |].
  - by destruct (enc_val_nonempty u w Hw) as (b & r & ->).
  - by destruct (enc_val_nonempty t v Hv) as (b & r & ->).
  - assert (u = t) as -> by (destruct Hp as [Hp|Hp]; by apply prefix_cons_inv_1 in Hp).
    rewrite (bcmp_enc_val t) by done. rewrite (IH us ws); [done|done|].
    destruct Hp as [Hp|Hp]; apply prefix_cons_inv_2 in Hp; auto.
Qed.

Lemma split_key1_wf t v rest pks : wf_key_val t v -> exists pk,
  split_key1 (pks, enc_val v ++ rest) t = Ok (pks ++ [pk], rest) /\ decode_pk t pk = Ok v.
Proof.
  intros [s|n Hn Hm].
  - exists (SerializeBytes s). rewrite enc_val_bytes, <- app_assoc. unfold split_key1, decode_pk.
    rewrite decide_True by done. cbn [app]. rstep (scan_delim_app _ rest [] (SerializeBytes_no_delim s)).
    split; [done|]. rewrite decide_False, decide_True by done.
    by rstep (DeserializeBytes_SerializeBytes s).
  - exists (be_split 8 (n + SignBit)). rewrite enc_val_int. unfold split_key1, decode_pk.
    rewrite (decide_False (P := TYPE_INT64 = TYPE_BYTES)), decide_True by done.
    assert (Hl := blen_be_split 8 (n + SignBit)). pose proof (blen_nonneg rest).
    rewrite slice_Ok, slice_from_Ok by (rewrite ?blen_app; lia).
    rewrite decide_True by done. rstep (DeserializeInt_be n Hn). split; [|done].
    unfold blen in Hl. unfold bsub. rewrite drop_0, take_app_le, take_ge, drop_app_ge by lia.
    by replace (Z.to_nat 8 - length (be_split 8 (n + SignBit)))%nat with 0%nat by lia.
Qed.

Lemma decode_keys_wf ts vs rest pks ts0 vs0 : Forall2 wf_key_val ts vs ->
  length ts0 = length pks -> decode_pks ts0 pks = Ok vs0 -> exists pks' rest',
  foldM split_key1 (pks, concat (map enc_val vs) ++ rest) ts = Ok (pks', rest') /\
  decode_pks (ts0 ++ ts) pks' = Ok (vs0 ++ vs).
Proof.
  intros H; revert pks ts0 vs0; induction H as [|t v ts vs Hv _ IH]; intros pks ts0 vs0 Hl H0.
  - exists pks, rest. by rewrite !app_nil_r.
  - cbn [foldM map concat]. rewrite <- app_assoc.
    destruct (split_key1_wf t v (concat (map enc_val vs) ++ rest) pks Hv) as (pk & E1 & E2).
    rstep E1. destruct (IH (pks ++ [pk]) (ts0 ++ [t]) (vs0 ++ [v])) as (pks' & rest' & E3 & E4).
    + rewrite !length_app. cbn. lia.
    + unfold decode_pks in *. rewrite zip_with_app by done. rewrite foldM_app.
      rstep H0. cbn [foldM zip_with]. by rstep E2.
    + exists pks', rest'. by rewrite <- !app_assoc in E4.
Qed.

Lemma wf_key_val_keyable t v : wf_key_val t v -> keyable v = true.
Proof. intros [s|n _ Hm]; unfold keyable; cbn; [done|]. by rewrite (bool_decide_eq_false_2 _ Hm). Qed.

Lemma EncodeVal1_keyable key v :
  if keyable v then is_Ok (EncodeVal1 key v) else EncodeVal1 key v = Crash Panicked.
Proof.
  unfold keyable, EncodeVal1, SerializeInt, is_Ok.
  repeat case_decide; repeat case_bool_decide; cbn; eauto; congruence.
Qed.
Lemma EncodeKey_keyable vs key :
  if forallb keyable vs then is_Ok (foldM EncodeVal1 key vs)
  else foldM EncodeVal1 key vs = Crash Panicked.
Proof.
  revert key; induction vs as [|v vs IH]; intros key; cbn; [by eexists|].
  pose proof (EncodeVal1_keyable key v) as Hv. destruct (keyable v); cbn.
  - destruct Hv as [k Hk]. rstep Hk. apply IH.
  - by rstep Hv.
Qed.

(** ** Properties *)

(** The key of the values [vs], and what follows it. *)
Lemma DecodeKey_enc prefix tdef ts vs rest : slice_to (tTypes tdef) (tPkeys tdef) = Ok ts -> Forall2 wf_key_val ts vs ->
  DecodeKey ((be_split 4 prefix ++ concat (map enc_val vs)) ++ rest) tdef = Ok vs.
Proof.
  intros Hts Hvs. assert (Hl := blen_be_split 4 prefix). unfold DecodeKey.
  rewrite slice_from_Ok by (rewrite !blen_app; pose proof (blen_nonneg rest);
    pose proof (blen_nonneg (concat (map enc_val vs))); lia).
  cbn [mbind res_bind]. rstep Hts. unfold blen in Hl. rewrite <- app_assoc.
  rewrite drop_app_ge by lia.
  replace (Z.to_nat 4 - length (be_split 4 prefix))%nat with 0%nat by lia. rewrite drop_0.
  destruct (decode_keys_wf ts vs rest [] [] [] Hvs) as (pks' & rest' & E1 & E2); [done..|].
  rstep E1. exact E2.
Qed.

(** C29: a key decodes to the values it was built from.  For a table whose
    first [Pkeys] column types are [ts] and values [vs] of those types,
    [EncodeKey] succeeds, and [DecodeKey] of the key (whatever bytes follow it,
    as in a secondary-index key) returns exactly [vs]. *)
Theorem DecodeKey_EncodeKey prefix tdef ts vs rest :
  slice_to (tTypes tdef) (tPkeys tdef) = Ok ts -> Forall2 wf_key_val ts vs ->
  exists key, EncodeKey prefix vs = Ok key /\ DecodeKey (key ++ rest) tdef = Ok vs.
Proof.
  intros Hts Hvs. exists (be_split 4 prefix ++ concat (map enc_val vs)).
  split; [by apply EncodeKey_wf with ts|by apply (DecodeKey_enc prefix tdef ts)].
Qed.

(** C28: keys are ordered as the tuples they encode.  Two keys compare, as byte
    strings, first by table prefix and then lexicographically by column values:
    integers numerically (negative ones included), byte strings by
    [bytes.Compare]; a key on fewer columns sorts before its extensions. *)
Theorem EncodeKey_order p q ts us vs ws :
  0 <= p < 4294967296 -> 0 <= q < 4294967296 ->
  Forall2 wf_key_val ts vs -> Forall2 wf_key_val us ws ->
  ts `prefix_of` us \/ us `prefix_of` ts ->
  exists k l, EncodeKey p vs = Ok k /\ EncodeKey q ws = Ok l /\
    bcmp k l = match Z.compare p q with Eq => vals_cmp vs ws | c => c end.
Proof.
  intros Hp Hq Hv Hw Hc. eexists _, _.
  split; [by apply EncodeKey_wf with ts|]. split; [by apply EncodeKey_wf with us|].
  rewrite bcmp_app by (apply Nat2Z.inj; fold (blen (be_split 4 p)); fold (blen (be_split 4 q));
    by rewrite !blen_be_split).
  rewrite bcmp_be_split by done. by rewrite (bcmp_enc_vals ts us).
Qed.

(** [EncodeKey] is total on keyable values and panics on every other
    list: a value whose type is neither bytes nor int64, or the smallest int64,
    anywhere in the key takes the process down. *)
Theorem EncodeKey_panics_iff prefix vs :
  (forallb keyable vs = true <-> is_Ok (EncodeKey prefix vs)) /\
  (forallb keyable vs = false <-> EncodeKey prefix vs = Crash Panicked).
Proof.
  pose proof (EncodeKey_keyable vs (be_split 4 prefix)) as H. unfold EncodeKey.
  destruct (forallb keyable vs); (split; split; intros E; try done).
  - destruct H as [k Hk]. by rewrite Hk in E.
  - destruct E as [k Hk]. by rewrite Hk in H.
Qed.

Ltac wf_keys :=
  repeat first
    [ apply List.Forall2_cons | apply List.Forall2_nil | apply wf_bytes
    | apply wf_int; [unfold in_i64; lia | discriminate] ].

Lemma DecodeKey_EncodeKey_witness :
  let tdef := mkTableDef (gostr "t") [gostr "a"; gostr "b"; gostr "c"]
    [TYPE_BYTES; TYPE_INT64; TYPE_BYTES] 2 [3] [[gostr "a"; gostr "b"]] in
  let vs := [BytesVal [Byte.x00; Byte.x61; Byte.x01]; IntVal (-5)] in
  exists key, EncodeKey 3 vs = Ok key /\ DecodeKey (key ++ [Byte.x42]) tdef = Ok vs.
Proof.
  intros tdef vs. apply (DecodeKey_EncodeKey 3 tdef [TYPE_BYTES; TYPE_INT64] vs).
  - reflexivity.
  - wf_keys.
Defined.

Lemma EncodeKey_order_witness :
  exists k l, EncodeKey 3 [IntVal (-5); BytesVal [Byte.x00]] = Ok k /\
    EncodeKey 3 [IntVal (-5)] = Ok l /\ bcmp k l = Gt.
Proof.
  apply (EncodeKey_order 3 3 [TYPE_INT64; TYPE_BYTES] [TYPE_INT64]
    [IntVal (-5); BytesVal [Byte.x00]] [IntVal (-5)]).
  - lia.
  - lia.
  - wf_keys.
  - wf_keys.
  - right. by exists [TYPE_BYTES].
Defined.

(** ** Properties of records *)

Section ColumnsProps.
Context `{JsonVals}.

Lemma decode_cols tdef vals rec (i p : nat) : tPkeys tdef = Z.of_nat p ->
  foldM (decode_col tdef) (rec, Z.of_nat i) vals =
  if decide (vals = [] \/ (i + p + length vals <= length (tCols tdef))%nat)
  then Ok (mkRec (rCols rec ++ take (length vals) (drop (i + p) (tCols tdef))) (rVals rec ++ vals),
           Z.of_nat (i + length vals))
  else Crash IndexOutOfRange.
Proof.
  intros Hp. revert rec i; induction vals as [|v vals IH]; intros rec i.
  - rewrite decide_True by (by left). cbn. rewrite !app_nil_r, Nat.add_0_r. by destruct rec.
  - cbn [foldM decode_col]. rewrite Hp. rewrite <- Nat2Z.inj_add.
    destruct (tCols tdef !! (i + p)%nat) as [c|] eqn:Hc.
    + rstep (index_Ok _ _ _ Hc).
      replace (Z.of_nat i + 1) with (Z.of_nat (S i)) by lia.
      rewrite IH. cbn [rCols rVals length]. rewrite (drop_S _ _ _ Hc). cbn [take].
      assert (Hlt := lookup_lt_Some _ _ _ Hc).
      destruct vals as [|w vals].
      * rewrite !decide_True by (try (by left); right; cbn; lia). cbn.
        by rewrite Nat.add_1_r, Nat.add_0_r, app_nil_r, <- app_assoc.
      * destruct (decide (v :: w :: vals = [] \/ _)) as [[?|D]|D]; [done| |].
        -- rewrite decide_True by (right; cbn in *; lia). rewrite <- !app_assoc. cbn [app].
           do 2 f_equal. lia.
        -- rewrite decide_False; [done|]. intros [?|?]; [done|]. apply D. right. cbn in *. lia.
    + apply lookup_ge_None in Hc. rewrite decide_False.
      * by rstep (index_out (tCols tdef) (i + p) Hc).
      * intros [?|?]; [done|]. cbn in *. lia.
Qed.

(** decoding stored columns.  [DecodeVal] of the text [EncodeVal] wrote
    appends exactly the stored values, under the names of the columns after the
    primary key, and reports success; when the stored list is longer than the
    table has non-key columns, it panics with an index out of range. *)
Theorem DecodeVal_EncodeVal tdef rec vals : 0 <= tPkeys tdef -> Forall value_wf vals ->
  DecodeVal tdef rec (EncodeVal vals) =
  if decide (vals = [] \/ tPkeys tdef + Z.of_nat (length vals) <= Z.of_nat (length (tCols tdef)))
  then Ok (mkRec (rCols rec ++ take (length vals) (drop (Z.to_nat (tPkeys tdef)) (tCols tdef)))
                 (rVals rec ++ vals), true)
  else Crash IndexOutOfRange.
Proof.
  intros Hp Hvals. unfold DecodeVal, EncodeVal. rewrite unmarshal_marshal_vals by done.
  assert (E := decode_cols tdef vals rec 0 (Z.to_nat (tPkeys tdef)) ltac:(lia)).
  change (Z.of_nat 0) with 0 in E. rewrite E.
  destruct (decide (vals = [] \/ (_ <= _)%nat)) as [D|D]; cbn [mbind res_bind].
  - rewrite decide_True; [done|]. destruct D; [by left|right; lia].
  - rewrite decide_False; [done|]. intros [?|?]; apply D; [by left|right; lia].
Qed.
End ColumnsProps.

(** A text for lists of values that has the law, for the witness: the bits of
    the number stdpp's [Countable] gives the list. *)
#[export] Program Instance Value_countable : Countable Value :=
  inj_countable' (fun v => (vType v, vI64 v, vStr v)) (fun '(t, i, s) => mkValue t i s) _.
Next Obligation. by intros []. Qed.
Fixpoint pos_bits (p : positive) : bytes :=
  match p with xH => [] | xO p => Byte.x00 :: pos_bits p | xI p => Byte.x01 :: pos_bits p end.
Fixpoint bits_pos (s : bytes) : positive :=
  match s with
  | [] => xH
  | b :: s => if decide (b = Byte.x00) then xO (bits_pos s) else xI (bits_pos s)
  end.
Lemma bits_pos_bits p : bits_pos (pos_bits p) = p.
Proof. induction p as [p IH|p IH|]; cbn; [| |done]; by rewrite IH. Qed.
Definition bits_json : JsonVals.
Proof.
  refine {| marshal_vals vs := pos_bits (encode vs); unmarshal_vals s := decode (bits_pos s) |}.
  intros vs _. by rewrite bits_pos_bits, decode_encode.
Defined.

Definition users_def : TableDef :=
  mkTableDef (gostr "users") [gostr "id"; gostr "name"] [TYPE_INT64; TYPE_BYTES] 1 [100] [[gostr "id"]].
Lemma value_wf_str s : value_wf (BytesVal s).
Proof. split; [|unfold in_i64]; cbn; unfold TYPE_BYTES; lia. Qed.
Lemma value_wf_int i : in_i64 i -> value_wf (IntVal i).
Proof. intros H. split; [cbn; unfold TYPE_INT64; lia|done]. Qed.
Lemma DecodeVal_EncodeVal_witness :
  @DecodeVal bits_json users_def (AddI64 emptyRec (gostr "id") 7) (@EncodeVal bits_json [BytesVal (gostr "bob")]) =
    Ok (AddStr (AddI64 emptyRec (gostr "id") 7) (gostr "name") (gostr "bob"), true) /\
  @DecodeVal bits_json users_def emptyRec (@EncodeVal bits_json [IntVal 1; IntVal 2]) = Crash IndexOutOfRange.
Proof.
  split.
  - apply (@DecodeVal_EncodeVal bits_json users_def (AddI64 emptyRec (gostr "id") 7) [BytesVal (gostr "bob")]);
      [cbn; lia|]. apply list.Forall_singleton, value_wf_str.
  - apply (@DecodeVal_EncodeVal bits_json users_def emptyRec [IntVal 1; IntVal 2]); [cbn; lia|].
    repeat (apply list.Forall_cons; split); try done; apply value_wf_int; unfold in_i64; lia.
Defined.

(** A value as the record builders make it. *)
Definition built (v : Value) : Prop := (exists s, v = BytesVal s) \/ (exists n, v = IntVal n).

Lemma get_pk1_built rec r i c v : rVals rec !! i = Some v -> rCols rec !! i = Some c -> built v ->
  get_pk1 rec r i = Ok (mkRec (rCols r ++ [c]) (rVals r ++ [v])).
Proof.
  intros Hv Hc [[s ->]|[n ->]]; unfold get_pk1; rstep (index_Ok _ _ _ Hv); cbn [vType BytesVal IntVal].
  - rewrite decide_True by done. by rstep (index_Ok _ _ _ Hc).
  - rewrite decide_False, decide_True by done. by rstep (index_Ok _ _ _ Hc).
Qed.

Lemma get_pks_range rec r (i n : nat) : length (rCols rec) = length (rVals rec) ->
  Forall built (rVals rec) -> (i <= length (rVals rec))%nat ->
  foldM (get_pk1 rec) r (seq i n) =
  if decide (i + n <= length (rVals rec))%nat
  then Ok (mkRec (rCols r ++ take n (drop i (rCols rec))) (rVals r ++ take n (drop i (rVals rec))))
  else Crash IndexOutOfRange.
Proof.
  intros Hl Hb. revert r i; induction n as [|n IH]; intros r i Hi.
  - cbn. rewrite decide_True by lia. rewrite !app_nil_r. by destruct r.
  - cbn [seq foldM]. destruct (decide (i < length (rVals rec))%nat) as [Hlt|Hge].
    + destruct (lookup_lt_is_Some_2 _ _ Hlt) as [v Hv].
      assert (Hc : is_Some (rCols rec !! i)) by (apply lookup_lt_is_Some_2; lia).
      destruct Hc as [c Hc]. assert (built v) by (by eapply Forall_lookup_1).
      rstep (get_pk1_built rec r i c v Hv Hc ltac:(done)). rewrite IH by lia. cbn [rCols rVals].
      rewrite (drop_S _ _ _ Hv), (drop_S _ _ _ Hc). cbn [take]. rewrite <- !app_assoc.
      destruct (decide (S i + n <= length (rVals rec))%nat);
        [rewrite decide_True by lia | rewrite decide_False by lia]; done.
    + rewrite decide_False by lia. unfold get_pk1. by rstep (index_out (rVals rec) i ltac:(lia)).
Qed.

(** [GetPKs] keeps exactly the first [Pkeys] columns of a record built by
    [AddStr]/[AddI64]; a record with fewer columns than the table has primary
    keys makes it panic. *)
Theorem GetPKs_first_columns rec Pkeys :
  length (rCols rec) = length (rVals rec) -> Forall built (rVals rec) ->
  GetPKs rec Pkeys =
  if decide (Z.to_nat Pkeys <= length (rVals rec))%nat
  then Ok (mkRec (take (Z.to_nat Pkeys) (rCols rec)) (take (Z.to_nat Pkeys) (rVals rec)))
  else Crash IndexOutOfRange.
Proof.
  intros Hl Hb. unfold GetPKs. rewrite get_pks_range by (done || lia).
  by rewrite !drop_0.
Qed.

Ltac built_vals :=
  cbn; repeat first
    [ apply List.Forall_cons | apply List.Forall_nil
    | left; eexists; reflexivity | right; eexists; reflexivity ].

Lemma GetPKs_first_columns_witness :
  GetPKs (AddI64 (AddStr emptyRec (gostr "a") [Byte.x61]) (gostr "b") 7) 1 =
    Ok (AddStr emptyRec (gostr "a") [Byte.x61]) /\
  GetPKs (AddStr emptyRec (gostr "a") [Byte.x61]) 2 = Crash IndexOutOfRange.
Proof.
  split.
  - apply (GetPKs_first_columns (AddI64 (AddStr emptyRec (gostr "a") [Byte.x61]) (gostr "b") 7) 1).
    + reflexivity.
    + built_vals.
  - apply (GetPKs_first_columns (AddStr emptyRec (gostr "a") [Byte.x61]) 2).
    + reflexivity.
    + built_vals.
Defined.
