(* ===== verification/SecIndex.v ===== *)
(** * index/secondary.go: keys of secondary indexes

    The key of a row in a secondary index has the indexed columns and then the
    primary key.  [GetSecondaryIndexesKeys] works through pointers into the
    values of the record it is given, which its caller shares: it returns the
    record as it leaves it. *)
From Stdlib Require Import ZArith Lia.
From stdpp Require Import base gmap list strings countable.
From coqutil Require Import Byte Word.LittleEndianList.
From S2P Require Import Prelude Schema.

(** One column of an index: the empty string is replaced by the byte 255, in
    the record too. *)
Definition index_col (st : Rec * list Value) (col : bytes) : res (Rec * list Value) :=
  let '(rec, pks) := st in
  match GetIdx rec col with
  | None => Crash NilDereference
  | Some j =>
      val ← index (rVals rec) (Z.of_nat j);
      let val := if bool_decide (vType val = TYPE_BYTES) && bool_decide (vStr val = [])
                 then mkValue (vType val) (vI64 val) [Byte.xff] else val in
      Ok (mkRec (rCols rec) (<[j := val]> (rVals rec)), pks ++ [val])
  end.
(** One index: [i] counts the indexes after the first. *)
Definition index_key (tdef : TableDef) (st : Rec * list bytes) (ix : nat * list bytes) : res (Rec * list bytes) :=
  let '(rec, keys) := st in let '(i, idx) := ix in
  '(rec, pks) ← foldM index_col (rec, []) idx;
  vals ← slice_to (rVals rec) (tPkeys tdef);
  prefix ← index (tPrefixes tdef) (Z.of_nat i + 1);
  key ← EncodeKey prefix (pks ++ vals);
  Ok (rec, keys ++ [key]).
Definition GetSecondaryIndexesKeys (tdef : TableDef) (rec : Rec) : res (Rec * list bytes) :=
  idxs ← slice_after (tIndexes tdef) 1;
  foldM (index_key tdef) (rec, []) (imap pair idxs).

(** The types of the indexed columns: a column the table does not have is
    passed over. *)
Definition index_types (tdef : TableDef) (idx : list bytes) : res (list Z) :=
  foldM (fun types col =>
    match find_col (tCols tdef) col 0 with
    | Some i => t ← index (tTypes tdef) (Z.of_nat i); Ok (types ++ [t])
    | None => Ok types
    end) [] idx.
(** Passing over the indexed columns; the state is the rest of the key. *)
Definition skip_col (rest : bytes) (keyType : Z) : res bytes :=
  if decide (keyType = TYPE_BYTES) then '(_, rest) ← scan_delim rest []; Ok rest
  else if decide (keyType = TYPE_INT64) then Ok (drop 8 rest)
  else Crash Panicked.
Definition add_pk (tdef : TableDef) (rec : Rec) (ip : nat * (Z * bytes)) : res Rec :=
  let '(i, (keyType, pk)) := ip in
  if decide (keyType = TYPE_INT64) then
    val ← DeserializeInt pk; c ← index (tCols tdef) (Z.of_nat i); Ok (AddI64 rec c val)
  else if decide (keyType = TYPE_BYTES) then
    val ← DeserializeBytes pk; c ← index (tCols tdef) (Z.of_nat i); Ok (AddStr rec c val)
  else Ok rec.
Definition GetPKFromSecKey (tdef : TableDef) (key : bytes) (idx : Z) : res Rec :=
  rest ← slice_from key 4;
  cols ← index (tIndexes tdef) idx;
  types ← index_types tdef cols;
  rest ← foldM skip_col rest types;
  pktypes ← slice_to (tTypes tdef) (tPkeys tdef);
  '(pks, _) ← foldM split_key1 ([], rest) pktypes;
  foldM (add_pk tdef) emptyRec (imap pair (zip pktypes pks)).

(** ** Specification *)

(** What an index stores for a value. *)
Definition index_val (v : Value) : Value :=
  if bool_decide (vType v = TYPE_BYTES) && bool_decide (vStr v = []) then mkValue (vType v) (vI64 v) [Byte.xff] else v.
(** The key of values of the types of a table. *)
Definition enc_key (prefix : Z) (vs : list Value) : bytes := be_split 4 prefix ++ concat (map enc_val vs).

(** A table: one type per column, the key columns first, an index of the key
    and others over the columns, each with a prefix of its own. *)
Record tdef_ok (tdef : TableDef) (p : nat) : Prop := {
  td_types : length (tTypes tdef) = length (tCols tdef);
  td_cols : NoDup (tCols tdef);
  td_pkeys : tPkeys tdef = Z.of_nat p;
  td_p : (p <= length (tCols tdef))%nat;
  td_prefixes : length (tPrefixes tdef) = length (tIndexes tdef);
  td_nodup : NoDup (tPrefixes tdef);
  td_u32 : Forall (fun q => 0 <= q < 4294967296) (tPrefixes tdef);
  td_primary : tIndexes tdef <> [];
  td_index idx col : idx ∈ tail (tIndexes tdef) -> col ∈ idx -> col ∈ tCols tdef
}.
(** A row: values of the types of the columns, the strings of its key not
    empty. *)
Definition row_ok (tdef : TableDef) (p : nat) (row : list Value) : Prop :=
  Forall2 wf_key_val (tTypes tdef) row /\ Forall (fun v => index_val v = v) (take p row).
Definition row_rec (tdef : TableDef) (row : list Value) : Rec := mkRec (tCols tdef) row.
Definition col_val (tdef : TableDef) (row : list Value) (col : bytes) : Value :=
  match find_col (tCols tdef) col 0 with Some j => default zeroValue (row !! j) | None => zeroValue end.
Definition sec_key (tdef : TableDef) (p : nat) (row : list Value) (prefix : Z) (idx : list bytes) : bytes :=
  enc_key prefix (map (fun col => index_val (col_val tdef row col)) idx ++ take p row).
Definition sec_keys (tdef : TableDef) (p : nat) (row : list Value) : list bytes :=
  zip_with (sec_key tdef p row) (tail (tPrefixes tdef)) (tail (tIndexes tdef)).

Lemma index_val_idem v : index_val (index_val v) = index_val v.
Proof. unfold index_val. destruct (bool_decide (vType v = TYPE_BYTES) && bool_decide (vStr v = [])) eqn:E; [|by rewrite E]. cbn. by rewrite andb_false_r. Qed.
Lemma index_val_wf t v : wf_key_val t v -> wf_key_val t (index_val v).
Proof. intros [[|b s]|n Hn Hm]; unfold index_val; cbn; [apply (wf_bytes [Byte.xff])|by constructor..]. Qed.
Lemma find_col_Some cols col j i : find_col cols col i = Some j -> (i <= j)%nat /\ cols !! (j - i)%nat = Some col.
Proof.
  revert i. induction cols as [|c cols IH]; intros i; cbn; [done|]. case_decide as Hc; [intros [= ->]; by rewrite Nat.sub_diag, Hc|].
  intros [Hle Hj]%IH. split; [lia|]. by replace (j - i)%nat with (S (j - S i)) by lia.
Qed.
Lemma find_col_in cols col i : col ∈ cols -> is_Some (find_col cols col i).
Proof.
  revert i. induction cols as [|c cols IH]; intros i; [by intros ?%not_elem_of_nil|]. rewrite elem_of_cons. cbn.
  case_decide as Hc; [by eexists|]. intros [->|Hin]; [done|]. by apply IH.
Qed.

(** A row as the loops may leave it: some empty strings replaced. *)
Definition touched : list Value -> list Value -> Prop := Forall2 (fun v v' => v' = v \/ v' = index_val v).
Lemma touched_refl row : touched row row.
Proof. induction row; constructor; [by left|done]. Qed.
Lemma touched_insert row row' j v : touched row row' -> row !! j = Some v -> touched row (<[j := index_val v]> row').
Proof. intros Ht Hv. rewrite <- (list_insert_id row j v Hv). apply Forall2_insert; [done|by right]. Qed.
Lemma touched_lookup row row' j v : touched row row' -> row !! j = Some v -> exists v', row' !! j = Some v' /\ index_val v' = index_val v.
Proof.
  intros Ht Hv. destruct (Forall2_lookup_l _ _ _ _ _ Ht Hv) as (v' & Hv' & [->| ->]); [by exists v|].
  exists (index_val v). by rewrite index_val_idem.
Qed.
Lemma touched_take p row row' : touched row row' -> Forall (fun v => index_val v = v) (take p row) -> take p row' = take p row.
Proof.
  intros Ht. revert p. induction Ht as [|v v' row row' Hv Ht IH]; intros [|p]; [done..|]. cbn [take].
  rewrite list.Forall_cons. intros [Hi Hf]. rewrite (IH p Hf). f_equal. destruct Hv as [->| ->]; done.
Qed.

Section Keys.
Context (tdef : TableDef) (p : nat) (Htd : tdef_ok tdef p).
(** A record that has a row of the table first; [dbGet] appends columns. *)
Context (row : list Value) (Hrow : row_ok tdef p row).

Lemma row_length : length row = length (tCols tdef).
Proof. destruct Hrow as [Hf _]. apply Forall2_length in Hf. by rewrite <- Hf, (td_types _ _ Htd). Qed.
Lemma find_col_app cols1 cols2 col i j : find_col cols1 col i = Some j -> find_col (cols1 ++ cols2) col i = Some j.
Proof. revert i. induction cols1 as [|c cols1 IH]; intros i; cbn; [done|]. case_decide; [done|apply IH]. Qed.
Lemma index_cols idx : forall row' cs vs pks, touched row row' -> Forall (fun col => col ∈ tCols tdef) idx ->
  exists row'', touched row row'' /\
    foldM index_col (mkRec (tCols tdef ++ cs) (row' ++ vs), pks) idx =
      Ok (mkRec (tCols tdef ++ cs) (row'' ++ vs), pks ++ map (fun col => index_val (col_val tdef row col)) idx).
Proof.
  induction idx as [|col idx IH]; intros row' cs vs pks Ht Hin; [exists row'; split; [done|by rewrite app_nil_r]|].
  apply list.Forall_cons in Hin as [Hc Hin]. destruct (find_col_in _ _ 0 Hc) as [j Hj].
  destruct (find_col_Some _ _ _ _ Hj) as [_ Hcj]. rewrite Nat.sub_0_r in Hcj.
  assert (Hv : is_Some (row !! j)) by (apply lookup_lt_is_Some; rewrite row_length; by eapply lookup_lt_Some).
  destruct Hv as [v Hv]. destruct (touched_lookup _ _ _ _ Ht Hv) as (v' & Hv' & Ei).
  assert (Hlt : (j < length row')%nat) by by eapply lookup_lt_Some.
  destruct (IH (<[j := index_val v]> row') cs vs (pks ++ [index_val v])) as (row'' & Ht' & E); [by apply touched_insert|done|].
  exists row''. split; [done|]. cbn [foldM index_col map]. unfold GetIdx. cbn [rCols rVals].
  rewrite (find_col_app _ cs _ _ _ Hj). rewrite (index_Ok _ _ v') by by rewrite lookup_app_l. cbn [mbind res_bind].
  fold (index_val v'). rewrite Ei, insert_app_l by done. rewrite E, <- (assoc_L app). unfold col_val. by rewrite Hj, Hv.
Qed.

Definition col_type (col : bytes) : Z :=
  match find_col (tCols tdef) col 0 with Some j => default 0 (tTypes tdef !! j) | None => 0 end.
Lemma col_val_wf col : col ∈ tCols tdef -> wf_key_val (col_type col) (col_val tdef row col).
Proof.
  intros Hc. destruct (find_col_in _ _ 0 Hc) as [j Hj]. unfold col_type, col_val. rewrite Hj.
  destruct (find_col_Some _ _ _ _ Hj) as [_ Hcj]. rewrite Nat.sub_0_r in Hcj. destruct Hrow as [Hf _].
  assert (Hv : is_Some (row !! j)) by (apply lookup_lt_is_Some; rewrite row_length; by eapply lookup_lt_Some).
  destruct Hv as [v Hv]. destruct (Forall2_lookup_r _ _ _ _ _ Hf Hv) as (t & Ht & Hw). by rewrite Hv, Ht.
Qed.
Definition sec_types (idx : list bytes) : list Z := map col_type idx ++ take p (tTypes tdef).
Lemma pk_wf : Forall2 wf_key_val (take p (tTypes tdef)) (take p row).
Proof. destruct Hrow as [Hf _]. by apply Forall2_take. Qed.
Lemma sec_wf idx : Forall (fun col => col ∈ tCols tdef) idx ->
  Forall2 wf_key_val (sec_types idx) (map (fun col => index_val (col_val tdef row col)) idx ++ take p row).
Proof.
  intros Hin. apply Forall2_app; [|apply pk_wf]. induction Hin as [|col idx Hc _ IH]; constructor; [|done].
  by apply index_val_wf, col_val_wf.
Qed.
Lemma EncodeKey_enc prefix ts vs : Forall2 wf_key_val ts vs -> EncodeKey prefix vs = Ok (enc_key prefix vs).
Proof. apply EncodeKey_wf. Qed.

Lemma index_key_spec i q idx row' cs vs keys : touched row row' -> Forall (fun col => col ∈ tCols tdef) idx ->
  tPrefixes tdef !! S i = Some q ->
  exists row'', touched row row'' /\ index_key tdef (mkRec (tCols tdef ++ cs) (row' ++ vs), keys) (i, idx) =
    Ok (mkRec (tCols tdef ++ cs) (row'' ++ vs), keys ++ [sec_key tdef p row q idx]).
Proof.
  intros Ht Hin Hq. destruct (index_cols idx row' cs vs [] Ht Hin) as (row'' & Ht' & E). exists row''. split; [done|].
  unfold index_key. rstep E. pose proof (Forall2_length Ht') as Hl. pose proof (td_p _ _ Htd) as Hp. pose proof row_length as Hrl.
  rewrite (td_pkeys _ _ Htd), slice_to_Ok by (cbn [rVals]; rewrite length_app; lia). cbn [mbind res_bind rVals].
  rewrite take_app_le by lia. rewrite (touched_take p row row'' Ht') by apply Hrow.
  replace (Z.of_nat i + 1) with (Z.of_nat (S i)) by lia. rstep (index_Ok _ _ _ Hq).
  cbn [app]. by rstep (EncodeKey_enc q _ _ (sec_wf idx Hin)).
Qed.
Lemma index_keys_spec idxs : forall k qs row' cs vs keys, touched row row' ->
  Forall (fun idx => Forall (fun col => col ∈ tCols tdef) idx) idxs ->
  length qs = length idxs -> (forall i q, qs !! i = Some q -> tPrefixes tdef !! S (k + i) = Some q) ->
  exists row'', touched row row'' /\
    foldM (index_key tdef) (mkRec (tCols tdef ++ cs) (row' ++ vs), keys) (imap (fun i idx => ((k + i)%nat, idx)) idxs) =
      Ok (mkRec (tCols tdef ++ cs) (row'' ++ vs), keys ++ zip_with (sec_key tdef p row) qs idxs).
Proof.
  induction idxs as [|idx idxs IH]; intros k [|q qs] row' cs vs keys Ht Hin Hl Hq; try done;
    [exists row'; split; [done|cbn; by rewrite app_nil_r]|].
  apply list.Forall_cons in Hin as [Hi Hin]. rewrite imap_cons. cbn [foldM zip_with]. rewrite Nat.add_0_r.
  destruct (index_key_spec k q idx row' cs vs keys Ht Hi) as (r1 & Ht1 & E1); [specialize (Hq 0%nat q eq_refl); by rewrite Nat.add_0_r in Hq|].
  rstep E1. destruct (IH (S k) qs r1 cs vs (keys ++ [sec_key tdef p row q idx])) as (r2 & Ht2 & E2);
    [done|done|by injection Hl|intros i q' Hi'; specialize (Hq (S i) q' Hi'); by rewrite Nat.add_succ_r in Hq|].
  exists r2. split; [done|]. rewrite <- (assoc_L app) in E2. cbn [app] in E2. rewrite <- E2. f_equal. apply imap_ext.
  intros i x _. cbn. by rewrite Nat.add_succ_r.
Qed.
Lemma GetSecondaryIndexesKeys_spec cs vs :
  exists row', touched row row' /\
    GetSecondaryIndexesKeys tdef (mkRec (tCols tdef ++ cs) (row ++ vs)) = Ok (mkRec (tCols tdef ++ cs) (row' ++ vs), sec_keys tdef p row).
Proof.
  unfold GetSecondaryIndexesKeys. pose proof (td_primary _ _ Htd) as Hne. pose proof (td_prefixes _ _ Htd) as Hlen.
  destruct (tIndexes tdef) as [|ix0 idxs] eqn:Ei; [done|]. destruct (tPrefixes tdef) as [|q0 qs] eqn:Eq; [done|].
  change 1 with (Z.of_nat 1). rewrite slice_after_Ok by (cbn; lia). cbn [mbind res_bind drop].
  destruct (index_keys_spec idxs 0 qs row cs vs [] (touched_refl row)) as (row' & Ht & E).
  - apply list.Forall_forall. intros idx Hidx. apply list.Forall_forall. intros col Hcol.
    apply (td_index _ _ Htd idx); [by rewrite Ei|done].
  - by injection Hlen.
  - intros i q Hq. by rewrite Eq.
  - exists row'. split; [done|]. unfold sec_keys. rewrite Ei, Eq. exact E.
Qed.
End Keys.

(** ** Keys determine their values *)

Lemma enc_vals_inj ts vs ws r1 r2 : Forall2 wf_key_val ts vs -> Forall2 wf_key_val ts ws ->
  concat (map enc_val vs) ++ r1 = concat (map enc_val ws) ++ r2 -> vs = ws.
Proof.
  intros Hv Hw E. destruct (decode_keys_wf ts vs r1 [] [] [] Hv eq_refl eq_refl) as (pks & rest & E1 & E2).
  destruct (decode_keys_wf ts ws r2 [] [] [] Hw eq_refl eq_refl) as (pks' & rest' & E3 & E4). rewrite E, E3 in E1.
  injection E1 as -> _. rewrite E4 in E2. by injection E2.
Qed.
Lemma enc_vals_eq ts vs ws : Forall2 wf_key_val ts vs -> Forall2 wf_key_val ts ws ->
  concat (map enc_val vs) = concat (map enc_val ws) -> vs = ws.
Proof. intros Hv Hw E. apply (enc_vals_inj ts vs ws [] [] Hv Hw). by rewrite E. Qed.
Lemma be_split_inj n x y : 0 <= x < 2 ^ (8 * Z.of_nat n) -> 0 <= y < 2 ^ (8 * Z.of_nat n) -> be_split n x = be_split n y -> x = y.
Proof. intros Hx Hy E. apply Z.compare_eq_iff. rewrite <- (bcmp_be_split n x y Hx Hy), E. apply bcmp_refl. Qed.
Lemma length_be_split n x : length (be_split n x) = n.
Proof. apply Nat2Z.inj. apply blen_be_split. Qed.
Lemma enc_key_inj q1 q2 vs ws : 0 <= q1 < 4294967296 -> 0 <= q2 < 4294967296 -> enc_key q1 vs = enc_key q2 ws ->
  q1 = q2 /\ concat (map enc_val vs) = concat (map enc_val ws).
Proof.
  intros H1 H2 E. apply app_inj_1 in E as [Eq E]; [|by rewrite !length_be_split]. split; [|done]. by apply (be_split_inj 4).
Qed.
Lemma enc_key_nonempty q vs : enc_key q vs <> [].
Proof. unfold enc_key. intros E. apply (f_equal length) in E. rewrite length_app, length_be_split in E. done. Qed.

(** ** The key of a row from a key of an index *)

Section Decode.
Context (tdef : TableDef) (p : nat) (Htd : tdef_ok tdef p).
Context (row : list Value) (Hrow : row_ok tdef p row).

Lemma index_types_spec idx : forall types, Forall (fun col => col ∈ tCols tdef) idx ->
  foldM (fun types col =>
    match find_col (tCols tdef) col 0 with
    | Some i => t ← index (tTypes tdef) (Z.of_nat i); Ok (types ++ [t])
    | None => Ok types
    end) types idx = Ok (types ++ map (col_type tdef) idx).
Proof.
  induction idx as [|col idx IH]; intros types Hin; [cbn; by rewrite app_nil_r|]. apply list.Forall_cons in Hin as [Hc Hin].
  cbn [foldM map]. destruct (find_col_in _ _ 0 Hc) as [j Hj]. rewrite Hj. destruct (find_col_Some _ _ _ _ Hj) as [_ Hcj].
  rewrite Nat.sub_0_r in Hcj. assert (Ht : is_Some (tTypes tdef !! j)) by (apply lookup_lt_is_Some; rewrite (td_types _ _ Htd); by eapply lookup_lt_Some).
  destruct Ht as [t Ht]. rstep (index_Ok _ _ _ Ht). rewrite IH by done. unfold col_type. by rewrite Hj, Ht, <- (assoc_L app).
Qed.
Lemma skip_cols ts vs rest : Forall2 wf_key_val ts vs -> foldM skip_col (concat (map enc_val vs) ++ rest) ts = Ok rest.
Proof.
  intros Hf. induction Hf as [|t v ts vs Hv _ IH]; [done|]. cbn [map concat foldM]. rewrite <- (assoc_L app).
  assert (E : skip_col (enc_val v ++ concat (map enc_val vs) ++ rest) t = Ok (concat (map enc_val vs) ++ rest)); [|by rstep E].
  destruct Hv as [s|n Hn Hm]; unfold skip_col.
  - rewrite decide_True, enc_val_bytes, <- (assoc_L app) by done. cbn [app].
    by rstep (scan_delim_app _ (concat (map enc_val vs) ++ rest) [] (SerializeBytes_no_delim s)).
  - rewrite decide_False, decide_True, enc_val_int by done. rewrite drop_app_length'; [done|by rewrite length_be_split].
Qed.
Lemma add_pks ts vs pks : forall k rec0, Forall2 wf_key_val ts vs -> Forall2 (fun tv pk => decode_pk tv.1 pk = Ok tv.2) (zip ts vs) pks ->
  (k + length ts <= length (tCols tdef))%nat ->
  foldM (add_pk tdef) rec0 (imap (fun i x => ((k + i)%nat, x)) (zip ts pks)) =
    Ok (mkRec (rCols rec0 ++ take (length ts) (drop k (tCols tdef))) (rVals rec0 ++ vs)).
Proof.
  revert vs pks. induction ts as [|t ts IH]; intros vs pks k rec0 Hf Hd Hk.
  { inversion Hf; subst. cbn. rewrite !app_nil_r. by destruct rec0. }
  inversion Hf as [|? v ? vs' Hv Hf']; subst. inversion Hd as [|? pk ? pks' Hpk Hd']; subst. cbn [fst snd] in Hpk.
  assert (Hc : is_Some (tCols tdef !! k)) by (apply lookup_lt_is_Some; cbn in Hk; lia). destruct Hc as [c Hc].
  cbn [zip_with]. rewrite imap_cons. cbn [foldM]. rewrite Nat.add_0_r.
  assert (E : add_pk tdef rec0 (k, (t, pk)) = Ok (mkRec (rCols rec0 ++ [c]) (rVals rec0 ++ [v]))).
  { unfold add_pk. unfold decode_pk in Hpk. destruct Hv as [s|n Hn Hm].
    - rewrite decide_False, decide_True by done. rewrite decide_False, decide_True in Hpk by done. rinv Hpk. injection Hpk as ->. rstep E. by rstep (index_Ok _ _ _ Hc).
    - rewrite decide_True by done. rewrite decide_True in Hpk by done. rinv Hpk. injection Hpk as ->. rstep E. by rstep (index_Ok _ _ _ Hc). }
  rstep E. specialize (IH vs' pks' (S k) (mkRec (rCols rec0 ++ [c]) (rVals rec0 ++ [v])) Hf' Hd' ltac:(cbn in *; lia)).
  cbn [rCols rVals length] in *. rewrite (drop_S _ _ _ Hc). cbn [take]. rewrite <- !(assoc_L app) in IH. cbn [app] in IH. rewrite <- IH.
  f_equal. apply imap_ext. intros i x _. cbn. by rewrite Nat.add_succ_r.
Qed.
Lemma split_pks ts vs rest : Forall2 wf_key_val ts vs -> forall pks0, exists pks,
  foldM split_key1 (pks0, concat (map enc_val vs) ++ rest) ts = Ok (pks0 ++ pks, rest) /\
  Forall2 (fun tv pk => decode_pk tv.1 pk = Ok tv.2) (zip ts vs) pks.
Proof.
  induction 1 as [|t v ts vs Hv _ IH]; intros pks0; [exists []; split; [by rewrite app_nil_r|constructor]|].
  cbn [map concat foldM]. rewrite <- (assoc_L app).
  destruct (split_key1_wf t v (concat (map enc_val vs) ++ rest) pks0 Hv) as (pk & E1 & E2). rstep E1.
  destruct (IH (pks0 ++ [pk])) as (pks & E3 & Hf). exists (pk :: pks). split; [by rewrite E3, <- (assoc_L app)|by constructor].
Qed.
Lemma GetPKFromSecKey_spec i q idx rest : tIndexes tdef !! S i = Some idx ->
  GetPKFromSecKey tdef (sec_key tdef p row q idx ++ rest) (Z.of_nat (S i)) = Ok (mkRec (take p (tCols tdef)) (take p row)).
Proof.
  intros Hi. pose proof (td_p _ _ Htd) as Hp. pose proof (td_types _ _ Htd) as Hts.
  assert (Hin : Forall (fun col => col ∈ tCols tdef) idx).
  { apply list.Forall_forall. intros col Hcol. apply (td_index _ _ Htd idx); [|done].
    apply (list_elem_of_lookup_2 _ i). by rewrite lookup_tail. }
  pose proof (sec_wf tdef p Htd row Hrow idx Hin) as Hw. apply Forall2_app_inv in Hw as [Hw1 Hw2];
    [|by rewrite !length_map].
  assert (E0 : slice_from (sec_key tdef p row q idx ++ rest) 4 =
    Ok (concat (map enc_val (map (fun col => index_val (col_val tdef row col)) idx)) ++ concat (map enc_val (take p row)) ++ rest)).
  { unfold sec_key, enc_key. rewrite <- !(assoc_L app). rewrite slice_from_Ok by (rewrite blen_app, blen_be_split; match goal with |- _ <= _ <= _ + blen ?l => pose proof (blen_nonneg l) end; lia). rewrite drop_app_length' by by rewrite length_be_split.
    by rewrite map_app, concat_app, <- (assoc_L app). }
  unfold GetPKFromSecKey. rstep E0. rstep (index_Ok _ _ _ Hi). unfold index_types. rewrite (index_types_spec idx [] Hin). cbn [app mbind res_bind].
  rstep (skip_cols _ _ (concat (map enc_val (take p row)) ++ rest) Hw1).
  rewrite (td_pkeys _ _ Htd), slice_to_Ok by lia. cbn [mbind res_bind].
  destruct (split_pks _ _ rest Hw2 []) as (pks & E & Hd). rstep E. cbn [app].
  pose proof (add_pks _ _ _ 0 emptyRec Hw2 Hd ltac:(rewrite length_take; lia)) as HA.
  change (imap (fun i x => ((0 + i)%nat, x)) (zip (take p (tTypes tdef)) pks)) with (imap pair (zip (take p (tTypes tdef)) pks)) in HA.
  rewrite HA. cbn [rCols rVals emptyRec app]. by rewrite drop_0, length_take, Nat.min_l by lia.
Qed.
End Decode.

(** C34: The key of a row from its key in a secondary index.  For each index after the
    first, GetSecondaryIndexesKeys gives the row one key, of the indexed columns and
    the primary key, in the order of the indexes; and GetPKFromSecKey of that
    key, whatever follows it, is the record of the primary key.  The only values
    of the record it is given that change are empty strings, to the byte 255. *)
Theorem secondary_key_roundtrip tdef p row : tdef_ok tdef p -> row_ok tdef p row ->
  exists row' keys, GetSecondaryIndexesKeys tdef (row_rec tdef row) = Ok (row_rec tdef row', keys) /\ touched row row' /\
    length keys = (length (tIndexes tdef) - 1)%nat /\
    forall i key rest, keys !! i = Some key ->
      GetPKFromSecKey tdef (key ++ rest) (Z.of_nat (S i)) = Ok (mkRec (take p (tCols tdef)) (take p row)).
Proof.
  intros Htd Hrow. destruct (GetSecondaryIndexesKeys_spec tdef p Htd row Hrow [] []) as (row' & Ht & E).
  rewrite !app_nil_r in E. exists row', (sec_keys tdef p row). split; [done|]. split; [done|]. split.
  - unfold sec_keys. rewrite length_zip_with, !List.length_tl, (td_prefixes _ _ Htd). lia.
  - intros i key rest Hk. unfold sec_keys in Hk. apply lookup_zip_with_Some in Hk as (q & idx & -> & Hq & Hi).
    rewrite lookup_tail in Hi. by apply GetPKFromSecKey_spec.
Qed.

Definition people_def : TableDef :=
  mkTableDef (gostr "people") [gostr "id"; gostr "name"; gostr "age"] [TYPE_INT64; TYPE_BYTES; TYPE_INT64] 1 [100; 101; 102]
    [[gostr "id"]; [gostr "name"]; [gostr "age"; gostr "name"]].
Lemma people_ok : tdef_ok people_def 1.
Proof.
  split; try done; try (cbn; lia).
  - apply (bool_decide_eq_true (NoDup (tCols people_def))). reflexivity.
  - apply (bool_decide_eq_true (NoDup (tPrefixes people_def))). reflexivity.
  - repeat constructor; done.
  - intros idx col. cbn. rewrite !elem_of_cons, elem_of_nil. intros [->|[->|[]]]; rewrite !elem_of_cons, elem_of_nil; tauto.
Qed.
Definition ann : list Value := [IntVal 7; BytesVal (gostr "ann"); IntVal 30].
Lemma ann_ok : row_ok people_def 1 ann.
Proof.
  split; [|by repeat constructor]. unfold ann. cbn. repeat constructor; done.
Qed.
Lemma secondary_key_roundtrip_witness : exists row' keys, GetSecondaryIndexesKeys people_def (row_rec people_def ann) = Ok (row_rec people_def row', keys) /\
  forall i key rest, keys !! i = Some key -> GetPKFromSecKey people_def (key ++ rest) (Z.of_nat (S i)) = Ok (AddI64 emptyRec (gostr "id") 7).
Proof.
  destruct (secondary_key_roundtrip people_def 1 ann people_ok ann_ok) as (row' & keys & E & _ & _ & H).
  exists row', keys. exact (conj E H).
Defined.
