(* ===== verification/BNode.v ===== *)
(** * storage/btree.go: B+tree nodes as pages of bytes

    A [BNode] is the byte slice it is in Go, laid out as
    [type:2 | nkeys:2 | nkeys pointers:8 | nkeys offsets:2 | key-values], each
    key-value [klen:2 | vlen:2 | key | val].  Operations that fill a node in
    place return the new contents.  All [uint16] arithmetic wraps.  A call of
    [log.Fatalf] is [Crash FatalExit]. *)
From Stdlib Require Import ZArith Lia.
From stdpp Require Import base gmap list strings countable.
From coqutil Require Import Byte Word.LittleEndianList.
From S2P Require Import Prelude.

Definition PAGE_SIZE : Z := 4096.
Definition HEADER : Z := 4.
Definition POINTER : Z := 8.
Definition OFFSET : Z := 2.
Definition KVHEADER : Z := 4.
Definition MAXKEYLEN : Z := 1000.
Definition MAXVALLEN : Z := 3000.
Definition BNODE_NODE : Z := 1.
Definition BNODE_LEAF : Z := 2.

(** [init] exits unless one maximal entry fits a page. *)
Definition btree_init : res unit :=
  let node1max := HEADER + POINTER + OFFSET + (KVHEADER + MAXKEYLEN + MAXVALLEN) in
  if PAGE_SIZE <? node1max then Crash FatalExit else Ok tt.

Definition assert (condition : bool) : res unit := if condition then Ok tt else Crash Panicked.

Abbreviation BNode := (list Byte.byte).

(** ** Header, pointers, offsets *)

Definition btype (b : BNode) : res Z := get_le 2 b 0.
Definition nkeys (b : BNode) : res Z := get_le 2 b 2.

Definition getptr (b : BNode) (idx : Z) : res Z :=
  nk ← nkeys b;
  check negb (nk <=? idx) or FatalExit;;
  let sbyte := u16 (HEADER + u16 (idx * 8)) in
  get_le 8 b sbyte.

Definition setptr (b : BNode) (idx ptr : Z) : res BNode :=
  nk ← nkeys b;
  check negb (nk <=? idx) or FatalExit;;
  let sbyte := u16 (HEADER + u16 (idx * 8)) in
  put_le 8 b sbyte ptr.

Definition offsetPos (b : BNode) (idx : Z) : res Z :=
  nk ← nkeys b;
  check negb (nk <? idx) or FatalExit;;
  Ok (u16 (HEADER + u16 (nk * POINTER) + u16 (u16 (idx - 1) * OFFSET))).

Definition getOffset (b : BNode) (idx : Z) : res Z :=
  if decide (idx = 0) then Ok 0
  else pos ← offsetPos b idx; get_le 2 b pos.

Definition setOffset (b : BNode) (idx val : Z) : res BNode :=
  nk ← nkeys b;
  check negb (nk <? idx) or FatalExit;;
  sbyte ← offsetPos b idx;
  put_le 2 b sbyte val.

Definition setHeader (node : BNode) (bt nk : Z) : res BNode :=
  node ← put_le 2 node 0 bt;
  put_le 2 node 2 nk.

(** ** Key-values *)

Definition kvPos (node : BNode) (idx : Z) : res Z :=
  nk ← nkeys node;
  off ← getOffset node idx;
  Ok (u16 (HEADER + u16 (8 * nk) + u16 (2 * nk) + off)).

Definition getKey (node : BNode) (idx : Z) : res bytes :=
  pos ← kvPos node idx;
  klen ← get_le 2 node pos;
  rest ← slice_from node (u16 (pos + 4));
  slice rest 0 klen.

Definition getVal (node : BNode) (idx : Z) : res bytes :=
  pos ← kvPos node idx;
  klen ← get_le 2 node (u16 (pos + 0));
  vlen ← get_le 2 node (u16 (pos + 2));
  rest ← slice_from node (u16 (pos + 4 + klen));
  slice rest 0 vlen.

Definition nbytes (node : BNode) : res Z :=
  nk ← nkeys node; kvPos node nk.

Definition kvStart (node : BNode) : res Z :=
  nk ← nkeys node;
  Ok (u16 (HEADER + u16 (POINTER * nk) + u16 (OFFSET * nk))).

(** Binary search: the loop of [nodeLookupLE]; [high - low] shrinks at every
    turn, so [nkeys + 1] turns are enough. *)
Fixpoint lookup_loop (fuel : nat) (node : BNode) (key : bytes) (low high found : Z) : res Z :=
  match fuel with
  | O => Crash OutOfFuel
  | S fuel =>
      if low <? high then
        let mid := u16 (low + u16 (high - low) / 2) in
        k ← getKey node mid;
        let cmp := Compare k key in
        if cmp =? 0 then Ok mid
        else if cmp <? 0 then lookup_loop fuel node key (u16 (mid + 1)) high mid
        else lookup_loop fuel node key low mid found
      else Ok found
  end.
Definition nodeLookupLE (node : BNode) (key : bytes) : res Z :=
  high ← nkeys node;
  lookup_loop (S (Z.to_nat high)) node key 1 high 0.

(** ** Filling nodes *)

Definition nodeAppendKV (new : BNode) (idx ptr : Z) (key val : bytes) : res BNode :=
  new ← setptr new idx ptr;
  pos ← kvPos new idx;
  new ← put_le 2 new (u16 (pos + 0)) (u16 (blen key));
  new ← put_le 2 new (u16 (pos + 2)) (u16 (blen val));
  new ← copy_at new (u16 (pos + KVHEADER)) key;
  new ← copy_at new (u16 (pos + KVHEADER + u16 (blen key))) val;
  off ← getOffset new idx;
  setOffset new (u16 (idx + 1)) (u16 (off + KVHEADER + u16 (blen key + blen val))).

(** The two loops of [nodeAppendRange], [i] in [0..n-1] and in [1..n]. *)
Definition append_ptr (old : BNode) (dstNew srcOld : Z) (new : BNode) (i : nat) : res BNode :=
  p ← getptr old (u16 (srcOld + Z.of_nat i));
  setptr new (u16 (dstNew + Z.of_nat i)) p.
Definition append_off (old : BNode) (dstNew srcOld shift : Z) (new : BNode) (i : nat) : res BNode :=
  oldOffset ← getOffset old (u16 (srcOld + Z.of_nat i));
  setOffset new (u16 (dstNew + Z.of_nat i)) (u16 (oldOffset + shift)).

Definition nodeAppendRange (new old : BNode) (dstNew srcOld n : Z) : res BNode :=
  nkNew ← nkeys new;
  check negb (nkNew <? u16 (dstNew + n)) or FatalExit;;
  nkOld ← nkeys old;
  check negb (nkOld <? u16 (srcOld + n)) or FatalExit;;
  if decide (n = 0) then Ok new else
  new ← foldM (append_ptr old dstNew srcOld) new (seq 0 (Z.to_nat n));
  dstBegin ← getOffset new dstNew;
  srcBegin ← getOffset old srcOld;
  let shiftDistance := u16 (dstBegin - srcBegin) in
  new ← foldM (append_off old dstNew srcOld shiftDistance) new (seq 1 (Z.to_nat n));
  oldStart ← kvStart old;
  srcOff ← getOffset old srcOld;
  let begin := u16 (srcOff + oldStart) in
  endOff ← getOffset old (u16 (srcOld + n));
  let end_ := u16 (endOff + oldStart) in
  newStart ← kvStart new;
  dstOff ← getOffset new dstNew;
  let newBegin := u16 (dstOff + newStart) in
  data ← slice old begin end_;
  copy_at new newBegin data.

Definition leafInsert (new old : BNode) (idx : Z) (key val : bytes) : res BNode :=
  nk ← nkeys old;
  new ← setHeader new BNODE_LEAF (u16 (nk + 1));
  new ← nodeAppendRange new old 0 0 idx;
  new ← nodeAppendKV new idx 0 key val;
  nodeAppendRange new old (u16 (idx + 1)) idx (u16 (nk - idx)).

Definition leafUpdate (new old : BNode) (idx : Z) (key val : bytes) : res BNode :=
  bt ← btype old;
  nk ← nkeys old;
  new ← setHeader new bt nk;
  new ← nodeAppendRange new old 0 0 idx;
  new ← nodeAppendKV new idx 0 key val;
  nodeAppendRange new old (u16 (idx + 1)) (u16 (idx + 1)) (u16 (nk - u16 (idx + 1))).

Definition leafDelete (new old : BNode) (idx : Z) : res BNode :=
  nk ← nkeys old;
  new ← setHeader new BNODE_LEAF (u16 (nk - 1));
  new ← nodeAppendRange new old 0 0 idx;
  nodeAppendRange new old idx (u16 (idx + 1)) (u16 (u16 (nk - idx) - 1)).

Definition nodeReplace2Kid (new old : BNode) (idx mergedPtr : Z) (key : bytes) : res BNode :=
  bt ← btype old;
  nk ← nkeys old;
  new ← setHeader new bt (u16 (nk - 1));
  new ← nodeAppendRange new old 0 0 idx;
  new ← nodeAppendKV new idx mergedPtr key [];
  nodeAppendRange new old (u16 (idx + 1)) (u16 (idx + 2)) (u16 (nk - u16 (idx + 2))).

Definition nodeMerge (new left right : BNode) : res BNode :=
  bt ← btype left;
  nl ← nkeys left;
  nr ← nkeys right;
  new ← setHeader new bt (u16 (nl + nr));
  new ← nodeAppendRange new left 0 0 nl;
  nodeAppendRange new right nl 0 nr.

(** ** Splitting *)

(** The two size loops of [nodeSplit2]; each turn moves [idx] by one, so
    [nkeys + 1] turns are enough. *)
Fixpoint split_down (fuel : nat) (old : BNode) (size idx : Z) : res Z :=
  match fuel with
  | O => Crash OutOfFuel
  | S fuel =>
      if (size <? PAGE_SIZE) && (0 <? idx) then
        posLeft ← kvPos old (u16 (idx - 1));
        posRight ← kvPos old idx;
        split_down fuel old (u16 (size + u16 (u16 (u16 (posRight - posLeft) + POINTER) + OFFSET))) (u16 (idx - 1))
      else Ok idx
  end.
Fixpoint split_up (fuel : nat) (old : BNode) (halfSize nk size idx : Z) : res Z :=
  match fuel with
  | O => Crash OutOfFuel
  | S fuel =>
      if (size <? halfSize) && (idx <? nk) then
        posRight ← kvPos old (u16 (idx + 1));
        posLeft ← kvPos old idx;
        split_up fuel old halfSize nk (u16 (size + u16 (u16 (u16 (posRight - posLeft) + POINTER) + OFFSET))) (u16 (idx + 1))
      else Ok idx
  end.

(** The part both branches end with: fill [left] and [right]. *)
Definition split_fill (left right old : BNode) (idx : Z) : res (BNode * BNode * Z) :=
  bt ← btype old;
  nk ← nkeys old;
  left ← setHeader left bt idx;
  right ← setHeader right bt (u16 (nk - idx));
  left ← nodeAppendRange left old 0 0 idx;
  right ← nodeAppendRange right old 0 idx (u16 (nk - idx));
  Ok (left, right, idx).

Definition nodeSplit2 (left right old : BNode) : res (BNode * BNode * Z) :=
  nb ← nbytes old;
  if nb <=? PAGE_SIZE then Ok (left, right, 0) else
  nk ← nkeys old;
  if 2 * PAGE_SIZE <? nb then
    idx ← split_down (S (Z.to_nat nk)) old HEADER nk;
    split_fill left right old (u16 (idx + 1))
  else
    idx ← split_up (S (Z.to_nat nk)) old (nb / 2) nk HEADER 0;
    split_fill left right old idx.

Definition nodeSplit3 (old : BNode) : res (list BNode) :=
  nb ← nbytes old;
  if nb <=? PAGE_SIZE then
    old ← slice old 0 PAGE_SIZE; Ok [old]
  else
    let left := make_bytes (2 * PAGE_SIZE) in
    let right := make_bytes PAGE_SIZE in
    '(left, right, _) ← nodeSplit2 left right old;
    nbl ← nbytes left;
    if nbl <=? PAGE_SIZE then
      left ← slice left 0 PAGE_SIZE; Ok [left; right]
    else
      let leftleft := make_bytes PAGE_SIZE in
      let middle := make_bytes PAGE_SIZE in
      '(leftleft, middle, _) ← nodeSplit2 leftleft middle left;
      nbll ← nbytes leftleft;
      _ ← assert (nbll <=? PAGE_SIZE);
      Ok [leftleft; middle; right].
