(* ===== verification/NodeLayout.v ===== *)
(** * The contents of a B+tree page

    The abstract view of a node is its type and the list of its entries
    (pointer, key, value); [node_repr] says that a byte string is laid out as
    that node, possibly with only the first entries filled in.  Every node
    operation of [BNode] is shown to act on the entry list as the list operation
    it stands for, whatever bytes the destination buffer held. *)
From Stdlib Require Import ZArith Lia Sorted.
From stdpp Require Import base gmap list strings countable.
From coqutil Require Import Byte Word.LittleEndianList.
From S2P Require Import Prelude BNode.

Record entry := mkEntry { ePtr : Z; eKey : bytes; eVal : bytes }.

(** Bytes of the key-value part of an entry, of a list of entries, and of a
    node with [n] pointer and offset slots. *)
Definition esize (e : entry) : Z := 4 + blen (eKey e) + blen (eVal e).
Fixpoint kvsize (es : list entry) : Z :=
  match es with [] => 0 | e :: es' => esize e + kvsize es' end.
Definition node_size (es : list entry) : Z := 4 + 10 * Z.of_nat (length es) + kvsize es.

(** The three regions a list of entries occupies. *)
Definition ptrs (es : list entry) : bytes := concat (map (le_split 8) (map ePtr es)).
Fixpoint end_offs (base : Z) (es : list entry) : list Z :=
  match es with [] => [] | e :: es' => (base + esize e) :: end_offs (base + esize e) es' end.
Definition offs (base : Z) (es : list entry) : bytes := concat (map (le_split 2) (end_offs base es)).
Definition kv (e : entry) : bytes :=
  le_split 2 (blen (eKey e)) ++ le_split 2 (blen (eVal e)) ++ eKey e ++ eVal e.
Definition kvs (es : list entry) : bytes := concat (map kv es).

Definition entry_ok (e : entry) : Prop := in_u64 (ePtr e).

Record node_repr (b : bytes) (t n : Z) (es : list entry) : Prop := {
  nr_small : blen b < 65536;
  nr_t : in_u16 t;
  nr_count : Z.of_nat (length es) <= n;
  nr_fits : 4 + 10 * n + kvsize es <= blen b;
  nr_entries : Forall entry_ok es;
  nr_header : holds b 0 (le_split 2 t ++ le_split 2 n);
  nr_ptrs : holds b 4 (ptrs es);
  nr_offs : holds b (4 + 8 * n) (offs 0 es);
  nr_kvs : holds b (4 + 10 * n) (kvs es)
}.

(** A complete node: as many entries as the header says. *)
Definition node_is (b : bytes) (t : Z) (es : list entry) : Prop :=
  node_repr b t (Z.of_nat (length es)) es.

(** ** Sizes of the regions *)

Lemma esize_pos e : 4 <= esize e.
Proof. unfold esize. pose proof (blen_nonneg (eKey e)). pose proof (blen_nonneg (eVal e)). lia. Qed.
Lemma kvsize_nonneg es : 0 <= kvsize es.
Proof. induction es as [|e es IH]; cbn; [lia|]. pose proof (esize_pos e). lia. Qed.
Lemma kvsize_app es1 es2 : kvsize (es1 ++ es2) = kvsize es1 + kvsize es2.
Proof. induction es1 as [|e es IH]; cbn; lia. Qed.
Lemma kvsize_take_drop i es : kvsize es = kvsize (take i es) + kvsize (drop i es).
Proof. by rewrite <- kvsize_app, take_drop. Qed.
Lemma kvsize_take_le i es : kvsize (take i es) <= kvsize es.
Proof. pose proof (kvsize_take_drop i es). pose proof (kvsize_nonneg (drop i es)). lia. Qed.

Lemma blen_concat_le w us : blen (concat (map (le_split w) us)) = Z.of_nat w * Z.of_nat (length us).
Proof.
  induction us as [|u us IH]; cbn; [unfold blen; cbn; lia|].
  rewrite blen_app, blen_le_split, IH. lia.
Qed.
Lemma blen_ptrs es : blen (ptrs es) = 8 * Z.of_nat (length es).
Proof. unfold ptrs. by rewrite blen_concat_le, length_map. Qed.
Lemma length_end_offs base es : length (end_offs base es) = length es.
Proof. revert base; induction es as [|e es IH]; intros base; cbn; [done|]. by rewrite IH. Qed.
Lemma blen_offs base es : blen (offs base es) = 2 * Z.of_nat (length es).
Proof. unfold offs. by rewrite blen_concat_le, length_end_offs. Qed.
Lemma blen_kv e : blen (kv e) = esize e.
Proof. unfold kv, esize. rewrite !blen_app, !blen_le_split. lia. Qed.
Lemma blen_kvs es : blen (kvs es) = kvsize es.
Proof. induction es as [|e es IH]; [done|].
  change (kvs (e :: es)) with (kv e ++ kvs es). cbn [kvsize]. by rewrite blen_app, blen_kv, IH.
Qed.

Lemma ptrs_app es1 es2 : ptrs (es1 ++ es2) = ptrs es1 ++ ptrs es2.
Proof. unfold ptrs. by rewrite !map_app, concat_app. Qed.
Lemma kvs_app es1 es2 : kvs (es1 ++ es2) = kvs es1 ++ kvs es2.
Proof. unfold kvs. by rewrite map_app, concat_app. Qed.
Lemma end_offs_app base es1 es2 :
  end_offs base (es1 ++ es2) = end_offs base es1 ++ end_offs (base + kvsize es1) es2.
Proof.
  revert base; induction es1 as [|e es IH]; intros base; cbn.
  - by rewrite Z.add_0_r.
  - rewrite IH. do 3 f_equal. lia.
Qed.
Lemma offs_app base es1 es2 : offs base (es1 ++ es2) = offs base es1 ++ offs (base + kvsize es1) es2.
Proof. unfold offs. by rewrite end_offs_app, map_app, concat_app. Qed.
Lemma end_offs_lookup base es i e : es !! i = Some e ->
  end_offs base es !! i = Some (base + kvsize (take (S i) es)).
Proof.
  revert base i; induction es as [|e' es IH]; intros base [|i] H; try done.
  - cbn. rewrite take_0. injection H as <-. f_equal. cbn. lia.
  - change (end_offs (base + esize e') es !! i = Some (base + (esize e' + kvsize (take (S i) es)))).
    rewrite (IH (base + esize e') i H). f_equal. lia.
Qed.

(** An entry, split from those before and after it. *)
Lemma entries_split (es : list entry) i e : es !! i = Some e ->
  es = take i es ++ e :: drop (S i) es /\ length (take i es) = i.
Proof.
  intros H. split; [symmetry; by apply take_drop_middle|].
  apply length_take_le. apply lookup_lt_Some in H. lia.
Qed.

(** ** Reading a laid-out node *)

Section Reading.
Context {b t n es} (R : node_repr b t n es).

Lemma repr_bounds : 0 <= Z.of_nat (length es) <= n /\ 0 <= n /\ 10 * n < 65532 /\
  0 <= kvsize es /\ 4 + 10 * n + kvsize es < 65536.
Proof.
  pose proof (nr_small _ _ _ _ R). pose proof (nr_count _ _ _ _ R).
  pose proof (nr_fits _ _ _ _ R). pose proof (kvsize_nonneg es). lia.
Qed.

Lemma repr_btype : btype b = Ok t.
Proof.
  pose proof (nr_header _ _ _ _ R) as H.
  apply holds_app in H as [H _]. pose proof (nr_t _ _ _ _ R) as Ht. unfold in_u16 in Ht.
  unfold btype. apply holds_get_le; [exact H|]. exact Ht.
Qed.
Lemma repr_nkeys : nkeys b = Ok n.
Proof.
  pose proof (nr_header _ _ _ _ R) as H. pose proof repr_bounds.
  apply holds_app in H as [_ H]. rewrite blen_le_split in H.
  unfold nkeys. apply holds_get_le; [exact H|]. change (2 ^ _) with 65536. lia.
Qed.

Lemma u16_id z : 0 <= z < 65536 -> u16 z = z.
Proof. apply u16_small. Qed.

Lemma repr_getptr i e : es !! i = Some e -> getptr b (Z.of_nat i) = Ok (ePtr e).
Proof.
  intros Hi. pose proof (lookup_lt_Some _ _ _ Hi). pose proof repr_bounds.
  unfold getptr. rstep repr_nkeys. rewrite guard_true by (apply negb_true_iff, Z.leb_gt; lia).
  unfold HEADER. rewrite !u16_id by (rewrite ?u16_id by lia; lia).
  pose proof (nr_ptrs _ _ _ _ R) as HP. destruct (entries_split es i e Hi) as [E El].
  rewrite E, ptrs_app in HP. apply holds_app in HP as [_ HP].
  rewrite blen_ptrs, El in HP. cbn [ptrs map concat] in HP.
  change (ptrs (e :: ?l)) with (le_split 8 (ePtr e) ++ ptrs l) in HP.
  apply holds_app in HP as [HP _].
  replace (4 + Z.of_nat i * 8) with (4 + 8 * Z.of_nat i) by lia.
  apply holds_get_le; [exact HP|].
  pose proof (nr_entries _ _ _ _ R) as HF. by apply (Forall_lookup_1 _ _ _ _ HF Hi).
Qed.

Lemma repr_offsetPos i : 0 < i <= n -> offsetPos b i = Ok (4 + 8 * n + 2 * (i - 1)).
Proof.
  intros Hi. pose proof repr_bounds. unfold offsetPos. rstep repr_nkeys.
  rewrite guard_true by (apply negb_true_iff, Z.ltb_ge; lia).
  unfold HEADER, POINTER, OFFSET.
  rewrite (u16_id (i - 1)), (u16_id (n * 8)), (u16_id ((i - 1) * 2)) by lia.
  rewrite u16_id by lia. f_equal. lia.
Qed.

Lemma repr_getOffset i : (i <= length es)%nat -> getOffset b (Z.of_nat i) = Ok (kvsize (take i es)).
Proof.
  intros Hi. pose proof repr_bounds. unfold getOffset. destruct i as [|i]; [done|].
  rewrite decide_False by lia.
  rstep (repr_offsetPos (Z.of_nat (S i)) ltac:(lia)).
  destruct (lookup_lt_is_Some_2 es i ltac:(lia)) as [e He].
  pose proof (nr_offs _ _ _ _ R) as HO. destruct (entries_split es i e He) as [E El].
  rewrite E, offs_app in HO. apply holds_app in HO as [_ HO].
  rewrite blen_offs, El in HO.
  change (offs ?x (e :: ?l)) with (le_split 2 (x + esize e) ++ offs (x + esize e) l) in HO.
  apply holds_app in HO as [HO _].
  assert (Hk : kvsize (take (S i) es) = 0 + kvsize (take i es) + esize e).
  { rewrite (take_S_r es i e He), kvsize_app. cbn. lia. }
  rewrite Hk. replace (4 + 8 * n + 2 * (Z.of_nat (S i) - 1)) with (4 + 8 * n + 2 * Z.of_nat i) by lia.
  apply holds_get_le; [exact HO|]. change (2 ^ _) with 65536.
  pose proof (kvsize_take_le (S i) es). pose proof (kvsize_nonneg (take (S i) es)). lia.
Qed.

Lemma repr_getOffset_all : getOffset b (Z.of_nat (length es)) = Ok (kvsize es).
Proof. rewrite repr_getOffset by done. by rewrite firstn_all. Qed.

Lemma repr_kvPos i : (i <= length es)%nat -> kvPos b (Z.of_nat i) = Ok (4 + 10 * n + kvsize (take i es)).
Proof.
  intros Hi. pose proof repr_bounds. pose proof (kvsize_take_le i es).
  pose proof (kvsize_nonneg (take i es)).
  unfold kvPos. rstep repr_nkeys. rstep (repr_getOffset i Hi). unfold HEADER.
  rewrite (u16_id (8 * n)), (u16_id (2 * n)) by lia. rewrite u16_id by lia. f_equal. lia.
Qed.

Lemma repr_kv i e : es !! i = Some e -> holds b (4 + 10 * n + kvsize (take i es)) (kv e).
Proof.
  intros Hi. pose proof (nr_kvs _ _ _ _ R) as HK. destruct (entries_split es i e Hi) as [E El].
  rewrite E, kvs_app in HK. apply holds_app in HK as [_ HK]. rewrite blen_kvs in HK.
  change (kvs (e :: ?l)) with (kv e ++ kvs l) in HK. by apply holds_app in HK as [HK _].
Qed.

Lemma repr_kv_fits i e : es !! i = Some e -> kvsize (take i es) + esize e <= kvsize es.
Proof.
  intros Hi. pose proof (kvsize_take_le (S i) es). rewrite (take_S_r es i e Hi), kvsize_app in *.
  cbn in *. lia.
Qed.

Lemma repr_getKey i e : es !! i = Some e -> getKey b (Z.of_nat i) = Ok (eKey e).
Proof.
  intros Hi. pose proof (lookup_lt_Some _ _ _ Hi). pose proof repr_bounds.
  pose proof (repr_kv_fits i e Hi). pose proof (kvsize_nonneg (take i es)).
  pose proof (nr_fits _ _ _ _ R).
  pose proof (blen_nonneg (eKey e)). pose proof (blen_nonneg (eVal e)).
  pose proof (repr_kv i e Hi) as HK. unfold esize in *.
  unfold getKey. rstep (repr_kvPos i ltac:(lia)).
  set (pos := 4 + 10 * n + kvsize (take i es)) in *.
  unfold kv in HK. apply holds_app in HK as [HK1 HK]. apply holds_app in HK as [_ HK].
  rewrite !blen_le_split in HK. apply holds_app in HK as [HK _].
  rstep (holds_get_le _ _ _ _ HK1 ltac:(change (2 ^ _) with 65536; lia)).
  rewrite u16_id by lia. rewrite slice_from_Ok by lia. cbn [mbind res_bind].
  replace (pos + Z.of_nat 2 + Z.of_nat 2) with (pos + 4) in HK by lia.
  destruct HK as (_ & _ & HK).
  rewrite slice_Ok by (unfold blen in *; rewrite ?length_drop; lia).
  f_equal. rewrite <- HK at 2. unfold bsub. by rewrite drop_0, Z.sub_0_r.
Qed.

Lemma repr_getVal i e : es !! i = Some e -> getVal b (Z.of_nat i) = Ok (eVal e).
Proof.
  intros Hi. pose proof (lookup_lt_Some _ _ _ Hi). pose proof repr_bounds.
  pose proof (repr_kv_fits i e Hi). pose proof (kvsize_nonneg (take i es)).
  pose proof (nr_fits _ _ _ _ R).
  pose proof (blen_nonneg (eKey e)). pose proof (blen_nonneg (eVal e)).
  pose proof (repr_kv i e Hi) as HK. unfold esize in *.
  unfold getVal. rstep (repr_kvPos i ltac:(lia)).
  set (pos := 4 + 10 * n + kvsize (take i es)) in *.
  unfold kv in HK. apply holds_app in HK as [HK1 HK]. apply holds_app in HK as [HK2 HK].
  rewrite !blen_le_split in HK, HK2. apply holds_app in HK as [_ HK].
  rewrite (u16_id (pos + 0)), (u16_id (pos + 2)), Z.add_0_r by lia.
  rstep (holds_get_le _ _ _ _ HK1 ltac:(change (2 ^ _) with 65536; lia)).
  rewrite ?blen_le_split in HK. change (Z.of_nat 2) with 2 in HK2, HK.
  rstep (holds_get_le _ _ _ _ HK2 ltac:(change (2 ^ _) with 65536; lia)).
  rewrite u16_id by lia. rewrite slice_from_Ok by lia. cbn [mbind res_bind].
  replace (pos + 2 + 2) with (pos + 4) in HK by lia.
  destruct HK as (_ & _ & HK).
  rewrite slice_Ok by (unfold blen in *; rewrite ?length_drop; lia).
  f_equal. rewrite <- HK at 2. unfold bsub. by rewrite drop_0, Z.sub_0_r.
Qed.

Lemma repr_kvStart : kvStart b = Ok (4 + 10 * n).
Proof.
  pose proof repr_bounds. unfold kvStart. rstep repr_nkeys. unfold HEADER, POINTER, OFFSET.
  rewrite (u16_id (8 * n)), (u16_id (2 * n)) by lia. rewrite u16_id by lia. f_equal. lia.
Qed.
End Reading.

Lemma node_is_nbytes b t es : node_is b t es -> nbytes b = Ok (node_size es).
Proof.
  intros R. unfold nbytes. rstep (repr_nkeys R).
  rewrite (repr_kvPos R (length es) ltac:(done)). by rewrite firstn_all.
Qed.

(** ** Writing into a partly filled node *)

Lemma header_nkeys b t n : holds b 0 (le_split 2 t ++ le_split 2 n) -> 0 <= n < 65536 ->
  nkeys b = Ok n.
Proof.
  intros H Hn. apply holds_app in H as [_ H]. rewrite blen_le_split in H.
  unfold nkeys. by apply holds_get_le.
Qed.

Lemma setHeader_repr b t n : blen b < 65536 -> in_u16 t -> 0 <= n -> 4 + 10 * n <= blen b ->
  exists b', setHeader b t n = Ok b' /\ blen b' = blen b /\ node_repr b' t n [].
Proof.
  intros Hs Ht Hn Hb. exists (bwrite b 0 (le_split 2 t ++ le_split 2 n)).
  assert (Hl : blen (le_split 2 t ++ le_split 2 n) = 4) by (by rewrite blen_app, !blen_le_split).
  assert (Hlen : blen (bwrite b 0 (le_split 2 t ++ le_split 2 n)) = blen b)
    by (apply blen_bwrite; lia).
  split; [|split; [done|]].
  - unfold setHeader. rstep (put_le_Ok 2 b 0 t ltac:(lia) ltac:(lia)).
    rewrite put_le_Ok by (rewrite ?blen_bwrite; rewrite ?blen_le_split; lia). f_equal.
    apply (bwrite_bwrite_app b 0 (le_split 2 t) (le_split 2 n)); rewrite ?blen_le_split; lia.
  - split; cbn; rewrite ?Hlen; try lia; try done.
    + apply holds_bwrite_same; lia.
    + apply holds_nil. lia.
    + apply holds_nil. lia.
    + apply holds_nil. lia.
Qed.

(** Bytes no filled entry uses: the free pointer slots, the free offset slots
    and what follows the key-values. *)
Definition free_range (b : bytes) (n : Z) (es : list entry) (i len : Z) : Prop :=
  let m := Z.of_nat (length es) in
  (4 + 8 * m <= i /\ i + len <= 4 + 8 * n) \/
  (4 + 8 * n + 2 * m <= i /\ i + len <= 4 + 10 * n) \/
  (4 + 10 * n + kvsize es <= i /\ i + len <= blen b).

Lemma repr_bwrite b t n es i s : node_repr b t n es -> free_range b n es i (blen s) ->
  blen (bwrite b i s) = blen b /\ node_repr (bwrite b i s) t n es.
Proof.
  intros R F. pose proof (repr_bounds R). pose proof (nr_fits _ _ _ _ R).
  pose proof (blen_nonneg s). unfold free_range in F. cbn in F.
  assert (Hl : blen (bwrite b i s) = blen b) by (apply blen_bwrite; lia).
  split; [done|]. destruct R as [R1 R2 R3 R4 R5 R6 R7 R8 R9].
  split; rewrite ?Hl; try done.
  all: apply holds_bwrite_disjoint; [lia|lia| |done];
    rewrite ?blen_ptrs, ?blen_offs, ?blen_kvs, ?blen_app, ?blen_le_split; lia.
Qed.

(** Filling the slots of entries [es2] at their places completes them. *)
Lemma repr_extend b t n es es2 : node_repr b t n es ->
  Z.of_nat (length es + length es2) <= n -> 4 + 10 * n + kvsize (es ++ es2) <= blen b ->
  Forall entry_ok es2 ->
  holds b (4 + 8 * Z.of_nat (length es)) (ptrs es2) ->
  holds b (4 + 8 * n + 2 * Z.of_nat (length es)) (offs (kvsize es) es2) ->
  holds b (4 + 10 * n + kvsize es) (kvs es2) ->
  node_repr b t n (es ++ es2).
Proof.
  intros [R1 R2 R3 R4 R5 R6 R7 R8 R9] Hc Hf He H1 H2 H3. split; try done.
  - by rewrite length_app.
  - by apply Forall_app.
  - rewrite ptrs_app. apply holds_app. by rewrite blen_ptrs.
  - rewrite offs_app. apply holds_app. by rewrite blen_offs.
  - rewrite kvs_app. apply holds_app. by rewrite blen_kvs.
Qed.

Lemma setptr_Ok b t n es i p : node_repr b t n es -> 0 <= i < n ->
  setptr b i p = Ok (bwrite b (4 + 8 * i) (le_split 8 p)).
Proof.
  intros R Hi. pose proof (repr_bounds R). pose proof (nr_fits _ _ _ _ R).
  unfold setptr. rstep (repr_nkeys R). rewrite guard_true by (apply negb_true_iff, Z.leb_gt; lia).
  unfold HEADER. rewrite (u16_id (i * 8)), u16_id by (rewrite ?u16_id by lia; lia).
  rewrite put_le_Ok by lia. do 2 f_equal. lia.
Qed.
Lemma setOffset_Ok b t n es i v : node_repr b t n es -> 0 < i <= n ->
  setOffset b i v = Ok (bwrite b (4 + 8 * n + 2 * (i - 1)) (le_split 2 v)).
Proof.
  intros R Hi. pose proof (repr_bounds R). pose proof (nr_fits _ _ _ _ R).
  unfold setOffset. rstep (repr_nkeys R). rewrite guard_true by (apply negb_true_iff, Z.ltb_ge; lia).
  rstep (repr_offsetPos R i Hi). by rewrite put_le_Ok by lia.
Qed.

Lemma kvs_singleton e : kvs [e] = kv e.
Proof. apply app_nil_r. Qed.
Lemma ptrs_singleton e : ptrs [e] = le_split 8 (ePtr e).
Proof. apply app_nil_r. Qed.
Lemma offs_singleton x e : offs x [e] = le_split 2 (x + esize e).
Proof. apply app_nil_r. Qed.

(** The four writes of a key-value are one write of [kv]. *)
Lemma write_kv b pos k v p : 0 <= pos -> pos + esize (mkEntry p k v) <= blen b -> blen b < 65536 ->
  (b ← put_le 2 b (u16 (pos + 0)) (u16 (blen k));
   b ← put_le 2 b (u16 (pos + 2)) (u16 (blen v));
   b ← copy_at b (u16 (pos + KVHEADER)) k;
   copy_at b (u16 (pos + KVHEADER + u16 (blen k))) v) = Ok (bwrite b pos (kv (mkEntry p k v))).
Proof.
  unfold esize, KVHEADER. cbn [eKey eVal]. intros H1 H2 H3.
  pose proof (blen_nonneg k). pose proof (blen_nonneg v).
  rewrite (u16_id (pos + 0)), (u16_id (blen k)), (u16_id (pos + 2)), (u16_id (blen v)),
    (u16_id (pos + 4)), (u16_id (pos + 4 + blen k)) by lia.
  rewrite Z.add_0_r. unfold kv. cbn [eKey eVal].
  rewrite put_le_Ok by lia. cbn [mbind res_bind].
  rewrite put_le_Ok by (rewrite ?blen_bwrite; rewrite ?blen_le_split; lia). cbn [mbind res_bind].
  replace (pos + 2) with (pos + blen (le_split 2 (blen k))) by (rewrite blen_le_split; lia).
  rewrite bwrite_bwrite_app by (rewrite ?blen_le_split; lia).
  assert (Hb2 : blen (le_split 2 (blen k) ++ le_split 2 (blen v)) = 4)
    by (by rewrite blen_app, !blen_le_split).
  assert (Hb3 : blen (bwrite b pos (le_split 2 (blen k) ++ le_split 2 (blen v))) = blen b)
    by (apply blen_bwrite; lia).
  rewrite copy_at_Ok by lia. cbn [mbind res_bind].
  replace (pos + 4) with (pos + blen (le_split 2 (blen k) ++ le_split 2 (blen v))) by lia.
  rewrite bwrite_bwrite_app by lia.
  rewrite copy_at_Ok by (rewrite ?blen_bwrite; rewrite ?blen_app, ?blen_le_split in *; lia).
  f_equal. rewrite <- (Z.add_assoc pos), <- blen_app.
  rewrite bwrite_bwrite_app by (rewrite ?blen_app, ?blen_le_split in *; lia).
  by rewrite <- !app_assoc.
Qed.

(** [nodeAppendKV] fills the next slot of a node. *)
Lemma nodeAppendKV_repr b t n es p k v : node_repr b t n es ->
  Z.of_nat (length es) < n -> in_u64 p ->
  4 + 10 * n + kvsize (es ++ [mkEntry p k v]) <= blen b ->
  exists b', nodeAppendKV b (Z.of_nat (length es)) p k v = Ok b' /\ blen b' = blen b /\
    node_repr b' t n (es ++ [mkEntry p k v]).
Proof.
  intros R Hn Hp Hf. set (e := mkEntry p k v) in *. set (m := length es) in *.
  pose proof (repr_bounds R). pose proof (nr_small _ _ _ _ R). pose proof (esize_pos e).
  rewrite kvsize_app in Hf. cbn [kvsize] in Hf.
  pose proof (blen_nonneg k). pose proof (blen_nonneg v).
  unfold nodeAppendKV.
  rstep (setptr_Ok b t n es (Z.of_nat m) p R ltac:(lia)).
  set (b1 := bwrite b _ _).
  destruct (repr_bwrite b t n es (4 + 8 * Z.of_nat m) (le_split 8 p) R) as [L1 R1].
  { left. rewrite blen_le_split. fold m. lia. }
  fold b1 in L1, R1.
  rstep (repr_kvPos R1 m ltac:(done)). unfold m. rewrite firstn_all. fold m.
  set (pos := 4 + 10 * n + kvsize es).
  pose proof (write_kv b1 pos k v p ltac:(lia) ltac:(fold e; lia) ltac:(lia)) as W.
  apply bind_inv in W as (c1 & E1 & W). apply bind_inv in W as (c2 & E2 & W).
  apply bind_inv in W as (c3 & E3 & E4). fold e in E4.
  rstep E1. rstep E2. rstep E3. rstep E4. clear c1 c2 c3 E1 E2 E3 E4.
  set (b2 := bwrite b1 pos (kv e)).
  destruct (repr_bwrite b1 t n es pos (kv e) R1) as [L2 R2].
  { right. right. rewrite blen_kv. lia. }
  fold b2 in L2, R2.
  rstep (repr_getOffset R2 m ltac:(done)). unfold m. rewrite firstn_all. fold m.
  rewrite (u16_id (Z.of_nat m + 1)) by lia.
  rewrite (setOffset_Ok b2 t n es) by (done || lia).
  replace (Z.of_nat m + 1 - 1) with (Z.of_nat m) by lia. unfold KVHEADER.
  replace (u16 (kvsize es + 4 + u16 (blen k + blen v))) with (kvsize es + esize e).
  2:{ unfold esize, e in *. cbn [eKey eVal] in *.
      rewrite (u16_id (blen k + blen v)), u16_id by (rewrite ?u16_id by lia; lia). lia. }
  set (b3 := bwrite b2 _ _).
  destruct (repr_bwrite b2 t n es (4 + 8 * n + 2 * Z.of_nat m) (le_split 2 (kvsize es + esize e)) R2)
    as [L3 R3].
  { right. left. rewrite blen_le_split. fold m. lia. }
  fold b3 in L3, R3. exists b3. split; [done|]. split; [lia|].
  apply repr_extend; try done.
  - cbn [length]. fold m. lia.
  - rewrite kvsize_app. cbn [kvsize]. lia.
  - by apply Forall_singleton.
  - fold m. rewrite ptrs_singleton. unfold b3. apply holds_bwrite_disjoint;
      rewrite ?blen_le_split; [lia|lia|lia|]. unfold b2. apply holds_bwrite_disjoint;
      rewrite ?blen_le_split, ?blen_kv; [lia|lia|lia|].
    apply holds_bwrite_same; rewrite ?blen_le_split; lia.
  - fold m. rewrite offs_singleton. apply holds_bwrite_same; rewrite ?blen_le_split; lia.
  - rewrite kvs_singleton. unfold b3. apply holds_bwrite_disjoint;
      rewrite ?blen_le_split, ?blen_kv; [lia|lia|lia|].
    apply holds_bwrite_same; rewrite ?blen_kv; lia.
Qed.

(** ** Copying a range of entries *)

Section AppendRange.
Context {old t' es'} (RO : node_is old t' es') (src m : nat) (Hsrc : (src + m <= length es')%nat).
Let seg := take m (drop src es').

Lemma seg_length : length seg = m.
Proof. unfold seg. rewrite length_take, length_drop. lia. Qed.
Lemma seg_lookup i e : seg !! i = Some e -> es' !! (src + i)%nat = Some e.
Proof.
  intros H. pose proof (lookup_lt_Some _ _ _ H). rewrite seg_length in *.
  unfold seg in H. rewrite lookup_take_lt, lookup_drop in H by lia. done.
Qed.
Lemma take_src_seg i : (i <= m)%nat -> take (src + i) es' = take src es' ++ take i seg.
Proof. intros. unfold seg. rewrite take_take, Nat.min_l by lia. by rewrite take_take_drop. Qed.
Lemma kvsize_src_seg i : (i <= m)%nat ->
  kvsize (take (src + i) es') = kvsize (take src es') + kvsize (take i seg).
Proof. intros. by rewrite take_src_seg, kvsize_app. Qed.
Lemma seg_ok : Forall entry_ok seg.
Proof. unfold seg. apply Forall_take, Forall_drop. exact (nr_entries _ _ _ _ RO). Qed.

Lemma old_count : Z.of_nat (src + m) < 65536.
Proof. pose proof (repr_bounds RO). lia. Qed.

Lemma append_ptr_step b t n es i v : node_repr b t n es -> Z.of_nat (length es + m) <= n ->
  map ePtr seg !! i = Some v ->
  append_ptr old (Z.of_nat (length es)) (Z.of_nat src) b i =
    Ok (bwrite b (4 + 8 * Z.of_nat (length es) + Z.of_nat 8 * Z.of_nat i) (le_split 8 v)).
Proof.
  intros R Hn Hi. apply list_lookup_fmap_Some in Hi as (e & -> & Hi).
  pose proof (lookup_lt_Some _ _ _ Hi) as Hlt. rewrite seg_length in Hlt.
  pose proof (repr_bounds R). pose proof (repr_bounds RO).
  unfold append_ptr. rewrite (u16_id (Z.of_nat src + Z.of_nat i)) by lia.
  rewrite <- (Nat2Z.inj_add src). rstep (repr_getptr RO _ _ (seg_lookup i e Hi)).
  rewrite u16_id by lia. rewrite (setptr_Ok b t n es) by (done || lia).
  do 2 f_equal. lia.
Qed.

Lemma append_off_step b t n es i v : node_repr b t n es -> Z.of_nat (length es + m) <= n ->
  4 + 10 * n + kvsize es + kvsize seg < 65536 ->
  end_offs (kvsize es) seg !! i = Some v ->
  append_off old (Z.of_nat (length es)) (Z.of_nat src)
    (u16 (kvsize es - kvsize (take src es'))) b (1 + i) =
    Ok (bwrite b (4 + 8 * n + 2 * Z.of_nat (length es) + Z.of_nat 2 * Z.of_nat i) (le_split 2 v)).
Proof.
  intros R Hn Hk Hi. pose proof (lookup_lt_Some _ _ _ Hi) as Hlt.
  rewrite length_end_offs, seg_length in Hlt.
  destruct (lookup_lt_is_Some_2 seg i ltac:(rewrite seg_length; lia)) as [e He].
  rewrite (end_offs_lookup _ _ _ _ He) in Hi. injection Hi as <-.
  pose proof (repr_bounds R). pose proof (repr_bounds RO).
  pose proof (kvsize_take_le (S i) seg). pose proof (kvsize_nonneg (take (S i) seg)).
  unfold append_off. rewrite (u16_id (Z.of_nat src + _)) by lia.
  rewrite <- (Nat2Z.inj_add src). rstep (repr_getOffset RO (src + (1 + i)) ltac:(lia)).
  rewrite u16_id by lia. rewrite (setOffset_Ok b t n es) by (done || lia).
  replace (Z.of_nat (length es) + Z.of_nat (1 + i) - 1) with (Z.of_nat (length es) + Z.of_nat i) by lia.
  rewrite kvsize_src_seg by lia. change (1 + i)%nat with (S i).
  replace (u16 (kvsize (take src es') + kvsize (take (S i) seg) + u16 (kvsize es - kvsize (take src es'))))
    with (kvsize es + kvsize (take (S i) seg)).
  2:{ unfold u16. rewrite Z.add_mod_idemp_r by lia.
      replace (_ + (kvsize es - _)) with (kvsize es + kvsize (take (S i) seg)) by lia.
      rewrite Z.mod_small; lia. }
  do 2 f_equal. lia.
Qed.

Lemma old_holds_seg :
  holds old (4 + 10 * Z.of_nat (length es') + kvsize (take src es')) (kvs seg).
Proof.
  pose proof (nr_kvs _ _ _ _ RO) as H.
  rewrite <- (take_drop src es') in H at 2. rewrite kvs_app in H.
  apply holds_app in H as [_ H]. rewrite blen_kvs in H.
  rewrite <- (take_drop m (drop src es')), kvs_app in H. by apply holds_app in H as [H _].
Qed.

(** The pointer loop, the offset loop and the final copy. *)
Lemma append_ptrs_loop new t n es : node_repr new t n es -> Z.of_nat (length es + m) <= n ->
  exists b, foldM (append_ptr old (Z.of_nat (length es)) (Z.of_nat src)) new (seq 0 m) = Ok b /\
    blen b = blen new /\ node_repr b t n es /\ holds b (4 + 8 * Z.of_nat (length es)) (ptrs seg).
Proof.
  intros R Hn. pose proof (repr_bounds R). pose proof (nr_fits _ _ _ _ R). pose proof seg_length as Hseg.
  set (d := Z.of_nat (length es)) in *.
  destruct (foldM_put (fun b => node_repr b t n es) 8 (append_ptr old d (Z.of_nat src))
    (4 + 8 * d) (map ePtr seg) 0 new R) as [E1 R1].
  { lia. }
  { rewrite length_map, Hseg. lia. }
  { intros b' i v Rb Lb Hi. cbn [Nat.add]. split.
    - apply (append_ptr_step b' t n es); [done|lia|done].
    - apply (repr_bwrite b' t n es); [done|]. left. rewrite blen_le_split.
      apply lookup_lt_Some in Hi. rewrite length_map in Hi. lia. }
  rewrite length_map, Hseg in E1. eexists. split; [exact E1|]. split; [|split; [done|]].
  - apply (blen_bwrite new _ (ptrs seg)); rewrite ?blen_ptrs; lia.
  - apply (holds_bwrite_same new _ (ptrs seg)); rewrite ?blen_ptrs; lia.
Qed.

Lemma append_offs_loop new t n es : node_repr new t n es -> Z.of_nat (length es + m) <= n ->
  4 + 10 * n + kvsize es + kvsize seg < 65536 ->
  holds new (4 + 8 * Z.of_nat (length es)) (ptrs seg) ->
  exists b, foldM (append_off old (Z.of_nat (length es)) (Z.of_nat src)
      (u16 (kvsize es - kvsize (take src es')))) new (seq 1 m) = Ok b /\
    blen b = blen new /\ node_repr b t n es /\ holds b (4 + 8 * Z.of_nat (length es)) (ptrs seg) /\
    holds b (4 + 8 * n + 2 * Z.of_nat (length es)) (offs (kvsize es) seg).
Proof.
  intros R Hn Hk HP. pose proof (repr_bounds R). pose proof (nr_fits _ _ _ _ R).
  pose proof seg_length as Hseg. set (d := Z.of_nat (length es)) in *.
  destruct (foldM_put (fun b => node_repr b t n es /\ holds b (4 + 8 * d) (ptrs seg)) 2
    (append_off old d (Z.of_nat src) (u16 (kvsize es - kvsize (take src es'))))
    (4 + 8 * n + 2 * d) (end_offs (kvsize es) seg) 1 new) as [E2 [R2 HP2]].
  { done. }
  { lia. }
  { rewrite length_end_offs, Hseg. lia. }
  { intros b' i v [Rb Hb] Lb Hi. split; [|split].
    - apply (append_off_step b' t n es); [done|lia|lia|done].
    - apply (repr_bwrite b' t n es); [done|]. right; left. rewrite blen_le_split.
      apply lookup_lt_Some in Hi. rewrite length_end_offs in Hi. lia.
    - apply lookup_lt_Some in Hi. rewrite length_end_offs in Hi.
      apply holds_bwrite_disjoint; rewrite ?blen_le_split, ?blen_ptrs; try lia. done. }
  rewrite length_end_offs, Hseg in E2. eexists. split; [exact E2|]. split; [|split; [done|split; [done|]]].
  - apply (blen_bwrite new _ (offs _ seg)); rewrite ?blen_offs; lia.
  - apply (holds_bwrite_same new _ (offs _ seg)); rewrite ?blen_offs; lia.
Qed.

Lemma append_copy new t n es : node_repr new t n es -> Z.of_nat (length es + m) <= n ->
  4 + 10 * n + kvsize es + kvsize seg <= blen new ->
  holds new (4 + 8 * Z.of_nat (length es)) (ptrs seg) ->
  holds new (4 + 8 * n + 2 * Z.of_nat (length es)) (offs (kvsize es) seg) ->
  exists new', copy_at new (kvsize es + (4 + 10 * n)) (kvs seg) = Ok new' /\
    blen new' = blen new /\ node_repr new' t n (es ++ seg).
Proof.
  intros R Hn Hk HP HO. pose proof (repr_bounds R). pose proof (nr_fits _ _ _ _ R).
  pose proof seg_length as Hseg. pose proof (kvsize_nonneg seg).
  assert (Hpos : blen (kvs seg) = kvsize seg) by apply blen_kvs.
  rewrite copy_at_Ok by lia.
  destruct (repr_bwrite new t n es (kvsize es + (4 + 10 * n)) (kvs seg) R) as [L3 R3].
  { right; right. lia. }
  eexists. split; [reflexivity|]. split; [lia|].
  apply repr_extend; try done.
  - rewrite Hseg. lia.
  - rewrite kvsize_app. lia.
  - apply seg_ok.
  - apply holds_bwrite_disjoint; rewrite ?blen_ptrs; try lia. done.
  - apply holds_bwrite_disjoint; rewrite ?blen_offs; try lia. done.
  - rewrite Z.add_comm. apply holds_bwrite_same; lia.
Qed.

(** [nodeAppendRange] appends the entries [old[src .. src+m)]. *)
Lemma nodeAppendRange_repr new t n es :
  node_repr new t n es -> Z.of_nat (length es + m) <= n ->
  4 + 10 * n + kvsize (es ++ seg) <= blen new ->
  exists new', nodeAppendRange new old (Z.of_nat (length es)) (Z.of_nat src) (Z.of_nat m) = Ok new' /\
    blen new' = blen new /\ node_repr new' t n (es ++ seg).
Proof.
  intros R Hn Hf. rewrite kvsize_app in Hf.
  pose proof (repr_bounds R). pose proof (repr_bounds RO). pose proof (nr_small _ _ _ _ R).
  pose proof (kvsize_nonneg seg). pose proof seg_length as Hseg.
  unfold nodeAppendRange. rstep (repr_nkeys R).
  rewrite (u16_id (_ + Z.of_nat m)), guard_true by (try apply negb_true_iff, Z.ltb_ge; lia).
  rstep (repr_nkeys RO).
  rewrite (u16_id (Z.of_nat src + Z.of_nat m)), guard_true by (try apply negb_true_iff, Z.ltb_ge; lia).
  case_decide as Hm.
  { exists new. split; [done|]. split; [done|].
    rewrite (nil_length_inv seg), app_nil_r by lia. done. }
  rewrite Nat2Z.id.
  destruct (append_ptrs_loop new t n es R Hn) as (b1 & E1 & L1 & R1 & HP1). rstep E1.
  rstep (repr_getOffset_all R1). rstep (repr_getOffset RO src ltac:(lia)).
  destruct (append_offs_loop b1 t n es R1 Hn ltac:(lia) HP1) as (b2 & E2 & L2 & R2 & HP2 & HO2).
  rstep E2. rstep (repr_kvStart RO). rewrite <- (Nat2Z.inj_add src).
  rstep (repr_getOffset RO (src + m) ltac:(lia)).
  rstep (repr_kvStart R2). rstep (repr_getOffset_all R2).
  rewrite (kvsize_src_seg m), (take_ge seg m) by lia.
  pose proof (kvsize_take_drop src es'). pose proof (kvsize_nonneg (take src es')).
  pose proof (kvsize_take_le m (drop src es') : kvsize seg <= _).
  rewrite !u16_id by lia.
  replace (kvsize (take src es') + kvsize seg + (4 + 10 * Z.of_nat (length es'))) with
    ((kvsize (take src es') + (4 + 10 * Z.of_nat (length es'))) + blen (kvs seg))
    by (rewrite blen_kvs; lia).
  rstep (holds_slice old (kvsize (take src es') + (4 + 10 * Z.of_nat (length es'))) (kvs seg)
    ltac:(rewrite Z.add_comm; apply old_holds_seg)).
  destruct (append_copy b2 t n es R2 Hn ltac:(lia) HP2 HO2) as (b3 & E3 & L3 & R3).
  exists b3. split; [exact E3|]. split; [lia|done].
Qed.
End AppendRange.

(** ** Building a page *)

(** The canonical page of [cap] bytes for a node. *)
Definition encode_node (cap t : Z) (es : list entry) : bytes :=
  let body := (le_split 2 t ++ le_split 2 (Z.of_nat (length es))) ++ ptrs es ++ offs 0 es ++ kvs es in
  body ++ make_bytes (cap - blen body).

Lemma encode_node_is cap t es : in_u16 t -> Forall entry_ok es -> node_size es <= cap < 65536 ->
  blen (encode_node cap t es) = cap /\ node_is (encode_node cap t es) t es.
Proof.
  intros Ht He Hc. unfold node_size in Hc. pose proof (kvsize_nonneg es).
  unfold encode_node. set (hdr := le_split 2 t ++ _). set (body := hdr ++ _).
  assert (Hh : blen hdr = 4) by (unfold hdr; by rewrite blen_app, !blen_le_split).
  assert (Hb : blen body = 4 + 10 * Z.of_nat (length es) + kvsize es).
  { unfold body. rewrite !blen_app, blen_ptrs, blen_offs, blen_kvs. lia. }
  set (b := body ++ _).
  assert (Hl : blen b = cap) by (unfold b; rewrite blen_app, blen_make; lia).
  assert (HH : holds b 0 (hdr ++ ptrs es ++ offs 0 es ++ kvs es)).
  { unfold holds. fold body. split; [lia|]. split; [lia|].
    unfold bsub. change (Z.to_nat 0) with 0%nat. rewrite drop_0.
    unfold b, blen. rewrite Nat2Z.id. apply take_app_length. }
  apply holds_app in HH as [H1 HH]. apply holds_app in HH as [H2 HH].
  apply holds_app in HH as [H3 H4]. rewrite Hh, ?blen_ptrs, ?blen_offs in *.
  split; [done|]. split; try done; try lia.
  by replace (4 + 10 * Z.of_nat (length es)) with
    (0 + 4 + 8 * Z.of_nat (length es) + 2 * Z.of_nat (length es)) by lia.
Qed.
