(* ===== verification/NodeOps.v ===== *)
(** * Node operations against their list specifications

    Lookup, insertion, update, deletion, merging and splitting of B+tree nodes:
    each byte-level operation of [BNode] is related to the operation on entry
    lists it implements. *)
From Stdlib Require Import ZArith Lia Sorted.
From stdpp Require Import base gmap list strings countable sorting.
From coqutil Require Import Byte Word.LittleEndianList.
From S2P Require Import Prelude BNode NodeLayout.

(** The list operations. *)
Definition es_insert (i : nat) (e : entry) (es : list entry) : list entry :=
  take i es ++ e :: drop i es.
Definition es_update (i : nat) (e : entry) (es : list entry) : list entry :=
  take i es ++ e :: drop (S i) es.
Definition es_delete (i : nat) (es : list entry) : list entry := take i es ++ drop (S i) es.
Definition es_replace2 (i : nat) (e : entry) (es : list entry) : list entry :=
  take i es ++ e :: drop (i + 2) es.

(** The last position from 1 on whose key is at most [key], or 0: what
    [nodeLookupLE] looks for, by counting. *)
Definition lookupLE_spec (es : list entry) (key : bytes) : nat :=
  length (filter (fun e => ble (eKey e) key) (tail es)).

(** Where [nodeSplit2] cuts a node: the first position at which the entries
    before it, with their slots, reach [half] bytes; and the pages [nodeSplit3]
    makes, [None] where its assertion fails. *)
Fixpoint split_point (half size : Z) (es : list entry) : nat :=
  match es with
  | [] => 0
  | e :: es' => if size <? half then S (split_point half (size + (esize e + 10)) es') else 0
  end.
Definition split3_spec (es : list entry) : option (list (list entry)) :=
  if node_size es <=? PAGE_SIZE then Some [es] else
  let k := split_point (node_size es / 2) 4 es in
  if node_size (take k es) <=? PAGE_SIZE then Some [take k es; drop k es] else
  let l := take k es in
  let j := split_point (node_size l / 2) 4 l in
  if node_size (take j l) <=? PAGE_SIZE then Some [take j l; drop j l; drop k es] else None.

Definition sorted_keys (es : list entry) : Prop := StronglySorted blt (map eKey es).

(** ** Convenience forms of the layout lemmas *)

Lemma node_size_nonneg es : 4 <= node_size es.
Proof. unfold node_size. pose proof (kvsize_nonneg es). lia. Qed.
Lemma node_size_app es1 es2 : node_size (es1 ++ es2) = node_size es1 + node_size es2 - 4.
Proof. unfold node_size. rewrite length_app, kvsize_app. lia. Qed.
Lemma node_size_cons e es : node_size (e :: es) = 10 + esize e + node_size es.
Proof. unfold node_size. cbn [length kvsize]. lia. Qed.

Lemma append_range_at new old t n es t' es' (src m : nat) (d s k : Z) :
  node_is old t' es' -> node_repr new t n es ->
  d = Z.of_nat (length es) -> s = Z.of_nat src -> k = Z.of_nat m ->
  (src + m <= length es')%nat -> Z.of_nat (length es + m) <= n ->
  4 + 10 * n + kvsize (es ++ take m (drop src es')) <= blen new ->
  exists new', nodeAppendRange new old d s k = Ok new' /\ blen new' = blen new /\
    node_repr new' t n (es ++ take m (drop src es')).
Proof. intros RO R -> -> -> ? ? ?. by apply (nodeAppendRange_repr RO). Qed.

Lemma append_kv_at b t n es (d : Z) p k v : node_repr b t n es -> d = Z.of_nat (length es) ->
  Z.of_nat (length es) < n -> in_u64 p -> 4 + 10 * n + kvsize (es ++ [mkEntry p k v]) <= blen b ->
  exists b', nodeAppendKV b d p k v = Ok b' /\ blen b' = blen b /\
    node_repr b' t n (es ++ [mkEntry p k v]).
Proof. intros ? -> ? ? ?. by apply nodeAppendKV_repr. Qed.

(** Filling a node: a header, then a prefix of [old], one new entry, and a
    suffix of [old] from [j]; every rebuilding operation has this shape. *)
Lemma rebuild_node new old t' es' t (i j : nat) (n : Z) p k v :
  node_is old t' es' -> blen new < 65536 -> in_u16 t -> in_u64 p ->
  (i <= length es')%nat -> (j <= length es')%nat ->
  let es := take i es' ++ mkEntry p k v :: drop j es' in
  n = Z.of_nat (length es) -> node_size es <= blen new ->
  exists new0 new1 new2 new3, setHeader new t n = Ok new0 /\
    nodeAppendRange new0 old 0 0 (Z.of_nat i) = Ok new1 /\
    nodeAppendKV new1 (Z.of_nat i) p k v = Ok new2 /\
    nodeAppendRange new2 old (Z.of_nat (S i)) (Z.of_nat j) (Z.of_nat (length es' - j)) = Ok new3 /\
    blen new3 = blen new /\ node_is new3 t es.
Proof.
  intros RO Hs Ht Hp Hi Hj es Hn Hf.
  assert (Hlen : length es = (i + S (length es' - j))%nat).
  { unfold es. rewrite length_app, length_take_le by done. cbn. by rewrite length_drop. }
  unfold node_size in Hf. pose proof (kvsize_nonneg es).
  assert (Hk : kvsize es = kvsize (take i es') + kvsize [mkEntry p k v] + kvsize (drop j es')).
  { unfold es. rewrite kvsize_app. cbn [kvsize]. lia. }
  pose proof (kvsize_nonneg [mkEntry p k v]). pose proof (kvsize_nonneg (drop j es')).
  destruct (setHeader_repr new t n) as (b0 & E0 & L0 & R0); [done|done|lia|lia|].
  destruct (append_range_at b0 old t n [] t' es' 0 i 0 0 (Z.of_nat i) RO R0)
    as (b1 & E1 & L1 & R1); [done|done|done|lia|cbn; lia| |].
  { rewrite drop_0. cbn [app]. lia. }
  rewrite drop_0 in R1. cbn [app] in R1.
  destruct (append_kv_at b1 t n (take i es') (Z.of_nat i) p k v R1) as (b2 & E2 & L2 & R2).
  { by rewrite length_take_le. }
  { rewrite length_take_le by done. lia. }
  { done. }
  { rewrite kvsize_app. lia. }
  destruct (append_range_at b2 old t n (take i es' ++ [mkEntry p k v]) t' es' j (length es' - j)
    (Z.of_nat (S i)) (Z.of_nat j) (Z.of_nat (length es' - j)) RO R2) as (b3 & E3 & L3 & R3).
  { rewrite length_app, length_take_le by done. cbn. lia. }
  { done. }
  { done. }
  { lia. }
  { rewrite length_app, length_take_le by done. cbn. lia. }
  { rewrite !kvsize_app. rewrite (take_ge (drop j es')) by (rewrite length_drop; lia). lia. }
  rewrite (take_ge (drop j es')), <- app_assoc in R3 by (rewrite length_drop; lia).
  exists b0, b1, b2, b3. repeat (split; [done|]). split; [lia|].
  unfold node_is. by rewrite <- Hn.
Qed.

(** ** Rebuilding operations *)

Lemma leafInsert_repr new old t es i key val : node_is old t es -> (i <= length es)%nat ->
  blen new < 65536 -> node_size (es_insert i (mkEntry 0 key val) es) <= blen new ->
  exists new', leafInsert new old (Z.of_nat i) key val = Ok new' /\ blen new' = blen new /\
    node_is new' BNODE_LEAF (es_insert i (mkEntry 0 key val) es).
Proof.
  intros RO Hi Hs Hf. pose proof (repr_bounds RO).
  assert (Hl : length (es_insert i (mkEntry 0 key val) es) = S (length es)).
  { unfold es_insert. rewrite length_app, length_take_le by done. cbn. rewrite length_drop. lia. }
  destruct (rebuild_node new old t es BNODE_LEAF i i (Z.of_nat (length es) + 1) 0 key val)
    as (b0 & b1 & b2 & b3 & E0 & E1 & E2 & E3 & L & R); try done.
  { fold (es_insert i (mkEntry 0 key val) es). lia. }
  exists b3. split; [|done]. unfold leafInsert. rstep (repr_nkeys RO).
  unfold node_size in Hf. pose proof (kvsize_nonneg (es_insert i (mkEntry 0 key val) es)).
  rewrite (u16_id (Z.of_nat (length es) + 1)) by lia. rstep E0. rstep E1. rstep E2.
  rewrite !u16_id by lia. replace (Z.of_nat i + 1) with (Z.of_nat (S i)) by lia.
  by replace (Z.of_nat (length es) - Z.of_nat i) with (Z.of_nat (length es - i)) by lia.
Qed.

Lemma leafUpdate_repr new old t es i key val : node_is old t es -> (i < length es)%nat ->
  blen new < 65536 -> node_size (es_update i (mkEntry 0 key val) es) <= blen new ->
  exists new', leafUpdate new old (Z.of_nat i) key val = Ok new' /\ blen new' = blen new /\
    node_is new' t (es_update i (mkEntry 0 key val) es).
Proof.
  intros RO Hi Hs Hf. pose proof (repr_bounds RO).
  assert (Hl : length (es_update i (mkEntry 0 key val) es) = length es).
  { unfold es_update. rewrite length_app, length_take_le by lia. cbn. rewrite length_drop. lia. }
  destruct (rebuild_node new old t es t i (S i) (Z.of_nat (length es)) 0 key val)
    as (b0 & b1 & b2 & b3 & E0 & E1 & E2 & E3 & L & R); try done.
  { exact (nr_t _ _ _ _ RO). }
  { lia. }
  { by fold (es_update i (mkEntry 0 key val) es); rewrite Hl. }
  exists b3. split; [|done]. unfold leafUpdate. rstep (repr_btype RO). rstep (repr_nkeys RO).
  rstep E0. rstep E1. rstep E2.
  rewrite (u16_id (Z.of_nat i + 1)), u16_id by lia.
  replace (Z.of_nat i + 1) with (Z.of_nat (S i)) by lia.
  by replace (Z.of_nat (length es) - Z.of_nat (S i)) with (Z.of_nat (length es - S i)) by lia.
Qed.

Lemma nodeReplace2Kid_repr new old t es i p key : node_is old t es -> (i + 2 <= length es)%nat ->
  blen new < 65536 -> in_u64 p -> node_size (es_replace2 i (mkEntry p key []) es) <= blen new ->
  exists new', nodeReplace2Kid new old (Z.of_nat i) p key = Ok new' /\ blen new' = blen new /\
    node_is new' t (es_replace2 i (mkEntry p key []) es).
Proof.
  intros RO Hi Hs Hp Hf. pose proof (repr_bounds RO).
  assert (Hl : length (es_replace2 i (mkEntry p key []) es) = (length es - 1)%nat).
  { unfold es_replace2. rewrite length_app, length_take_le by lia. cbn. rewrite length_drop. lia. }
  destruct (rebuild_node new old t es t i (i + 2) (Z.of_nat (length es) - 1) p key [])
    as (b0 & b1 & b2 & b3 & E0 & E1 & E2 & E3 & L & R); try done.
  { exact (nr_t _ _ _ _ RO). }
  { lia. }
  { fold (es_replace2 i (mkEntry p key []) es). lia. }
  exists b3. split; [|done]. unfold nodeReplace2Kid. rstep (repr_btype RO). rstep (repr_nkeys RO).
  rewrite (u16_id (Z.of_nat (length es) - 1)) by lia. rstep E0. rstep E1. rstep E2.
  rewrite (u16_id (Z.of_nat i + 1)), (u16_id (Z.of_nat i + 2)), u16_id by lia.
  replace (Z.of_nat i + 1) with (Z.of_nat (S i)) by lia.
  replace (Z.of_nat i + 2) with (Z.of_nat (i + 2)) by lia.
  by replace (Z.of_nat (length es) - Z.of_nat (i + 2)) with (Z.of_nat (length es - (i + 2))) by lia.
Qed.

(** Header, a range of one node, a range of a second one. *)
Lemma concat_node new old1 old2 t1 es1 t2 es2 t (i j : nat) (n : Z) :
  node_is old1 t1 es1 -> node_is old2 t2 es2 -> blen new < 65536 -> in_u16 t ->
  (i <= length es1)%nat -> (j <= length es2)%nat ->
  let es := take i es1 ++ drop j es2 in
  n = Z.of_nat (length es) -> node_size es <= blen new ->
  exists new0 new1 new2, setHeader new t n = Ok new0 /\
    nodeAppendRange new0 old1 0 0 (Z.of_nat i) = Ok new1 /\
    nodeAppendRange new1 old2 (Z.of_nat i) (Z.of_nat j) (Z.of_nat (length es2 - j)) = Ok new2 /\
    blen new2 = blen new /\ node_is new2 t es.
Proof.
  intros R1 R2 Hs Ht Hi Hj es Hn Hf.
  assert (Hlen : length es = (i + (length es2 - j))%nat).
  { unfold es. rewrite length_app, length_take_le by done. by rewrite length_drop. }
  unfold node_size in Hf. pose proof (kvsize_nonneg es).
  assert (Hk : kvsize es = kvsize (take i es1) + kvsize (drop j es2)) by apply kvsize_app.
  pose proof (kvsize_nonneg (drop j es2)).
  destruct (setHeader_repr new t n) as (b0 & E0 & L0 & N0); [done|done|lia|lia|].
  destruct (append_range_at b0 old1 t n [] t1 es1 0 i 0 0 (Z.of_nat i) R1 N0)
    as (b1 & E1 & L1 & N1); [done|done|done|lia|cbn; lia| |].
  { rewrite drop_0. cbn [app]. lia. }
  rewrite drop_0 in N1. cbn [app] in N1.
  destruct (append_range_at b1 old2 t n (take i es1) t2 es2 j (length es2 - j)
    (Z.of_nat i) (Z.of_nat j) (Z.of_nat (length es2 - j)) R2 N1) as (b2 & E2 & L2 & N2).
  { by rewrite length_take_le. }
  { done. }
  { done. }
  { lia. }
  { rewrite length_take_le by done. lia. }
  { rewrite kvsize_app, (take_ge (drop j es2)) by (rewrite length_drop; lia). lia. }
  rewrite (take_ge (drop j es2)) in N2 by (rewrite length_drop; lia).
  exists b0, b1, b2. repeat (split; [done|]). split; [lia|]. unfold node_is. by rewrite <- Hn.
Qed.

Lemma leafDelete_repr new old t es i : node_is old t es -> (i < length es)%nat ->
  blen new < 65536 -> node_size (es_delete i es) <= blen new ->
  exists new', leafDelete new old (Z.of_nat i) = Ok new' /\ blen new' = blen new /\
    node_is new' BNODE_LEAF (es_delete i es).
Proof.
  intros RO Hi Hs Hf. pose proof (repr_bounds RO).
  destruct (concat_node new old old t es t es BNODE_LEAF i (S i) (Z.of_nat (length es) - 1))
    as (b0 & b1 & b2 & E0 & E1 & E2 & L & R); try done; [lia| |].
  { rewrite length_app, length_take_le, length_drop by lia. lia. }
  exists b2. split; [|done]. unfold leafDelete. rstep (repr_nkeys RO).
  rewrite (u16_id (Z.of_nat (length es) - 1)) by lia. rstep E0. rstep E1.
  rewrite (u16_id (Z.of_nat i + 1)), (u16_id (Z.of_nat (length es) - Z.of_nat i)), u16_id by lia.
  replace (Z.of_nat i + 1) with (Z.of_nat (S i)) by lia.
  by replace (Z.of_nat (length es) - Z.of_nat i - 1) with (Z.of_nat (length es - S i)) by lia.
Qed.

Lemma nodeMerge_repr new left right t es1 t2 es2 : node_is left t es1 -> node_is right t2 es2 ->
  blen new < 65536 -> node_size (es1 ++ es2) <= blen new ->
  exists new', nodeMerge new left right = Ok new' /\ blen new' = blen new /\ node_is new' t (es1 ++ es2).
Proof.
  intros R1 R2 Hs Hf. pose proof (repr_bounds R1). pose proof (repr_bounds R2).
  rewrite <- (firstn_all es1) in Hf at 1.
  destruct (concat_node new left right t es1 t2 es2 t (length es1) 0
    (Z.of_nat (length es1) + Z.of_nat (length es2))) as (b0 & b1 & b2 & E0 & E1 & E2 & L & R); try done.
  { exact (nr_t _ _ _ _ R1). }
  { lia. }
  { rewrite length_app, firstn_all. rewrite drop_0. lia. }
  rewrite firstn_all in R. exists b2. split; [|done].
  unfold node_size in Hf. rewrite firstn_all, length_app in Hf. pose proof (kvsize_nonneg (es1 ++ es2)).
  unfold nodeMerge. rstep (repr_btype R1). rstep (repr_nkeys R1). rstep (repr_nkeys R2).
  rewrite u16_id by lia. rstep E0. rstep E1. by rewrite Nat.sub_0_r in E2.
Qed.

(** ** Lookup *)

Section Lookup.
Context {b t es} (R : node_is b t es) (key : bytes) (HS : sorted_keys (tail es)).

Lemma tail_lookup i : tail es !! i = es !! S i.
Proof. by destruct es. Qed.

Lemma sorted_lt i j e f : (1 <= i < j)%nat -> es !! i = Some e -> es !! j = Some f ->
  blt (eKey e) (eKey f).
Proof.
  intros Hij He Hf. unfold sorted_keys in HS.
  destruct i as [|i]; [lia|]. destruct j as [|j]; [lia|].
  rewrite <- tail_lookup in He, Hf.
  rewrite <- (take_drop_middle _ _ _ He) in HS. rewrite map_app in HS. cbn [map] in HS.
  apply StronglySorted_app_1_r in HS. apply StronglySorted_inv in HS as [_ HF].
  rewrite List.Forall_forall in HF. apply HF. apply in_map, list_elem_of_In.
  apply list_elem_of_lookup. exists (j - S i)%nat. rewrite lookup_drop, <- Hf. f_equal. lia.
Qed.

Definition below (r : nat) : Prop := forall j e, (1 <= j <= r)%nat -> es !! j = Some e -> ble (eKey e) key.
Definition above (r : nat) : Prop := forall j e, (r < j)%nat -> es !! j = Some e -> blt key (eKey e).

Lemma lookupLE_unique r : (r <= length es - 1)%nat -> below r -> above r -> lookupLE_spec es key = r.
Proof.
  intros Hr Hb Ha. unfold lookupLE_spec.
  rewrite <- (take_drop r (tail es)), filter_app, length_app.
  assert (Hlen : length (tail es) = (length es - 1)%nat) by (destruct es; cbn; lia).
  rewrite (list_filter_all _ (take r (tail es))), (list_filter_none _ (drop r (tail es))).
  - cbn. rewrite length_take. lia.
  - apply Forall_lookup. intros i e He. rewrite lookup_drop, tail_lookup in He.
    intros Hle. apply not_ble_lt in Hle; [done|]. eapply Ha; [|exact He]. lia.
  - apply Forall_lookup. intros i e He. apply lookup_take_Some in He as [He Hi].
    rewrite tail_lookup in He. eapply Hb; [|exact He]. lia.
Qed.

Lemma lookup_loop_spec fuel (low high : nat) : (high - low < fuel)%nat ->
  (1 <= low <= high)%nat -> (high <= length es)%nat -> below (low - 1) -> above (high - 1) ->
  exists r, lookup_loop fuel b key (Z.of_nat low) (Z.of_nat high) (Z.of_nat (low - 1)) = Ok (Z.of_nat r) /\
    (r <= length es - 1)%nat /\ below r /\ above r.
Proof.
  revert low high; induction fuel as [|fuel IH]; intros low high Hfuel Hlh Hhigh Hb Ha; [lia|].
  pose proof (repr_bounds R). cbn [lookup_loop].
  destruct (Z.ltb_spec (Z.of_nat low) (Z.of_nat high)) as [Hlt|Hge].
  2:{ exists (low - 1)%nat. split; [done|]. split; [lia|]. split; [done|].
      by replace high with low in Ha by lia. }
  set (mid := (low + (high - low) / 2)%nat).
  pose proof (Nat.Div0.div_lt_upper_bound (high - low) 2 (high - low) ltac:(lia)).
  assert (Hmid : u16 (Z.of_nat low + u16 (Z.of_nat high - Z.of_nat low) / 2) = Z.of_nat mid).
  { rewrite <- Nat2Z.inj_sub by lia. rewrite (u16_id (Z.of_nat (high - low))) by lia.
    change 2 with (Z.of_nat 2). rewrite <- Nat2Z.inj_div, <- Nat2Z.inj_add. apply u16_id. unfold mid. lia. }
  rewrite Hmid. destruct (lookup_lt_is_Some_2 es mid ltac:(unfold mid; lia)) as [e He].
  assert (Hm : (low <= mid < high)%nat) by (unfold mid; lia). clearbody mid.
  rstep (repr_getKey R mid e He).
  destruct (Z.eqb_spec (Compare (eKey e) key) 0) as [Heq|Hne].
  { apply Compare_eq in Heq. exists mid. split; [done|]. split; [lia|]. split.
    - intros j f Hj Hf. rewrite <- Heq. destruct (decide (j = mid)) as [->|].
      + rewrite He in Hf. injection Hf as <-. apply ble_refl.
      + apply blt_ble. eapply (sorted_lt j mid); [lia|done|done].
    - intros j f Hj Hf. rewrite <- Heq. eapply (sorted_lt mid j); [lia|done|done]. }
  destruct (Z.ltb_spec (Compare (eKey e) key) 0) as [Hl|Hg].
  - apply Compare_lt in Hl. rewrite (u16_id (Z.of_nat mid + 1)) by lia.
    replace (Z.of_nat mid + 1) with (Z.of_nat (S mid)) by lia.
    specialize (IH (S mid) high). replace (S mid - 1)%nat with mid in IH by lia.
    apply IH; try lia; [|done].
    intros j f Hj Hf. destruct (decide (j = mid)) as [->|].
    + rewrite He in Hf. injection Hf as <-. by apply blt_ble.
    + apply blt_ble. eapply blt_trans; [|exact Hl]. eapply (sorted_lt j mid); [lia|done|done].
  - assert (Hgt : blt key (eKey e)).
    { apply not_ble_lt. rewrite ble_lt_eq. intros [H1|H1].
      - apply Compare_lt in H1. lia.
      - apply Hne, Compare_eq, H1. }
    apply IH; try lia; [done|].
    intros j f Hj Hf. destruct (decide (j = mid)) as [->|].
    + rewrite He in Hf. by injection Hf as <-.
    + eapply blt_trans; [exact Hgt|]. eapply (sorted_lt mid j); [lia|done|done].
Qed.

Lemma nodeLookupLE_search : exists r, nodeLookupLE b key = Ok (Z.of_nat r) /\
  (r <= length es - 1)%nat /\ below r /\ above r.
Proof.
  unfold nodeLookupLE. rstep (repr_nkeys R). rewrite Nat2Z.id.
  destruct (decide (length es = 0)%nat) as [E|E].
  - rewrite E. apply nil_length_inv in E. exists 0%nat. split; [done|]. split; [lia|].
    unfold below, above. rewrite E. split; intros j e _ He; [|done]. by destruct j.
  - apply (lookup_loop_spec (S (length es)) 1 (length es)); try lia.
    + intros j e Hj. lia.
    + intros j e Hj He. apply lookup_lt_Some in He. lia.
Qed.

Lemma nodeLookupLE_repr : nodeLookupLE b key = Ok (Z.of_nat (lookupLE_spec es key)) /\
  (lookupLE_spec es key <= length es - 1)%nat /\
  below (lookupLE_spec es key) /\ above (lookupLE_spec es key).
Proof.
  destruct nodeLookupLE_search as (r & E & Hr & Hb & Ha). by rewrite (lookupLE_unique r Hr Hb Ha).
Qed.
End Lookup.

(** ** Splitting *)

Lemma split_point_le half size es : (split_point half size es <= length es)%nat.
Proof.
  revert size; induction es as [|e es IH]; intros size; cbn; [lia|].
  destruct (_ <? _); [|lia]. specialize (IH (size + (esize e + 10))). lia.
Qed.

(** The entries before the cut reach [half] unless they are all of them, and
    without the last of them they do not. *)
Lemma split_point_reaches half size es : half <= size + node_size es - 4 ->
  half <= size + node_size (take (split_point half size es) es) - 4.
Proof.
  revert size; induction es as [|e es IH]; intros size; cbn [split_point]; [done|].
  rewrite node_size_cons. intros H. destruct (Z.ltb_spec size half) as [|Hge].
  - cbn [take]. rewrite node_size_cons. specialize (IH (size + (esize e + 10))). lia.
  - rewrite take_0. unfold node_size. cbn. lia.
Qed.
Lemma split_point_below half size es m : Forall (fun e => esize e + 10 <= m) es -> 0 <= m ->
  size <= half - 1 + m -> size + node_size (take (split_point half size es) es) - 4 <= half - 1 + m.
Proof.
  intros HF Hm. revert size; induction HF as [|e es He HF IH]; intros size Hs; cbn [split_point].
  - unfold node_size. cbn. lia.
  - destruct (Z.ltb_spec size half) as [Hlt|Hge].
    + cbn [take]. rewrite node_size_cons. specialize (IH (size + (esize e + 10)) ltac:(lia)). lia.
    + rewrite take_0. unfold node_size. cbn. lia.
Qed.

Lemma node_size_take_drop i es : node_size es = node_size (take i es) + node_size (drop i es) - 4.
Proof. by rewrite <- node_size_app, take_drop. Qed.

(** A page cut at or above the end of its contents holds the same node. *)
Lemma node_is_truncate b t es k : node_is b t es -> node_size es <= k <= blen b ->
  node_is (bsub b 0 k) t es.
Proof.
  intros R Hk. pose proof (node_size_nonneg es).
  assert (Hl : blen (bsub b 0 k) = k) by (apply blen_bsub; lia).
  assert (HH : forall i r, holds b i r -> i + blen r <= k -> holds (bsub b 0 k) i r).
  { intros i r (Hi & _ & E) Hr. unfold holds. rewrite Hl. pose proof (blen_nonneg r).
    repeat split; try lia. by rewrite bsub_bsub by lia. }
  unfold node_size in *. pose proof (kvsize_nonneg es).
  destruct R as [R1 R2 R3 R4 R5 R6 R7 R8 R9]. split; rewrite ?Hl; try done; try lia.
  all: apply HH; [done|].
  - rewrite blen_app, !blen_le_split. lia.
  - rewrite blen_ptrs. lia.
  - rewrite blen_offs. lia.
  - rewrite blen_kvs. lia.
Qed.

Section Split.
Context {old t es} (R : node_is old t es).

Lemma kvPos_step i e : es !! i = Some e ->
  exists p q, kvPos old (Z.of_nat (S i)) = Ok q /\ kvPos old (Z.of_nat i) = Ok p /\
    u16 (u16 (u16 (q - p) + POINTER) + OFFSET) = esize e + 10.
Proof.
  intros He. pose proof (lookup_lt_Some _ _ _ He). pose proof (repr_bounds R).
  pose proof (repr_kv_fits i e He). pose proof (esize_pos e). pose proof (kvsize_nonneg (take i es)).
  eexists _, _. split; [apply (repr_kvPos R); lia|]. split; [apply (repr_kvPos R); lia|].
  rewrite (take_S_r es i e He), kvsize_app. cbn [kvsize]. unfold POINTER, OFFSET.
  replace (_ - _) with (esize e) by lia. rewrite (u16_id (esize e)) by lia.
  rewrite (u16_id (esize e + 8)) by lia. rewrite u16_id by lia. lia.
Qed.

Lemma split_up_spec half fuel i : (length es - i < fuel)%nat -> (i <= length es)%nat ->
  split_up fuel old half (Z.of_nat (length es)) (node_size (take i es)) (Z.of_nat i) =
    Ok (Z.of_nat (i + split_point half (node_size (take i es)) (drop i es))).
Proof.
  revert i; induction fuel as [|fuel IH]; intros i Hf Hi; [lia|]. cbn [split_up].
  pose proof (repr_bounds R).
  destruct (es !! i) as [e|] eqn:He.
  2:{ apply lookup_ge_None in He. rewrite drop_ge by lia. cbn [split_point].
      replace (Z.of_nat i <? Z.of_nat (length es)) with false by (symmetry; apply Z.ltb_ge; lia).
      by rewrite andb_false_r, Nat.add_0_r. }
  pose proof (lookup_lt_Some _ _ _ He).
  rewrite (drop_S _ _ _ He). cbn [split_point].
  replace (Z.of_nat i <? Z.of_nat (length es)) with true by (symmetry; apply Z.ltb_lt; lia).
  rewrite andb_true_r. destruct (node_size (take i es) <? half).
  2:{ by rewrite Nat.add_0_r. }
  destruct (kvPos_step i e He) as (p & q & Eq & Ep & Es).
  rewrite (u16_id (Z.of_nat i + 1)) by lia.
  replace (Z.of_nat i + 1) with (Z.of_nat (S i)) by lia. rstep Eq. rstep Ep. rewrite Es.
  pose proof (node_size_take_drop (S i) es). pose proof (node_size_nonneg (drop (S i) es)).
  pose proof (node_size_nonneg (take (S i) es)).
  assert (E : node_size (take i es) + (esize e + 10) = node_size (take (S i) es)).
  { rewrite (take_S_r es i e He), node_size_app, node_size_cons. unfold node_size at 3. cbn. lia. }
  rewrite E, u16_id by (unfold node_size in *; lia).
  rewrite IH by lia. do 2 f_equal. lia.
Qed.

Lemma split_fill_repr left right k : (k <= length es)%nat ->
  blen left < 65536 -> blen right < 65536 ->
  node_size (take k es) <= blen left -> node_size (drop k es) <= blen right ->
  exists left' right', split_fill left right old (Z.of_nat k) = Ok (left', right', Z.of_nat k) /\
    blen left' = blen left /\ blen right' = blen right /\
    node_is left' t (take k es) /\ node_is right' t (drop k es).
Proof.
  intros Hk HL HR SL SR. pose proof (repr_bounds R). pose proof (nr_t _ _ _ _ R).
  pose proof (kvsize_nonneg (take k es)). pose proof (kvsize_nonneg (drop k es)).
  unfold node_size in *. rewrite length_take_le in SL by done. rewrite length_drop in SR.
  destruct (setHeader_repr left t (Z.of_nat k)) as (l0 & EL0 & LL0 & NL0); [done|done|lia|lia|].
  destruct (setHeader_repr right t (Z.of_nat (length es - k))) as (r0 & ER0 & LR0 & NR0);
    [done|done|lia|lia|].
  destruct (append_range_at l0 old t (Z.of_nat k) [] t es 0 k 0 0 (Z.of_nat k) R NL0)
    as (l1 & EL1 & LL1 & NL1); [done|done|done|lia|cbn; lia| |].
  { rewrite drop_0. cbn [app]. lia. }
  destruct (append_range_at r0 old t (Z.of_nat (length es - k)) [] t es k (length es - k)
    0 (Z.of_nat k) (Z.of_nat (length es - k)) R NR0)
    as (r1 & ER1 & LR1 & NR1); [done|done|done|lia|cbn; lia| |].
  { rewrite take_ge by (rewrite length_drop; lia). cbn [app]. lia. }
  rewrite drop_0 in NL1. rewrite take_ge in NR1 by (rewrite length_drop; lia). cbn [app] in *.
  exists l1, r1. unfold split_fill. rstep (repr_btype R). rstep (repr_nkeys R).
  rewrite (u16_id (Z.of_nat (length es) - Z.of_nat k)) by lia.
  replace (Z.of_nat (length es) - Z.of_nat k) with (Z.of_nat (length es - k)) by lia.
  rstep EL0. rstep ER0. rstep EL1. rstep ER1. split; [done|]. split; [lia|]. split; [lia|].
  unfold node_is. rewrite length_take_le, length_drop by done. done.
Qed.

(** [nodeSplit2] on a node that does not fit a page. *)
Lemma nodeSplit2_repr left right : PAGE_SIZE < node_size es <= 2 * PAGE_SIZE ->
  let k := split_point (node_size es / 2) 4 es in
  blen left < 65536 -> blen right < 65536 ->
  node_size (take k es) <= blen left -> node_size (drop k es) <= blen right ->
  exists left' right', nodeSplit2 left right old = Ok (left', right', Z.of_nat k) /\
    blen left' = blen left /\ blen right' = blen right /\
    node_is left' t (take k es) /\ node_is right' t (drop k es).
Proof.
  intros HN k HL HR SL SR. unfold nodeSplit2. rstep (node_is_nbytes old t es R).
  replace (node_size es <=? PAGE_SIZE) with false by (symmetry; apply Z.leb_gt; lia).
  replace (2 * PAGE_SIZE <? node_size es) with false by (symmetry; apply Z.ltb_ge; lia).
  rstep (repr_nkeys R). rewrite Nat2Z.id.
  pose proof (split_up_spec (node_size es / 2) (S (length es)) 0 ltac:(lia) ltac:(lia)) as E.
  rewrite take_0, drop_0 in E. change (node_size []) with 4 in E. fold k in E.
  rstep (E : split_up _ _ _ _ HEADER 0 = _).
  apply split_fill_repr; try done. apply split_point_le.
Qed.

Lemma right_half_fits : PAGE_SIZE < node_size es -> node_size es <= 2 * PAGE_SIZE - 8 ->
  node_size (drop (split_point (node_size es / 2) 4 es) es) <= PAGE_SIZE.
Proof.
  intros H1 H2. set (k := split_point _ _ _).
  pose proof (split_point_reaches (node_size es / 2) 4 es) as H.
  pose proof (node_size_take_drop k es). fold k in H.
  pose proof (Z.div_mod (node_size es) 2 ltac:(lia)). pose proof (Z.mod_pos_bound (node_size es) 2 ltac:(lia)).
  unfold PAGE_SIZE in *. lia.
Qed.
End Split.

Lemma nodeSplit3_repr old t es ps : node_is old t es -> blen old = 2 * PAGE_SIZE ->
  node_size es <= 2 * PAGE_SIZE - 8 -> split3_spec es = Some ps ->
  exists pages, nodeSplit3 old = Ok pages /\ concat ps = es /\
    Forall2 (fun b p => blen b = PAGE_SIZE /\ node_is b t p) pages ps.
Proof.
  intros R Hlen HN. unfold split3_spec, nodeSplit3. rstep (node_is_nbytes old t es R).
  pose proof (right_half_fits (es := es)) as HR.
  set (k := split_point (node_size es / 2) 4 es) in *.
  pose proof (node_size_nonneg es). unfold PAGE_SIZE in *.
  destruct (Z.leb_spec (node_size es) 4096).
  { intros [= <-]. exists [bsub old 0 4096]. rewrite slice_Ok by lia. cbn [mbind res_bind].
    split; [done|]. split; [apply app_nil_r|]. apply Forall2_cons; split; [|by apply List.Forall2_nil].
    split; [apply blen_bsub; lia|]. apply node_is_truncate; [done|lia]. }
  specialize (HR ltac:(lia) ltac:(lia)).
  pose proof (node_size_take_drop k es). pose proof (node_size_nonneg (drop k es)).
  destruct (nodeSplit2_repr R (make_bytes (2 * 4096)) (make_bytes 4096)) as (l & r & E & LL & LR & NL & NR);
    fold k; rewrite ?blen_make by lia; unfold PAGE_SIZE; try lia.
  rewrite blen_make in LL, LR by lia. rstep E. rstep (node_is_nbytes l t _ NL). fold k.
  fold k in NL, NR.
  destruct (Z.leb_spec (node_size (take k es)) 4096).
  { intros [= <-]. exists [bsub l 0 4096; r]. rewrite slice_Ok by lia. cbn [mbind res_bind].
    split; [done|]. split; [cbn; by rewrite app_nil_r, take_drop|].
    apply Forall2_cons; split.
    - split; [apply blen_bsub; lia|]. apply node_is_truncate; [done|].
      pose proof (node_size_nonneg (take k es)). lia.
    - apply Forall2_cons; split; [done|by apply List.Forall2_nil]. }
  pose proof (right_half_fits (es := take k es)) as HR2. unfold PAGE_SIZE in HR2.
  set (j := split_point _ 4 (take k es)) in *.
  destruct (Z.leb_spec (node_size (take j (take k es))) 4096); [|done].
  specialize (HR2 ltac:(lia) ltac:(lia)).
  intros [= <-].
  destruct (nodeSplit2_repr NL (make_bytes 4096) (make_bytes 4096)) as (ll & m & E2 & LLL & LM & NLL & NM);
    fold j; rewrite ?blen_make by lia; unfold PAGE_SIZE; try done; try lia.
  rewrite blen_make in LLL, LM by lia. rstep E2. rstep (node_is_nbytes ll t _ NLL).
  fold j. fold j in NLL, NM. rewrite (proj2 (Z.leb_le _ _)) by done.
  exists [ll; m; r]. split; [done|]. split; [cbn; by rewrite app_nil_r, app_assoc, !take_drop|].
  repeat (apply Forall2_cons; split; [done|]). by apply List.Forall2_nil.
Qed.

Lemma split3_spec_small m es : Forall (fun e => esize e + 10 <= m) es -> 0 <= m ->
  m + node_size es / 2 <= PAGE_SIZE + 1 ->
  split3_spec es = Some [es] \/ exists k, split3_spec es = Some [take k es; drop k es].
Proof.
  intros HF Hm HN. unfold split3_spec. set (k := split_point (node_size es / 2) 4 es).
  destruct (Z.leb_spec (node_size es) PAGE_SIZE); [by left|]. right. exists k.
  pose proof (Z.div_mod (node_size es) 2 ltac:(lia)). pose proof (Z.mod_pos_bound (node_size es) 2 ltac:(lia)).
  pose proof (split_point_below (node_size es / 2) 4 es m HF Hm) as H'. fold k in H'.
  unfold PAGE_SIZE in *.
  rewrite (proj2 (Z.leb_le (node_size (take k es)) _)); [done|]. lia.
Qed.

(** ** Properties *)

(** Binary search.  On a complete node whose keys from position 1 on are
    strictly increasing, [nodeLookupLE] ends (its loop never runs out of turns)
    and returns the number of those keys that are at most the searched one, that
    is the last position whose key is at most it, or 0. *)
Theorem nodeLookupLE_correct b t es key : node_is b t es -> sorted_keys (tail es) ->
  nodeLookupLE b key = Ok (Z.of_nat (lookupLE_spec es key)) /\
  (lookupLE_spec es key <= length es - 1)%nat /\
  (forall j e, (1 <= j <= lookupLE_spec es key)%nat -> es !! j = Some e -> ble (eKey e) key) /\
  (forall j e, (lookupLE_spec es key < j)%nat -> es !! j = Some e -> blt key (eKey e)).
Proof. intros R HS. exact (nodeLookupLE_repr R key HS). Qed.

(** C20: leaf operations.  On a complete page [old], whatever bytes the buffer
    [new] held, [leafInsert], [leafUpdate] and [leafDelete] succeed when the
    result fits the buffer and leave in it exactly the entries of [old] with one
    inserted, replaced or removed: every key, value and pointer of the other
    entries is kept, at its new offset. *)
Theorem leaf_ops_correct new old t es i key val :
  node_is old t es -> blen new < 65536 -> in_u16 t ->
  ((i <= length es)%nat -> node_size (es_insert i (mkEntry 0 key val) es) <= blen new ->
    exists new', leafInsert new old (Z.of_nat i) key val = Ok new' /\ blen new' = blen new /\
      node_is new' BNODE_LEAF (es_insert i (mkEntry 0 key val) es)) /\
  ((i < length es)%nat -> node_size (es_update i (mkEntry 0 key val) es) <= blen new ->
    exists new', leafUpdate new old (Z.of_nat i) key val = Ok new' /\ blen new' = blen new /\
      node_is new' t (es_update i (mkEntry 0 key val) es)) /\
  ((i < length es)%nat -> node_size (es_delete i es) <= blen new ->
    exists new', leafDelete new old (Z.of_nat i) = Ok new' /\ blen new' = blen new /\
      node_is new' BNODE_LEAF (es_delete i es)).
Proof.
  intros R Hs Ht. split; [|split]; intros Hi Hf.
  - by apply (leafInsert_repr new old t es).
  - by apply leafUpdate_repr.
  - by apply (leafDelete_repr new old t es).
Qed.

(** merging.  [nodeMerge] writes the entries of two sibling nodes one
    after the other, and [nodeReplace2Kid] replaces two adjacent children of a
    parent by one entry for the merged child, keeping all others. *)
Theorem merge_ops_correct new left right old t es1 t2 es2 es i p key :
  node_is left t es1 -> node_is right t2 es2 -> node_is old t es ->
  blen new < 65536 -> in_u64 p ->
  (node_size (es1 ++ es2) <= blen new ->
    exists new', nodeMerge new left right = Ok new' /\ blen new' = blen new /\
      node_is new' t (es1 ++ es2)) /\
  ((i + 2 <= length es)%nat -> node_size (es_replace2 i (mkEntry p key []) es) <= blen new ->
    exists new', nodeReplace2Kid new old (Z.of_nat i) p key = Ok new' /\ blen new' = blen new /\
      node_is new' t (es_replace2 i (mkEntry p key []) es)).
Proof.
  intros R1 R2 R Hs Hp. split; [intros Hf | intros Hi Hf].
  - by apply (nodeMerge_repr new left right t es1 t2 es2).
  - by apply nodeReplace2Kid_repr.
Qed.

(** Splitting.  An overfull node, as [treeInsert] builds it in its
    two-page buffer, is cut by [nodeSplit3] into the one, two or three pages of
    [split3_spec]: the pieces are laid out in full pages of 4096 bytes, have the
    type of the node, and their entries put together are those of the node. *)
Theorem nodeSplit3_correct old t es ps : node_is old t es -> blen old = 2 * PAGE_SIZE ->
  node_size es <= 2 * PAGE_SIZE - 8 -> split3_spec es = Some ps ->
  exists pages, nodeSplit3 old = Ok pages /\ concat ps = es /\
    Forall2 (fun b p => blen b = PAGE_SIZE /\ node_is b t p) pages ps.
Proof. apply nodeSplit3_repr. Qed.

(** No split fails on small entries.  When every entry, with its 10
    bytes of slots, takes at most 1366 bytes, a node that outgrew its page by one
    entry is always split, into one or two pages that fit, and the assertion of
    [nodeSplit3] is not reached. *)
Theorem nodeSplit3_small_entries old t es : node_is old t es -> blen old = 2 * PAGE_SIZE ->
  Forall (fun e => esize e + 10 <= 1366) es -> node_size es <= PAGE_SIZE + 1366 ->
  exists pages ps, nodeSplit3 old = Ok pages /\ (length pages <= 2)%nat /\ concat ps = es /\
    Forall2 (fun b p => blen b = PAGE_SIZE /\ node_is b t p) pages ps.
Proof.
  intros R Hl HF HN. unfold PAGE_SIZE in *.
  pose proof (Z.div_mod (node_size es) 2 ltac:(lia)).
  pose proof (Z.mod_pos_bound (node_size es) 2 ltac:(lia)).
  assert (Hps : exists ps, split3_spec es = Some ps /\ (length ps <= 2)%nat).
  { destruct (split3_spec_small 1366 es HF) as [E|[k E]]; [lia|unfold PAGE_SIZE; lia| |];
      rewrite E; eexists; (split; [done|]); cbn; lia. }
  destruct Hps as (ps & Eps & Lps).
  destruct (nodeSplit3_repr old t es ps R) as (pages & E & Ec & HP);
    [unfold PAGE_SIZE; lia|unfold PAGE_SIZE; lia|done|].
  exists pages, ps. split; [done|]. split; [|done]. by rewrite (Forall2_length _ _ _ HP).
Qed.

(** Three entries of legal sizes (keys up to 1000 bytes, values up to 3000),
    the middle one inserted into the page that holds the other two. *)
Definition bad_split_entries : list entry :=
  [mkEntry 0 [Byte.x61] (replicate 1985 Byte.x2e);
   mkEntry 0 [Byte.x62] (replicate 2090 Byte.x2e);
   mkEntry 0 [Byte.x63] (replicate 1985 Byte.x2e)].

(** A split that panics.  A leaf page can hold two values of 1985 bytes;
    inserting a value of 2090 bytes (the limit is 3000) between them makes
    [leafInsert] succeed and then [nodeSplit3] panic: both halvings put the large
    entry with its left neighbour, and the assertion that the first page fits
    fails. *)
Theorem nodeSplit3_panics :
  let page := encode_node PAGE_SIZE BNODE_LEAF (es_delete 1 bad_split_entries) in
  Forall (fun e => blen (eKey e) <= MAXKEYLEN /\ blen (eVal e) <= MAXVALLEN) bad_split_entries /\
  node_size (es_delete 1 bad_split_entries) <= PAGE_SIZE /\
  (new ← leafInsert (make_bytes (2 * PAGE_SIZE)) page 1 [Byte.x62] (replicate 2090 Byte.x2e);
   nodeSplit3 new) = Crash Panicked.
Proof.
  split; [|split].
  - repeat (apply Forall_cons; split; [vm_compute; split; discriminate|]). apply Forall_nil. exact I.
  - vm_compute. discriminate.
  - vm_compute. reflexivity.
Qed.

(** ** Witnesses: a leaf of three entries, the first the dummy one. *)

Definition demo_entries : list entry :=
  [mkEntry 0 [] []; mkEntry 0 [Byte.x61] [Byte.x31]; mkEntry 0 [Byte.x63] [Byte.x32]].
Definition demo_leaf : bytes := encode_node PAGE_SIZE BNODE_LEAF demo_entries.

Ltac entries_ok :=
  repeat first [apply List.Forall_cons | apply List.Forall_nil | (split; [discriminate|reflexivity])].

Lemma demo_leaf_is : node_is demo_leaf BNODE_LEAF demo_entries.
Proof.
  apply encode_node_is; [split; [discriminate|reflexivity] | entries_ok
    | split; [discriminate|reflexivity]].
Defined.

Lemma nodeLookupLE_correct_witness :
  nodeLookupLE demo_leaf [Byte.x62] = Ok 1 /\
  (lookupLE_spec demo_entries [Byte.x62] <= 2)%nat.
Proof.
  destruct (nodeLookupLE_correct demo_leaf BNODE_LEAF demo_entries [Byte.x62] demo_leaf_is)
    as (E & Hl & _).
  - repeat first [apply SSorted_cons | apply SSorted_nil | apply List.Forall_cons
      | apply List.Forall_nil | reflexivity].
  - split; [exact E | exact Hl].
Defined.

Lemma leaf_ops_correct_witness :
  exists new', leafInsert (make_bytes (2 * PAGE_SIZE)) demo_leaf 2 [Byte.x62] [Byte.x33] = Ok new' /\
    node_is new' BNODE_LEAF (es_insert 2 (mkEntry 0 [Byte.x62] [Byte.x33]) demo_entries).
Proof.
  destruct (leaf_ops_correct (make_bytes (2 * PAGE_SIZE)) demo_leaf BNODE_LEAF demo_entries 2
    [Byte.x62] [Byte.x33] demo_leaf_is) as (H & _ & _).
  - reflexivity.
  - split; [discriminate|reflexivity].
  - destruct H as (new' & E & _ & N).
    + apply le_S, le_n.
    + discriminate.
    + exists new'. split; [exact E | exact N].
Defined.

Lemma merge_ops_correct_witness :
  exists new', nodeMerge (make_bytes PAGE_SIZE) demo_leaf demo_leaf = Ok new' /\
    node_is new' BNODE_LEAF (demo_entries ++ demo_entries).
Proof.
  destruct (merge_ops_correct (make_bytes PAGE_SIZE) demo_leaf demo_leaf demo_leaf BNODE_LEAF
    demo_entries BNODE_LEAF demo_entries demo_entries 0 7 [] demo_leaf_is demo_leaf_is demo_leaf_is)
    as [H _].
  - reflexivity.
  - split; [discriminate|reflexivity].
  - destruct H as (new' & E & _ & N); [discriminate|]. exists new'. split; [exact E | exact N].
Defined.

(** Two entries of 2500 bytes each, laid out in a two-page buffer. *)
Definition wide_entries : list entry :=
  [mkEntry 0 [Byte.x61] (replicate 2486 Byte.x2e); mkEntry 0 [Byte.x62] (replicate 2486 Byte.x2e)].
Definition wide_leaf : bytes := encode_node (2 * PAGE_SIZE) BNODE_LEAF wide_entries.

Lemma wide_leaf_is : blen wide_leaf = 2 * PAGE_SIZE /\ node_is wide_leaf BNODE_LEAF wide_entries.
Proof.
  apply encode_node_is; [split; [discriminate|reflexivity] | entries_ok
    | vm_compute; split; [discriminate|reflexivity]].
Defined.

Lemma nodeSplit3_correct_witness :
  exists pages, nodeSplit3 wide_leaf = Ok pages /\
    Forall2 (fun b p => blen b = PAGE_SIZE /\ node_is b BNODE_LEAF p) pages
      [take 1 wide_entries; drop 1 wide_entries].
Proof.
  destruct (nodeSplit3_correct wide_leaf BNODE_LEAF wide_entries
    [take 1 wide_entries; drop 1 wide_entries] (proj2 wide_leaf_is) (proj1 wide_leaf_is))
    as (pages & E & _ & H).
  - vm_compute. discriminate.
  - vm_compute. reflexivity.
  - exists pages. split; [exact E | exact H].
Defined.

(** Four entries of 1300 bytes. *)
Definition small_entries : list entry :=
  map (fun c => mkEntry 0 [c] (replicate 1285 Byte.x2e)) [Byte.x61; Byte.x62; Byte.x63; Byte.x64].

Lemma nodeSplit3_small_entries_witness :
  exists pages, nodeSplit3 (encode_node (2 * PAGE_SIZE) BNODE_LEAF small_entries) = Ok pages /\
    (length pages <= 2)%nat.
Proof.
  destruct (encode_node_is (2 * PAGE_SIZE) BNODE_LEAF small_entries) as [Hl R].
  - split; [discriminate|reflexivity].
  - entries_ok.
  - vm_compute. split; [discriminate|reflexivity].
  - destruct (nodeSplit3_small_entries _ BNODE_LEAF small_entries R Hl) as (pages & ps & E & Hp & _).
    + repeat first [apply List.Forall_cons | apply List.Forall_nil | (vm_compute; discriminate)].
    + vm_compute. discriminate.
    + exists pages. split; [exact E | exact Hp].
Defined.
