(* ===== verification/Disk.v ===== *)
(** * storage/disk.go: the page store

    [KV] is the Go struct without its [BTree] closures: the root pointer, the
    page counters and the map of pages written in memory, the free list, the
    memory map, and the database file it maps.  [fd] and [Path] play no part.

    The operating system: the file is its bytes; [pwrite] extends it with zeros
    when it writes past the end; a mapped page shows the file's bytes, zeros
    after the end of the file, and faults when it lies wholly past it.  Whether
    a system call fails is an argument, [faults]: one boolean per call in the
    order they are made, a missing one standing for success.  A failing write
    writes nothing, a succeeding one everything. *)
From Stdlib Require Import ZArith Lia.
From coqutil Require Import Byte Word.LittleEndianList.
From stdpp Require Import base gmap list strings countable.
From S2P Require Import Prelude BNode.

Record FreeList := mkFree {
  headPage : Z; headSeq : Z; tailPage : Z; tailSeq : Z; maxSeq : Z
}.
Record KV := mkKV {
  kRoot : Z;
  kFlushed : Z;
  kNappend : Z;
  kUpdates : gmap Z bytes;
  kFree : FreeList;
  kTotal : Z;
  kChunks : list Z;
  kFile : bytes
}.

Definition set_root r db :=
  mkKV r (kFlushed db) (kNappend db) (kUpdates db) (kFree db) (kTotal db) (kChunks db) (kFile db).
Definition set_pages fl na up db :=
  mkKV (kRoot db) fl na up (kFree db) (kTotal db) (kChunks db) (kFile db).
Definition set_free f db :=
  mkKV (kRoot db) (kFlushed db) (kNappend db) (kUpdates db) f (kTotal db) (kChunks db) (kFile db).
Definition set_mmap t c db :=
  mkKV (kRoot db) (kFlushed db) (kNappend db) (kUpdates db) (kFree db) t c (kFile db).
Definition set_file f db :=
  mkKV (kRoot db) (kFlushed db) (kNappend db) (kUpdates db) (kFree db) (kTotal db) (kChunks db) f.
(** [db.page.updates[ptr] = node], also used for a write through a slice that
    the map holds. *)
Definition set_page (ptr : Z) (node : bytes) (db : KV) : KV :=
  set_pages (kFlushed db) (kNappend db) (<[ptr := node]> (kUpdates db)) db.

(** ** The file *)

Definition pad_to (f : bytes) (n : Z) : bytes := f ++ make_bytes (n - blen f).
Definition pwrite (f : bytes) (off : Z) (data : bytes) : bytes :=
  bwrite (pad_to f (off + blen data)) off data.
Definition mapped_page (f : bytes) (ptr : Z) : res bytes :=
  check PAGE_SIZE * ptr <? blen f or FatalExit;;
  Ok (bsub (pad_to f (PAGE_SIZE * ptr + PAGE_SIZE)) (PAGE_SIZE * ptr) PAGE_SIZE).

(** ** The meta page *)

Definition DB_SIG : bytes := gostr "BuildYourOwnDB06".

Definition saveMeta (db : KV) : res bytes :=
  let data := make_bytes 96 in
  data ← copy_at data 0 DB_SIG;
  data ← put_le 8 data 16 (kRoot db);
  data ← put_le 8 data 24 (kFlushed db);
  data ← put_le 8 data 32 (headPage (kFree db));
  data ← put_le 8 data 40 (headSeq (kFree db));
  data ← put_le 8 data 48 (tailPage (kFree db));
  data ← put_le 8 data 56 (tailSeq (kFree db));
  put_le 8 data 64 (maxSeq (kFree db)).

Definition loadMeta (db : KV) (data : bytes) : res KV :=
  check negb (blen data <? 96) or Panicked;;
  sig ← slice data 0 16;
  if negb (bool_decide (sig = DB_SIG)) then Crash Panicked else
  root ← get_le 8 data 16;
  flushed ← get_le 8 data 24;
  hp ← get_le 8 data 32;
  hs ← get_le 8 data 40;
  tp ← get_le 8 data 48;
  ts ← get_le 8 data 56;
  ms ← get_le 8 data 64;
  Ok (set_free (mkFree hp hs tp ts ms)
       (set_pages flushed (kNappend db) (kUpdates db) (set_root root db))).

Definition readRoot (db : KV) (fileSize : Z) : res KV :=
  if decide (fileSize = 0) then
    Ok (set_free (mkFree 1 0 1 0 0) (set_pages 2 (kNappend db) (kUpdates db) db))
  else
    _ ← index (kChunks db) 0;
    data ← mapped_page (kFile db) 0;
    loadMeta db data.

(** ** Pages *)

(** The loop over the chunks: [start] is the first page of the chunk. *)
Fixpoint find_chunk (chunks : list Z) (ptr start : Z) : bool :=
  match chunks with
  | [] => false
  | len :: chunks' =>
      let end_ := u64 (start + len / PAGE_SIZE) in
      if ptr <? end_ then true else find_chunk chunks' ptr end_
  end.
Definition pageRead (db : KV) (ptr : Z) : res bytes :=
  match kUpdates db !! ptr with
  | Some node => Ok node
  | None => if find_chunk (kChunks db) ptr 0 then mapped_page (kFile db) ptr else Crash Panicked
  end.

Definition pageAppend (db : KV) (node : bytes) : KV * Z :=
  let ptr := u64 (kFlushed db + kNappend db) in
  (set_page ptr node (set_pages (kFlushed db) (u64 (kNappend db + 1)) (kUpdates db) db), ptr).

Definition pageWrite (db : KV) (ptr : Z) : res (KV * bytes) :=
  match kUpdates db !! ptr with
  | Some node => Ok (db, node)
  | None =>
      old ← pageRead db ptr;
      newNode ← copy_at (make_bytes PAGE_SIZE) 0 old;
      Ok (set_page ptr newNode db, newNode)
  end.

(** ** The free list *)

Definition CAP : Z := (PAGE_SIZE - 8) / 8.

Definition freePopHead (db : KV) : res (KV * (Z * Z)) :=
  let f := kFree db in
  if maxSeq f <? headSeq f then Ok (db, (0, 0))
  else if decide (headSeq f = tailSeq f) then
    Ok (set_free (mkFree 0 0 0 0 (maxSeq f)) db, (headPage f, 0))
  else
    node ← pageRead db (headPage f);
    let idx := headSeq f mod CAP in
    ptr ← get_le 8 node (8 + idx * 8);
    let hs := u64 (headSeq f + 1) in
    if decide (hs mod CAP = 0) then
      next ← get_le 8 node 0;
      Ok (set_free (mkFree next hs (tailPage f) (tailSeq f) (maxSeq f)) db, (ptr, headPage f))
    else Ok (set_free (mkFree (headPage f) hs (tailPage f) (tailSeq f) (maxSeq f)) db, (ptr, 0)).

(** [freePushTail] in its three steps: store the number in the tail page, link
    the page [next] behind the tail page and recycle the emptied page [head] into
    it, and the whole. *)
Definition free_store (db : KV) (ptr : Z) : res KV :=
  let f := kFree db in
  '(db, node) ← pageWrite db (tailPage f);
  let idx := tailSeq f mod CAP in
  node ← put_le 8 node (8 + idx * 8) ptr;
  let db := set_page (tailPage f) node db in
  Ok (set_free (mkFree (headPage f) (headSeq f) (tailPage f) (u64 (tailSeq f + 1)) (maxSeq f)) db).

Definition free_link (db : KV) (next head : Z) : res KV :=
  let f := kFree db in
  '(db, node) ← pageWrite db (tailPage f);
  node ← put_le 8 node 0 next;
  let db := set_page (tailPage f) node db in
  let db := set_free (mkFree (headPage f) (headSeq f) next (tailSeq f) (maxSeq f)) db in
  if negb (bool_decide (head = 0)) then
    let f := kFree db in
    '(db, newNode) ← pageWrite db (tailPage f);
    newNode ← put_le 8 newNode 8 head;
    let db := set_page (tailPage f) newNode db in
    Ok (set_free (mkFree (headPage f) (headSeq f) (tailPage f) (u64 (tailSeq f + 1)) (maxSeq f)) db)
  else Ok db.

Definition freePushTail (db : KV) (ptr : Z) : res KV :=
  let f := kFree db in
  if decide (tailPage f = 0) then
    let newNode := make_bytes PAGE_SIZE in
    let '(db, newptr) := pageAppend db newNode in
    newNode ← put_le 8 newNode 8 ptr;
    Ok (set_page newptr newNode (set_free (mkFree newptr 0 newptr 1 (maxSeq f)) db))
  else
    db ← free_store db ptr;
    if decide (tailSeq (kFree db) mod CAP = 0) then
      '(db, (next, head)) ← freePopHead db;
      let '(db, next) :=
        if decide (next = 0) then pageAppend db (make_bytes PAGE_SIZE) else (db, next) in
      free_link db next head
    else Ok db.

Definition pageAlloc (db : KV) (node : bytes) : res (KV * Z) :=
  '(db, (ptr, head)) ← freePopHead db;
  db ← (if negb (bool_decide (head = 0)) then freePushTail db head else Ok db);
  if negb (bool_decide (ptr = 0)) then Ok (set_page ptr node db, ptr)
  else Ok (pageAppend db node).

(** ** Writing the file *)

(** One system call: does it succeed, and the faults that remain. *)
Definition syscall (faults : list bool) : bool * list bool :=
  match faults with [] => (true, []) | b :: faults' => (negb b, faults') end.

(** Doubling [alloc] until the mapping covers [size]: 64 turns pass any
    [int]. *)
Fixpoint grow (fuel : nat) (total alloc size : Z) : res Z :=
  match fuel with
  | O => Crash OutOfFuel
  | S fuel => if i64 (total + alloc) <? size then grow fuel total (i64 (alloc * 2)) size else Ok alloc
  end.
(** The boolean is false when an error is returned. *)
Definition extendMmap (faults : list bool) (db : KV) (size : Z) : res (KV * bool * list bool) :=
  if size <=? kTotal db then Ok (db, true, faults) else
  let alloc := if kTotal db <? Z.shiftl 64 20 then Z.shiftl 64 20 else kTotal db in
  alloc ← grow 64 (kTotal db) alloc size;
  let '(ok, faults) := syscall faults in
  if ok then Ok (set_mmap (i64 (kTotal db + alloc)) (kChunks db ++ [alloc]) db, true, faults)
  else Ok (db, false, faults).

(** The loop that writes the updated pages; [ws] is the map in the order the
    iteration yields it. *)
Fixpoint write_pages (faults : list bool) (db : KV) (ws : list (Z * bytes)) : KV * bool * list bool :=
  match ws with
  | [] => (db, true, faults)
  | (ptr, page) :: ws' =>
      let offset := i64 (u64 (ptr * PAGE_SIZE)) in
      let '(ok, faults) := syscall faults in
      if ok then write_pages faults (set_file (pwrite (kFile db) offset page) db) ws'
      else (db, false, faults)
  end.

Definition updateFile (faults : list bool) (ws : list (Z * bytes)) (db : KV) : res (KV * bool) :=
  let size := i64 (u64 (kFlushed db + kNappend db) * PAGE_SIZE) in
  '(db, ok, faults) ← extendMmap faults db size;
  if negb ok then Ok (db, false) else
  let '(db, ok, faults) := write_pages faults db ws in
  if negb ok then Ok (db, false) else
  let '(ok, faults) := syscall faults in
  if negb ok then Ok (db, false) else
  meta ← saveMeta db;
  let '(ok, faults) := syscall faults in
  if negb ok then Ok (db, false) else
  let db := set_file (pwrite (kFile db) 0 meta) db in
  let '(ok, faults) := syscall faults in
  if negb ok then Ok (db, false) else
  let f := kFree db in
  Ok (set_free (mkFree (headPage f) (headSeq f) (tailPage f) (tailSeq f) (tailSeq f))
       (set_pages (u64 (kFlushed db + kNappend db)) 0 ∅ db), true).

(** [Abort] with the meta page saved by [Begin]. *)
Definition Abort (db : KV) (meta : bytes) : res KV :=
  db ← loadMeta db meta;
  Ok (set_pages (kFlushed db) 0 ∅ db).

(** [Open] on a file that exists with contents [file]; the calls that open it
    and read its size are taken to succeed. *)
Definition Open (faults : list bool) (file : bytes) : res (KV * bool) :=
  let db := mkKV 0 0 0 ∅ (mkFree 0 0 0 0 0) 0 [] file in
  '(db, ok, _) ← extendMmap faults db (blen file);
  if negb ok then Ok (db, false) else
  db ← readRoot db (blen file);
  Ok (db, true).

(** ** The meta page: lemmas *)

Definition free_ok (f : FreeList) : Prop :=
  in_u64 (headPage f) /\ in_u64 (headSeq f) /\ in_u64 (tailPage f) /\ in_u64 (tailSeq f) /\ in_u64 (maxSeq f).
Definition meta_ok (db : KV) : Prop := in_u64 (kRoot db) /\ in_u64 (kFlushed db) /\ free_ok (kFree db).

(** The 72 bytes a meta page starts with. *)
Definition meta_head (root flushed : Z) (f : FreeList) : bytes :=
  DB_SIG ++ concat (map (le_split 8)
    [root; flushed; headPage f; headSeq f; tailPage f; tailSeq f; maxSeq f]).

Lemma put_le_next n b s v : blen s + Z.of_nat n <= blen b ->
  put_le n (bwrite b 0 s) (blen s) v = Ok (bwrite b 0 (s ++ le_split n v)).
Proof.
  intros H. pose proof (blen_nonneg s).
  rewrite put_le_Ok by (rewrite ?blen_bwrite; lia).
  f_equal. apply (bwrite_bwrite_app b 0 s); rewrite ?blen_le_split; lia.
Qed.

Lemma saveMeta_holds db : exists data, saveMeta db = Ok data /\ blen data = 96 /\
  holds data 0 (meta_head (kRoot db) (kFlushed db) (kFree db)).
Proof.
  set (z := make_bytes 96). assert (Hz : blen z = 96) by reflexivity.
  assert (Hs : blen DB_SIG = 16) by reflexivity.
  assert (E : saveMeta db = Ok (bwrite z 0 (meta_head (kRoot db) (kFlushed db) (kFree db)))).
  { unfold saveMeta. fold z. rewrite copy_at_Ok by lia. cbn [mbind res_bind].
    unfold meta_head. cbn [map concat]. rewrite app_nil_r, !app_assoc.
    assert (HH : forall s n v k, blen s = n -> n + 8 <= 96 -> k = Ok (bwrite z 0 (s ++ le_split 8 v)) ->
      put_le 8 (bwrite z 0 s) n v = k).
    { intros s n v k <- Hn ->. by apply put_le_next. }
    repeat (erewrite HH; [|shelve|shelve|reflexivity]; cbn [mbind res_bind]).
    reflexivity.
    Unshelve. all: rewrite ?blen_app, ?blen_le_split; lia. }
  assert (Hl : blen (meta_head (kRoot db) (kFlushed db) (kFree db)) = 72).
  { unfold meta_head. rewrite blen_app. cbn [map concat]. rewrite !blen_app, !blen_le_split. reflexivity. }
  eexists. split; [exact E|]. split; [rewrite blen_bwrite; lia|apply holds_bwrite_same; lia].
Qed.

Lemma loadMeta_holds db data root flushed f : 96 <= blen data ->
  holds data 0 (meta_head root flushed f) -> in_u64 root -> in_u64 flushed -> free_ok f ->
  loadMeta db data = Ok (set_free f (set_pages flushed (kNappend db) (kUpdates db) (set_root root db))).
Proof.
  intros Hl H Hr Hfl (H1 & H2 & H3 & H4 & H5). unfold loadMeta, meta_head in *.
  rewrite guard_true by (apply negb_true_iff, Z.ltb_ge; lia).
  apply holds_app in H as [Hsig H].
  rstep (holds_slice data 0 DB_SIG Hsig : slice data 0 16 = _).
  rewrite bool_decide_true by done. cbn [negb].
  cbn [map concat] in H.
  assert (HH : forall v i rest, in_u64 v -> holds data i (le_split 8 v ++ rest) ->
    get_le 8 data i = Ok v /\ holds data (i + 8) rest).
  { intros v i rest Hv Hh. apply holds_app in Hh as [Hv1 Hv2]. rewrite blen_le_split in Hv2.
    split; [by apply holds_get_le|done]. }
  change (0 + blen DB_SIG) with 16 in H.
  apply HH in H as [E1 H]; [|done]. apply HH in H as [E2 H]; [|done].
  apply HH in H as [E3 H]; [|done]. apply HH in H as [E4 H]; [|done].
  apply HH in H as [E5 H]; [|done]. apply HH in H as [E6 H]; [|done].
  apply HH in H as [E7 H]; [|done].
  rstep E1. rstep (E2 : get_le 8 data 24 = _). rstep (E3 : get_le 8 data 32 = _).
  rstep (E4 : get_le 8 data 40 = _). rstep (E5 : get_le 8 data 48 = _).
  rstep (E6 : get_le 8 data 56 = _). rstep (E7 : get_le 8 data 64 = _). by destruct f.
Qed.

(** ** Pages: lemmas *)

Lemma pageRead_set_page p b db q :
  pageRead (set_page p b db) q = if decide (p = q) then Ok b else pageRead db q.
Proof.
  unfold pageRead. cbn [set_page set_pages kUpdates kChunks kFile].
  case_decide as E; [subst; by rewrite lookup_insert_eq|by rewrite lookup_insert_ne].
Qed.
Lemma pageRead_set_free f db q : pageRead (set_free f db) q = pageRead db q.
Proof. reflexivity. Qed.
Lemma kFree_set_page p b db : kFree (set_page p b db) = kFree db.
Proof. reflexivity. Qed.

(** A page that can be read and is a full page. *)
Definition page_ok (rd : Z -> res bytes) (p : Z) : Prop := exists b, rd p = Ok b /\ blen b = PAGE_SIZE.

(** What [pageWrite] and [pageAppend] keep: everything but the page map, and
    the reading of every page but the appended one. *)
Definition same_but_pages (db db' : KV) : Prop :=
  kRoot db' = kRoot db /\ kFlushed db' = kFlushed db /\ kTotal db' = kTotal db /\
  kChunks db' = kChunks db /\ kFile db' = kFile db.

Lemma pageWrite_Ok db p b : pageRead db p = Ok b -> blen b = PAGE_SIZE -> exists db',
  pageWrite db p = Ok (db', b) /\ (forall q, pageRead db' q = pageRead db q) /\
  kFree db' = kFree db /\ kNappend db' = kNappend db /\ same_but_pages db db'.
Proof.
  intros Hr Hb. unfold pageWrite. destruct (kUpdates db !! p) as [node|] eqn:E.
  - unfold pageRead in Hr. rewrite E in Hr. injection Hr as ->. exists db. by repeat split.
  - rstep Hr. rewrite copy_at_Ok by (rewrite ?blen_make; unfold PAGE_SIZE in *; lia).
    cbn [mbind res_bind].
    assert (Hc : bwrite (make_bytes PAGE_SIZE) 0 b = b).
    { unfold bwrite. change (Z.to_nat 0) with 0%nat. rewrite take_0. cbn [app].
      rewrite drop_ge; [by rewrite app_nil_r|].
      unfold blen in Hb. pose proof (blen_make PAGE_SIZE). unfold blen, PAGE_SIZE in *. lia. }
    rewrite Hc. exists (set_page p b db). split; [done|]. split; [|by repeat split].
    intros q. rewrite pageRead_set_page. case_decide; [by subst|done].
Qed.

Lemma pageAppend_read db node q :
  let '(db', ptr) := pageAppend db node in
  pageRead db' q = if decide (ptr = q) then Ok node else pageRead db q.
Proof. unfold pageAppend. rewrite pageRead_set_page. by case_decide. Qed.
