(* ===== verification/FreeList.v ===== *)
(** * The free list of the page store

    The free list of storage/disk.go is a queue of page numbers kept in a chain
    of list pages.  This file states the queue ([q_pop], [q_push], [q_alloc] on
    the record [queue]), the representation of a queue by a store ([q_rep]), and
    the refinement: [freePopHead], [freePushTail] and [pageAlloc] of the file
    Disk do to the store what the queue operations do to the queue, and touch no
    other page.  Two theorems show where the code parts from what it means to
    do: the reuse of a page inside the transaction that freed it, and a list
    with one slot left. *)
From Stdlib Require Import ZArith Lia.
From coqutil Require Import Byte Word.LittleEndianList.
From stdpp Require Import base gmap list strings countable.
From S2P Require Import Prelude BNode Disk.

(** ** The free list as a queue

    [slot] and [link] read an entry and the next pointer of a list page.  The
    list holds the page numbers [items], oldest first, in the pages [chain],
    head first; sequence number [s] is kept in slot [s mod CAP] of the chain
    page number [s / CAP - headSeq / CAP]. *)
Definition slot (rd : Z -> res bytes) (p i : Z) : res Z := b ← rd p; get_le 8 b (8 + i * 8).
Definition link (rd : Z -> res bytes) (p : Z) : res Z := b ← rd p; get_le 8 b 0.

Record fl_core (rd : Z -> res bytes) (f : FreeList) (chain items : list Z) : Prop := {
  fc_head : chain !! 0%nat = Some (headPage f);
  fc_tail : chain !! pred (length chain) = Some (tailPage f);
  fc_nodup : NoDup (chain ++ items);
  fc_nonzero : Forall (fun p => p <> 0 /\ in_u64 p) (chain ++ items);
  fc_pages : Forall (page_ok rd) (chain ++ items);
  fc_seq : 0 <= headSeq f /\ tailSeq f = headSeq f + Z.of_nat (length items);
  fc_slots : forall s x, headSeq f <= s -> items !! Z.to_nat (s - headSeq f) = Some x ->
    exists p, chain !! Z.to_nat (s / CAP - headSeq f / CAP) = Some p /\ slot rd p (s mod CAP) = Ok x;
  fc_links : forall i p q, chain !! i = Some p -> chain !! S i = Some q -> link rd p = Ok q
}.
Definition fl_inv rd f chain items : Prop :=
  fl_core rd f chain items /\ length chain = Z.to_nat (tailSeq f / CAP - headSeq f / CAP + 1).

(** The queue itself, as the specification of the free list: the pages it is
    made of, the pages it holds, the sequence number of the oldest one and the
    sequence number up to which they may be taken.  [q_pop] gives the page taken
    and the list page it emptied; [q_push] takes the page number [np] that an
    append would hand out and says whether it was used. *)
Record queue := mkQueue {
  q_chain : list Z; q_items : list Z; q_head : Z; q_max : Z
}.
Definition q_tail (q : queue) : Z := q_head q + Z.of_nat (length (q_items q)).
Definition q_pages (q : queue) : list Z := q_chain q ++ q_items q.

Definition q_pop (q : queue) : queue * (option Z * option Z) :=
  if q_max q <? q_head q then (q, (None, None)) else
  match q_items q with
  | [] => (mkQueue [] [] 0 (q_max q), (hd_error (q_chain q), None))
  | x :: items =>
      let h := q_head q + 1 in
      if decide (h mod CAP = 0)
      then (mkQueue (tail (q_chain q)) items h (q_max q), (Some x, hd_error (q_chain q)))
      else (mkQueue (q_chain q) items h (q_max q), (Some x, None))
  end.
Definition q_link (q : queue) (next : Z) (head : option Z) : queue :=
  mkQueue (q_chain q ++ [next]) (q_items q ++ option_list head) (q_head q) (q_max q).
Definition q_push (np : Z) (q : queue) (ptr : Z) : queue * bool :=
  match q_chain q with
  | [] => (mkQueue [np] [ptr] 0 (q_max q), true)
  | _ =>
      let q := mkQueue (q_chain q) (q_items q ++ [ptr]) (q_head q) (q_max q) in
      if decide (q_tail q mod CAP = 0) then
        match q_pop q with
        | (q, (Some x, hd)) => (q_link q x hd, false)
        | (q, (None, hd)) => (q_link q np hd, true)
        end
      else (q, false)
  end.
Definition q_alloc (np : Z) (q : queue) : queue * Z :=
  let '(q, (x, hd)) := q_pop q in
  (match hd with Some h => (q_push np q h).1 | None => q end, default np x).

Definition q_repd (d : nat) (db : KV) (q : queue) : Prop :=
  q_head q = headSeq (kFree db) /\ q_max q = maxSeq (kFree db) /\
  fl_core (pageRead db) (kFree db) (q_chain q) (q_items q) /\
  length (q_chain q) = (Z.to_nat (tailSeq (kFree db) / CAP - headSeq (kFree db) / CAP) + d)%nat.
Definition q_rep (db : KV) (q : queue) : Prop :=
  (q = mkQueue [] [] 0 (maxSeq (kFree db)) /\ kFree db = mkFree 0 0 0 0 (maxSeq (kFree db))) \/
  q_repd 1 db q.

Lemma CAP_eq : CAP = 511.
Proof. reflexivity. Qed.

Ltac cap_lia := rewrite ?CAP_eq in *; Z.div_mod_to_equations; lia.

Lemma page_ok_ext rd rd' p : rd' p = rd p -> page_ok rd p -> page_ok rd' p.
Proof. intros E (b & Hb & Hl). exists b. by rewrite E. Qed.

(** The core only depends on the contents of its pages. *)
Lemma fl_core_ext rd rd' f chain items : (forall p, p ∈ chain ++ items -> rd' p = rd p) ->
  fl_core rd f chain items -> fl_core rd' f chain items.
Proof.
  intros HE [H1 H2 H3 H4 H5 H6 H7 H8].
  assert (HC : forall i p, chain !! i = Some p -> rd' p = rd p).
  { intros i p Hp. apply HE, elem_of_app. left. by eapply list_elem_of_lookup_2. }
  split; try done.
  - apply List.Forall_forall. intros p Hp. apply list_elem_of_In in Hp.
    rewrite List.Forall_forall in H5. apply page_ok_ext with rd; [by apply HE|].
    by apply H5, list_elem_of_In.
  - intros s x Hs Hx. destruct (H7 s x Hs Hx) as (p & Hp & Hsl). exists p. split; [done|].
    unfold slot. by rewrite (HC _ _ Hp).
  - intros i p q Hp Hq. unfold link. rewrite (HC _ _ Hp). by apply (H8 i).
Qed.

(** Taking the head.  [Hex]: when the head page is exhausted there is a next one. *)
Lemma freePopHead_core db chain x items :
  fl_core (pageRead db) (kFree db) chain (x :: items) ->
  headSeq (kFree db) <= maxSeq (kFree db) -> tailSeq (kFree db) < 18446744073709551616 ->
  ((headSeq (kFree db) + 1) mod CAP = 0 -> (2 <= length chain)%nat) ->
  exists f' head, freePopHead db = Ok (set_free f' db, (x, head)) /\
    headSeq f' = headSeq (kFree db) + 1 /\ tailSeq f' = tailSeq (kFree db) /\
    tailPage f' = tailPage (kFree db) /\
    (((headSeq (kFree db) + 1) mod CAP <> 0 /\ head = 0 /\ fl_core (pageRead db) f' chain items) \/
     ((headSeq (kFree db) + 1) mod CAP = 0 /\ head <> 0 /\
        exists chain', chain = head :: chain' /\ fl_core (pageRead db) f' chain' items)).
Proof.
  intros [H1 H2 H3 H4 H5 H6 H7 H8] Hmax Hu Hex. set (f := kFree db) in *. cbn [length] in H6.
  rewrite <- Permutation_middle in H3, H4, H5.
  apply list.NoDup_cons in H3 as [_ N]. apply list.Forall_cons in H4 as [_ F]. apply list.Forall_cons in H5 as [_ P].
  destruct (H7 (headSeq f) x) as (p & Hp & Hslot); [lia|by rewrite Z.sub_diag|].
  rewrite Z.sub_diag in Hp. change (Z.to_nat 0) with 0%nat in Hp. rewrite H1 in Hp. injection Hp as <-.
  unfold slot in Hslot. apply bind_inv in Hslot as (node & Hn & Hslot).
  unfold freePopHead. fold f.
  replace (maxSeq f <? headSeq f) with false by (symmetry; apply Z.ltb_ge; lia).
  rewrite decide_False by lia. rstep Hn. rstep Hslot.
  rewrite u64_small by (unfold in_u64; lia).
  assert (Hslots : forall s y, headSeq f + 1 <= s -> items !! Z.to_nat (s - (headSeq f + 1)) = Some y ->
    exists p, chain !! Z.to_nat (s / CAP - headSeq f / CAP) = Some p /\ slot (pageRead db) p (s mod CAP) = Ok y).
  { intros s y Hs Hy. apply H7; [lia|].
    by replace (Z.to_nat (s - headSeq f)) with (S (Z.to_nat (s - (headSeq f + 1)))) by lia. }
  case_decide as Hm.
  - destruct chain as [|h [|c chain']]; [done|by specialize (Hex Hm); cbn in Hex; lia|].
    cbn in H1. injection H1 as ->.
    pose proof (H8 0%nat (headPage f) c eq_refl eq_refl) as Hl. unfold link in Hl.
    rewrite Hn in Hl. cbn [mbind res_bind] in Hl. rstep Hl.
    eexists _, (headPage f). split; [done|]. cbn [headSeq tailSeq tailPage].
    split; [done|]. split; [done|]. split; [done|]. right. split; [done|].
    split; [apply list.Forall_cons in F as [[? _] _]; done|]. exists (c :: chain'). split; [done|].
    split; cbn [headPage headSeq tailPage tailSeq]; try done.
    + by apply list.NoDup_cons in N as [_ N].
    + by apply list.Forall_cons in F as [_ F].
    + by apply list.Forall_cons in P as [_ P].
    + lia.
    + intros s y Hs Hy. destruct (Hslots s y Hs Hy) as (p & Hp & Hsl). exists p. split; [|done].
      rewrite <- Hp. replace (Z.to_nat (s / CAP - headSeq f / CAP)) with
        (S (Z.to_nat (s / CAP - (headSeq f + 1) / CAP))) by cap_lia. done.
    + intros i p q Hp Hq. by apply (H8 (S i)).
  - eexists _, 0. split; [done|]. cbn [headSeq tailSeq tailPage].
    split; [done|]. split; [done|]. split; [done|]. left. split; [done|]. split; [done|].
    split; cbn [headPage headSeq tailPage tailSeq]; try done.
    + lia.
    + intros s y Hs Hy. destruct (Hslots s y Hs Hy) as (p & Hp & Hsl). exists p. split; [|done].
      rewrite <- Hp. by replace ((headSeq f + 1) / CAP) with (headSeq f / CAP) by cap_lia.
Qed.

(** Writing the next slot of the tail page. *)
Definition with_tailSeq (f : FreeList) (ts : Z) : FreeList :=
  mkFree (headPage f) (headSeq f) (tailPage f) ts (maxSeq f).
Definition with_tailPage (f : FreeList) (tp : Z) : FreeList :=
  mkFree (headPage f) (headSeq f) tp (tailSeq f) (maxSeq f).

Definition usable (rd : Z -> res bytes) (p : Z) : Prop := p <> 0 /\ in_u64 p /\ page_ok rd p.

Lemma slot_write rd rd' T b i x q j : rd T = Ok b -> blen b = PAGE_SIZE -> 0 <= i < CAP -> 0 <= j < CAP ->
  rd' q = (if decide (T = q) then Ok (bwrite b (8 + i * 8) (le_split 8 x)) else rd q) ->
  T <> q \/ i <> j -> slot rd' q j = slot rd q j.
Proof.
  intros Hr Hb Hi Hj E Hd. unfold slot. rewrite E. case_decide as ET; [|done]. subst q. rewrite Hr.
  cbn [mbind res_bind]. rewrite CAP_eq in *. unfold PAGE_SIZE in Hb.
  apply get_le_bwrite_disjoint; rewrite ?blen_le_split; lia.
Qed.
Lemma link_write rd rd' T b i x q : rd T = Ok b -> blen b = PAGE_SIZE -> 0 <= i < CAP ->
  rd' q = (if decide (T = q) then Ok (bwrite b (8 + i * 8) (le_split 8 x)) else rd q) ->
  link rd' q = link rd q.
Proof.
  intros Hr Hb Hi E. unfold link. rewrite E. case_decide as ET; [|done]. subst q. rewrite Hr.
  cbn [mbind res_bind]. rewrite CAP_eq in *. unfold PAGE_SIZE in Hb.
  apply get_le_bwrite_disjoint; rewrite ?blen_le_split; lia.
Qed.
Lemma page_ok_write rd rd' T b i x q : rd T = Ok b -> blen b = PAGE_SIZE -> 0 <= i -> i + 8 <= PAGE_SIZE ->
  rd' q = (if decide (T = q) then Ok (bwrite b i (le_split 8 x)) else rd q) ->
  page_ok rd q -> page_ok rd' q.
Proof.
  intros Hr Hb Hi Hi8 E (c & Hc & Hl). unfold page_ok. rewrite E. case_decide; [|by exists c].
  eexists. split; [done|]. rewrite blen_bwrite; rewrite ?blen_le_split; lia.
Qed.

Lemma fl_core_push rd rd' f chain items ptr b : fl_inv rd f chain items ->
  rd (tailPage f) = Ok b -> blen b = PAGE_SIZE ->
  (forall q, rd' q = if decide (tailPage f = q)
    then Ok (bwrite b (8 + (tailSeq f mod CAP) * 8) (le_split 8 ptr)) else rd q) ->
  ptr ∉ chain ++ items -> usable rd ptr ->
  fl_core rd' (with_tailSeq f (tailSeq f + 1)) chain (items ++ [ptr]).
Proof.
  intros [[H1 H2 H3 H4 H5 H6 H7 H8] Hlen] Hr Hb E Hnin (Hnz & Hu & Hok).
  set (k := tailSeq f mod CAP) in *.
  assert (Hk : 0 <= k < CAP) by (apply Z.mod_pos_bound; rewrite CAP_eq; lia).
  assert (Hk8 : 8 + k * 8 + 8 <= PAGE_SIZE) by (rewrite CAP_eq in Hk; unfold PAGE_SIZE; lia).
  split; cbn [headPage headSeq tailPage tailSeq with_tailSeq]; try done.
  - rewrite app_assoc. apply list.NoDup_app. split; [done|]. split; [|apply NoDup_singleton].
    intros q Hq Hq2. apply list_elem_of_singleton in Hq2 as ->. done.
  - rewrite app_assoc. apply Forall_app. split; [done|]. by apply Forall_singleton.
  - rewrite app_assoc. apply Forall_app. split; [|apply Forall_singleton].
    + eapply list.Forall_impl; [exact H5|]. intros q Hq.
      eapply page_ok_write; [exact Hr|done| |exact Hk8|apply E|done]. lia.
    + eapply page_ok_write; [exact Hr|done| |exact Hk8|apply E|done]. lia.
  - rewrite length_app. cbn [length]. lia.
  - intros s x Hs Hx. destruct (decide (s = tailSeq f)) as [->|Hne].
    + rewrite lookup_app_r in Hx by lia.
      replace (Z.to_nat (tailSeq f - headSeq f) - length items)%nat with 0%nat in Hx by lia.
      injection Hx as <-. exists (tailPage f). split.
      * rewrite <- H2. f_equal. rewrite Hlen. cap_lia.
      * unfold slot. rewrite E, decide_True by done. cbn [mbind res_bind]. fold k.
        apply get_put_le_same; [lia|lia|exact Hu].
    + assert (Hlt : (Z.to_nat (s - headSeq f) < length items)%nat).
      { apply lookup_lt_Some in Hx. rewrite length_app in Hx. cbn [length] in Hx. lia. }
      rewrite lookup_app_l in Hx by done.
      destruct (H7 s x Hs Hx) as (p & Hp & Hsl). exists p. split; [done|].
      rewrite <- Hsl. eapply slot_write; [exact Hr|done|exact Hk| |apply E|].
      { apply Z.mod_pos_bound. rewrite CAP_eq; lia. }
      destruct (decide (k = s mod CAP)) as [Ek|]; [|by right]. left. intros <-.
      apply list.NoDup_app in H3 as [H3 _].
      pose proof (NoDup_lookup _ _ _ _ H3 Hp H2) as Hi. rewrite Hlen in Hi. unfold k in Ek. cap_lia.
  - intros i p q Hp Hq. rewrite <- (H8 i p q Hp Hq). eapply link_write; [exact Hr|done|exact Hk|apply E].
Qed.

(** Linking a fresh page after a tail page that is full. *)
Lemma fl_core_link rd rd' f chain items next b : fl_core rd f chain items ->
  tailSeq f mod CAP = 0 -> length chain = Z.to_nat (tailSeq f / CAP - headSeq f / CAP) ->
  rd (tailPage f) = Ok b -> blen b = PAGE_SIZE ->
  (forall q, q ∈ chain ++ items -> rd' q = if decide (tailPage f = q)
    then Ok (bwrite b 0 (le_split 8 next)) else rd q) ->
  next ∉ chain ++ items -> usable rd' next ->
  fl_inv rd' (with_tailPage f next) (chain ++ [next]) items.
Proof.
  intros [H1 H2 H3 H4 H5 H6 H7 H8] Hm Hlen Hr Hb E Hnin (Hnz & Hu & Hok).
  assert (HC : forall i p, chain !! i = Some p -> p ∈ chain ++ items).
  { intros i p Hp. apply elem_of_app. left. by eapply list_elem_of_lookup_2. }
  assert (HTl : tailPage f ∈ chain ++ items) by (by eapply HC).
  assert (HP : chain ++ [next] ++ items ≡ₚ next :: chain ++ items) by (symmetry; apply Permutation_middle).
  assert (Hpos : (0 < length chain)%nat) by (apply lookup_lt_Some in H1; lia).
  split; cycle 1.
  { rewrite length_app. cbn [with_tailPage headSeq tailSeq length]. rewrite CAP_eq in *. lia. }
  split; cbn [headPage headSeq tailPage tailSeq with_tailPage].
  - by rewrite lookup_app_l.
  - rewrite length_app. cbn [length]. rewrite Nat.add_1_r. cbn [pred].
    rewrite lookup_app_r by lia. by rewrite Nat.sub_diag.
  - rewrite <- app_assoc, HP. by apply list.NoDup_cons.
  - rewrite <- app_assoc, HP. by apply list.Forall_cons.
  - rewrite <- app_assoc, HP. apply list.Forall_cons. split; [done|].
    apply List.Forall_forall. intros q Hq. rewrite List.Forall_forall in H5.
    eapply (page_ok_write rd rd'); [exact Hr|done| | |apply E; by apply list_elem_of_In|by apply H5];
      unfold PAGE_SIZE; lia.
  - done.
  - intros s x Hs Hx. destruct (H7 s x Hs Hx) as (p & Hp & Hsl). exists p.
    split; [rewrite lookup_app_l; [done|by eapply lookup_lt_Some]|].
    rewrite <- Hsl. unfold slot. rewrite E by (by eapply HC). case_decide as ET; [|done].
    subst p. rewrite Hr. cbn [mbind res_bind].
    pose proof (Z.mod_pos_bound s CAP ltac:(rewrite CAP_eq; lia)). rewrite CAP_eq in *.
    unfold PAGE_SIZE in Hb. apply get_le_bwrite_disjoint; rewrite ?blen_le_split; lia.
  - intros i p q Hp Hq. unfold PAGE_SIZE in Hb.
    destruct (decide (S i < length chain)%nat) as [Hi|Hi].
    + rewrite lookup_app_l in Hp, Hq by lia. rewrite <- (H8 i p q Hp Hq). unfold link.
      rewrite E by (by eapply HC). rewrite decide_False; [done|]. intros <-.
      apply list.NoDup_app in H3 as [H3 _]. pose proof (NoDup_lookup _ _ _ _ H3 Hp H2). lia.
    + assert (Hi' : i = pred (length chain)).
      { apply lookup_lt_Some in Hq. rewrite length_app in Hq. cbn [length] in Hq. lia. }
      rewrite lookup_app_l in Hp by lia. rewrite Hi', H2 in Hp. injection Hp as <-.
      rewrite lookup_app_r in Hq by lia.
      replace (S i - length chain)%nat with 0%nat in Hq by lia. injection Hq as <-.
      unfold link. rewrite E by done. rewrite decide_True by done. cbn [mbind res_bind].
      apply get_put_le_same; [lia|lia|exact Hu].
Qed.

(** The invariants of the page map that the free list relies on, and what an
    operation keeps. *)
Definition writes_in (db db' : KV) (touched : list Z) : Prop :=
  forall p b, kUpdates db' !! p = Some b -> kUpdates db !! p = Some b \/ (p ∈ touched /\ blen b = PAGE_SIZE).
Definition frame (db db' : KV) (touched : list Z) : Prop :=
  same_but_pages db db' /\ maxSeq (kFree db') = maxSeq (kFree db) /\
  (forall q, q ∉ touched -> pageRead db' q = pageRead db q).
Definition frame_w (db db' : KV) (touched : list Z) : Prop := frame db db' touched /\ writes_in db db' touched.

Lemma writes_refl db t : writes_in db db t.
Proof. by left. Qed.
Lemma writes_trans a b c t1 t2 t : writes_in a b t1 -> writes_in b c t2 ->
  (forall q, q ∈ t1 \/ q ∈ t2 -> q ∈ t) -> writes_in a c t.
Proof.
  intros H1 H2 Ht p x Hx. destruct (H2 p x Hx) as [Hb|[Hp Hl]]; [|right; auto].
  destruct (H1 p x Hb) as [Ha|[Hp Hl]]; [by left|right; auto].
Qed.
Lemma writes_page db db1 p b t : writes_in db db1 t -> p ∈ t -> blen b = PAGE_SIZE -> writes_in db (set_page p b db1) t.
Proof. intros H Hp Hb q x Hx. cbn [set_page set_pages kUpdates] in Hx. apply lookup_insert_Some in Hx as [[<- <-]|[_ Hx]]; [by right|by apply H]. Qed.
Lemma pageWrite_writes db p db' b t : pageWrite db p = Ok (db', b) -> blen b = PAGE_SIZE -> p ∈ t -> writes_in db db' t.
Proof.
  unfold pageWrite. intros E Hb Hp. case_match; [injection E as <- _; apply writes_refl|].
  rinv E. injection E as <- <-. by apply writes_page; [apply writes_refl|..].
Qed.
Lemma pageAppend_writes db node db' p t : pageAppend db node = (db', p) -> blen node = PAGE_SIZE -> p ∈ t -> writes_in db db' t.
Proof. unfold pageAppend. intros [= <- <-] Hb Hp. by apply writes_page; [exact (writes_refl db t)|..]. Qed.

Lemma same_but_pages_trans a b c : same_but_pages a b -> same_but_pages b c -> same_but_pages a c.
Proof. intros (A1 & A2 & A3 & A4 & A5) (B1 & B2 & B3 & B4 & B5). repeat split; congruence. Qed.
Lemma frame_trans a b c t1 t2 t : frame_w a b t1 -> frame_w b c t2 ->
  (forall q, q ∈ t1 \/ q ∈ t2 -> q ∈ t) -> frame_w a c t.
Proof.
  intros [(A1 & A2 & A3) A4] [(B1 & B2 & B3) B4] Ht. split; [|by eapply writes_trans].
  split; [by eapply same_but_pages_trans|]. split; [congruence|].
  intros q Hq. rewrite B3, A3; [done|naive_solver|naive_solver].
Qed.

Lemma fl_tail_page rd f chain items : fl_core rd f chain items -> usable rd (tailPage f).
Proof.
  intros [H1 H2 H3 H4 H5 H6 H7 H8].
  assert (HTl : (pred (length chain) < length (chain ++ items))%nat).
  { apply lookup_lt_Some in H1. rewrite length_app. lia. }
  assert (Hl : (chain ++ items) !! pred (length chain) = Some (tailPage f)).
  { rewrite lookup_app_l; [done|]. apply lookup_lt_Some in H1. lia. }
  destruct (Forall_lookup_1 _ _ _ _ H4 Hl). split; [done|]. split; [done|].
  exact (Forall_lookup_1 _ _ _ _ H5 Hl).
Qed.

Lemma free_store_spec db ptr chain items : fl_inv (pageRead db) (kFree db) chain items ->
  tailSeq (kFree db) + 1 < 18446744073709551616 ->
  ptr ∉ chain ++ items -> usable (pageRead db) ptr ->
  exists db', free_store db ptr = Ok db' /\
    kFree db' = with_tailSeq (kFree db) (tailSeq (kFree db) + 1) /\
    fl_core (pageRead db') (kFree db') chain (items ++ [ptr]) /\
    kNappend db' = kNappend db /\ frame_w db db' [tailPage (kFree db)].
Proof.
  intros Hinv Hts Hnin Hus. pose proof (fl_tail_page _ _ _ _ (proj1 Hinv)) as (_ & _ & b & Hb & Hlb).
  pose proof (fc_seq _ _ _ _ (proj1 Hinv)) as Hseq.
  unfold free_store. destruct (pageWrite_Ok db _ b Hb Hlb) as (db1 & E1 & R1 & F1 & N1 & S1). rstep E1.
  pose proof (Z.mod_pos_bound (tailSeq (kFree db)) CAP ltac:(rewrite CAP_eq; lia)) as Hk.
  rewrite put_le_Ok by (rewrite CAP_eq in *; unfold PAGE_SIZE in *; lia). cbn [mbind res_bind].
  rewrite u64_small by (unfold in_u64; lia). eexists. split; [done|]. split; [done|]. split.
  - eapply fl_core_push; [exact Hinv|exact Hb|exact Hlb| |exact Hnin|exact Hus].
    intros q. rewrite pageRead_set_free, pageRead_set_page, R1. done.
  - split; [done|]. split; [split; [done|]; split; [done|]|].
    + intros q Hq. rewrite pageRead_set_free, pageRead_set_page, decide_False, R1; [done|]. set_solver.
    + assert (HI : tailPage (kFree db) ∈ [tailPage (kFree db)]) by (apply elem_of_cons; by left).
      apply (writes_page db db1); [by eapply pageWrite_writes|done|]. rewrite blen_bwrite; rewrite ?blen_le_split; [done|..];
        rewrite CAP_eq in *; unfold PAGE_SIZE in *; lia.
Qed.

(** Without a page for the list the new tail page is only linked ... *)
Lemma free_link_only db next chain items : fl_core (pageRead db) (kFree db) chain items ->
  tailSeq (kFree db) mod CAP = 0 -> tailSeq (kFree db) + 1 < 18446744073709551616 ->
  length chain = Z.to_nat (tailSeq (kFree db) / CAP - headSeq (kFree db) / CAP) ->
  next ∉ chain ++ items -> usable (pageRead db) next ->
  exists db', free_link db next 0 = Ok db' /\ fl_inv (pageRead db') (kFree db') (chain ++ [next]) items /\
    kFree db' = mkFree (headPage (kFree db)) (headSeq (kFree db)) next (tailSeq (kFree db)) (maxSeq (kFree db)) /\
    (forall q, page_ok (pageRead db) q -> page_ok (pageRead db') q) /\
    kNappend db' = kNappend db /\ frame_w db db' [tailPage (kFree db); next].
Proof.
  intros Hc Hm Hts Hlen Hnin (Un & Uu & Up).
  pose proof (fl_tail_page _ _ _ _ Hc) as (_ & _ & b & Hb & Hlb).
  assert (HTn : tailPage (kFree db) <> next).
  { intros <-. apply Hnin, elem_of_app. left. eapply list_elem_of_lookup_2, (fc_tail _ _ _ _ Hc). }
  unfold free_link. destruct (pageWrite_Ok db _ b Hb Hlb) as (db1 & E1 & R1 & F1 & N1 & S1). rstep E1.
  rewrite put_le_Ok by (unfold PAGE_SIZE in *; lia). cbn [mbind res_bind]. rewrite bool_decide_true by done. cbn [negb].
  set (db2 := set_free _ _).
  assert (R2 : forall q, pageRead db2 q = if decide (tailPage (kFree db) = q)
    then Ok (bwrite b 0 (le_split 8 next)) else pageRead db q).
  { intros q. unfold db2. rewrite pageRead_set_free, pageRead_set_page, R1. done. }
  assert (HP : forall q, page_ok (pageRead db) q -> page_ok (pageRead db2) q).
  { intros q. eapply page_ok_write; [exact Hb|exact Hlb| | |apply R2]; unfold PAGE_SIZE; lia. }
  exists db2. split; [done|]. split; [|split; [done|split; [exact HP|split; [exact N1|]]]].
  - apply (fl_core_link (pageRead db) _ (kFree db) _ _ _ b); try done. split; [done|]. split; [done|]. auto.
  - split; [split; [done|]; split; [done|]; intros q Hq; rewrite R2, decide_False; [done|set_solver]|].
    assert (HI : tailPage (kFree db) ∈ [tailPage (kFree db); next]) by (apply elem_of_cons; by left).
    apply (writes_page db db1); [by eapply pageWrite_writes|done|]. rewrite blen_bwrite; rewrite ?blen_le_split; [done|..];
      unfold PAGE_SIZE in *; lia.
Qed.
(** ... and the page for the list is stored in its first slot. *)
Lemma free_link_then_store db next head db' : free_link db next 0 = Ok db' -> tailSeq (kFree db) mod CAP = 0 ->
  kFree db' = mkFree (headPage (kFree db)) (headSeq (kFree db)) next (tailSeq (kFree db)) (maxSeq (kFree db)) ->
  free_link db next head = if decide (head = 0) then Ok db' else free_store db' head.
Proof.
  intros E Hm EF. destruct (decide (head = 0)) as [->|Hh]; [done|]. unfold free_link in *. rewrite bool_decide_true in E by done.
  rewrite bool_decide_false by done. cbn [negb] in *. apply bind_inv in E as ([db1 node] & E1 & E). rstep E1.
  apply bind_inv in E as (node' & E2 & E). rstep E2. injection E as <-. unfold free_store. cbn [kFree set_free tailSeq]. by rewrite Hm.
Qed.

Lemma free_link_spec db next head chain items : fl_core (pageRead db) (kFree db) chain items ->
  tailSeq (kFree db) mod CAP = 0 -> tailSeq (kFree db) + 1 < 18446744073709551616 ->
  length chain = Z.to_nat (tailSeq (kFree db) / CAP - headSeq (kFree db) / CAP) ->
  next ∉ chain ++ items -> usable (pageRead db) next ->
  (head <> 0 -> head ∉ next :: chain ++ items /\ usable (pageRead db) head) ->
  exists db', free_link db next head = Ok db' /\
    fl_inv (pageRead db') (kFree db') (chain ++ [next]) (items ++ if decide (head = 0) then [] else [head]) /\
    kNappend db' = kNappend db /\ frame_w db db' [tailPage (kFree db); next].
Proof.
  intros Hc Hm Hts Hlen Hnin Hus Hhead. pose proof (fc_seq _ _ _ _ Hc) as Hseq.
  destruct (free_link_only db next chain items Hc Hm Hts Hlen Hnin Hus) as (db2 & E2 & I2 & K2 & HP & N2 & Fr2).
  rewrite (free_link_then_store db next head db2 E2 Hm K2). case_decide as Hh.
  { exists db2. by rewrite app_nil_r. }
  destruct (Hhead Hh) as (Hhn & Hhz & Hhu & Hhp).
  destruct (free_store_spec db2 head (chain ++ [next]) items I2) as (db3 & E3 & F3 & C3 & N3 & Fr3).
  { by rewrite K2. }
  { intros Hin. apply Hhn. apply elem_of_cons.
    apply elem_of_app in Hin as [Hin|Hin]; [apply elem_of_app in Hin as [Hin|Hin]|].
    - right. apply elem_of_app. by left.
    - apply list_elem_of_singleton in Hin. by left.
    - right. apply elem_of_app. by right. }
  { split; [done|]. split; [done|]. by apply HP. }
  exists db3. split; [exact E3|]. split; [|split].
  - split; [done|]. rewrite F3, K2. cbn [with_tailSeq tailSeq headSeq]. rewrite length_app, Hlen. cbn [length].
    assert (Hpos : (0 < length chain)%nat) by (eapply lookup_lt_Some, (fc_head _ _ _ _ Hc)).
    rewrite Hlen in Hpos. clear -Hm Hseq Hpos. cap_lia.
  - by rewrite N3.
  - eapply frame_trans; [exact Fr2|exact Fr3|]. intros q. rewrite K2. cbn [tailPage]. set_solver.
Qed.

Definition SEQ_LIMIT : Z := 18446744073709551616 - 2.

Lemma freePopHead_maxSeq db db' r : freePopHead db = Ok (db', r) ->
  maxSeq (kFree db') = maxSeq (kFree db).
Proof.
  unfold freePopHead. intros E. case_match; [by injection E as <- <-|].
  case_decide; [by injection E as <- <-|].
  rinv E. case_decide; rinv E; by injection E as <- <-.
Qed.

(** Taking the head of a list that holds something. *)
Lemma freePopHead_some d db q x items : q_repd d db q -> q_items q = x :: items ->
  q_head q <= q_max q -> q_tail q <= SEQ_LIMIT ->
  ((q_head q + 1) mod CAP = 0 -> (2 <= length (q_chain q))%nat) ->
  exists f' q' hd, q_pop q = (q', (Some x, hd)) /\
    freePopHead db = Ok (set_free f' db, (x, default 0 hd)) /\
    q_repd d (set_free f' db) q' /\ q_tail q' = q_tail q /\ q_items q' = items /\
    q_head q' = q_head q + 1 /\ maxSeq f' = maxSeq (kFree db) /\
    q_chain q = option_list hd ++ q_chain q' /\ hd <> Some 0.
Proof.
  intros (Hh & Hm & Hc & Hl) Hi Hle Hts Hex. rewrite Hi in Hc. unfold q_tail in *.
  pose proof (fc_seq _ _ _ _ Hc) as [Hs0 Hs]. rewrite Hi, Hh in Hts. unfold SEQ_LIMIT in Hts.
  rewrite Hh, Hm in *.
  destruct (freePopHead_core db _ _ _ Hc) as (f' & head & E & F1 & F2 & F3 & HD); [lia|lia|exact Hex|].
  assert (Hmax : maxSeq f' = maxSeq (kFree db)).
  { by apply freePopHead_maxSeq in E. }
  unfold q_pop. rewrite Hi, Hh, Hm.
  replace (maxSeq (kFree db) <? headSeq (kFree db)) with false by (symmetry; apply Z.ltb_ge; lia).
  cbn [length] in *. exists f'. destruct HD as [(Hn & -> & Hc')|(Hn & Hnz & chain' & Hch & Hc')].
  - rewrite decide_False by done. eexists _, None. repeat (split; [done|]).
    cbn [q_chain q_items q_head q_max kFree set_free]. split; [|repeat split; try done; lia].
    split; [done|]. split; [done|]. split; [done|]. cbn [kFree set_free q_chain]. rewrite F1, F2, Hl.
    f_equal. f_equal. clear -Hn. cap_lia.
  - rewrite decide_True by done. rewrite Hch. cbn [tail hd_error]. eexists _, (Some head).
    repeat (split; [done|]).
    cbn [q_chain q_items q_head q_max kFree set_free]. split; [|repeat split; try done; [lia|congruence]].
    split; [done|]. split; [done|]. split; [done|]. cbn [kFree set_free q_chain]. rewrite F1, F2.
    rewrite Hch in Hl. cbn [length] in Hl. pose proof (Hex Hn) as Hex'. rewrite Hch in Hex'. cbn [length] in Hex'.
    clear -Hn Hl Hex' Hs Hs0. cap_lia.
Qed.

(** The page number an append would hand out. *)
Definition next_page (db : KV) : Z := u64 (kFlushed db + kNappend db).

(** The state in which the list has one slot left in its only page and nothing
    in it: the push that fills the page would take its own entry out again. *)
Definition q_safe (q : queue) : Prop :=
  q_items q = [] -> (q_head q + 1) mod CAP <> 0 \/ q_max q < q_head q.

Lemma pageAppend_spec db node : exists db', pageAppend db node = (db', next_page db) /\
  kFree db' = kFree db /\ kNappend db' = u64 (kNappend db + 1) /\ same_but_pages db db' /\
  (forall p, pageRead db' p = if decide (next_page db = p) then Ok node else pageRead db p).
Proof.
  unfold pageAppend, next_page. eexists. split; [done|]. repeat (split; [done|]).
  intros p. rewrite pageRead_set_page. by case_decide.
Qed.

Lemma usable_ext rd rd' p : rd' p = rd p -> usable rd p -> usable rd' p.
Proof. intros E (H1 & H2 & H3). split; [done|]. split; [done|]. by eapply page_ok_ext. Qed.
Lemma usable_append db p : p <> 0 -> in_u64 p -> (pageRead db p = Ok (make_bytes PAGE_SIZE)) ->
  usable (pageRead db) p.
Proof. intros ? ? E. split; [done|]. split; [done|]. eexists. split; [exact E|reflexivity]. Qed.
Lemma in_u64_next db : in_u64 (next_page db).
Proof. apply u64_range. Qed.

(** The first entry of a new list. *)
Lemma fl_core_first rd np ptr m : np <> ptr -> usable rd np -> usable rd ptr -> slot rd np 0 = Ok ptr ->
  fl_core rd (mkFree np 0 np 1 m) [np] [ptr].
Proof.
  intros Hne (N1 & N2 & N3) (P1 & P2 & P3) Hs. split; cbn [headPage headSeq tailPage tailSeq]; try done.
  - cbn [app]. apply list.NoDup_cons. split; [|apply NoDup_singleton].
    by rewrite list_elem_of_singleton.
  - cbn [app]. apply list.Forall_cons. split; [done|]. by apply Forall_singleton.
  - cbn [app]. apply list.Forall_cons. split; [done|]. by apply Forall_singleton.
  - intros s x Hs0 Hx. rewrite Z.sub_0_r in Hx.
    assert (s = 0) as -> by (apply lookup_lt_Some in Hx; cbn [length] in Hx; lia).
    injection Hx as <-. by exists np.
Qed.

Lemma freePushTail_new db ptr : tailPage (kFree db) = 0 -> next_page db <> 0 -> next_page db <> ptr ->
  usable (pageRead db) ptr ->
  exists db', freePushTail db ptr = Ok db' /\
    q_repd 1 db' (mkQueue [next_page db] [ptr] 0 (maxSeq (kFree db))) /\
    kNappend db' = u64 (kNappend db + 1) /\ frame_w db db' [next_page db].
Proof.
  intros Ht Hnz Hne Hu. unfold freePushTail. rewrite decide_True by done.
  destruct (pageAppend_spec db (make_bytes PAGE_SIZE)) as (db1 & E & F & N & S & R). rewrite E.
  rewrite put_le_Ok by (vm_compute; congruence). cbn [mbind res_bind]. eexists. split; [done|].
  set (nn := bwrite (make_bytes PAGE_SIZE) 8 (le_split 8 ptr)).
  assert (Hnn : blen nn = PAGE_SIZE) by (unfold nn; rewrite blen_bwrite; rewrite ?blen_le_split; done).
  assert (R' : forall p, pageRead (set_page (next_page db) nn
      (set_free (mkFree (next_page db) 0 (next_page db) 1 (maxSeq (kFree db))) db1)) p =
      if decide (next_page db = p) then Ok nn else pageRead db p).
  { intros p. rewrite pageRead_set_page. case_decide; [done|]. by rewrite pageRead_set_free, R, decide_False. }
  split; [|split; [exact N|]].
  - split; [done|]. split; [done|]. split; [|reflexivity]. apply fl_core_first; [done| | |].
    + split; [done|]. split; [apply in_u64_next|]. exists nn. by rewrite R', decide_True.
    + eapply usable_ext; [|exact Hu]. by rewrite R', decide_False.
    + unfold slot. rewrite R', decide_True by done. cbn [mbind res_bind].
      destruct Hu as (_ & Hu & _). change (8 + 0 * 8) with 8.
      apply (get_put_le_same 8); [lia|vm_compute; congruence|exact Hu].
  - assert (HI : next_page db ∈ [next_page db]) by (apply elem_of_cons; by left).
    split; [|by apply (writes_page db db1); [eapply pageAppend_writes|..]].
    split; [exact S|]. split; [cbn; by rewrite ?F|]. intros p Hp. rewrite R', decide_False; [done|]. intros E'. apply Hp. by rewrite E', list_elem_of_singleton.
Qed.

Lemma frame_weaken db db' t t' : frame_w db db' t -> (forall p, p ∈ t -> p ∈ t') -> frame_w db db' t'.
Proof.
  intros [(A & B & C) D] Ht. split; [split; [done|]; split; [done|]; intros p Hp; apply C; naive_solver|].
  intros p b Hb. destruct (D p b Hb) as [|[? ?]]; [by left|right; auto].
Qed.

Lemma q_repd_nonnil d db q : q_repd d db q -> q_chain q <> [].
Proof. intros (_ & _ & Hc & _) E. pose proof (fc_head _ _ _ _ Hc) as H. by rewrite E in H. Qed.
Lemma q_repd_tail d db q : q_repd d db q -> tailSeq (kFree db) = q_tail q.
Proof. intros (H & _ & Hc & _). unfold q_tail. rewrite H. by apply (fc_seq _ _ _ _ Hc). Qed.
Lemma q_repd_in d db q p : q_repd d db q -> p ∈ q_pages q -> usable (pageRead db) p.
Proof.
  intros (_ & _ & Hc & _) Hp. apply list_elem_of_lookup_1 in Hp as [i Hi].
  destruct (Forall_lookup_1 _ _ _ _ (fc_nonzero _ _ _ _ Hc) Hi).
  split; [done|]. split; [done|]. exact (Forall_lookup_1 _ _ _ _ (fc_pages _ _ _ _ Hc) Hi).
Qed.

Lemma pageWrite_seqs db p db' b : pageWrite db p = Ok (db', b) -> kFree db' = kFree db.
Proof.
  unfold pageWrite. case_match; [by intros [= <- _]|]. intros E. rinv E. by injection E as <- _.
Qed.
Lemma free_link_seqs db next head db' : free_link db next head = Ok db' ->
  headSeq (kFree db') = headSeq (kFree db) /\ headPage (kFree db') = headPage (kFree db).
Proof.
  unfold free_link. intros E. apply bind_inv in E as ([db1 b] & E1 & E). apply pageWrite_seqs in E1.
  rinv E. case_match; [|by injection E as <-].
  apply bind_inv in E as ([db2 b2] & E2 & E). apply pageWrite_seqs in E2. rinv E. by injection E as <-.
Qed.

(** [free_link] on the queue. *)
Lemma free_link_rep db next hd q : q_repd 0 db q -> q_tail q mod CAP = 0 -> q_tail q < SEQ_LIMIT ->
  next ∉ q_pages q -> usable (pageRead db) next ->
  (forall h, hd = Some h -> h <> 0 /\ h ∉ next :: q_pages q /\ usable (pageRead db) h) ->
  exists db', free_link db next (default 0 hd) = Ok db' /\ q_repd 1 db' (q_link q next hd) /\
    kNappend db' = kNappend db /\ frame_w db db' (next :: q_pages q).
Proof.
  intros Hq Hm Hlt Hnin Hus Hhd. pose proof (q_repd_tail _ _ _ Hq) as Ht.
  destruct Hq as (Hh & Hmx & Hc & Hl). rewrite <- Ht in *. unfold SEQ_LIMIT in Hlt.
  pose proof (fc_seq _ _ _ _ Hc) as [Hs0 Hs].
  destruct (free_link_spec db next (default 0 hd) _ _ Hc) as (db' & E & [Hc' Hl'] & N & Fr);
    [done|lia|lia|done|done| |].
  { destruct hd as [h|]; [|done]. cbn. by intros _; apply Hhd. }
  exists db'. split; [done|]. split; [|split; [done|]].
  - pose proof (free_link_seqs _ _ _ _ E) as (S1 & S2).
    assert (Hi : (if decide (default 0 hd = 0) then [] else [default 0 hd]) = option_list hd).
    { destruct hd as [h|]; [|done]. cbn. rewrite decide_False; [done|]. by apply Hhd. }
    rewrite Hi in *. split; [cbn; congruence|]. split; [cbn; destruct Fr as [(_ & Fm & _) _]; congruence|].
    split; [done|]. cbn [q_chain q_link].
    pose proof (fc_seq _ _ _ _ Hc') as [? Hs']. rewrite length_app in Hs'.
    rewrite Hl', S1. clear -Hs Hs0 Hs' S1. cap_lia.
  - eapply frame_weaken; [exact Fr|]. intros p. rewrite !elem_of_cons. intros [->|[->|?]]; [|auto|set_solver].
    right. apply elem_of_app. left. eapply list_elem_of_lookup_2, (fc_tail _ _ _ _ Hc).
Qed.

(** Storing the entry, seen on the queue. *)
Lemma free_store_rep db ptr q : q_repd 1 db q -> q_tail q < SEQ_LIMIT ->
  ptr ∉ q_pages q -> usable (pageRead db) ptr ->
  let q1 := mkQueue (q_chain q) (q_items q ++ [ptr]) (q_head q) (q_max q) in
  exists db', free_store db ptr = Ok db' /\ tailSeq (kFree db') = q_tail q1 /\
    q_repd (if decide (q_tail q1 mod CAP = 0) then 0 else 1) db' q1 /\
    kNappend db' = kNappend db /\ frame_w db db' (q_pages q).
Proof.
  intros Hq Hlt Hnin Hus q1. pose proof (q_repd_tail _ _ _ Hq) as Ht.
  assert (Ht1 : q_tail q1 = q_tail q + 1).
  { unfold q_tail, q1. cbn [q_items q_head]. rewrite length_app. cbn [length]. lia. }
  destruct Hq as (Hh & Hm & Hc & Hl). rewrite <- Ht in *. unfold SEQ_LIMIT in Hlt.
  pose proof (fc_seq _ _ _ _ Hc) as [Hs0 Hs].
  destruct (free_store_spec db ptr (q_chain q) (q_items q)) as (db' & E & F & C & N & Fr); try done; try lia.
  { split; [done|]. rewrite Hl. clear -Hs Hs0. cap_lia. }
  exists db'. split; [done|]. rewrite F. cbn [with_tailSeq tailSeq]. split; [congruence|].
  split; [|split; [done|]].
  - rewrite F in C. split; [by rewrite F|]. split; [by rewrite F|]. rewrite F. split; [exact C|].
    cbn [q_chain q1 with_tailSeq tailSeq headSeq]. rewrite Hl, Ht1, Ht.
    case_decide as Hd; clear -Hs Hs0 Hd Ht Hh; rewrite <- Ht in *; cap_lia.
  - eapply frame_weaken; [exact Fr|]. intros p ->%list_elem_of_singleton. apply elem_of_app. left.
    eapply list_elem_of_lookup_2, (fc_tail _ _ _ _ Hc).
Qed.

(** A queue with a full tail page that can be popped has a next page. *)
Lemma q_repd0_exhausted db q : q_repd 0 db q -> q_tail q mod CAP = 0 -> (q_head q + 1) mod CAP = 0 ->
  (2 <= length (q_items q))%nat -> (2 <= length (q_chain q))%nat.
Proof.
  intros Hq Hm Hh Hi. pose proof (q_repd_tail _ _ _ Hq) as Ht. destruct Hq as (Hh' & _ & Hc & Hl).
  pose proof (fc_seq _ _ _ _ Hc) as [Hs0 Hs]. rewrite Hl, <- Hh' in *. rewrite <- Ht in Hm.
  clear -Hm Hh Hi Hs Hs0. cap_lia.
Qed.

(** What one pop of a list with entries does to the set of pages. *)
Lemma q_pop_pages d db q x items q' hd : q_repd d db q -> q_items q = x :: items ->
  q_chain q = option_list hd ++ q_chain q' -> q_items q' = items ->
  x ∉ q_pages q' /\ usable (pageRead db) x /\
  (forall h, hd = Some h -> h <> 0 /\ h ∉ x :: q_pages q' /\ usable (pageRead db) h).
Proof.
  intros Hq Hi Hch Hi'. pose proof (fun p => q_repd_in _ _ _ p Hq) as Hin.
  destruct Hq as (_ & _ & Hc & _). pose proof (fc_nodup _ _ _ _ Hc) as ND. unfold q_pages in *.
  rewrite Hi, Hch, Hi' in *. rewrite <- Permutation_middle in ND.
  apply list.NoDup_cons in ND as [Nx ND]. rewrite <- app_assoc in Nx, ND.
  split; [|split].
  - intros H. apply Nx, elem_of_app. by right.
  - apply Hin. rewrite !elem_of_app, elem_of_cons. auto.
  - intros h ->. cbn [option_list app] in *. apply list.NoDup_cons in ND as [Nh _].
    assert (Hu : usable (pageRead db) h) by (apply Hin; apply elem_of_cons; by left).
    split; [apply Hu|]. split; [|done]. rewrite elem_of_cons. intros [->|H]; [|done].
    apply Nx, elem_of_cons. by left.
Qed.

Lemma q_push_nonnil np q ptr : q_chain q <> [] ->
  q_push np q ptr =
    let q1 := mkQueue (q_chain q) (q_items q ++ [ptr]) (q_head q) (q_max q) in
    if decide (q_tail q1 mod CAP = 0) then
      match q_pop q1 with
      | (q2, (Some x, hd)) => (q_link q2 x hd, false)
      | (q2, (None, hd)) => (q_link q2 np hd, true)
      end
    else (q1, false).
Proof. unfold q_push. by destruct (q_chain q). Qed.

(** The second half of [freePushTail], once the tail page is full. *)
Lemma freePushTail_full db q : q_repd 0 db q -> q_tail q mod CAP = 0 -> q_tail q < SEQ_LIMIT ->
  q_items q <> [] -> next_page db <> 0 -> next_page db ∉ q_pages q ->
  (length (q_items q) = 1%nat -> (q_head q + 1) mod CAP <> 0 \/ q_max q < q_head q) ->
  exists db', ('(db, (next, head)) ← freePopHead db;
      let '(db, next) :=
        if decide (next = 0) then pageAppend db (make_bytes PAGE_SIZE) else (db, next) in
      free_link db next head) = Ok db' /\
    let r := match q_pop q with
      | (q2, (Some x, hd)) => (q_link q2 x hd, false)
      | (q2, (None, hd)) => (q_link q2 (next_page db) hd, true)
      end in
    q_repd 1 db' r.1 /\ kNappend db' = (if r.2 then u64 (kNappend db + 1) else kNappend db) /\
    frame db db' (next_page db :: q_pages q) /\ writes_in db db' ((if r.2 then [next_page db] else []) ++ q_pages q).
Proof.
  intros Hq Hm Hlt Hi Hnz Hnp Hsafe. pose proof (q_repd_tail _ _ _ Hq) as Ht.
  destruct (decide (q_max q < q_head q)) as [Hmx|Hmx].
  - assert (Ep : q_pop q = (q, (None, None))).
    { unfold q_pop. by rewrite (proj2 (Z.ltb_lt _ _) Hmx). }
    assert (E : freePopHead db = Ok (db, (0, 0))).
    { destruct Hq as (Hh & Hx & _). rewrite Hh, Hx in Hmx. unfold freePopHead.
      by rewrite (proj2 (Z.ltb_lt _ _) Hmx). }
    rstep E. rewrite decide_True by done.
    destruct (pageAppend_spec db (make_bytes PAGE_SIZE)) as (db1 & Ea & F & N & S & R). rewrite Ea, Ep.
    assert (Hq1 : q_repd 0 db1 q).
    { destruct Hq as (Hh & Hx & Hc & Hl). rewrite <- F in *. split; [done|]. split; [done|]. split; [|done].
      eapply fl_core_ext; [|exact Hc]. intros p Hp. rewrite R, decide_False; [done|]. by intros <-. }
    destruct (free_link_rep db1 (next_page db) None q) as (db' & El & Hr & N' & Fr); try done.
    { apply usable_append; [done|apply in_u64_next|]. by rewrite R, decide_True. }
    exists db'. split; [exact El|]. cbn zeta. split; [done|]. split; [cbn; congruence|].
    cut (frame_w db db' (next_page db :: q_pages q)); [done|].
    eapply frame_trans; [|exact Fr|intros p [H|H]; [|exact H]; exact H].
    assert (HI : next_page db ∈ next_page db :: q_pages q) by (apply elem_of_cons; by left).
    split; [|by eapply pageAppend_writes]. split; [done|]. split; [by rewrite F|].
    intros p Hp. rewrite R, decide_False; [done|]. by intros <-.
  - destruct (q_items q) as [|x items] eqn:Ei; [done|].
    destruct (freePopHead_some 0 db q x items Hq Ei) as (f' & q' & hd & Ep & E & Hq' & Ht' & Ei' & Eh' & Fm & Ech & Hhd);
      [lia|lia| |].
    { intros Hx. rewrite <- Ei in *. eapply q_repd0_exhausted; [exact Hq|done|done|].
      destruct (decide (length (q_items q) = 1%nat)) as [E1|E1]; [|rewrite Ei in *; cbn [length] in *; lia].
      specialize (Hsafe E1) as [?|?]; [done|lia]. }
    destruct (q_pop_pages _ _ _ _ _ _ _ Hq Ei Ech Ei') as (Hx & Hux & Hh).
    rewrite E, Ep. cbn [mbind res_bind]. rewrite decide_False by apply Hux.
    destruct (free_link_rep (set_free f' db) x hd q' Hq') as (db' & El & Hr & N' & Fr); try done.
    { by rewrite Ht'. }
    { by rewrite Ht'. }
    exists db'. split; [exact El|]. cbn zeta. split; [done|]. split; [exact N'|].
    assert (Hsub : forall p, p ∈ x :: q_pages q' -> p ∈ q_pages q).
    { intros p. unfold q_pages. rewrite Ech, Ei, Ei'. rewrite !elem_of_cons, !elem_of_app. rewrite elem_of_cons. tauto. }
    apply (frame_weaken _ _ _ _ Fr) in Hsub as [(A & B & C) D]. split; [|exact D]. split; [done|]. split; [rewrite B; exact Fm|].
    intros p Hp. apply C. intros Hpq. apply Hp, elem_of_cons. by right.
Qed.

(** [freePushTail] refines [q_push]. *)
Lemma freePushTail_repd db q ptr : q_repd 1 db q -> q_tail q + 1 < SEQ_LIMIT -> q_safe q ->
  next_page db <> 0 -> next_page db ∉ ptr :: q_pages q -> ptr ∉ q_pages q -> usable (pageRead db) ptr ->
  exists db', freePushTail db ptr = Ok db' /\ q_repd 1 db' (q_push (next_page db) q ptr).1 /\
    kNappend db' = (if (q_push (next_page db) q ptr).2 then u64 (kNappend db + 1) else kNappend db) /\
    frame db db' (next_page db :: ptr :: q_pages q) /\
    writes_in db db' ((if (q_push (next_page db) q ptr).2 then [next_page db] else []) ++ ptr :: q_pages q).
Proof.
  intros Hq Hlt Hsafe Hnz Hnp Hnin Hus.
  assert (HT : tailPage (kFree db) <> 0).
  { destruct Hq as (_ & _ & Hc & _). by destruct (fl_tail_page _ _ _ _ Hc). }
  unfold freePushTail. rewrite decide_False by done.
  destruct (free_store_rep db ptr q Hq) as (db1 & E1 & T1 & Hq1 & N1 & Fr1); [lia|done|done|].
  rstep E1. rewrite T1. rewrite q_push_nonnil by (by eapply q_repd_nonnil). cbn zeta in *.
  set (q1 := mkQueue _ (q_items q ++ [ptr]) _ _) in *.
  assert (Ht1 : q_tail q1 = q_tail q + 1).
  { unfold q_tail, q1. cbn [q_items q_head]. rewrite length_app. cbn [length]. lia. }
  assert (Hnp1 : next_page db1 = next_page db).
  { unfold next_page. destruct Fr1 as [((_ & -> & _) & _) _]. by rewrite N1. }
  assert (HP : forall p, p ∈ q_pages q1 <-> p ∈ ptr :: q_pages q).
  { intros p. unfold q_pages, q1. cbn [q_chain q_items].
    rewrite elem_of_cons, !elem_of_app, list_elem_of_singleton. tauto. }
  case_decide as Hd.
  - destruct (freePushTail_full db1 q1 Hq1 Hd) as (db' & E & Hr & N & Fr & W); rewrite ?Hnp1 in *; try done.
    { lia. }
    { unfold q1. cbn [q_items]. by destruct (q_items q). }
    { by rewrite HP. }
    { unfold q1. cbn [q_items q_head q_max]. rewrite length_app. cbn [length]. intros Hl. apply Hsafe.
      destruct (q_items q); [done|cbn [length] in Hl; lia]. }
    exists db'. split; [exact E|]. split; [exact Hr|]. split; [by rewrite <- N1|].
    split; [destruct Fr1 as [(A1 & A2 & A3) _], Fr as (B1 & B2 & B3);
      split; [by eapply same_but_pages_trans|]; split; [congruence|];
      intros p; rewrite !elem_of_cons; intros Hp; rewrite B3, A3; [done|tauto|rewrite elem_of_cons, HP, elem_of_cons; tauto]|].
    eapply writes_trans; [apply Fr1|exact W|]. intros p. rewrite !elem_of_app, HP, elem_of_cons. tauto.
  - exists db1. split; [done|]. split; [exact Hq1|]. split; [done|].
    split; [eapply frame_weaken; [exact Fr1|]; intros p ?; rewrite !elem_of_cons; auto|].
    eapply writes_trans; [apply Fr1|apply writes_refl|]. intros p [Hp|Hp]; [apply elem_of_cons; by right|exact Hp].
Qed.

Lemma q_pop_perm q q' x hd : q_items q <> [] -> q_pop q = (q', (x, hd)) ->
  q_pages q ≡ₚ option_list x ++ option_list hd ++ q_pages q' /\ (x = None -> hd = None).
Proof.
  unfold q_pop, q_pages. intros Hi. case_match; [by intros [= <- <- <-]|].
  destruct (q_items q) as [|y items]; [done|]. case_decide; intros [= <- <- <-]; cbn [option_list app q_chain q_items].
  - split; [|done]. destruct (q_chain q) as [|c chain]; [done|]. cbn.
    rewrite <- Permutation_middle. apply Permutation_swap.
  - split; [|done]. symmetry. exact (Permutation_middle (q_chain q) items y).
Qed.
(** Nothing is lost and nothing is duplicated by a push. *)
Lemma q_push_perm np q ptr : (q_chain q = [] -> q_items q = []) ->
  q_pages (q_push np q ptr).1 ≡ₚ (if (q_push np q ptr).2 then [np] else []) ++ ptr :: q_pages q.
Proof.
  intros He. destruct (decide (q_chain q = [])) as [Hc|Hc].
  { unfold q_push, q_pages. rewrite Hc, He by done. done. }
  rewrite q_push_nonnil by done. cbn zeta.
  set (q1 := mkQueue _ (q_items q ++ [ptr]) _ _).
  assert (H1 : q_pages q1 ≡ₚ ptr :: q_pages q).
  { unfold q_pages, q1. cbn [q_chain q_items].
    rewrite app_assoc. apply (Permutation_app_comm _ [ptr]). }
  case_decide; [|exact H1]. destruct (q_pop q1) as [q2 [x hd]] eqn:E.
  destruct (q_pop_perm q1 q2 x hd) as [HP Hn]; [unfold q1; cbn; by destruct (q_items q)|done|].
  assert (HL : forall n, q_pages (q_link q2 n hd) ≡ₚ n :: option_list hd ++ q_pages q2).
  { intros n. unfold q_pages, q_link. cbn [q_chain q_items]. rewrite <- app_assoc. cbn [app].
    transitivity (n :: q_chain q2 ++ q_items q2 ++ option_list hd); [symmetry; apply Permutation_middle|].
    constructor. rewrite app_assoc. apply Permutation_app_comm. }
  destruct x as [x|]; cbn [fst snd app]; rewrite HL, <- H1, HP; [done|]. by rewrite Hn.
Qed.

Lemma q_rep_tail db q : q_rep db q -> tailSeq (kFree db) = q_tail q /\ (q_chain q = [] -> q_items q = []).
Proof.
  intros [[-> E]|Hq]; [by rewrite E|]. split; [by eapply q_repd_tail|].
  intros Hc. by destruct (q_repd_nonnil _ _ _ Hq).
Qed.

(** [freePushTail] on any list, the empty one included. *)
Lemma freePushTail_rep db q ptr : q_rep db q -> q_tail q + 1 < SEQ_LIMIT -> q_safe q ->
  next_page db <> 0 -> next_page db ∉ ptr :: q_pages q -> ptr ∉ q_pages q -> usable (pageRead db) ptr ->
  exists db', freePushTail db ptr = Ok db' /\ q_rep db' (q_push (next_page db) q ptr).1 /\
    kNappend db' = (if (q_push (next_page db) q ptr).2 then u64 (kNappend db + 1) else kNappend db) /\
    frame db db' (next_page db :: ptr :: q_pages q) /\
    writes_in db db' ((if (q_push (next_page db) q ptr).2 then [next_page db] else []) ++ ptr :: q_pages q).
Proof.
  intros [[-> E]|Hq] Hlt Hsafe Hnz Hnp Hnin Hus.
  - destruct (freePushTail_new db ptr) as (db' & Ep & Hq & N & Fr); try done.
    { by rewrite E. }
    { intros <-. apply Hnp, elem_of_cons. by left. }
    exists db'. split; [done|]. split; [by right|]. split; [done|].
    split; [eapply frame_weaken; [exact Fr|]; intros p ->%list_elem_of_singleton; apply elem_of_cons; by left|].
    eapply writes_trans; [apply Fr|apply writes_refl|]. intros p [Hp|Hp]; [|exact Hp].
    apply elem_of_app. left. exact Hp.
  - destruct (freePushTail_repd db q ptr Hq) as (db' & Ep & Hr & N & Fr); try done.
    exists db'. split; [done|]. split; [by right|]. done.
Qed.

Lemma q_rep_ext db db' q : kFree db' = kFree db ->
  (forall p, p ∈ q_pages q -> pageRead db' p = pageRead db p) -> q_rep db q -> q_rep db' q.
Proof.
  intros F R [[-> E]|(H1 & H2 & H3 & H4)]; [left|right]; rewrite <- F in *; [done|].
  split; [done|]. split; [done|]. split; [by eapply fl_core_ext|done].
Qed.

(** [freePopHead] on a list without entries: the list page itself is handed
    out and the list is gone. *)
Lemma freePopHead_empty db q : q_rep db q -> q_items q = [] -> q_head q <= q_max q ->
  freePopHead db = Ok (set_free (mkFree 0 0 0 0 (maxSeq (kFree db))) db,
    (default 0 (hd_error (q_chain q)), 0)) /\ (length (q_chain q) <= 1)%nat /\
  q_max q = maxSeq (kFree db).
Proof.
  intros [[-> E]|(Hh & Hm & Hc & Hl)] Hi Hle.
  - split; [|by split; cbn; [lia|]]. cbn in Hle. unfold freePopHead. rewrite E. cbn [headSeq maxSeq tailSeq headPage].
    replace (maxSeq (kFree db) <? 0) with false by (symmetry; apply Z.ltb_ge; lia). done.
  - pose proof (fc_seq _ _ _ _ Hc) as [_ Hs]. rewrite Hi in Hs. cbn [length] in Hs.
    unfold freePopHead. rewrite <- Hm, Hs, <- Hh.
    replace (q_max q <? q_head q) with false by (symmetry; apply Z.ltb_ge; lia).
    rewrite decide_True by lia. split; [|split; [|done]].
    + pose proof (fc_head _ _ _ _ Hc) as H0. destruct (q_chain q); [done|]. by injection H0 as <-.
    + rewrite Hl, Hs. clear. cap_lia.
Qed.

(** Handing out the page [x] that left the list. *)
Lemma alloc_reuse db db1 q q' x node t : x <> 0 -> x ∉ q_pages q' -> q_rep db1 q' ->
  frame db db1 t -> (forall p, p ∈ t -> p ∈ q) -> x ∈ q ->
  exists db', (if negb (bool_decide (x = 0)) then Ok (set_page x node db1, x)
               else Ok (pageAppend db1 node)) = Ok (db', x) /\
    q_rep db' q' /\ pageRead db' x = Ok node /\ frame db db' q /\ kNappend db' = kNappend db1 /\
    forall w, writes_in db db1 w -> blen node = PAGE_SIZE -> writes_in db db' (x :: w).
Proof.
  intros Hx Hn Hr Fr Ht Hxq. rewrite bool_decide_false by done. cbn [negb].
  exists (set_page x node db1). split; [done|]. split; [|split].
  - apply (q_rep_ext db1); [done| |exact Hr]. intros p Hp. rewrite pageRead_set_page, decide_False; [done|].
    by intros <-.
  - by rewrite pageRead_set_page, decide_True.
  - split; [|split; [done|]].
    + destruct Fr as (A & B & C). split; [done|]. split; [done|]. intros p Hp.
      rewrite pageRead_set_page, decide_False by (by intros <-). apply C. auto.
    + intros w Hw Hb. apply writes_page; [|apply elem_of_cons; by left|done].
      eapply writes_trans; [exact Hw|apply writes_refl|]. intros p [Hp|Hp]; [apply elem_of_cons; by right|exact Hp].
Qed.
Lemma alloc_append db q q' node : q_rep db q' -> next_page db ∉ q_pages q' -> next_page db ∈ q ->
  exists db', Ok (pageAppend db node) = Ok (db', next_page db) /\ q_rep db' q' /\
    pageRead db' (next_page db) = Ok node /\ frame db db' q /\ kNappend db' = u64 (kNappend db + 1) /\
    (blen node = PAGE_SIZE -> forall w, writes_in db db' (next_page db :: w)).
Proof.
  intros Hr Hn Hq. destruct (pageAppend_spec db node) as (db' & E & F & N & S & R).
  exists db'. rewrite E. split; [done|]. split; [|split].
  - apply (q_rep_ext db); [done| |exact Hr]. intros p Hp. rewrite R, decide_False; [done|]. by intros <-.
  - by rewrite R, decide_True.
  - split; [|split; [done|intros Hb w; eapply pageAppend_writes; [exact E|done|apply elem_of_cons; by left]]]. split; [done|]. split; [by rewrite F|].
    intros p Hp. rewrite R, decide_False; [done|]. by intros <-.
Qed.

Lemma q_rep_seqs db q : q_rep db q -> q_head q = headSeq (kFree db) /\ q_max q = maxSeq (kFree db).
Proof. intros [[-> E]|(Hh & Hm & _)]; [by rewrite E|done]. Qed.
Lemma freePopHead_none db q : q_rep db q -> q_max q < q_head q ->
  freePopHead db = Ok (db, (0, 0)) /\ q_pop q = (q, (None, None)).
Proof.
  intros Hq H. unfold freePopHead, q_pop. destruct (q_rep_seqs _ _ Hq) as [<- <-].
  by rewrite (proj2 (Z.ltb_lt _ _) H).
Qed.
Lemma q_repd1_exhausted db q : q_repd 1 db q -> q_items q <> [] -> (q_head q + 1) mod CAP = 0 ->
  (2 <= length (q_chain q))%nat.
Proof.
  intros (Hh & _ & Hc & Hl) Hi Hm. pose proof (fc_seq _ _ _ _ Hc) as [Hs0 Hs].
  assert (0 < length (q_items q))%nat by (destruct (q_items q); [done|cbn; lia]).
  rewrite Hl, Hs. rewrite Hh in *. clear -Hm H Hs0. cap_lia.
Qed.
(** A pop that empties a list page leaves the head at a page boundary. *)
Lemma q_pop_head_aligned q q' x h : q_pop q = (q', (x, Some h)) -> q_items q <> [] ->
  (q_head q' + 1) mod CAP <> 0.
Proof.
  unfold q_pop. intros E Hi. case_match; [done|]. destruct (q_items q); [done|].
  case_decide as Hm; injection E as <- _ E; [|done]. cbn [q_head]. clear -Hm. cap_lia.
Qed.

(** C22: freeing a page.  On a store whose free list represents the
    queue [q], and is not in the state that [q_safe] excludes (no entry, one slot left in
    the page, and that slot free to be taken out again: [freePushTail_one_slot_left]
    shows that the list is lost there), [freePushTail] adds the page number at the tail exactly as
    [q_push] says (a full tail page gets a successor, taken from the head of the
    list itself or appended to the file; a list page that this empties is
    recycled into the list), it never fails, and no page outside the list and
    the pushed one changes.  Together with the permutation: no page number is
    lost, none is held twice. *)
Theorem freePushTail_refines db q ptr : q_rep db q -> q_tail q + 1 < SEQ_LIMIT -> q_safe q ->
  next_page db <> 0 -> next_page db ∉ ptr :: q_pages q -> ptr ∉ q_pages q -> usable (pageRead db) ptr ->
  let '(q', appended) := q_push (next_page db) q ptr in
  exists db', freePushTail db ptr = Ok db' /\ q_rep db' q' /\
    q_pages q' ≡ₚ (if appended then [next_page db] else []) ++ ptr :: q_pages q /\
    kNappend db' = (if appended then u64 (kNappend db + 1) else kNappend db) /\
    frame db db' (next_page db :: ptr :: q_pages q).
Proof.
  intros Hq Hlt Hsafe Hnz Hnp Hnin Hus.
  destruct (freePushTail_rep db q ptr) as (db' & E & Hr & N & Fr & _); try done.
  pose proof (q_push_perm (next_page db) q ptr (proj2 (q_rep_tail _ _ Hq))) as HP.
  destruct (q_push _ _ _) as [q' a]. by exists db'.
Qed.

(** The append counter moves by one when the page number [np] an append would
    hand out is used, and by nothing or one otherwise. *)
Definition counted (np : Z) (db db' : KV) (used : list Z) : Prop :=
  (kNappend db' = kNappend db /\ np ∉ used) \/ kNappend db' = u64 (kNappend db + 1).
(** What [pageAlloc] promises. *)
Definition alloc_ok (db : KV) (q : queue) (node : bytes) (q' : queue) (p : Z) : Prop :=
  exists db', pageAlloc db node = Ok (db', p) /\ q_rep db' q' /\ pageRead db' p = Ok node /\
    p ∉ q_pages q' /\ p ∈ next_page db :: q_pages q /\ frame db db' (next_page db :: q_pages q) /\
    counted (next_page db) db db' (p :: q_pages q') /\
    (blen node = PAGE_SIZE -> writes_in db db' (p :: q_pages q')).

Lemma pageAlloc_empty db q node : q_rep db q -> next_page db ∉ q_pages q ->
  q_items q = [] -> ~ q_max q < q_head q ->
  let '(q', p) := q_alloc (next_page db) q in alloc_ok db q node q' p.
Proof.
  intros Hq Hnp Ei Hmx. unfold q_alloc, alloc_ok, pageAlloc.
  assert (HL : next_page db ∈ next_page db :: q_pages q) by (apply elem_of_cons; by left).
  destruct (freePopHead_empty db q Hq Ei) as (E & Hl & Em'); [lia|].
  unfold q_pop. rewrite (proj2 (Z.ltb_ge _ _)), Ei by lia. rewrite E. cbn [mbind res_bind negb bool_decide].
  set (db1 := set_free _ db).
  assert (Hr1 : q_rep db1 (mkQueue [] [] 0 (q_max q))) by (left; rewrite Em'; done).
  assert (Fr1 : frame db db1 []) by done.
  destruct (q_chain q) as [|c chain] eqn:Ec; cbn [hd_error default].
  - destruct (alloc_append db1 _ _ node Hr1 (not_elem_of_nil _) HL) as (db' & Ea & Hr & R & Fr & N & W).
    exists db'. split; [exact Ea|]. split; [done|]. split; [done|]. split; [apply not_elem_of_nil|].
    split; [done|]. split; [exact Fr|]. split; [right; exact N|intros Hb; by apply W].
  - assert (Hc : c ∈ q_pages q) by (unfold q_pages; rewrite Ec; apply elem_of_cons; by left).
    assert (Hc0 : c <> 0).
    { destruct Hq as [[-> _]|Hq]; [done|]. by apply (q_repd_in _ _ _ _ Hq Hc). }
    destruct (alloc_reuse db db1 (next_page db :: q_pages q) (mkQueue [] [] 0 (q_max q)) c node []
      Hc0 (not_elem_of_nil c) Hr1 Fr1)
      as (db' & Ea & Hr & R & Fr & N & W); [by intros p ?%not_elem_of_nil|apply elem_of_cons; by right|].
    exists db'. split; [exact Ea|]. split; [done|]. split; [done|].
    split; [apply not_elem_of_nil|]. split; [apply elem_of_cons; by right|]. split; [exact Fr|].
    split; [|intros Hb; apply W; [exact (writes_refl db [])|done]]. left. split; [exact N|]. rewrite elem_of_cons. intros [E0|H]; [|by apply not_elem_of_nil in H].
    apply Hnp. by rewrite E0.
Qed.

Lemma pageAlloc_some db q node x items : q_repd 1 db q -> q_tail q + 1 < SEQ_LIMIT ->
  next_page db <> 0 -> next_page db ∉ q_pages q -> q_items q = x :: items -> ~ q_max q < q_head q ->
  let '(q', p) := q_alloc (next_page db) q in alloc_ok db q node q' p.
Proof.
  intros Hq Hlt Hnz Hnp Ei Hmx. unfold q_alloc, alloc_ok, pageAlloc.
  destruct (freePopHead_some 1 db q x items Hq Ei) as (f' & q' & hd & Ep & E & Hq' & Ht' & Ei' & Eh' & Fm & Ech & Hhd);
    [lia|lia|by intros Hm; eapply q_repd1_exhausted; [exact Hq|by rewrite Ei|]|].
  destruct (q_pop_pages _ _ _ _ _ _ _ Hq Ei Ech Ei') as (Hx & Hux & Hh). rewrite Ep. rstep E.
  assert (Hin : forall p, p ∈ x :: option_list hd ++ q_pages q' -> p ∈ q_pages q).
  { intros p. unfold q_pages. rewrite Ech, Ei, Ei'. rewrite elem_of_cons, !elem_of_app, elem_of_cons. tauto. }
  assert (Hxin : x ∈ next_page db :: q_pages q).
  { apply elem_of_cons. right. apply Hin, elem_of_cons. by left. }
  destruct hd as [h|]; [change (default 0 (Some h)) with h|change (default 0 None) with 0].
  - destruct (Hh h eq_refl) as (Hh0 & Hhq & Hhu). rewrite (bool_decide_false (h = 0)) by done. cbn [negb].
    rewrite elem_of_cons in Hhq.
    destruct (freePushTail_rep (set_free f' db) q' h) as (db1 & E1 & Hr1 & N1 & Fr1 & W1); try done.
    { by right. }
    { by rewrite Ht'. }
    { intros Hi0. left. eapply q_pop_head_aligned; [exact Ep|by rewrite Ei]. }
    { change (next_page (set_free f' db)) with (next_page db). intros Hp. apply Hnp, Hin.
      apply elem_of_cons. right. exact Hp. }
    { tauto. }
    rstep E1. change (next_page (set_free f' db)) with (next_page db) in *.
    assert (Hxp : x ∉ q_pages (q_push (next_page db) q' h).1).
    { rewrite q_push_perm by (eapply q_rep_tail; right; exact Hq'). rewrite elem_of_app, elem_of_cons.
      intros [Hp|[->|Hp]]; [|tauto|done]. case_match; [|by apply not_elem_of_nil in Hp].
      apply list_elem_of_singleton in Hp as ->. apply Hnp, Hin, elem_of_cons. by left. }
    destruct (alloc_reuse db db1 (next_page db :: q_pages q) _ x node (next_page db :: h :: q_pages q')
      (proj1 Hux) Hxp Hr1) as (db' & Ea & Hr & R & Fr & N & W); [|..|done|].
    { destruct Fr1 as (A & B & C). split; [done|]. split; [rewrite B; exact Fm|done]. }
    { intros p. rewrite !elem_of_cons. intros [->|Hp]; [by left|right; apply Hin].
      rewrite elem_of_cons. right. change (p ∈ h :: q_pages q'). by rewrite elem_of_cons. }
    exists db'. rewrite Ea. split; [done|]. split; [done|]. split; [done|]. split; [done|]. split; [done|]. split; [done|].
    split; [|intros Hb; apply W; [|done]; intros y b Hy; destruct (W1 y b Hy) as [|[Hin1 Hl1]]; [by left|right; split; [|done]];
      by rewrite q_push_perm by (eapply q_rep_tail; right; exact Hq')].
    unfold counted. rewrite N, N1. rewrite elem_of_cons, q_push_perm by (eapply q_rep_tail; right; exact Hq').
    destruct (q_push _ _ _).2; [by right|left]. split; [done|]. cbn [app]. rewrite elem_of_cons.
    intros Hp. apply Hnp, Hin, elem_of_cons.
    change (next_page db = x \/ next_page db ∈ h :: q_pages q'). rewrite elem_of_cons. exact Hp.
  - rewrite (bool_decide_true (0 = 0)) by done. cbn [negb mbind res_bind].
    destruct (alloc_reuse db (set_free f' db) (next_page db :: q_pages q) q' x node [] (proj1 Hux) Hx)
      as (db' & Ea & Hr & R & Fr & N & W); [by right|done|by intros p ?%not_elem_of_nil|done|].
    exists db'. split; [exact Ea|]. split; [done|]. split; [done|]. split; [done|]. split; [done|]. split; [done|].
    split; [|intros Hb; apply W; [exact (writes_refl db (q_pages q'))|done]]. left. split; [done|]. intros Hp. apply Hnp, Hin. exact Hp.
Qed.

Lemma pageAlloc_rep db q node : q_rep db q -> q_tail q + 1 < SEQ_LIMIT ->
  next_page db <> 0 -> next_page db ∉ q_pages q ->
  let '(q', p) := q_alloc (next_page db) q in alloc_ok db q node q' p.
Proof.
  intros Hq Hlt Hnz Hnp.
  destruct (decide (q_max q < q_head q)) as [Hmx|Hmx].
  - unfold q_alloc, alloc_ok, pageAlloc. destruct (freePopHead_none db q Hq Hmx) as [E Ep].
    rewrite Ep. rstep E. cbn [default negb].
    assert (HL : next_page db ∈ next_page db :: q_pages q) by (apply elem_of_cons; by left).
    destruct (alloc_append db _ q node Hq Hnp HL) as (db' & Ea & Hr & R & Fr & N & W). exists db'.
    split; [done|]. split; [done|]. split; [done|]. split; [done|]. split; [done|]. split; [done|]. split; [by right|intros Hb; by apply W].
  - destruct (q_items q) as [|x items] eqn:Ei; [by apply pageAlloc_empty|].
    destruct Hq as [[-> _]|Hq]; [done|]. by apply (pageAlloc_some _ _ _ x items).
Qed.

(** C21: allocating a page.  [pageAlloc] hands out the oldest page of the free
    list, or a page appended to the file when the list offers none; it never
    fails, the list afterwards is the queue [q_alloc] gives, the new page is not
    in it and reads as the node stored, and every page that was neither free nor
    past the end of the file (the pages in use) still reads as before. *)
Theorem pageAlloc_refines db q node : q_rep db q -> q_tail q + 1 < SEQ_LIMIT ->
  next_page db <> 0 -> next_page db ∉ q_pages q ->
  let '(q', p) := q_alloc (next_page db) q in
  exists db', pageAlloc db node = Ok (db', p) /\ q_rep db' q' /\ pageRead db' p = Ok node /\
    p ∉ q_pages q' /\ p ∈ next_page db :: q_pages q /\ frame db db' (next_page db :: q_pages q).
Proof.
  intros Hq Hlt Hnz Hnp. pose proof (pageAlloc_rep db q node Hq Hlt Hnz Hnp) as HA.
  destruct (q_alloc _ q) as [q' p]. destruct HA as (db' & E & Hr & R & Hp & Hin & Fr & _). by exists db'.
Qed.

(** C38: a page freed by a transaction can be handed out again by the same
    transaction.  [maxSeq] is the tail at the last commit and the entries up to
    it may be taken; [freePopHead] refuses only a head beyond it, so when the
    list is drained an entry pushed since the commit is taken at once, although
    the committed tree may still use its page. *)
Theorem freed_page_reused db q ptr node : q_rep db q -> q_items q = [] -> q_tail q + 2 < SEQ_LIMIT ->
  0 <= q_max q -> q_head q <= q_max q -> (q_chain q = [] \/ (q_head q + 1) mod CAP <> 0) ->
  next_page db <> 0 -> next_page db ∉ ptr :: q_pages q -> ptr ∉ q_pages q -> usable (pageRead db) ptr ->
  exists db1 db2, freePushTail db ptr = Ok db1 /\ pageAlloc db1 node = Ok (db2, ptr).
Proof.
  intros Hq Hi Hlt Hm0 Hm Hfull Hnz Hnp Hnin Hus.
  destruct (freePushTail_rep db q ptr Hq) as (db1 & E1 & Hq1 & _); try done; [lia| |].
  { intros _. destruct Hfull as [Hc|?]; [|by left]. left. destruct Hq as [[-> _]|Hq]; [done|].
    by destruct (q_repd_nonnil _ _ _ Hq). }
  exists db1. set (q1 := (q_push (next_page db) q ptr).1) in *.
  assert (H1 : q_items q1 = [ptr] /\ q_chain q1 <> [] /\ q_head q1 <= q_max q1 /\
     (q_head q1 + 1) mod CAP <> 0 /\ q_tail q1 <= SEQ_LIMIT).
  { unfold q1. unfold q_tail in Hlt. rewrite Hi in Hlt. cbn [length] in Hlt.
    destruct (decide (q_chain q = [])) as [Hc|Hc].
    - unfold q_push. rewrite Hc. cbn. unfold q_tail, SEQ_LIMIT. cbn. repeat split; done || lia.
    - rewrite q_push_nonnil by done. rewrite Hi. cbn [app]. unfold q_tail. cbn [q_items q_head length].
      destruct Hfull as [|Hfull]; [done|]. rewrite decide_False by done. cbn. repeat split; done || lia. }
  destruct H1 as (Hi1 & Hc1 & Hm1 & Hf1 & Hl1). destruct Hq1 as [[Hq1 _]|Hq1]; [by rewrite Hq1 in Hc1|].
  destruct (freePopHead_some 1 db1 q1 ptr [] Hq1 Hi1) as (f' & q' & hd & Ep & E & _); [done|done|done|].
  unfold q_pop in Ep. rewrite Hi1, (proj2 (Z.ltb_ge _ _)), decide_False in Ep by done. injection Ep as <- <-.
  exists (set_page ptr node (set_free f' db1)). unfold pageAlloc. rstep E.
  change (default 0 None) with 0. rewrite (bool_decide_true (0 = 0)) by done. cbn [negb mbind res_bind].
  by rewrite (bool_decide_false (ptr = 0)) by apply Hus.
Qed.

(** The free list with one slot left.  When the only list page has a single
    slot left and the list is empty, pushing a page number fills the page, takes
    the number just stored out again as the successor page, and follows the next
    pointer of the emptied page, which was never set: the head of the list
    becomes page 0 (the meta page) and the list represents no queue. *)
Theorem freePushTail_one_slot_left db h ptr : fl_inv (pageRead db) (kFree db) [h] [] ->
  (headSeq (kFree db) + 1) mod CAP = 0 -> headSeq (kFree db) <= maxSeq (kFree db) ->
  headSeq (kFree db) < SEQ_LIMIT -> link (pageRead db) h = Ok 0 -> ptr <> h -> usable (pageRead db) ptr ->
  exists db', freePushTail db ptr = Ok db' /\
    kFree db' = mkFree 0 (headSeq (kFree db) + 1) ptr (headSeq (kFree db) + 2) (maxSeq (kFree db)) /\
    forall q, ~ q_rep db' q.
Proof.
  intros [Hc _] Hmod Hmax Hlim Hlink Hne (Pz & Pu & pb & Hpb & Plen).
  assert (Ht : tailPage (kFree db) = h) by (pose proof (fc_tail _ _ _ _ Hc) as H; by injection H).
  destruct (fl_tail_page _ _ _ _ Hc) as (Hz & _ & b & Hb & Hlb).
  pose proof (fc_seq _ _ _ _ Hc) as [Hs0 Hs]. cbn [length] in Hs. rewrite Ht in *.
  set (hs := headSeq (kFree db)) in *. assert (Hts : tailSeq (kFree db) = hs) by lia.
  pose proof (Z.mod_pos_bound hs CAP ltac:(rewrite CAP_eq; lia)) as Hk.
  unfold link in Hlink. rewrite Hb in Hlink. cbn [mbind res_bind] in Hlink. unfold SEQ_LIMIT in Hlim.
  unfold freePushTail. rewrite Ht, decide_False by done. unfold free_store. rewrite Ht, Hts.
  destruct (pageWrite_Ok db h b Hb Hlb) as (db1 & E1 & R1 & F1 & N1 & S1). rstep E1.
  rewrite put_le_Ok by (rewrite CAP_eq in *; unfold PAGE_SIZE in *; lia). cbn [mbind res_bind].
  set (b' := bwrite b _ _).
  assert (Hlb' : blen b' = PAGE_SIZE).
  { unfold b'. rewrite blen_bwrite; rewrite ?blen_le_split, ?CAP_eq in *; unfold PAGE_SIZE in *; lia. }
  rewrite u64_small by (unfold in_u64; lia). cbn [kFree set_free tailSeq]. rewrite decide_True by done.
  fold hs. set (db2 := set_free _ _).
  assert (Ep : freePopHead db2 = Ok (set_free (mkFree 0 (hs + 1) h (hs + 1) (maxSeq (kFree db))) db2, (ptr, h))).
  { assert (Hh : headPage (kFree db) = h) by (pose proof (fc_head _ _ _ _ Hc) as H; by injection H).
    unfold freePopHead, db2. cbn [kFree set_free headSeq headPage tailSeq tailPage maxSeq].
    rewrite (proj2 (Z.ltb_ge _ _)) by lia. rewrite decide_False by lia.
    rewrite pageRead_set_free, pageRead_set_page, Hh, decide_True by done. cbn [mbind res_bind].
    unfold b'. rewrite get_put_le_same by (rewrite ?CAP_eq in *; unfold PAGE_SIZE, in_u64 in *; lia).
    cbn [mbind res_bind]. rewrite u64_small by (unfold in_u64; lia). rewrite decide_True by done.
    rewrite get_le_bwrite_disjoint by (rewrite ?blen_le_split, ?CAP_eq in *; unfold PAGE_SIZE in *; lia).
    rstep Hlink. done. }
  rstep Ep. rewrite decide_False by done. unfold free_link.
  set (db3 := set_free _ db2). cbn [kFree set_free db3 headPage headSeq tailPage tailSeq maxSeq].
  assert (R3 : forall q, pageRead db3 q = if decide (h = q) then Ok b' else pageRead db q).
  { intros q. unfold db3, db2. rewrite !pageRead_set_free, pageRead_set_page, R1. done. }
  destruct (pageWrite_Ok db3 h b') as (db4 & E4 & R4 & F4 & _); [by rewrite R3, decide_True|done|].
  rstep E4. rewrite put_le_Ok by (unfold PAGE_SIZE in *; lia). cbn [mbind res_bind].
  rewrite bool_decide_false by done. cbn [negb].
  set (db5 := set_free (mkFree 0 (hs + 1) ptr (hs + 1) _) _).
  cbn [kFree set_free db5 headPage headSeq tailPage tailSeq maxSeq].
  assert (R5 : pageRead db5 ptr = Ok pb).
  { unfold db5. rewrite pageRead_set_free, pageRead_set_page, decide_False by congruence.
    by rewrite R4, R3, decide_False by congruence. }
  destruct (pageWrite_Ok db5 ptr pb R5 Plen) as (db6 & E6 & R6 & F6 & _). rstep E6.
  rewrite put_le_Ok by (unfold PAGE_SIZE in *; lia). cbn [mbind res_bind].
  rewrite u64_small by (unfold in_u64; lia). eexists. split; [done|].
  cbn [kFree set_free]. split; [f_equal; lia|]. intros q [[-> Hq]|(_ & _ & Hq & _)].
  - cbn in Hq. congruence.
  - pose proof (fc_nonzero _ _ _ _ Hq) as HF. pose proof (fc_head _ _ _ _ Hq) as H0. cbn [kFree set_free headPage] in H0.
    destruct (q_chain q) as [|c chain]; [done|]. injection H0 as ->. by apply list.Forall_cons in HF as [[HF _] _].
Qed.

(** ** Instances *)

(** A store of ten pages with page 5 in memory and no free list; one whose list
    page 6 holds page 5; one whose list page 6 has been drained up to its last
    slot. *)
Definition zero_page : bytes := make_bytes PAGE_SIZE.
Definition full_page : bytes := replicate 4096 Byte.x41.
Definition ex_db (f : FreeList) : KV :=
  mkKV 3 10 0 {[5 := zero_page; 6 := bwrite zero_page 8 (le_split 8 5)]} f 0 [] [].
Definition ex_none : KV := ex_db (mkFree 0 0 0 0 0).
Definition ex_one : KV := ex_db (mkFree 6 0 6 1 0).
Definition ex_last : KV := mkKV 3 10 0 {[5 := zero_page; 6 := zero_page]} (mkFree 6 510 6 510 510) 0 [] [].

Lemma usable_ex f p : p = 5 \/ p = 6 -> usable (pageRead (ex_db f)) p.
Proof.
  intros [-> | ->]; (split; [done|split; [done|]]); eexists; (split; [reflexivity|]); by vm_compute.
Qed.
Lemma ex_none_rep : q_rep ex_none (mkQueue [] [] 0 0).
Proof. by left. Qed.
Lemma ex_one_rep : q_rep ex_one (mkQueue [6] [5] 0 0).
Proof.
  right. split; [done|]. split; [done|]. split; [|done].
  apply fl_core_first; [done|apply usable_ex; by right|apply usable_ex; by left|by vm_compute].
Qed.
Lemma ex_last_inv : fl_inv (pageRead ex_last) (kFree ex_last) [6] [].
Proof.
  split; [|done]. split; try done.
  - apply NoDup_singleton.
  - by apply Forall_singleton.
  - apply Forall_singleton. exists zero_page. by vm_compute.
Qed.
Lemma freePushTail_refines_witness :
  let '(q', appended) := q_push 10 (mkQueue [] [] 0 0) 5 in
  exists db', freePushTail ex_none 5 = Ok db' /\ q_rep db' q' /\
    q_pages q' ≡ₚ (if appended then [10] else []) ++ [5] /\
    kNappend db' = (if appended then 1 else 0) /\ frame ex_none db' [10; 5].
Proof.
  apply (freePushTail_refines ex_none (mkQueue [] [] 0 0) 5); try done.
  - apply ex_none_rep.
  - intros _. by left.
  - change (10 ∉ [5]). by rewrite list_elem_of_singleton.
  - apply not_elem_of_nil.
  - apply usable_ex. by left.
Defined.

Lemma pageAlloc_refines_witness :
  exists db', pageAlloc ex_one full_page = Ok (db', 5) /\ q_rep db' (mkQueue [6] [] 1 0) /\
    pageRead db' 5 = Ok full_page /\ 5 ∉ [6] /\ 5 ∈ [10; 6; 5] /\ frame ex_one db' [10; 6; 5].
Proof.
  apply (pageAlloc_refines ex_one (mkQueue [6] [5] 0 0) full_page ex_one_rep); [by vm_compute|done|].
  change (10 ∉ [6; 5]). rewrite !not_elem_of_cons. repeat split; try done. apply not_elem_of_nil.
Defined.

Lemma freed_page_reused_witness : exists db1 db2, freePushTail ex_none 5 = Ok db1 /\
  pageAlloc db1 full_page = Ok (db2, 5).
Proof.
  apply (freed_page_reused ex_none (mkQueue [] [] 0 0) 5 full_page ex_none_rep); try done.
  - by left.
  - change (10 ∉ [5]). by rewrite list_elem_of_singleton.
  - apply not_elem_of_nil.
  - apply usable_ex. by left.
Defined.

Lemma freePushTail_one_slot_left_witness : exists db', freePushTail ex_last 5 = Ok db' /\
  kFree db' = mkFree 0 511 5 512 510 /\ forall q, ~ q_rep db' q.
Proof.
  apply (freePushTail_one_slot_left ex_last 6 5 ex_last_inv); try done.
  split; [done|]. split; [done|]. exists zero_page. by vm_compute.
Defined.
