(* ===== verification/Commit.v ===== *)
(** * Writing the file: commit, abort, reopening

    The memory map, the contents of the file under [updateFile] for every
    pattern of failing system calls, and the theorems on transactions: a commit
    that succeeds survives reopening, one that fails or is aborted leaves the
    store as it was, and the first append after reopening. *)
From Stdlib Require Import ZArith Lia.
From coqutil Require Import Byte Word.LittleEndianList.
From stdpp Require Import base gmap list strings countable.
From S2P Require Import Prelude BNode Disk FreeList.

(** ** The memory map *)

Definition sum_Z (l : list Z) : Z := foldr Z.add 0 l.
Definition chunk_ok (c : Z) : Prop := 0 < c /\ c mod PAGE_SIZE = 0.
Definition mmap_ok (db : KV) : Prop :=
  kTotal db = sum_Z (kChunks db) /\ Forall chunk_ok (kChunks db) /\ kTotal db < 9223372036854775808.

Lemma sum_chunks_nonneg cs : Forall chunk_ok cs -> 0 <= sum_Z cs.
Proof. unfold sum_Z. induction 1 as [|c cs [H _] _ IH]; cbn; lia. Qed.
Lemma sum_chunks_mod cs : Forall chunk_ok cs -> sum_Z cs mod PAGE_SIZE = 0.
Proof.
  unfold sum_Z. induction 1 as [|c cs [_ H] _ IH]; cbn; [done|].
  rewrite Z.add_mod, H, IH by done. reflexivity.
Qed.
Lemma sum_Z_app a b : sum_Z (a ++ b) = sum_Z a + sum_Z b.
Proof. unfold sum_Z. induction a; cbn in *; lia. Qed.

(** The chunks cover the pages below their total size. *)
Lemma find_chunk_spec cs ptr start : Forall chunk_ok cs -> 0 <= start ->
  start * PAGE_SIZE + sum_Z cs < 9223372036854775808 -> start <= ptr ->
  find_chunk cs ptr start = (ptr * PAGE_SIZE <? start * PAGE_SIZE + sum_Z cs).
Proof.
  intros Hcs. revert start. induction Hcs as [|c cs [Hc Hm] Hcs IH]; intros start Hs Hb Hp; cbn [find_chunk sum_Z foldr] in *.
  { symmetry. apply Z.ltb_ge. unfold PAGE_SIZE. lia. }
  pose proof (sum_chunks_nonneg cs Hcs) as Hnn. fold (sum_Z cs) in *. unfold PAGE_SIZE in *.
  rewrite u64_small by (unfold in_u64; Z.div_mod_to_equations; lia).
  destruct (Z.ltb_spec ptr (start + c / 4096)) as [H|H].
  - symmetry. apply Z.ltb_lt. Z.div_mod_to_equations. lia.
  - rewrite IH by (Z.div_mod_to_equations; lia). f_equal. Z.div_mod_to_equations. lia.
Qed.

Lemma grow_S fuel total alloc size : grow (S fuel) total alloc size =
  if i64 (total + alloc) <? size then grow fuel total (i64 (alloc * 2)) size else Ok alloc.
Proof. reflexivity. Qed.
Lemma grow_spec fuel total alloc size : 0 <= total < size -> size <= 2305843009213693952 -> 0 < alloc <= 4611686018427387904 ->
  size <= alloc * 2 ^ Z.of_nat fuel -> alloc mod PAGE_SIZE = 0 ->
  exists alloc', grow (S fuel) total alloc size = Ok alloc' /\ alloc <= alloc' <= 4611686018427387904 /\
    size <= total + alloc' /\ alloc' mod PAGE_SIZE = 0.
Proof.
  intros Ht Hs. revert alloc. induction fuel as [|fuel IH]; intros alloc Ha Hf Hm.
  - change (2 ^ Z.of_nat 0) with 1 in Hf. exists alloc. rewrite grow_S, i64_small by (unfold in_i64; lia).
    replace (total + alloc <? size) with false by (symmetry; apply Z.ltb_ge; lia). repeat split; done || lia.
  - rewrite grow_S, i64_small by (unfold in_i64; lia).
    destruct (Z.ltb_spec (total + alloc) size) as [H|H].
    + rewrite i64_small by (unfold in_i64; lia).
      destruct (IH (alloc * 2)) as (a & E & H1 & H2 & H3); [lia| | |].
      * rewrite Nat2Z.inj_succ, Z.pow_succ_r in Hf by lia. lia.
      * unfold PAGE_SIZE in *. Z.div_mod_to_equations. lia.
      * exists a. repeat split; try done; lia.
    + exists alloc. repeat split; done || lia.
Qed.

(** [extendMmap] keeps the map well formed and, unless the system call fails,
    covers [size]. *)
Lemma extendMmap_spec faults db size : mmap_ok db -> size <= 2305843009213693952 ->
  exists t c ok faults', extendMmap faults db size = Ok (set_mmap t (kChunks db ++ c) db, ok, faults') /\
    mmap_ok (set_mmap t (kChunks db ++ c) db) /\ (ok = true -> size <= t) /\ kTotal db <= t /\
    (faults = [] -> ok = true /\ faults' = []).
Proof.
  intros (Ht & Hc & Hb) Hs. unfold extendMmap.
  pose proof (sum_chunks_nonneg _ Hc) as Hnn.
  assert (Hsame : set_mmap (kTotal db) (kChunks db ++ []) db = db) by (rewrite app_nil_r; by destruct db).
  destruct (Z.leb_spec size (kTotal db)) as [H|H].
  { exists (kTotal db), [], true, faults. rewrite Hsame. repeat split; done || lia. }
  change (Z.shiftl 64 20) with 67108864. set (a0 := if kTotal db <? 67108864 then _ else _).
  assert (67108864 <= a0 <= 4611686018427387904 /\ a0 mod PAGE_SIZE = 0) as [Ha Ham].
  { unfold a0. destruct (Z.ltb_spec (kTotal db) 67108864); [split; [lia|done]|]. split; [lia|].
    rewrite Ht. by apply sum_chunks_mod. }
  destruct (grow_spec 63 (kTotal db) a0 size) as (a & E & H1 & H2 & H3); try lia; try done.
  rstep E. destruct (syscall faults) as [ok faults'] eqn:Ef. destruct ok.
  - rewrite i64_small by (unfold in_i64; lia).
    exists (kTotal db + a), [a], true, faults'. split; [done|]. split; [|split; [lia|split; [lia|]]].
    + split; [|split]; cbn [set_mmap kTotal kChunks]; [| |lia].
      * rewrite sum_Z_app. cbn. lia.
      * apply Forall_app. split; [done|]. apply Forall_singleton. split; [lia|done].
    + intros ->. by injection Ef.
  - exists (kTotal db), [], false, faults'. rewrite Hsame. split; [done|]. split; [done|].
    split; [done|]. split; [lia|]. intros ->. discriminate.
Qed.

(** ** The file's contents

    A file read past its end shows zeros: [fbyte f i] is byte [i], [page_at] a
    page of them. *)
Definition fbyte (f : bytes) (i : nat) : Byte.byte := default Byte.x00 (f !! i).
Definition page_at (f : bytes) (p : Z) : bytes :=
  bsub (pad_to f (PAGE_SIZE * p + PAGE_SIZE)) (PAGE_SIZE * p) PAGE_SIZE.

Lemma mapped_page_eq f p :
  mapped_page f p = if PAGE_SIZE * p <? blen f then Ok (page_at f p) else Crash FatalExit.
Proof. reflexivity. Qed.

Lemma fbyte_pad f n i : fbyte (pad_to f n) i = fbyte f i.
Proof.
  unfold fbyte, pad_to, make_bytes. rewrite lookup_app. destruct (f !! i) as [x|]; [done|].
  destruct (replicate _ _ !! _) as [x|] eqn:E; [|done]. by apply lookup_replicate in E as [-> _].
Qed.
Lemma blen_pad f n : blen (pad_to f n) = Z.max (blen f) n.
Proof. unfold pad_to, make_bytes. rewrite blen_app. unfold blen. rewrite length_replicate. lia. Qed.
Lemma blen_pwrite f off d : 0 <= off -> blen (pwrite f off d) = Z.max (blen f) (off + blen d).
Proof. intros. unfold pwrite. rewrite blen_bwrite by (rewrite ?blen_pad; lia). apply blen_pad. Qed.
Lemma fbyte_pwrite f off d i : 0 <= off -> fbyte (pwrite f off d) i =
  if decide (off <= Z.of_nat i < off + blen d) then default Byte.x00 (d !! (i - Z.to_nat off)%nat) else fbyte f i.
Proof.
  intros Ho. rewrite <- (fbyte_pad f (off + blen d) i). unfold pwrite, fbyte.
  rewrite lookup_bwrite by (rewrite ?blen_pad; lia). repeat case_decide; try done; lia.
Qed.
Lemma page_at_lookup f p k : 0 <= p -> (k < 4096)%nat ->
  page_at f p !! k = Some (fbyte f (Z.to_nat (PAGE_SIZE * p) + k)).
Proof.
  intros Hp Hk. unfold page_at. rewrite lookup_bsub. unfold PAGE_SIZE in *.
  rewrite decide_True by lia. rewrite <- (fbyte_pad f (4096 * p + 4096)). unfold fbyte.
  destruct (pad_to _ _ !! _) eqn:E; [done|]. apply lookup_ge_None in E.
  pose proof (blen_pad f (4096 * p + 4096)). unfold blen in *. lia.
Qed.
Lemma blen_page_at f p : 0 <= p -> blen (page_at f p) = PAGE_SIZE.
Proof. intros. apply blen_bsub; rewrite ?blen_pad; unfold PAGE_SIZE; lia. Qed.
Lemma page_at_ext f g p : 0 <= p ->
  (forall i, PAGE_SIZE * p <= Z.of_nat i < PAGE_SIZE * p + PAGE_SIZE -> fbyte f i = fbyte g i) ->
  page_at f p = page_at g p.
Proof.
  intros Hp H. apply list_eq_same_length with (n := 4096%nat).
  - pose proof (blen_page_at g p Hp) as E. unfold blen, PAGE_SIZE in E. lia.
  - pose proof (blen_page_at f p Hp) as E. unfold blen, PAGE_SIZE in E. lia.
  - intros k x y Hk. rewrite !page_at_lookup by done. rewrite H; [by intros [= <-] [= <-]|].
    unfold PAGE_SIZE in *. lia.
Qed.
Lemma page_at_pwrite_other f off d p : 0 <= off -> 0 <= p ->
  off + blen d <= PAGE_SIZE * p \/ PAGE_SIZE * p + PAGE_SIZE <= off ->
  page_at (pwrite f off d) p = page_at f p.
Proof.
  intros Ho Hp Hd. apply page_at_ext; [done|]. intros i Hi. rewrite fbyte_pwrite by done.
  by rewrite decide_False by lia.
Qed.
Lemma page_at_pwrite_same f d p : 0 <= p -> blen d = PAGE_SIZE ->
  page_at (pwrite f (p * PAGE_SIZE) d) p = d.
Proof.
  intros Hp Hd. apply list_eq_same_length with (n := 4096%nat).
  - unfold blen, PAGE_SIZE in Hd. lia.
  - pose proof (blen_page_at (pwrite f (p * PAGE_SIZE) d) p Hp) as E. unfold blen, PAGE_SIZE in *. lia.
  - intros k x y Hk. rewrite page_at_lookup by done. unfold PAGE_SIZE in *.
    rewrite fbyte_pwrite by lia. rewrite decide_True by lia.
    replace (Z.to_nat (4096 * p) + k - Z.to_nat (p * 4096))%nat with k by lia.
    by intros [= <-] ->.
Qed.

Lemma set_file_id db : set_file (kFile db) db = db.
Proof. by destruct db. Qed.

(** The write loop: pages that are not written keep their contents, the file
    never shrinks, and when every write succeeds the written pages are in it. *)
Lemma write_pages_spec ws : forall faults db, NoDup ws.*1 ->
  Forall (fun '(p, b) => 0 <= p < 2251799813685248 /\ blen b = PAGE_SIZE) ws ->
  exists f' ok faults', write_pages faults db ws = (set_file f' db, ok, faults') /\
    blen (kFile db) <= blen f' /\ (faults = [] -> ok = true /\ faults' = []) /\
    (forall p, 0 <= p -> p ∉ ws.*1 -> page_at f' p = page_at (kFile db) p) /\
    (ok = true -> forall p b, (p, b) ∈ ws -> page_at f' p = b /\ PAGE_SIZE * p < blen f').
Proof.
  induction ws as [|[p b] ws IH]; intros faults db ND F.
  { exists (kFile db), true, faults. rewrite set_file_id. split; [done|]. split; [lia|].
    split; [done|]. split; [done|]. intros _ p b Hin. by apply not_elem_of_nil in Hin. }
  cbn [fmap list_fmap fst] in ND. apply list.NoDup_cons in ND as [Nin ND].
  apply list.Forall_cons in F as [[Hp Hb] F]. cbn [write_pages].
  destruct (syscall faults) as [[] faults1] eqn:Ef.
  2:{ exists (kFile db), false, faults1. rewrite set_file_id. split; [done|]. split; [lia|].
      split; [by intros ->|]. by split. }
  set (off := i64 (u64 (p * PAGE_SIZE))).
  assert (Hoff : off = p * PAGE_SIZE).
  { unfold off, PAGE_SIZE. rewrite u64_small, i64_small; unfold in_i64, in_u64; lia. }
  set (f1 := pwrite (kFile db) off b).
  destruct (IH faults1 (set_file f1 db) ND F) as (f' & ok & faults' & E & Hl & Hf & Ho & Hw).
  cbn [kFile set_file] in *. exists f', ok, faults'. split; [exact E|].
  assert (Hl1 : blen f1 = Z.max (blen (kFile db)) (off + blen b)).
  { apply blen_pwrite. rewrite Hoff. unfold PAGE_SIZE. lia. }
  split; [lia|]. split; [|split].
  - intros ->. injection Ef as <-. by apply Hf.
  - intros q Hq Hn. rewrite fmap_cons, not_elem_of_cons in Hn. destruct Hn as [Hne Hn]. cbn [fst] in Hne.
    rewrite Ho by done. apply page_at_pwrite_other; rewrite ?Hb, ?Hoff; unfold PAGE_SIZE in *; lia.
  - intros Hok q c [[= -> ->]|Hin]%elem_of_cons; [|by apply Hw].
    rewrite (Ho p) by (done || lia). unfold f1. rewrite Hoff, page_at_pwrite_same by (done || lia).
    split; [done|]. unfold PAGE_SIZE in *. lia.
Qed.

(** ** Commit and abort *)

Definition updates_ok (db : KV) : Prop :=
  map_Forall (fun p b => 1 <= p < kFlushed db + kNappend db /\ blen b = PAGE_SIZE) (kUpdates db).
(** The in-memory state after a successful write of [db]. *)
Definition committed (db : KV) : KV :=
  let f := kFree db in
  set_free (mkFree (headPage f) (headSeq f) (tailPage f) (tailSeq f) (tailSeq f))
    (set_pages (u64 (kFlushed db + kNappend db)) 0 ∅ db).
(** The database is below 2^61 bytes. *)
Definition size_ok (db : KV) : Prop :=
  0 <= kFlushed db /\ 0 <= kNappend db /\ (kFlushed db + kNappend db) * PAGE_SIZE <= 2305843009213693952.

Lemma updates_list db ws : updates_ok db -> size_ok db -> ws ≡ₚ map_to_list (kUpdates db) ->
  NoDup ws.*1 /\ Forall (fun '(p, b) => 0 <= p < 2251799813685248 /\ blen b = PAGE_SIZE) ws /\
  (forall p (b : bytes), (p, b) ∈ ws <-> kUpdates db !! p = Some b) /\
  (forall p, p ∈ ws.*1 <-> is_Some (kUpdates db !! p)).
Proof.
  intros Hu (_ & _ & Hs) Hp. unfold PAGE_SIZE in Hs. assert (HI : forall p (b : bytes), (p, b) ∈ ws <-> kUpdates db !! p = Some b).
  { intros p b. rewrite Hp. apply elem_of_map_to_list. }
  split; [rewrite Hp; apply NoDup_fst_map_to_list|]. split; [|split; [done|]].
  - apply List.Forall_forall. intros [p b] Hin. apply list_elem_of_In, HI, Hu in Hin. lia.
  - intros p. rewrite list_elem_of_fmap. split.
    + intros ([q b] & -> & Hin). exists b. by apply HI.
    + intros [b Hb]. exists (p, b). split; [done|]. by apply HI.
Qed.

Lemma holds_pwrite_prefix f d r : holds d 0 r -> holds (pwrite f 0 d) 0 r.
Proof.
  intros Hr. pose proof (blen_nonneg d). pose proof (blen_nonneg r).
  assert (Hd : holds (pwrite f 0 d) 0 d) by (apply holds_bwrite_same; rewrite ?blen_pad; lia).
  destruct Hr as (_ & Hl & E). split; [lia|]. split; [destruct Hd as (_ & ? & _); lia|].
  rewrite <- E at 2. rewrite <- (holds_sub _ _ _ 0 (blen r) Hd) by lia. done.
Qed.

(** [updateFile] under any pattern of failing system calls. *)
Lemma updateFile_spec faults ws db : mmap_ok db -> updates_ok db -> size_ok db ->
  ws ≡ₚ map_to_list (kUpdates db) ->
  exists t c f' (ok : bool), let db1 := set_file f' (set_mmap t (kChunks db ++ c) db) in
    updateFile faults ws db = Ok (if ok then committed db1 else db1, ok) /\
    mmap_ok db1 /\ kTotal db <= t /\ blen (kFile db) <= blen f' /\
    (forall p, 1 <= p -> kUpdates db !! p = None -> page_at f' p = page_at (kFile db) p) /\
    (ok = true -> (kFlushed db + kNappend db) * PAGE_SIZE <= t /\ 96 <= blen f' /\
       holds f' 0 (meta_head (kRoot db) (kFlushed db) (kFree db)) /\
       forall p b, kUpdates db !! p = Some b -> page_at f' p = b /\ PAGE_SIZE * p < blen f') /\
    (faults = [] -> ok = true).
Proof.
  intros Hm Hu Hsz0 Hws. destruct (updates_list db ws Hu Hsz0 Hws) as (ND & F & HI & HK).
  destruct Hsz0 as (Hf & Hn & Hs). unfold updateFile. set (size := i64 _).
  assert (Hsz : size = (kFlushed db + kNappend db) * PAGE_SIZE).
  { unfold size, PAGE_SIZE in *. rewrite u64_small, i64_small; unfold in_i64, in_u64; lia. }
  destruct (extendMmap_spec faults db size Hm) as (t & c & ok & fs & E & Hm1 & Hok & Ht & Hfs); [lia|].
  rstep E. set (db0 := set_mmap t (kChunks db ++ c) db) in *.
  destruct ok; cbn [negb].
  2:{ exists t, c, (kFile db), false. cbn zeta. repeat (split; [done || lia|]). intros ->. by apply Hfs. }
  destruct (write_pages_spec ws fs db0 ND F) as (f1 & ok1 & fs1 & Ew & Hl & Hf1 & Ho & Hw). rewrite Ew.
  change (kFile db0) with (kFile db) in *.
  assert (Ho1 : forall p, 1 <= p -> kUpdates db !! p = None -> page_at f1 p = page_at (kFile db) p).
  { intros p Hp Hnone. apply Ho; [lia|]. rewrite HK, Hnone. by intros [? ?]. }
  destruct ok1; cbn [negb].
  2:{ exists t, c, f1, false. cbn zeta. repeat (split; [done || lia|]). intros ->. destruct Hfs as [_ ->]; [done|]. by apply Hf1. }
  destruct (syscall fs1) as [ok2 fs2] eqn:Es2. destruct ok2; cbn [negb].
  2:{ exists t, c, f1, false. cbn zeta. repeat (split; [done || lia|]). intros ->. destruct Hfs as [_ ->]; [done|].
      by destruct Hf1 as [_ ->]. }
  destruct (saveMeta_holds (set_file f1 db0)) as (meta & Em & Hml & Hmh). rstep Em.
  set (f2 := pwrite f1 0 meta).
  assert (Hl2 : blen f2 = Z.max (blen f1) 96) by (unfold f2; rewrite blen_pwrite, Hml by lia; lia).
  assert (Ho2 : forall p, 1 <= p -> page_at f2 p = page_at f1 p).
  { intros p Hp. apply page_at_pwrite_other; rewrite ?Hml; unfold PAGE_SIZE; lia. }
  assert (Ho3 : forall p, 1 <= p -> kUpdates db !! p = None -> page_at f2 p = page_at (kFile db) p).
  { intros p Hp Hnone. by rewrite Ho2, Ho1. }
  destruct (syscall fs2) as [ok3 fs3] eqn:Es3. destruct ok3; cbn [negb].
  2:{ exists t, c, f1, false. cbn zeta. repeat (split; [done || lia|]). intros ->. destruct Hfs as [_ ->]; [done|].
      destruct Hf1 as [_ ->]; [done|]. injection Es2 as <-. done. }
  destruct (syscall fs3) as [ok4 fs4] eqn:Es4. destruct ok4; cbn [negb].
  2:{ exists t, c, f2, false. cbn zeta. repeat (split; [done || lia|]). intros ->. destruct Hfs as [_ ->]; [done|].
      destruct Hf1 as [_ ->]; [done|]. injection Es2 as <-. injection Es3 as <-. done. }
  exists t, c, f2, true. cbn zeta. split; [done|]. repeat (split; [done || lia|]). split; [|done]. intros _.
  split; [rewrite <- Hsz; by apply Hok|]. split; [lia|]. split; [by apply holds_pwrite_prefix|].
  intros p b Hpb. pose proof (Hu p b Hpb) as [Hp _]. rewrite Ho2 by lia.
  destruct (Hw eq_refl p b) as [Hw1 Hw2]; [by apply HI|]. split; [done|lia].
Qed.

Lemma pageRead_file db p b : mmap_ok db -> 0 <= p -> kUpdates db !! p = None -> pageRead db p = Ok b ->
  p * PAGE_SIZE < kTotal db /\ PAGE_SIZE * p < blen (kFile db) /\ b = page_at (kFile db) p.
Proof.
  intros (Ht & Hc & Hb) Hp Hn. unfold pageRead. rewrite Hn. case_match eqn:E; [|done].
  rewrite find_chunk_spec in E by (done || lia). rewrite mapped_page_eq.
  destruct (Z.ltb_spec (PAGE_SIZE * p) (blen (kFile db))); [|done]. intros [= <-].
  apply Z.ltb_lt in E. split; [lia|done].
Qed.
Lemma pageRead_mapped db p : mmap_ok db -> 0 <= p -> kUpdates db !! p = None ->
  p * PAGE_SIZE < kTotal db -> PAGE_SIZE * p < blen (kFile db) -> pageRead db p = Ok (page_at (kFile db) p).
Proof.
  intros (Ht & Hc & Hb) Hp Hn Hlt Hl. unfold pageRead. rewrite Hn.
  rewrite find_chunk_spec by (done || lia). replace (_ <? _) with true by (symmetry; apply Z.ltb_lt; lia).
  rewrite mapped_page_eq. by rewrite (proj2 (Z.ltb_lt _ _) Hl).
Qed.

Lemma holds_page0 f r : holds f 0 r -> blen r <= PAGE_SIZE -> holds (page_at f 0) 0 r.
Proof.
  intros (_ & Hl & E) Hr. pose proof (blen_nonneg r). split; [lia|].
  split; [rewrite blen_page_at by lia; lia|]. unfold page_at. change (PAGE_SIZE * 0) with 0.
  rewrite bsub_bsub by lia. rewrite <- E at 2. unfold pad_to, bsub. change (Z.to_nat (0 + 0)) with 0%nat.
  rewrite !drop_0. apply take_app_le. unfold blen in *. lia.
Qed.

Lemma blen_meta_head r fl f : blen (meta_head r fl f) = 72.
Proof. unfold meta_head. rewrite blen_app. cbn [map concat]. rewrite !blen_app, !blen_le_split. reflexivity. Qed.

(** Opening a file that starts with a meta page. *)
Lemma Open_spec f root flushed fl : 96 <= blen f <= 2305843009213693952 ->
  holds f 0 (meta_head root flushed fl) -> in_u64 root -> in_u64 flushed -> free_ok fl ->
  exists db, Open [] f = Ok (db, true) /\ kRoot db = root /\ kFlushed db = flushed /\ kNappend db = 0 /\
    kFree db = fl /\ mmap_ok db /\
    forall p, 0 <= p -> PAGE_SIZE * p < blen f -> pageRead db p = Ok (page_at f p).
Proof.
  intros Hl Hh Hr Hfl Hf. unfold Open. set (db0 := mkKV _ _ _ _ _ _ _ _).
  assert (Hm0 : mmap_ok db0) by (split; [done|split; [done|cbn; lia]]).
  destruct (extendMmap_spec [] db0 (blen f) Hm0) as (t & c & ok & fs & E & Hm & Hok & Ht & Hfs); [lia|].
  destruct Hfs as [-> _]; [done|]. rstep E. cbn [negb]. set (db1 := set_mmap _ _ db0) in *.
  unfold readRoot. rewrite decide_False by lia. specialize (Hok eq_refl).
  assert (exists c0, index (kChunks db1) 0 = Ok c0) as [c0 Hc0].
  { cbn. destruct c as [|c0 c]; [|by exists c0]. destruct Hm as (Hm & _). cbn in Hm. lia. }
  rstep Hc0. rewrite mapped_page_eq. change (kFile db1) with f. rewrite (proj2 (Z.ltb_lt _ _)) by lia.
  cbn [mbind res_bind]. rewrite (loadMeta_holds db1 _ root flushed fl); try done.
  2:{ rewrite blen_page_at by lia. done. }
  2:{ apply holds_page0; [done|]. rewrite blen_meta_head. done. }
  cbn [mbind res_bind]. eexists. split; [done|]. repeat (split; [done|]).
  intros p Hp Hlp. apply pageRead_mapped; try done. cbn. unfold PAGE_SIZE in *. lia.
Qed.

(** Reading back through the file that a successful [updateFile] leaves. *)
Lemma updateFile_reads faults ws db db' : mmap_ok db -> updates_ok db -> size_ok db ->
  ws ≡ₚ map_to_list (kUpdates db) -> updateFile faults ws db = Ok (db', true) ->
  kUpdates db' = ∅ /\ kNappend db' = 0 /\ kFlushed db' = kFlushed db + kNappend db /\
  kRoot db' = kRoot db /\ kFree db' = kFree (committed db) /\ mmap_ok db' /\
  96 <= blen (kFile db') /\ holds (kFile db') 0 (meta_head (kRoot db) (kFlushed db) (kFree db)) /\
  forall p b, 1 <= p -> pageRead db p = Ok b ->
    PAGE_SIZE * p < blen (kFile db') /\ page_at (kFile db') p = b /\ pageRead db' p = Ok b.
Proof.
  intros Hm Hu Hs Hws E. pose proof Hs as (Hf & Hn & Hs').
  destruct (updateFile_spec faults ws db Hm Hu Hs Hws) as (t & c & f' & ok & E' & Hm1 & Ht & Hl & Ho & Hok & _).
  rewrite E in E'. injection E' as -> Eok. subst ok. destruct (Hok eq_refl) as (Hsz & H96 & Hh & Hw).
  set (db1 := set_file _ _) in *. repeat (split; [done|]).
  split; [cbn; unfold PAGE_SIZE in *; apply u64_small; unfold in_u64; lia|].
  repeat (split; [done|]). intros p b Hp Hr. change (kFile (committed db1)) with f'.
  assert (HX : PAGE_SIZE * p < blen f' /\ page_at f' p = b /\ p * PAGE_SIZE < t).
  { destruct (kUpdates db !! p) as [b'|] eqn:Eu.
    - destruct (Hw p b' Eu). destruct (Hu p b' Eu). unfold pageRead in Hr. rewrite Eu in Hr. injection Hr as ->.
      repeat split; try done. unfold PAGE_SIZE in *. lia.
    - apply pageRead_file in Hr as (H1 & H2 & ->); [|done|lia|done]. repeat split; [lia|by apply Ho|lia]. }
  destruct HX as (HX1 & <- & HX2). repeat (split; [done|]).
  by apply (pageRead_mapped (committed db1)); [..|lia| | |].
Qed.

(** ** Transactions on the store *)

(** What a transaction does to the store before it writes the file. *)
Inductive tx_step : KV -> KV -> Prop :=
  | step_alloc db node db' p : pageAlloc db node = Ok (db', p) -> tx_step db db'
  | step_free db ptr db' : freePushTail db ptr = Ok db' -> tx_step db db'
  | step_root db r : tx_step db (set_root r db).

Definition same_store (db db' : KV) : Prop :=
  kTotal db' = kTotal db /\ kChunks db' = kChunks db /\ kFile db' = kFile db.

#[export] Instance same_store_preorder : PreOrder same_store.
Proof.
  split; [by intros db|]. intros a b c (A1 & A2 & A3) (B1 & B2 & B3). repeat split; congruence.
Qed.

Lemma pageWrite_store db p db' b : pageWrite db p = Ok (db', b) -> same_store db db'.
Proof.
  unfold pageWrite. case_match; [by intros [= <- _]|]. intros E. rinv E. by injection E as <- _.
Qed.
Lemma freePopHead_store db db' r : freePopHead db = Ok (db', r) -> same_store db db'.
Proof.
  unfold freePopHead. intros E. case_match; [by injection E as <- _|].
  case_decide; [by injection E as <- _|]. rinv E. case_decide; rinv E; by injection E as <- _.
Qed.
Lemma pageAppend_store db node : same_store db (pageAppend db node).1.
Proof. done. Qed.
Lemma free_store_store db ptr db' : free_store db ptr = Ok db' -> same_store db db'.
Proof.
  unfold free_store. intros E. apply bind_inv in E as ([db1 b] & E1 & E). apply pageWrite_store in E1.
  rinv E. injection E as <-. exact E1.
Qed.
Lemma free_link_store db next head db' : free_link db next head = Ok db' -> same_store db db'.
Proof.
  unfold free_link. intros E. apply bind_inv in E as ([db1 b] & E1 & E). apply pageWrite_store in E1.
  rinv E. etransitivity; [exact E1|]. case_match; [|by injection E as <-].
  apply bind_inv in E as ([db2 b2] & E2 & E). apply pageWrite_store in E2. rinv E. injection E as <-. exact E2.
Qed.
Lemma freePushTail_store db ptr db' : freePushTail db ptr = Ok db' -> same_store db db'.
Proof.
  unfold freePushTail. intros E. case_decide.
  { destruct (pageAppend db _) as [db1 p] eqn:Ea. rinv E. injection E as <-.
    pose proof (pageAppend_store db (make_bytes PAGE_SIZE)) as H1. by rewrite Ea in H1. }
  apply bind_inv in E as (db1 & E1 & E). apply free_store_store in E1. etransitivity; [exact E1|].
  case_decide; [|by injection E as <-].
  apply bind_inv in E as ([db2 [nx hd]] & E2 & E). apply freePopHead_store in E2.
  etransitivity; [exact E2|]. case_decide; by apply free_link_store in E.
Qed.
Lemma pageAlloc_store db node db' p : pageAlloc db node = Ok (db', p) -> same_store db db'.
Proof.
  unfold pageAlloc. intros E. apply bind_inv in E as ([db1 [ptr hd]] & E1 & E).
  apply freePopHead_store in E1. apply bind_inv in E as (db2 & E2 & E).
  assert (H2 : same_store db1 db2) by (destruct (negb (bool_decide (hd = 0))); [by apply freePushTail_store in E2|by injection E2 as <-]).
  etransitivity; [exact E1|]. etransitivity; [exact H2|]. case_match; by injection E as <- _.
Qed.
Lemma tx_steps_store db db' : rtc tx_step db db' -> same_store db db'.
Proof.
  induction 1 as [|a b c H _ IH]; [done|]. etransitivity; [|exact IH].
  destruct H; eauto using pageAlloc_store, freePushTail_store. done.
Qed.

(** A meta page written by [saveMeta] brings its state back into any other. *)
Lemma Abort_spec db db' meta : meta_ok db -> saveMeta db = Ok meta ->
  Abort db' meta = Ok (set_free (kFree db) (set_pages (kFlushed db) 0 ∅ (set_root (kRoot db) db'))).
Proof.
  intros (Hr & Hf & Hfree) Hm. destruct (saveMeta_holds db) as (m & E & Hl & Hh).
  rewrite E in Hm. injection Hm as ->. unfold Abort.
  rstep (loadMeta_holds db' meta (kRoot db) (kFlushed db) (kFree db) ltac:(lia) Hh Hr Hf Hfree). done.
Qed.

(** C23: durability of a commit.  When [updateFile] reports success, every page
    the transaction could read (the pages it wrote included) reads the same
    afterwards in the running process; and opening the file it leaves gives the
    committed root and free list, and the same pages. *)
Theorem updateFile_durable faults ws db db' : mmap_ok db -> updates_ok db -> size_ok db -> meta_ok db ->
  ws ≡ₚ map_to_list (kUpdates db) -> updateFile faults ws db = Ok (db', true) ->
  blen (kFile db') <= 2305843009213693952 ->
  (kUpdates db' = ∅ /\ next_page db' = next_page db /\ kRoot db' = kRoot db /\
   forall p b, 1 <= p -> pageRead db p = Ok b -> pageRead db' p = Ok b) /\
  exists db'', Open [] (kFile db') = Ok (db'', true) /\ kRoot db'' = kRoot db /\ kFree db'' = kFree db /\
    forall p b, 1 <= p -> pageRead db p = Ok b -> pageRead db'' p = Ok b.
Proof.
  intros Hm Hu Hs (Hr & Hf & Hfr) Hws E Hb.
  destruct (updateFile_reads _ _ _ _ Hm Hu Hs Hws E) as (E1 & E2 & E3 & E4 & E5 & Hm' & H96 & Hh & Hp).
  split.
  - split; [done|]. split; [unfold next_page; rewrite E2, E3; by rewrite Z.add_0_r|]. split; [done|].
    intros p b Hp1 Hpb. by apply Hp.
  - destruct (Open_spec (kFile db') (kRoot db) (kFlushed db) (kFree db)) as (d & Eo & O1 & O2 & O3 & O4 & O5 & O6);
      try done.
    exists d. repeat (split; [done|]). intros p b Hp1 Hpb. destruct (Hp p b Hp1 Hpb) as (P1 & <- & _).
    apply O6; [lia|done].
Qed.

(** C39: the first append after reopening a committed file.  [updateFile] writes
    the meta page before it adds the appended pages to [flushed], so the count
    on file is the one from before the commit: on the reopened store the next
    append hands out a page number of the committed transaction again. *)
Theorem reopen_append_overwrites faults ws db db' db'' node : mmap_ok db -> updates_ok db -> size_ok db ->
  meta_ok db -> ws ≡ₚ map_to_list (kUpdates db) -> updateFile faults ws db = Ok (db', true) ->
  blen (kFile db') <= 2305843009213693952 -> Open [] (kFile db') = Ok (db'', true) ->
  next_page db'' = kFlushed db /\
  (forall b, 1 <= kFlushed db -> pageRead db (kFlushed db) = Ok b -> b <> node ->
     exists d, pageAppend db'' node = (d, kFlushed db) /\ pageRead db'' (kFlushed db) = Ok b /\
       pageRead d (kFlushed db) <> Ok b).
Proof.
  intros Hm Hu Hs (Hr & Hf & Hfr) Hws E Hb Eo.
  destruct (updateFile_reads _ _ _ _ Hm Hu Hs Hws E) as (E1 & E2 & E3 & E4 & E5 & Hm' & H96 & Hh & Hp).
  destruct (Open_spec (kFile db') (kRoot db) (kFlushed db) (kFree db)) as (d & Eo' & O1 & O2 & O3 & O4 & O5 & O6);
    try done.
  rewrite Eo in Eo'. injection Eo' as ->.
  assert (En : next_page d = kFlushed db) by (unfold next_page; rewrite O2, O3, Z.add_0_r; by apply u64_small).
  split; [done|]. intros b H1 Hb1 Hne. destruct (pageAppend_spec d node) as (d' & Ea & _ & _ & _ & R).
  exists d'. rewrite <- En at 1. split; [done|]. destruct (Hp _ b H1 Hb1) as (P1 & <- & _).
  split; [apply O6; [lia|done]|]. rewrite R, En, decide_True by done. congruence.
Qed.

(** C25: aborting.  Whatever allocations, frees and changes of the root a
    transaction has made in memory, [Abort] with the meta page saved at its
    beginning gives back exactly the store it began with. *)
Theorem Abort_restores db db' meta : kUpdates db = ∅ -> kNappend db = 0 -> meta_ok db ->
  saveMeta db = Ok meta -> rtc tx_step db db' -> Abort db' meta = Ok db.
Proof.
  intros Hu Hn Hm Hs Hrtc. rewrite (Abort_spec db) by done.
  destruct (tx_steps_store _ _ Hrtc) as (T & C & F). f_equal. destruct db, db'. cbn in *. by subst.
Qed.

(** C24: a failed commit.  When [updateFile] fails at any of its system calls,
    aborting restores the root, the page counts and the free list of the store
    the transaction began with, and every page that the transaction had not
    itself rewritten still reads as it did. *)
Theorem failed_commit_restores db db1 db2 meta faults ws : mmap_ok db -> kUpdates db = ∅ -> kNappend db = 0 ->
  meta_ok db -> saveMeta db = Ok meta -> rtc tx_step db db1 ->
  updates_ok db1 -> size_ok db1 -> ws ≡ₚ map_to_list (kUpdates db1) ->
  updateFile faults ws db1 = Ok (db2, false) ->
  exists db3, Abort db2 meta = Ok db3 /\ kRoot db3 = kRoot db /\ kFlushed db3 = kFlushed db /\
    kNappend db3 = 0 /\ kUpdates db3 = ∅ /\ kFree db3 = kFree db /\
    forall p b, 1 <= p -> kUpdates db1 !! p = None -> pageRead db p = Ok b -> pageRead db3 p = Ok b.
Proof.
  intros Hm Hu Hn Hmeta Hsave Hrtc Hu1 Hs1 Hws E. pose proof (tx_steps_store _ _ Hrtc) as (T & C & F).
  assert (Hm1 : mmap_ok db1) by (unfold mmap_ok; by rewrite T, C).
  destruct (updateFile_spec faults ws db1 Hm1 Hu1 Hs1 Hws) as (t & c & f' & ok & E' & Hm2 & Ht & Hl & Ho & _).
  rewrite E in E'. injection E' as E' <-. rewrite (Abort_spec db) by done. eexists. split; [done|].
  repeat (split; [done|]). intros p b Hp Hp1 Hr.
  apply pageRead_file in Hr as (R1 & R2 & ->); [|done|lia|by rewrite Hu].
  rewrite <- F, <- (Ho p Hp Hp1). rewrite <- F in R2. rewrite <- T in R1. subst db2.
  match goal with |- pageRead ?d _ = _ => change (page_at f' p) with (page_at (kFile d) p) end.
  apply pageRead_mapped; [exact Hm2|lia|done|cbn; lia|cbn; lia].
Qed.

(** ** Instances *)

(** A new database file, and the store after one allocation in it. *)
Definition ex_new : KV := mkKV 0 2 0 ∅ (mkFree 0 0 0 0 0) 0 [] [].
Definition ex_tx : KV := (pageAppend ex_new full_page).1.
Definition ex_committed : KV :=
  match updateFile [] (map_to_list (kUpdates ex_tx)) ex_tx with Ok (db, _) => db | Crash _ => ex_tx end.
Definition ex_reopened : KV :=
  match Open [] (kFile ex_committed) with Ok (db, _) => db | Crash _ => ex_tx end.
Definition ex_failed : KV :=
  match updateFile [false; true] (map_to_list (kUpdates ex_tx)) ex_tx with Ok (db, _) => db | Crash _ => ex_tx end.

Lemma ex_tx_ok : mmap_ok ex_tx /\ updates_ok ex_tx /\ size_ok ex_tx /\ meta_ok ex_tx.
Proof.
  split; [split; [done|split; [done|cbn; lia]]|]. split; [|split; by vm_compute].
  intros p b H. change (kUpdates ex_tx) with (<[2 := full_page]> (∅ : gmap Z bytes)) in H.
  apply lookup_insert_Some in H as [[<- <-]|[_ H]]; [by vm_compute|by rewrite lookup_empty in H].
Qed.

Lemma ex_tx_commit : updateFile [] (map_to_list (kUpdates ex_tx)) ex_tx = Ok (ex_committed, true) /\
  blen (kFile ex_committed) = 12288 /\ Open [] (kFile ex_committed) = Ok (ex_reopened, true).
Proof. split; [by vm_compute|]. split; by vm_compute. Qed.
Lemma ex_tx_small : blen (kFile ex_committed) <= 2305843009213693952.
Proof. destruct ex_tx_commit as (_ & -> & _). lia. Qed.
Lemma ex_tx_page : pageRead ex_tx 2 = Ok full_page.
Proof. reflexivity. Qed.

Lemma updateFile_durable_witness : pageRead ex_committed 2 = Ok full_page /\
  exists db'', Open [] (kFile ex_committed) = Ok (db'', true) /\ pageRead db'' 2 = Ok full_page.
Proof.
  destruct ex_tx_ok as (H1 & H2 & H3 & H4). destruct ex_tx_commit as (E1 & E2 & E3).
  destruct (updateFile_durable _ _ _ _ H1 H2 H3 H4 (reflexivity _) E1 ex_tx_small)
    as ((_ & _ & _ & R) & d & Eo & _ & _ & R').
  split; [apply R; [lia|exact ex_tx_page]|]. exists d. split; [done|]. apply R'; [lia|exact ex_tx_page].
Defined.

Lemma reopen_append_overwrites_witness : next_page ex_reopened = 2 /\
  exists d, pageAppend ex_reopened zero_page = (d, 2) /\ pageRead ex_reopened 2 = Ok full_page /\
    pageRead d 2 <> Ok full_page.
Proof.
  destruct ex_tx_ok as (H1 & H2 & H3 & H4). destruct ex_tx_commit as (E1 & E2 & E3).
  destruct (reopen_append_overwrites _ _ _ _ _ zero_page H1 H2 H3 H4 (reflexivity _) E1 ex_tx_small E3) as [En R].
  split; [exact En|]. apply (R full_page); [by vm_compute|exact ex_tx_page|by vm_compute].
Defined.

Lemma Abort_restores_witness : exists meta, saveMeta ex_new = Ok meta /\ Abort (set_root 2 ex_tx) meta = Ok ex_new.
Proof.
  destruct (saveMeta_holds ex_new) as (m & E & _). exists m. split; [done|].
  apply (Abort_restores ex_new); [done|done|by vm_compute|done|].
  eapply rtc_l; [apply (step_alloc _ full_page ex_tx 2); reflexivity|]. apply rtc_once. constructor.
Defined.

Lemma failed_commit_restores_witness : exists meta db3, saveMeta ex_new = Ok meta /\
  Abort ex_failed meta = Ok db3 /\ kRoot db3 = 0 /\ kFlushed db3 = 2.
Proof.
  destruct ex_tx_ok as (H1 & H2 & H3 & H4). destruct (saveMeta_holds ex_new) as (m & E & _).
  destruct (failed_commit_restores ex_new ex_tx ex_failed m [false; true] (map_to_list (kUpdates ex_tx)))
    as (db3 & Ea & Er & Ef & _); try done.
  { apply rtc_once, (step_alloc _ full_page ex_tx 2). reflexivity. }
  exists m, db3. done.
Defined.
