(* ===== verification/Lexer.v ===== *)
(** * parser/lexer.go: tokens

    [Parser] is the Go struct; every function takes it and returns the changed
    one.  [pSpare] holds the bytes of the array behind [Input] past its length,
    which one re-slicing can reach ([peekNextToken]).  [Err] is the text of the
    error chain.  Classes of characters are those of the runes 0 to 255, as the
    code converts single bytes to runes. *)
From Stdlib Require Import ZArith Lia.
From stdpp Require Import base gmap list strings countable.
From coqutil Require Import Byte Word.LittleEndianList.
From S2P Require Import Prelude Schema.

Definition QL_UINT : Z := 0.
Definition QL_STR : Z := TYPE_BYTES.
Definition QL_I64 : Z := TYPE_INT64.
Definition QL_SYM : Z := 3.
Definition QL_CMP_GE : Z := 10.
Definition QL_CMP_GT : Z := 11.
Definition QL_CMP_LE : Z := 12.
Definition QL_CMP_LT : Z := 13.
Definition QL_OR : Z := 14.
Definition QL_AND : Z := 15.
Definition QL_ADD : Z := 16.
Definition QL_SUB : Z := 17.
Definition QL_MOD : Z := 18.
Definition QL_MUL : Z := 19.
Definition QL_DIV : Z := 20.
Definition QL_BOOL : Z := 21.
Definition QL_CMP_EQ : Z := 22.
Definition QL_NEG : Z := 30.
Definition QL_TUP : Z := 40.

Inductive QLNode := mkNode (nVal : Value) (nKids : list QLNode).
Definition nVal (n : QLNode) : Value := let 'mkNode v _ := n in v.
Definition nKids (n : QLNode) : list QLNode := let 'mkNode _ k := n in k.
Definition nType (n : QLNode) : Z := vType (nVal n).
Definition nStr (n : QLNode) : bytes := vStr (nVal n).
Definition zeroNode : QLNode := mkNode zeroValue [].
Definition set_type (t : Z) (n : QLNode) : QLNode :=
  mkNode (mkValue t (vI64 (nVal n)) (vStr (nVal n))) (nKids n).
Definition set_i64 (i : Z) (n : QLNode) : QLNode :=
  mkNode (mkValue (nType n) i (vStr (nVal n))) (nKids n).
Definition set_str (s : bytes) (n : QLNode) : QLNode :=
  mkNode (mkValue (nType n) (vI64 (nVal n)) s) (nKids n).
Definition set_kids (k : list QLNode) (n : QLNode) : QLNode := mkNode (nVal n) k.

Record Parser := mkParser {
  pInput : bytes; pSpare : bytes; pIdx : nat; pError : option bytes
}.
Definition set_idx (i : nat) (p : Parser) : Parser := mkParser (pInput p) (pSpare p) i (pError p).
(** [p.Input[p.Idx:]] and [p.Input[i:j]] for [i <= j <= len(p.Input)] *)
Definition rest_of (p : Parser) : bytes := drop (pIdx p) (pInput p).
Definition between (p : Parser) (i j : nat) : bytes := take (j - i) (drop i (pInput p)).

(** ** Characters *)

Definition in_range (lo hi : Z) (b : Byte.byte) : bool :=
  (lo <=? byte.unsigned b) && (byte.unsigned b <=? hi).
Definition is_letter (b : Byte.byte) : bool :=
  in_range 65 90 b || in_range 97 122 b || in_range 170 170 b || in_range 181 181 b ||
  in_range 186 186 b || in_range 192 214 b || in_range 216 246 b || in_range 248 255 b.
Definition is_digit (b : Byte.byte) : bool := in_range 48 57 b.
Definition is_number (b : Byte.byte) : bool :=
  is_digit b || in_range 178 179 b || in_range 185 185 b || in_range 188 190 b.
Definition is_space (b : Byte.byte) : bool :=
  in_range 9 13 b || in_range 32 32 b || in_range 133 133 b || in_range 160 160 b.

Definition isSym (ch : Byte.byte) : bool := is_letter ch || is_number ch || in_range 95 95 ch.
Definition isSymStart (ch : Byte.byte) : bool := in_range 64 64 ch.
Definition isStr (ch : Byte.byte) : bool := is_letter ch || is_number ch.
Definition isNum (ch : Byte.byte) : bool := is_number ch.

(** ** Keywords

    [strings.ToLower] and [strings.EqualFold], on the strings the lexer gives
    them: one side is an ASCII keyword, the other has its length in bytes
    ([pkeyword]) or consists of characters of [isSym] ([isValidKeyword]).  There
    no multi-byte rune folds to ASCII, and equality under folding is equality of
    the bytes with the letters A to Z lowered. *)
Definition lower_byte (b : Byte.byte) : Byte.byte :=
  if in_range 65 90 b then byte.of_Z (byte.unsigned b + 32) else b.
Definition ToLower (s : bytes) : bytes := map lower_byte s.
Definition EqualFold (s t : bytes) : bool := bool_decide (ToLower s = ToLower t).

Definition KeyWords : list bytes := map gostr [
  "create"; "table"; "select"; "index"; "by"; "upsert";
  "insert"; "filter"; "into"; "delete"; "from"; "update"; ",";
  "("; ")"; "-"; "as"; "or"; "and"; "+"; "*"; "/"; "%"; ";";
  ">="; "<="; "=="; "="; ">"; "<"; "offset"; "limit"; "primary"; "key";
  "values"; "set" ]%string.
Definition isValidKeyword (s : bytes) : bool := existsb (EqualFold s) KeyWords.

(** ** Tokens *)

(** The number of leading characters of [s] in a class: the scanning loops. *)
Fixpoint count_while (f : Byte.byte -> bool) (s : bytes) : nat :=
  match s with
  | b :: s' => if f b then S (count_while f s') else 0
  | [] => 0
  end.

Definition skipSpace (p : Parser) : Parser :=
  set_idx (pIdx p + count_while is_space (rest_of p)) p.

Definition peekNextToken (p : Parser) : res (Parser * bytes) :=
  let p := skipSpace p in
  let start := pIdx p in
  let end_ := (start + 1 + count_while (fun b => isStr b || isNum b) (drop (start + 1) (pInput p)))%nat in
  check (Z.of_nat end_ <=? blen (pInput p ++ pSpare p)) or IndexOutOfRange;;
  Ok (p, take (end_ - start) (drop start (pInput p ++ pSpare p))).

Fixpoint pkeyword_loop (save : nat) (p : Parser) (kwds : list bytes) : Parser * bool :=
  match kwds with
  | [] => (p, true)
  | kw :: kwds' =>
      let p := skipSpace p in
      let start := pIdx p in
      let end_ := (start + length kw)%nat in
      if bool_decide (length (pInput p) < end_)%nat then (set_idx save p, false) else
      let ok := EqualFold (between p start end_) kw in
      let sym := isValidKeyword (ToLower kw) in
      if negb ok || negb sym then (set_idx save p, false)
      else pkeyword_loop save (set_idx end_ p) kwds'
  end.
Definition pkeyword (p : Parser) (kwds : list bytes) : Parser * bool := pkeyword_loop (pIdx p) p kwds.

(** [strconv.Atoi] on a string of characters of the class [isNum]. *)
Definition digit_val (b : Byte.byte) : Z := byte.unsigned b - 48.
Definition Atoi (s : bytes) : option Z :=
  if bool_decide (s = []) then None
  else if forallb is_digit s then
    let n := fold_left (fun n b => 10 * n + digit_val b) s 0 in
    if n <? 9223372036854775808 then Some n else None
  else None.

Definition pNum (p : Parser) (node : QLNode) : Parser * QLNode * bool :=
  let p := skipSpace p in
  if bool_decide (length (pInput p) <= pIdx p)%nat then (p, node, false) else
  let ptr := (pIdx p + count_while isNum (rest_of p))%nat in
  let node := set_type QL_I64 node in
  match Atoi (between p (pIdx p) ptr) with
  | None => (p, node, false)
  | Some num => (set_idx ptr p, set_i64 num node, true)
  end.

Definition pStr (p : Parser) (node : QLNode) : Parser * QLNode * bool :=
  let p := skipSpace p in
  if bool_decide (length (pInput p) <= pIdx p)%nat then (p, node, false) else
  let ptr := (pIdx p + count_while isStr (rest_of p))%nat in
  let s := between p (pIdx p) ptr in
  if isValidKeyword (ToLower s) then (p, node, false)
  else (set_idx ptr p, set_str s (set_type QL_STR node), true).

Definition pSym (p : Parser) (node : QLNode) : Parser * QLNode * bool :=
  let p := skipSpace p in
  match rest_of p with
  | [] => (p, node, false)
  | ch :: _ =>
      if negb (isSymStart ch) then (p, node, false) else
      let p := set_idx (S (pIdx p)) p in
      let ptr := (pIdx p + count_while isSym (rest_of p))%nat in
      let s := between p (pIdx p) ptr in
      if isValidKeyword (ToLower s) then (p, node, false)
      else (set_idx ptr p, set_str s (set_type QL_SYM node), true)
  end.

Definition pMustSym (p : Parser) : Parser * bytes :=
  let p := skipSpace p in
  if bool_decide (length (pInput p) <= pIdx p)%nat then (p, []) else
  let ptr := (pIdx p + count_while isSym (rest_of p))%nat in
  (set_idx ptr p, between p (pIdx p) ptr).

Definition pErr (p : Parser) (msg : bytes) : Parser :=
  mkParser (pInput p) (pSpare p) (pIdx p)
    (Some match pError p with None => msg | Some e => e ++ gostr ": " ++ msg end).
