(* ===== verification/Parser.v ===== *)
(** * parser/parser.go: expressions and statements

    One definition per parsing function.  The expression functions of Go are
    mutually recursive through the parenthesised tuple: here they take the
    tuple parser they use as an argument ([tup]), and [pExprTuple] ties the knot
    with fuel.  [ParserFacts] proves that the length of the input is fuel
    enough, so that [tuple] and the functions above it never run out.  The
    two loops of [pCreateTable] have fuel of their own: they need not end. *)
From Stdlib Require Import ZArith Lia.
From stdpp Require Import base gmap list strings countable.
From coqutil Require Import Byte Word.LittleEndianList.
From S2P Require Import Prelude Schema Lexer.

Record QLScan := mkScan {
  sTable : bytes; sKey1 : option QLNode; sKey2 : option QLNode; sFilter : option QLNode;
  sOffset : Z; sLimit : Z
}.
Record QLSelect := mkSelect { selScan : QLScan; selName : list bytes; selOutput : list QLNode }.
Record QLUpdate := mkUpdate { updScan : QLScan; updName : list bytes; updValues : list QLNode }.
Record QLInsert := mkInsert {
  insTable : bytes; insName : list bytes; insValues : list QLNode; insIsUpsert : bool
}.
Record QLDelete := mkDelete { delScan : QLScan }.
Record QLCreateTable := mkCreate { crDef : TableDef }.

(** The interface value [PStmt] returns: a pointer of one of the statement
    types, which may be [nil] although the interface is not, or [nil]. *)
Inductive QLStmt :=
  | SCreateTable (s : option QLCreateTable)
  | SSelect (s : option QLSelect)
  | SInsert (s : option QLInsert)
  | SUpdate (s : option QLUpdate)
  | SDelete (s : option QLDelete)
  | SNil.

Definition kw (s : string) : list bytes := [gostr s].

(** ** Expressions *)

Definition valWithType (t : Z) : Value := mkValue t 0 [].

Fixpoint first_op (p : Parser) (ops : list (bytes * Z)) : option (Parser * Z) :=
  match ops with
  | [] => None
  | (op, t) :: ops' =>
      let '(p', ok) := pkeyword p [op] in
      if ok then Some (p', t) else first_op p' ops'
  end.

Section Levels.
Context (tup : Parser -> res (Parser * QLNode)).

Fixpoint binop_loop (fuel : nat) (ops : list (bytes * Z)) (next : Parser -> res (Parser * QLNode))
    (p : Parser) (lft : QLNode) : res (Parser * QLNode) :=
  match fuel with
  | O => Crash OutOfFuel
  | S fuel =>
      match first_op p ops with
      | None => Ok (p, lft)
      | Some (p, t) =>
          '(p, rgt) ← next p;
          binop_loop fuel ops next p (mkNode (valWithType t) [lft; rgt])
      end
  end.
Definition pExprBinOp (ops : list (bytes * Z)) (next : Parser -> res (Parser * QLNode))
    (p : Parser) : res (Parser * QLNode) :=
  '(p, lft) ← next p;
  binop_loop (S (length (pInput p))) ops next p lft.

Definition pExprAtom (p : Parser) : res (Parser * QLNode) :=
  let node := zeroNode in
  let '(p, ok) := pkeyword p (kw "(") in
  if ok then
    '(p, node) ← tup p;
    let '(p, ok) := pkeyword p (kw ")") in
    Ok (if ok then p else pErr p (gostr "unclosed paranthesis"), node)
  else
    let '(p, node, ok) := pSym p node in
    if (ok : bool) then Ok (p, node) else
    let '(p, node, ok) := pNum p node in
    if (ok : bool) then Ok (p, node) else
    let '(p, node, ok) := pStr p node in
    if (ok : bool) then Ok (p, node) else
    Ok (pErr p (gostr "expected symbol, number or string"), node).

Definition pExprUnOp (p : Parser) : res (Parser * QLNode) :=
  let '(p, ok) := pkeyword p (kw "-") in
  if ok then
    '(p, kid) ← pExprAtom p;
    Ok (p, set_kids [kid] (set_type QL_NEG zeroNode))
  else pExprAtom p.

Definition ops_mul : list (bytes * Z) := [(gostr "*", QL_MUL); (gostr "/", QL_DIV); (gostr "%", QL_MOD)].
Definition ops_add : list (bytes * Z) := [(gostr "+", QL_ADD); (gostr "-", QL_SUB)].
Definition ops_cmp : list (bytes * Z) :=
  [(gostr "<=", QL_CMP_LE); (gostr ">=", QL_CMP_GE); (gostr "==", QL_CMP_EQ);
   (gostr "<", QL_CMP_LT); (gostr ">", QL_CMP_GT)].
Definition ops_and : list (bytes * Z) := [(gostr "and", QL_AND)].
Definition ops_or : list (bytes * Z) := [(gostr "or", QL_OR)].

Definition pExprMul : Parser -> res (Parser * QLNode) := pExprBinOp ops_mul pExprUnOp.
Definition pExprAdd : Parser -> res (Parser * QLNode) := pExprBinOp ops_add pExprMul.
Definition pExprCmp : Parser -> res (Parser * QLNode) := pExprBinOp ops_cmp pExprAdd.
Definition pExprAnd : Parser -> res (Parser * QLNode) := pExprBinOp ops_and pExprCmp.
Definition pExprOr : Parser -> res (Parser * QLNode) := pExprBinOp ops_or pExprAnd.

Fixpoint tuple_loop (fuel : nat) (p : Parser) (kids : list QLNode) : res (Parser * list QLNode) :=
  match fuel with
  | O => Crash OutOfFuel
  | S fuel =>
      let '(p, ok) := pkeyword p (kw ",") in
      if (ok : bool) then
        '(p, kid) ← pExprOr p;
        tuple_loop fuel p (kids ++ [kid])
      else Ok (p, kids)
  end.
Definition tuple_body (p : Parser) : res (Parser * QLNode) :=
  '(p, kid) ← pExprOr p;
  '(p, kids) ← tuple_loop (S (length (pInput p))) p [kid];
  match kids with
  | [k] => Ok (p, k)
  | _ => Ok (p, set_kids kids (set_type QL_TUP zeroNode))
  end.
End Levels.

Fixpoint pExprTuple (fuel : nat) (p : Parser) : res (Parser * QLNode) :=
  match fuel with
  | O => Crash OutOfFuel
  | S fuel => tuple_body (pExprTuple fuel) p
  end.
Definition expr_fuel (p : Parser) : nat := S (length (pInput p)).
Definition tuple (p : Parser) : res (Parser * QLNode) := pExprTuple (expr_fuel p) p.
Definition expr_or (p : Parser) : res (Parser * QLNode) := pExprOr (pExprTuple (expr_fuel p)) p.
Definition expr_cmp (p : Parser) : res (Parser * QLNode) := pExprCmp (pExprTuple (expr_fuel p)) p.

(** ** Scans *)

Definition expect (p : Parser) (kwds : list bytes) (msg : string) : Parser :=
  let '(p, ok) := pkeyword p kwds in
  if (ok : bool) then p else pErr p (gostr msg).

Fixpoint cmp_loop (fuel : nat) (p : Parser) (conds : list QLNode) : res (Parser * list QLNode) :=
  match fuel with
  | O => Crash OutOfFuel
  | S fuel =>
      let '(p, ok) := pkeyword p (kw "and") in
      if (ok : bool) then '(p, c) ← expr_cmp p; cmp_loop fuel p (conds ++ [c]) else Ok (p, conds)
  end.
Definition set_keys (k1 k2 : option QLNode) (s : QLScan) : QLScan :=
  mkScan (sTable s) k1 k2 (sFilter s) (sOffset s) (sLimit s).
Definition pIndexBy (p : Parser) (node : QLScan) : res (Parser * QLScan) :=
  let '(p, ok) := pkeyword p (kw "(") in
  if (ok : bool) then
    '(p, c) ← tuple p;
    let p := expect p (kw ")") "tuple is not closed" in
    Ok (p, set_keys (Some c) None node)
  else
    '(p, c) ← expr_cmp p;
    '(p, conds) ← cmp_loop (S (length (pInput p))) p [c];
    let p := if (2 <? Z.of_nat (length conds)) then pErr p (gostr "more than two conditions") else p in
    match conds with
    | [c1] => Ok (p, set_keys (Some c1) None node)
    | c1 :: c2 :: _ => Ok (p, set_keys (Some c1) (Some c2) node)
    | [] => Crash IndexOutOfRange
    end.

Definition pCount (p : Parser) (msg : string) : Parser * Z :=
  let p := skipSpace p in
  let '(p, node, ok) := pNum p zeroNode in
  (if (ok : bool) then p else pErr p (gostr msg), vI64 (nVal node)).
Definition pOffset (p : Parser) (node : QLScan) : Parser * QLScan :=
  let '(p, n) := pCount p "expected number after offset" in
  (p, mkScan (sTable node) (sKey1 node) (sKey2 node) (sFilter node) n (sLimit node)).
Definition pLimit (p : Parser) (node : QLScan) : Parser * QLScan :=
  let '(p, n) := pCount p "expected number after limit" in
  (p, mkScan (sTable node) (sKey1 node) (sKey2 node) (sFilter node) (sOffset node) n).

Definition MaxInt64 : Z := 9223372036854775807.
Definition pScan (p : Parser) (node : QLScan) : res (Parser * QLScan) :=
  let '(p, ok) := pkeyword p (map gostr ["index"; "by"]%string) in
  '(p, node) ← (if (ok : bool) then pIndexBy p node else Ok (p, node));
  let '(p, ok) := pkeyword p (kw "filter") in
  '(p, node) ← (if (ok : bool) then
      '(p, f) ← expr_or p;
      Ok (p, mkScan (sTable node) (sKey1 node) (sKey2 node) (Some f) (sOffset node) (sLimit node))
    else Ok (p, node));
  let node := mkScan (sTable node) (sKey1 node) (sKey2 node) (sFilter node) 0 MaxInt64 in
  let '(p, ok) := pkeyword p (kw "offset") in
  let '(p, node) := if (ok : bool) then pOffset p node else (p, node) in
  let '(p, ok) := pkeyword p (kw "limit") in
  let '(p, node) := if (ok : bool) then pLimit p node else (p, node) in
  Ok (p, node).
Definition newScan (table : bytes) : QLScan := mkScan table None None None 0 0.

(** ** Statements *)

(** The column names or values of a tuple node: its kids, or itself when it has
    none. *)
Definition names_of (idx : QLNode) : list bytes :=
  match nKids idx with [] => [nStr idx] | kids => map nStr kids end.

Fixpoint cols_loop (fuel : nat) (p : Parser) (tkn : bytes) (cols : list (bytes * bytes)) :
    res (Parser * bytes * list (bytes * bytes)) :=
  match fuel with
  | O => Crash OutOfFuel
  | S fuel =>
      if bool_decide (tkn = gostr "index") || bool_decide (tkn = gostr "primary") then Ok (p, tkn, cols) else
      let '(p, nameNode, _) := pStr p zeroNode in
      let '(p, typeNode, _) := pStr p zeroNode in
      let p := expect p (kw ",") "invalid create table syntax" in
      '(p, tkn) ← peekNextToken p;
      cols_loop fuel p tkn (cols ++ [(nStr nameNode, nStr typeNode)])
  end.
Fixpoint indexes_loop (fuel : nat) (p : Parser) (tkn : bytes) (indexes : list (list bytes)) :
    res (Parser * list (list bytes)) :=
  match fuel with
  | O => Crash OutOfFuel
  | S fuel =>
      if bool_decide (tkn = gostr "primary") then Ok (p, indexes) else
      let '(p, _) := pkeyword p (kw "index") in
      let p := expect p (kw "(") "invalid create table syntax (declaring index)" in
      '(p, idx) ← tuple p;
      let p := expect p (kw ")") "invalid create table syntax (declaring index)" in
      let p := expect p (kw ",") "invalid create table syntax (declaring index)" in
      '(p, tkn) ← peekNextToken p;
      indexes_loop fuel p tkn (indexes ++ [names_of idx])
  end.
Definition col_type (p : Parser) (t : bytes) : Parser * Z :=
  if bool_decide (t = gostr "int") then (p, TYPE_INT64)
  else if bool_decide (t = gostr "bytes") || bool_decide (t = gostr "string") then (p, TYPE_BYTES)
  else (pErr p (gostr "invalid type"), 0).
Fixpoint col_types (p : Parser) (cols : list (bytes * bytes)) : Parser * list Z :=
  match cols with
  | [] => (p, [])
  | (_, t) :: cols' =>
      let '(p, ty) := col_type p t in
      let '(p, tys) := col_types p cols' in (p, ty :: tys)
  end.

Definition pCreateTable (fuel : nat) (p : Parser) : res (Parser * option QLCreateTable) :=
  let '(p, n, _) := pStr p zeroNode in
  let '(p, ok) := pkeyword p (kw "(") in
  if negb ok then Ok (pErr p (gostr "invalid create table syntax"), None) else
  '(p, tkn) ← peekNextToken p;
  '(p, tkn, cols) ← cols_loop fuel p tkn [];
  '(p, indexes) ← indexes_loop fuel p tkn [];
  let p := expect p (map gostr ["primary"; "key"]%string) "invalid syntax, primary keys declaration" in
  let p := expect p (kw "(") "no primary key" in
  '(p, idx) ← tuple p;
  let p := expect p (kw ")") "invalid create table syntax" in
  let p := expect p (kw ")") "invalid create table syntax" in
  let p := expect p (kw ";") "invalid create table syntax" in
  let pks := names_of idx in
  let '(p, types) := col_types p cols in
  Ok (p, Some (mkCreate (mkTableDef (nStr n) (map fst cols) types (Z.of_nat (length pks)) [] (pks :: indexes)))).

Definition pSelectExpr (p : Parser) (stmt : QLSelect) : res (Parser * QLSelect) :=
  '(p, expr) ← expr_or p;
  let '(p, ok) := pkeyword p (kw "as") in
  let '(p, name) := if (ok : bool) then pMustSym p else (p, []) in
  Ok (p, mkSelect (selScan stmt) (selName stmt ++ [name]) (selOutput stmt ++ [expr])).
Fixpoint select_loop (fuel : nat) (p : Parser) (stmt : QLSelect) : res (Parser * QLSelect) :=
  match fuel with
  | O => Crash OutOfFuel
  | S fuel =>
      let '(p, ok) := pkeyword p (kw ",") in
      if (ok : bool) then '(p, stmt) ← pSelectExpr p stmt; select_loop fuel p stmt else Ok (p, stmt)
  end.
Definition pSelectExprList (p : Parser) (stmt : QLSelect) : res (Parser * QLSelect) :=
  '(p, stmt) ← pSelectExpr p stmt;
  select_loop (S (length (pInput p))) p stmt.

Definition pSelect (p : Parser) : res (Parser * option QLSelect) :=
  let stmt := mkSelect (newScan []) [] [] in
  let '(p, ok) := pkeyword p (kw "*") in
  '(p, stmt) ← (if (ok : bool) then Ok (p, mkSelect (selScan stmt) [gostr "*"] [])
                else pSelectExprList p stmt);
  let p := expect p (kw "from") "expected `from` table" in
  let '(p, table) := pMustSym p in
  '(p, scan) ← pScan p (newScan table);
  if pError p then Ok (p, None) else
  let p := expect p (kw ";") "invalid select query syntax" in
  Ok (p, Some (mkSelect scan (selName stmt) (selOutput stmt))).

Definition pInsert (p : Parser) : res (Parser * option QLInsert) :=
  let '(p, table) := pMustSym p in
  let p := expect p (kw "(") "invalid insert query syntax" in
  '(p, colNames) ← tuple p;
  let p := expect p (kw ")") "invalid insert query syntax" in
  let p := expect p (kw "values") "invalid insert query syntax" in
  let p := expect p (kw "(") "invalid insert query syntax" in
  '(p, vals) ← tuple p;
  let p := expect p (kw ")") "invalid insert query syntax" in
  let p := expect p (kw ";") "invalid insert query syntax" in
  Ok (p, Some (mkInsert table (map nStr (nKids colNames)) (nKids vals) false)).
Definition pUpsert (p : Parser) : res (Parser * option QLInsert) :=
  '(p, stmt) ← pInsert p;
  Ok (p, match stmt with
         | Some s => Some (mkInsert (insTable s) (insName s) (insValues s) true)
         | None => None
         end).

Definition pUpdateExpr (p : Parser) (stmt : QLUpdate) : res (Parser * QLUpdate) :=
  let '(p, col, _) := pSym p zeroNode in
  let p := expect p (kw "=") "invalid update query syntax expected '=' " in
  '(p, expr) ← expr_or p;
  Ok (p, mkUpdate (updScan stmt) (updName stmt ++ [nStr col]) (updValues stmt ++ [expr])).
Fixpoint update_loop (fuel : nat) (p : Parser) (stmt : QLUpdate) : res (Parser * QLUpdate) :=
  match fuel with
  | O => Crash OutOfFuel
  | S fuel =>
      let '(p, ok) := pkeyword p (kw ",") in
      if (ok : bool) then '(p, stmt) ← pUpdateExpr p stmt; update_loop fuel p stmt else Ok (p, stmt)
  end.
Definition pUpdateExprList (p : Parser) (stmt : QLUpdate) : res (Parser * QLUpdate) :=
  '(p, stmt) ← pUpdateExpr p stmt;
  update_loop (S (length (pInput p))) p stmt.

Definition pUpdate (p : Parser) : res (Parser * option QLUpdate) :=
  let '(p, table) := pMustSym p in
  let p := expect p (kw "set") "invalid update query syntax expected 'set' " in
  '(p, stmt) ← pUpdateExprList p (mkUpdate (newScan table) [] []);
  '(p, scan) ← pScan p (updScan stmt);
  if pError p then Ok (p, None) else
  let p := expect p (kw ";") "invalid update query syntax" in
  Ok (p, Some (mkUpdate scan (updName stmt) (updValues stmt))).

Definition pDelete (p : Parser) : res (Parser * option QLDelete) :=
  let p := expect p (kw "from") "expected `from` table" in
  let '(p, table) := pMustSym p in
  '(p, scan) ← pScan p (newScan table);
  if pError p then Ok (p, None) else
  let p := expect p (kw ";") "invalid delete query syntax" in
  Ok (p, Some (mkDelete scan)).

(** The message printed for an unknown statement is left out. *)
Definition PStmt (fuel : nat) (p : Parser) : res (Parser * QLStmt) :=
  let '(p, ok) := pkeyword p (map gostr ["create"; "table"]%string) in
  if (ok : bool) then '(p, s) ← pCreateTable fuel p; Ok (p, SCreateTable s) else
  let '(p, ok) := pkeyword p (kw "select") in
  if (ok : bool) then '(p, s) ← pSelect p; Ok (p, SSelect s) else
  let '(p, ok) := pkeyword p (map gostr ["insert"; "into"]%string) in
  if (ok : bool) then '(p, s) ← pInsert p; Ok (p, SInsert s) else
  let '(p, ok) := pkeyword p (map gostr ["upsert"; "into"]%string) in
  if (ok : bool) then '(p, s) ← pUpsert p; Ok (p, SInsert s) else
  let '(p, ok) := pkeyword p (kw "update") in
  if (ok : bool) then '(p, s) ← pUpdate p; Ok (p, SUpdate s) else
  let '(p, ok) := pkeyword p (kw "delete") in
  if (ok : bool) then '(p, s) ← pDelete p; Ok (p, SDelete s) else
  Ok (p, SNil).

(** The parser [ExecuteQuery] makes of a query string, whose array ends in
    [spare]. *)
Definition new_parser (query spare : bytes) : Parser := mkParser query spare 0 None.
