(* ===== verification/ParserFacts.v ===== *)
(** * The parser: it always returns, and what it builds

    Every parsing function moves forward in the input ([adv]); the expression
    functions return for every input, within the fuel the model gives them,
    and build nodes of the expression grammar ([expr_ok]).  The statements other
    than [create table] parse or report an error on every input; [create table]
    need not return. *)
From Stdlib Require Import ZArith Lia.
From stdpp Require Import base gmap list strings countable.
From coqutil Require Import Byte Word.LittleEndianList.
From S2P Require Import Prelude Schema Lexer Parser.

(** The position is within the input; a later state of the same input. *)
Definition wfp (p : Parser) : Prop := (pIdx p <= length (pInput p))%nat.
Definition adv (p p' : Parser) : Prop :=
  pInput p' = pInput p /\ pSpare p' = pSpare p /\ (pIdx p <= pIdx p')%nat /\ (wfp p -> wfp p').
Definition rem (p : Parser) : nat := (length (pInput p) - pIdx p)%nat.

#[export] Instance adv_preorder : PreOrder adv.
Proof.
  split; [by intros p|]. intros a b c (A1 & A2 & A3 & A4) (B1 & B2 & B3 & B4).
  split; [congruence|]. split; [congruence|]. split; [lia|auto].
Qed.

(** The expression grammar: what the nodes that come out of the expression
    functions look like. *)
Definition cmp_types : list Z := [QL_CMP_GE; QL_CMP_GT; QL_CMP_LE; QL_CMP_LT; QL_CMP_EQ].
Definition num_types : list Z := [QL_ADD; QL_SUB; QL_MOD; QL_MUL; QL_DIV].
Definition log_types : list Z := [QL_OR; QL_AND].
Definition bin_types : list Z := cmp_types ++ log_types ++ num_types.
Definition leaf_types : list Z := [QL_UINT; QL_STR; QL_I64; QL_SYM].
Definition leaf (n : QLNode) : Prop := nKids n = [] /\ nType n ∈ leaf_types.
Inductive expr_ok : QLNode -> Prop :=
  | ok_leaf n : leaf n -> expr_ok n
  | ok_neg k : expr_ok k -> expr_ok (set_kids [k] (set_type QL_NEG zeroNode))
  | ok_bin t l r : t ∈ bin_types -> expr_ok l -> expr_ok r -> expr_ok (mkNode (valWithType t) [l; r])
  | ok_tup kids : (2 <= length kids)%nat -> Forall expr_ok kids ->
      expr_ok (set_kids kids (set_type QL_TUP zeroNode)).

(** ** Tokens move forward *)

Lemma count_while_le f s : (count_while f s <= length s)%nat.
Proof. induction s as [|b s IH]; cbn; [lia|]. destruct (f b); cbn; lia. Qed.
Lemma adv_idx p i : (pIdx p <= i)%nat -> (wfp p -> i <= length (pInput p))%nat -> adv p (set_idx i p).
Proof. intros H1 H2. split; [done|]. split; [done|]. split; [done|]. exact H2. Qed.
Lemma count_rest f p : wfp p -> (pIdx p + count_while f (rest_of p) <= length (pInput p))%nat.
Proof. unfold wfp, rest_of. intros. pose proof (count_while_le f (drop (pIdx p) (pInput p))). rewrite length_drop in *. lia. Qed.
Lemma adv_scan f p : adv p (set_idx (pIdx p + count_while f (rest_of p)) p).
Proof. apply adv_idx; [lia|]. apply count_rest. Qed.
Lemma skipSpace_adv p : adv p (skipSpace p).
Proof. apply adv_idx; [cbn; lia|]. apply count_rest. Qed.
Lemma pErr_adv p m : adv p (pErr p m).
Proof. by repeat split. Qed.

Lemma pkeyword_loop_spec save p kwds p' ok : (save <= pIdx p)%nat ->
  pkeyword_loop save p kwds = (p', ok) ->
  if ok then adv p p' /\ (pIdx p + length (concat kwds) <= pIdx p')%nat
  else p' = set_idx save p.
Proof.
  revert p. induction kwds as [|w kwds IH]; intros p Hs; cbn [pkeyword_loop concat].
  { intros [= <- <-]. split; [done|cbn; lia]. }
  pose proof (skipSpace_adv p) as Ha. pose proof Ha as (_ & _ & A3 & _). case_bool_decide as Hb.
  { by intros [= <- <-]. }
  destruct (negb _ || negb _); [by intros [= <- <-]|]. intros E. apply IH in E; [|cbn in *; lia].
  destruct ok; [|exact E]. destruct E as [E1 E2]. cbn [set_idx pIdx] in E2. rewrite length_app. split; [|lia].
  etransitivity; [exact Ha|]. etransitivity; [|exact E1]. apply adv_idx; [lia|]. intros _. lia.
Qed.
Lemma set_idx_id p : set_idx (pIdx p) p = p.
Proof. by destruct p. Qed.
Lemma pkeyword_true p kwds p' : pkeyword p kwds = (p', true) ->
  adv p p' /\ (pIdx p + length (concat kwds) <= pIdx p')%nat.
Proof. by intros E%pkeyword_loop_spec. Qed.
Lemma pkeyword_false p kwds p' : pkeyword p kwds = (p', false) -> p' = p.
Proof. intros E%pkeyword_loop_spec; [|lia]. by rewrite set_idx_id in E. Qed.
Lemma pkeyword_adv p kwds p' ok : pkeyword p kwds = (p', ok) -> adv p p'.
Proof. destruct ok; intros E; [by apply pkeyword_true in E as [? _]|by apply pkeyword_false in E as ->]. Qed.
Lemma expect_adv p kwds m : adv p (expect p kwds m).
Proof.
  unfold expect. destruct (pkeyword p kwds) as [p' ok] eqn:E. apply pkeyword_adv in E.
  destruct ok; [done|]. etransitivity; [exact E|apply pErr_adv].
Qed.

Lemma pNum_spec p n p' n' ok : pNum p n = (p', n', ok) -> adv p p' /\ (leaf n -> leaf n').
Proof.
  unfold pNum. pose proof (skipSpace_adv p) as Ha. case_bool_decide; [by intros [= <- <- <-]|].
  destruct (Atoi _); intros [= <- <- <-].
  - split; [|intros [L1 L2]; split; [done|]; cbn; set_solver]. etransitivity; [exact Ha|].
    apply adv_idx; [cbn; lia|]. apply count_rest.
  - split; [done|]. intros [L1 L2]. split; [done|]. cbn. set_solver.
Qed.
Lemma pStr_spec p n p' n' ok : pStr p n = (p', n', ok) -> adv p p' /\ (leaf n -> leaf n').
Proof.
  unfold pStr. pose proof (skipSpace_adv p) as Ha. case_bool_decide; [by intros [= <- <- <-]|].
  case_match; intros [= <- <- <-]; [done|].
  split; [|intros [L1 L2]; split; [done|]; cbn; set_solver]. etransitivity; [exact Ha|].
  apply adv_idx; [cbn; lia|]. apply count_rest.
Qed.
Lemma pSym_spec p n p' n' ok : pSym p n = (p', n', ok) -> adv p p' /\ (leaf n -> leaf n').
Proof.
  unfold pSym. pose proof (skipSpace_adv p) as Ha. set (p1 := skipSpace p) in *.
  destruct (rest_of p1) as [|ch rest] eqn:E; [by intros [= <- <- <-]|].
  case_match; [by intros [= <- <- <-]|].
  assert (H1 : adv p (set_idx (S (pIdx p1)) p1)).
  { etransitivity; [exact Ha|]. apply adv_idx; [lia|]. intros _.
    apply (f_equal length) in E. unfold rest_of in E. rewrite length_drop in E. cbn [length] in E. lia. }
  case_match; intros [= <- <- <-]; [done|].
  split; [|intros [L1 L2]; split; [done|]; cbn; set_solver]. etransitivity; [exact H1|].
  exact (adv_scan isSym (set_idx (S (pIdx p1)) p1)).
Qed.
Lemma pMustSym_adv p : adv p (pMustSym p).1.
Proof.
  unfold pMustSym. pose proof (skipSpace_adv p) as Ha. case_bool_decide; [done|].
  etransitivity; [exact Ha|]. apply adv_idx; [cbn; lia|]. apply count_rest.
Qed.

(** ** Progress and termination of the expression functions *)

(** [good k f]: on every state with at most [k] characters left, [f] returns a
    later state and a node of the grammar. *)
Definition good (k : nat) (f : Parser -> res (Parser * QLNode)) : Prop :=
  forall p, wfp p -> (rem p <= k)%nat -> exists p' n, f p = Ok (p', n) /\ adv p p' /\ expr_ok n.
(** A table of operators: no empty spelling, only binary node types. *)
Definition ops_ok (ops : list (bytes * Z)) : Prop := Forall (fun '(op, t) => op <> [] /\ t ∈ bin_types) ops.

Lemma adv_rem p p' : adv p p' -> (rem p' <= rem p)%nat.
Proof. intros (E & _ & H & _). unfold rem. rewrite E. lia. Qed.
Lemma adv_wfp p p' : adv p p' -> wfp p -> wfp p'.
Proof. by intros (_ & _ & _ & H). Qed.
Lemma adv_rem_lt p p' : adv p p' -> wfp p -> (pIdx p < pIdx p')%nat -> (rem p' < rem p)%nat.
Proof. intros Ha Hw Hl. pose proof (adv_wfp _ _ Ha Hw) as Hw'. destruct Ha as (E & _). unfold rem, wfp in *. rewrite E in Hw' |- *. lia. Qed.
Lemma rem_length p : (rem p <= length (pInput p))%nat.
Proof. unfold rem. lia. Qed.

Lemma first_op_spec ops p p' t : ops_ok ops -> first_op p ops = Some (p', t) ->
  adv p p' /\ (pIdx p < pIdx p')%nat /\ t ∈ bin_types.
Proof.
  induction 1 as [|[op ty] ops [Hop Hty] _ IH]; cbn [first_op]; [done|].
  destruct (pkeyword p [op]) as [p1 ok] eqn:E. destruct ok; [|apply pkeyword_false in E as ->; exact IH].
  intros [= <- <-]. apply pkeyword_true in E as [Ha Hl]. split; [done|]. split; [|done].
  cbn [concat] in Hl. rewrite app_nil_r in Hl. destruct op; [done|]. cbn in Hl. lia.
Qed.

Lemma binop_loop_good ops next k : ops_ok ops -> good k next -> forall fuel p l,
  wfp p -> (rem p <= k)%nat -> (rem p < fuel)%nat -> expr_ok l ->
  exists p' n, binop_loop fuel ops next p l = Ok (p', n) /\ adv p p' /\ expr_ok n.
Proof.
  intros Ho Hn. induction fuel as [|fuel IH]; intros p l Hw Hk Hf Hl; [lia|]. cbn [binop_loop].
  destruct (first_op p ops) as [[p1 t]|] eqn:E; [|by exists p, l].
  apply first_op_spec in E as (A1 & L1 & Ht); [|done].
  pose proof (adv_rem_lt _ _ A1 Hw L1) as R1. pose proof (adv_wfp _ _ A1 Hw) as W1.
  destruct (Hn p1) as (p2 & r & E2 & A2 & Hr); [done|lia|]. rstep E2.
  pose proof (adv_rem _ _ A2) as R2. pose proof (adv_wfp _ _ A2 W1) as W2.
  destruct (IH p2 (mkNode (valWithType t) [l; r])) as (p3 & n & E3 & A3 & H3); [done|lia|lia|by apply ok_bin|].
  exists p3, n. split; [done|]. split; [|done]. etransitivity; [exact A1|]. by etransitivity.
Qed.
Lemma pExprBinOp_good ops next k : ops_ok ops -> good k next -> good k (pExprBinOp ops next).
Proof.
  intros Ho Hn p Hw Hk. unfold pExprBinOp. destruct (Hn p) as (p1 & l & E1 & A1 & H1); [done..|]. rstep E1.
  pose proof (adv_rem _ _ A1). pose proof (adv_wfp _ _ A1 Hw).
  destruct (binop_loop_good ops next k Ho Hn (S (length (pInput p1))) p1 l) as (p2 & n & E2 & A2 & H2);
    [done|lia|pose proof (rem_length p1); lia|done|].
  exists p2, n. split; [done|]. split; [by etransitivity|done].
Qed.

Lemma zero_leaf : leaf zeroNode.
Proof. split; [done|]. cbn. set_solver. Qed.

Lemma pExprAtom_good tup k : (forall k', k = S k' -> good k' tup) -> good k (pExprAtom tup).
Proof.
  intros Ht p Hw Hk. unfold pExprAtom. destruct (pkeyword p (kw "(")) as [p1 ok] eqn:E1. destruct ok.
  - apply pkeyword_true in E1 as [A1 L1]. cbn in L1. pose proof (adv_rem_lt _ _ A1 Hw ltac:(lia)).
    destruct k as [|k]; [lia|].
    destruct (Ht k eq_refl p1) as (p2 & n & E2 & A2 & H2); [by eapply adv_wfp|lia|]. rstep E2.
    destruct (pkeyword p2 (kw ")")) as [p3 ok] eqn:E3. apply pkeyword_adv in E3.
    eexists _, n. split; [done|]. split; [|done]. etransitivity; [exact A1|]. etransitivity; [exact A2|].
    destruct ok; [done|]. etransitivity; [exact E3|apply pErr_adv].
  - apply pkeyword_false in E1 as ->.
    destruct (pSym p zeroNode) as [[p1 n1] o1] eqn:E1. apply pSym_spec in E1 as [A1 L1].
    specialize (L1 zero_leaf). destruct o1; [exists p1, n1; split; [done|]; split; [done|by apply ok_leaf]|].
    destruct (pNum p1 n1) as [[p2 n2] o2] eqn:E2. apply pNum_spec in E2 as [A2 L2]. specialize (L2 L1).
    assert (A12 : adv p p2) by (by etransitivity).
    destruct o2; [exists p2, n2; split; [done|]; split; [done|by apply ok_leaf]|].
    destruct (pStr p2 n2) as [[p3 n3] o3] eqn:E3. apply pStr_spec in E3 as [A3 L3]. specialize (L3 L2).
    assert (A13 : adv p p3) by (by etransitivity).
    destruct o3; [exists p3, n3; split; [done|]; split; [done|by apply ok_leaf]|].
    eexists _, n3. split; [done|]. split; [|by apply ok_leaf]. etransitivity; [exact A13|apply pErr_adv].
Qed.
Lemma pExprUnOp_good tup k : (forall k', k = S k' -> good k' tup) -> good k (pExprUnOp tup).
Proof.
  intros Ht p Hw Hk. pose proof (pExprAtom_good tup k Ht) as Ha. unfold pExprUnOp.
  destruct (pkeyword p (kw "-")) as [p1 ok] eqn:E1. pose proof (pkeyword_adv _ _ _ _ E1) as A1. destruct ok.
  - destruct (Ha p1) as (p2 & n & E2 & A2 & H2); [by eapply adv_wfp|pose proof (adv_rem _ _ A1); lia|]. rstep E2.
    eexists _, _. split; [done|]. split; [by etransitivity|by apply ok_neg].
  - apply pkeyword_false in E1 as ->. by apply Ha.
Qed.

Lemma ops_tables : ops_ok ops_mul /\ ops_ok ops_add /\ ops_ok ops_cmp /\ ops_ok ops_and /\ ops_ok ops_or.
Proof.
  unfold ops_ok, ops_mul, ops_add, ops_cmp, ops_and, ops_or, bin_types, cmp_types, log_types, num_types.
  repeat split; repeat apply List.Forall_cons; try apply List.Forall_nil; (split; [done|set_solver]).
Qed.
Lemma pExprCmp_good tup k : (forall k', k = S k' -> good k' tup) -> good k (pExprCmp tup).
Proof.
  intros Ht. destruct ops_tables as (H1 & H2 & H3 & _).
  do 3 (apply pExprBinOp_good; [done|]). by apply pExprUnOp_good.
Qed.
Lemma pExprOr_good tup k : (forall k', k = S k' -> good k' tup) -> good k (pExprOr tup).
Proof.
  intros Ht. destruct ops_tables as (_ & _ & _ & H4 & H5).
  do 2 (apply pExprBinOp_good; [done|]). by apply pExprCmp_good.
Qed.

Lemma tuple_loop_good tup k : good k (pExprOr tup) -> forall fuel p kids,
  wfp p -> (rem p <= k)%nat -> (rem p < fuel)%nat -> Forall expr_ok kids ->
  exists p' ks, tuple_loop tup fuel p kids = Ok (p', kids ++ ks) /\ adv p p' /\ Forall expr_ok (kids ++ ks).
Proof.
  intros Hg. induction fuel as [|fuel IH]; intros p kids Hw Hk Hf Hks; [lia|]. cbn [tuple_loop].
  destruct (pkeyword p (kw ",")) as [p1 ok] eqn:E1. destruct ok.
  - apply pkeyword_true in E1 as [A1 L1]. cbn in L1.
    pose proof (adv_rem_lt _ _ A1 Hw ltac:(lia)) as R1. pose proof (adv_wfp _ _ A1 Hw) as W1.
    destruct (Hg p1) as (p2 & n & E2 & A2 & H2); [done|lia|]. rstep E2. pose proof (adv_rem _ _ A2).
    destruct (IH p2 (kids ++ [n])) as (p3 & ks & E3 & A3 & H3); [by eapply adv_wfp|lia|lia| |].
    { apply Forall_app. split; [done|]. by apply Forall_singleton. }
    exists p3, (n :: ks). rewrite <- app_assoc in E3, H3. split; [done|]. split; [|done].
    etransitivity; [exact A1|]. by etransitivity.
  - apply pkeyword_false in E1 as ->. exists p, []. rewrite app_nil_r. done.
Qed.
Lemma tuple_body_good tup k : good k (pExprOr tup) -> good k (tuple_body tup).
Proof.
  intros Hg p Hw Hk. unfold tuple_body. destruct (Hg p) as (p1 & n & E1 & A1 & H1); [done..|]. rstep E1.
  pose proof (adv_rem _ _ A1). pose proof (rem_length p1).
  destruct (tuple_loop_good tup k Hg (S (length (pInput p1))) p1 [n]) as (p2 & ks & E2 & A2 & H2);
    [by eapply adv_wfp|lia|lia|by apply Forall_singleton|]. rstep E2.
  assert (A12 : adv p p2) by (by etransitivity). cbn [app] in *.
  destruct ks as [|m ks]; [by exists p2, n|]. eexists p2, _. split; [done|]. split; [done|].
  apply ok_tup; [cbn; lia|done].
Qed.
Lemma pExprTuple_good fuel : good fuel (pExprTuple (S fuel)).
Proof.
  induction fuel as [|fuel IH]; apply tuple_body_good, pExprOr_good; [lia|]. by intros k' [= <-].
Qed.
Lemma pExprTuple_fuel k fuel : (k < fuel)%nat -> good k (pExprTuple fuel).
Proof.
  intros H p Hw Hk. destruct fuel as [|fuel]; [lia|]. apply pExprTuple_good; [done|lia].
Qed.

(** [tuple] and the expression functions above it, on any state. *)
Lemma expr_fuel_good p k : k = rem p -> forall k', k = S k' -> good k' (pExprTuple (expr_fuel p)).
Proof.
  intros -> k' Hk. apply pExprTuple_fuel. pose proof (rem_length p). unfold expr_fuel. lia.
Qed.
Lemma tuple_good k : good k tuple.
Proof.
  intros p Hw Hk. apply (pExprTuple_fuel (rem p)); [|done|lia].
  pose proof (rem_length p). unfold expr_fuel. lia.
Qed.
Lemma expr_or_good k : good k expr_or.
Proof. intros p Hw _. exact (pExprOr_good (pExprTuple (expr_fuel p)) (rem p) (expr_fuel_good p (rem p) eq_refl) p Hw (le_n _)). Qed.
Lemma expr_cmp_good k : good k expr_cmp.
Proof. intros p Hw _. exact (pExprCmp_good (pExprTuple (expr_fuel p)) (rem p) (expr_fuel_good p (rem p) eq_refl) p Hw (le_n _)). Qed.

(** expressions always parse.  From every position in every input the
    expression functions return (they neither panic nor loop), at a position
    not before the first and within the input, with a node of the expression
    grammar: a literal or symbol without kids, a negation with one, a binary
    operator with two, a tuple with at least two; what is not an expression is
    reported in [Err]. *)
Theorem expressions_total p : (pIdx p <= length (pInput p))%nat ->
  exists p' n, expr_or p = Ok (p', n) /\ pInput p' = pInput p /\
    (pIdx p <= pIdx p' <= length (pInput p))%nat /\ expr_ok n.
Proof.
  intros Hw. destruct (expr_or_good (rem p) p Hw ltac:(lia)) as (p' & n & E & A & H).
  exists p', n. pose proof (adv_wfp _ _ A Hw) as Hw'. destruct A as (A1 & _ & A3 & _).
  unfold wfp in Hw'. rewrite A1 in Hw'. done.
Qed.

(** ** Statements *)

(** A step of a statement: it returns a later state and a result with [P]. *)
Definition returns {A} (p : Parser) (m : res (Parser * A)) (P : A -> Prop) : Prop :=
  exists p' a, m = Ok (p', a) /\ adv p p' /\ P a.

Lemma returns_bind {A B} p (m : res (Parser * A)) (f : Parser * A -> res (Parser * B)) P Q :
  wfp p -> returns p m P -> (forall p' a, adv p p' -> wfp p' -> P a -> returns p' (f (p', a)) Q) ->
  returns p (m ≫= f) Q.
Proof.
  intros Hw (p1 & a & -> & A1 & H1) H. destruct (H p1 a A1) as (p2 & b & E & A2 & H2); [by eapply adv_wfp|done|].
  exists p2, b. split; [exact E|]. split; [by etransitivity|done].
Qed.
Lemma returns_ok {A} p p' (a : A) (P : A -> Prop) : adv p p' -> P a -> returns p (Ok (p', a)) P.
Proof. intros. by exists p', a. Qed.
Lemma returns_later {A} p p1 (m : res (Parser * A)) P : adv p p1 -> returns p1 m P -> returns p m P.
Proof. intros A1 (p2 & a & -> & A2 & H). exists p2, a. split; [done|]. split; [by etransitivity|done]. Qed.
Lemma expr_or_returns p : wfp p -> returns p (expr_or p) expr_ok.
Proof. intros Hw. exact (expr_or_good (rem p) p Hw ltac:(lia)). Qed.
Lemma expr_cmp_returns p : wfp p -> returns p (expr_cmp p) expr_ok.
Proof. intros Hw. exact (expr_cmp_good (rem p) p Hw ltac:(lia)). Qed.
Lemma tuple_returns p : wfp p -> returns p (tuple p) expr_ok.
Proof. intros Hw. exact (tuple_good (rem p) p Hw ltac:(lia)). Qed.
Lemma returns_keyword {A} p kwds (f : Parser * bool -> res (Parser * A)) P :
  (forall p' (ok : bool), pkeyword p kwds = (p', ok) -> adv p p' -> returns p' (f (p', ok)) P) ->
  returns p (f (pkeyword p kwds)) P.
Proof.
  intros H. destruct (pkeyword p kwds) as [p' ok] eqn:E. pose proof (pkeyword_adv _ _ _ _ E) as A1.
  eapply returns_later; [exact A1|]. by apply H.
Qed.
(** Passes an [expect]: the state after it is a fresh [q], later than the one
    before ([A]) and within the input ([W]). *)
Ltac pass_expect q A W :=
  match goal with
  | Hw : wfp ?p |- returns ?p ?m _ =>
      match m with
      | context [expect p ?k ?msg] =>
          pose proof (expect_adv p k msg) as A; pose proof (adv_wfp _ _ A Hw) as W;
          eapply returns_later; [exact A|];
          set (q := expect p k msg) in *; clearbody q
      end
  end.

(** What the scan clause of a statement holds. *)
Definition opt_ok (o : option QLNode) : Prop := forall n, o = Some n -> expr_ok n.
Definition scan_ok (s : QLScan) : Prop := opt_ok (sKey1 s) /\ opt_ok (sKey2 s) /\ opt_ok (sFilter s).
Lemma opt_ok_some n : expr_ok n -> opt_ok (Some n).
Proof. by intros H m [= <-]. Qed.
Lemma opt_ok_none : opt_ok None.
Proof. by intros n. Qed.

(** The loops over separated items: each turn consumes the separator. *)
Lemma sep_loop {St} (loop : nat -> Parser -> St -> res (Parser * St)) (sep : list bytes)
    (step : Parser -> St -> res (Parser * St)) (inv : St -> Prop) :
  (forall fuel p s, loop (S fuel) p s =
     let '(p, ok) := pkeyword p sep in
     if (ok : bool) then '(p, s) ← step p s; loop fuel p s else Ok (p, s)) ->
  (0 < length (concat sep))%nat ->
  (forall p s, wfp p -> inv s -> returns p (step p s) inv) ->
  forall fuel p s, wfp p -> (rem p < fuel)%nat -> inv s -> returns p (loop fuel p s) inv.
Proof.
  intros Heq Hsep Hstep. induction fuel as [|fuel IH]; intros p s Hw Hf Hs; [lia|]. rewrite Heq.
  destruct (pkeyword p sep) as [p1 ok] eqn:E. destruct ok.
  - apply pkeyword_true in E as [A1 L1]. pose proof (adv_rem_lt _ _ A1 Hw ltac:(lia)) as R1.
    pose proof (adv_wfp _ _ A1 Hw) as W1. eapply returns_later; [exact A1|].
    eapply returns_bind; [done|by apply Hstep|]. intros p2 s2 A2 W2 H2. apply IH; [done| |done].
    pose proof (adv_rem _ _ A2). lia.
  - apply pkeyword_false in E as ->. by apply returns_ok.
Qed.

Definition conds_ok (cs : list QLNode) : Prop := cs <> [] /\ Forall expr_ok cs.
Lemma conds_snoc cs c : conds_ok cs -> expr_ok c -> conds_ok (cs ++ [c]).
Proof.
  intros [H1 H2] Hc. split; [by destruct cs|]. apply Forall_app. split; [done|]. by apply Forall_singleton.
Qed.

Lemma pIndexBy_returns p s : wfp p -> scan_ok s -> returns p (pIndexBy p s) scan_ok.
Proof.
  intros Hw (_ & _ & Hf). unfold pIndexBy.
  destruct (pkeyword p (kw "(")) as [p1 ok] eqn:E1. pose proof (pkeyword_adv _ _ _ _ E1) as A1.
  pose proof (adv_wfp _ _ A1 Hw) as W1. eapply returns_later; [exact A1|]. destruct ok.
  - eapply returns_bind; [done|by apply tuple_returns|]. intros p2 c A2 W2 Hc.
    apply returns_ok; [apply expect_adv|]. split; [by apply opt_ok_some|]. by split; [apply opt_ok_none|].
  - eapply returns_bind; [done|by apply expr_cmp_returns|]. intros p2 c A2 W2 Hc.
    eapply returns_bind; [done| |].
    { apply (sep_loop cmp_loop (kw "and") (fun p cs => '(p, c) ← expr_cmp p; Ok (p, cs ++ [c])) conds_ok).
      - intros fuel q cs. cbn [cmp_loop]. destruct (pkeyword q (kw "and")) as [q1 []]; [|done].
        rewrite bind_assoc. by destruct (expr_cmp q1) as [[? ?]|].
      - cbn. lia.
      - intros q cs Wq Hq. eapply returns_bind; [done|by apply expr_cmp_returns|]. intros q1 c1 _ _ Hc1.
        apply returns_ok; [done|by apply conds_snoc].
      - done.
      - pose proof (rem_length p2). lia.
      - split; [done|]. by apply Forall_singleton. }
    intros p3 conds A3 W3 [Hne Hcs].
    assert (A4 : adv p3 (if 2 <? Z.of_nat (length conds) then pErr p3 (gostr "more than two conditions") else p3)).
    { case_match; [apply pErr_adv|done]. }
    destruct conds as [|c1 [|c2 conds]]; [done| |].
    + apply returns_ok; [done|]. apply list.Forall_cons in Hcs as [Hc1 _].
      split; [by apply opt_ok_some|]. by split; [apply opt_ok_none|].
    + apply returns_ok; [done|]. apply list.Forall_cons in Hcs as [Hc1 Hcs]. apply list.Forall_cons in Hcs as [Hc2 _].
      split; [by apply opt_ok_some|]. by split; [apply opt_ok_some|].
Qed.

Lemma pCount_adv p m : adv p (pCount p m).1.
Proof.
  unfold pCount. pose proof (skipSpace_adv p) as A0. destruct (pNum (skipSpace p) zeroNode) as [[p1 n1] ok] eqn:E.
  apply pNum_spec in E as [A1 _]. cbn. etransitivity; [exact A0|]. etransitivity; [exact A1|].
  destruct ok; [done|apply pErr_adv].
Qed.
Lemma pScan_returns p s : wfp p -> scan_ok s -> returns p (pScan p s) scan_ok.
Proof.
  intros Hw Hs. unfold pScan.
  destruct (pkeyword p _) as [p1 ok1] eqn:E1. pose proof (pkeyword_adv _ _ _ _ E1) as A1.
  pose proof (adv_wfp _ _ A1 Hw) as W1. eapply returns_later; [exact A1|].
  eapply returns_bind; [done| |].
  { destruct ok1; [by apply pIndexBy_returns|by apply returns_ok]. }
  intros p2 s2 A2 W2 H2.
  destruct (pkeyword p2 (kw "filter")) as [p3 ok3] eqn:E3. pose proof (pkeyword_adv _ _ _ _ E3) as A3.
  pose proof (adv_wfp _ _ A3 W2) as W3. eapply returns_later; [exact A3|].
  eapply (returns_bind _ _ _ scan_ok); [done| |].
  { destruct ok3; [|by apply returns_ok]. eapply returns_bind; [done|by apply expr_or_returns|].
    intros p4 f A4 W4 Hf. apply returns_ok; [done|]. destruct H2 as (K1 & K2 & _).
    split; [done|]. split; [done|by apply opt_ok_some]. }
  intros p4 s4 A4 W4 H4. destruct (pkeyword p4 (kw "offset")) as [p5 ok5] eqn:E5.
  pose proof (pkeyword_adv _ _ _ _ E5) as A5. eapply returns_later; [exact A5|].
  set (n4 := mkScan _ _ _ _ 0 MaxInt64). assert (Hn4 : scan_ok n4) by exact H4.
  assert (HO : exists p6 s6, (if ok5 then pOffset p5 n4 else (p5, n4)) = (p6, s6) /\ adv p5 p6 /\ scan_ok s6).
  { destruct ok5; [|by eexists _, _]. unfold pOffset. pose proof (pCount_adv p5 "expected number after offset") as AC.
    destruct (pCount p5 _) as [p6 n]. by eexists _, _. }
  destruct HO as (p6 & s6 & -> & A6 & H6). eapply returns_later; [exact A6|].
  destruct (pkeyword p6 (kw "limit")) as [p7 ok7] eqn:E7.
  pose proof (pkeyword_adv _ _ _ _ E7) as A7. eapply returns_later; [exact A7|].
  destruct ok7; [|by apply returns_ok]. unfold pLimit. pose proof (pCount_adv p7 "expected number after limit") as AC.
  destruct (pCount p7 _) as [p8 n]. by apply returns_ok.
Qed.
Lemma newScan_ok t : scan_ok (newScan t).
Proof. split; [|split]; apply opt_ok_none. Qed.

Definition select_ok (s : QLSelect) : Prop :=
  scan_ok (selScan s) /\ Forall expr_ok (selOutput s) /\
  (selName s = [gostr "*"] /\ selOutput s = [] \/ length (selName s) = length (selOutput s)).
Definition update_ok (s : QLUpdate) : Prop :=
  scan_ok (updScan s) /\ Forall expr_ok (updValues s) /\ length (updName s) = length (updValues s).
Definition insert_ok (s : QLInsert) : Prop := Forall expr_ok (insValues s).
Definition stmt_ok (s : QLStmt) : Prop :=
  match s with
  | SSelect (Some s) => select_ok s
  | SUpdate (Some s) => update_ok s
  | SDelete (Some s) => scan_ok (delScan s)
  | SInsert s => exists i, s = Some i /\ insert_ok i
  | _ => True
  end.

Lemma expr_ok_kids n : expr_ok n -> Forall expr_ok (nKids n).
Proof.
  destruct 1 as [n [-> _]|k H|t l r _ H1 H2|kids _ H]; cbn; [done|by apply Forall_singleton| |done].
  apply list.Forall_cons. split; [done|]. by apply Forall_singleton.
Qed.

Definition items_ok (s : QLSelect) : Prop :=
  scan_ok (selScan s) /\ Forall expr_ok (selOutput s) /\ length (selName s) = length (selOutput s).
Lemma pSelectExpr_returns p s : wfp p -> items_ok s -> returns p (pSelectExpr p s) items_ok.
Proof.
  intros Hw (H1 & H2 & H3). unfold pSelectExpr. eapply returns_bind; [done|by apply expr_or_returns|].
  intros p1 e A1 W1 He. destruct (pkeyword p1 (kw "as")) as [p2 ok] eqn:E2.
  eapply returns_later; [exact (pkeyword_adv _ _ _ _ E2)|].
  destruct (if ok then pMustSym p2 else (p2, [])) as [p3 name] eqn:E3.
  assert (A3 : adv p2 p3).
  { destruct ok; [|by injection E3 as <- _]. pose proof (pMustSym_adv p2) as A. by rewrite E3 in A. }
  apply returns_ok; [done|]. split; [done|]. split.
  - apply Forall_app. split; [done|]. by apply Forall_singleton.
  - cbn. rewrite !length_app, H3. done.
Qed.
Lemma pUpdateExpr_returns p s : wfp p -> update_ok s -> returns p (pUpdateExpr p s) update_ok.
Proof.
  intros Hw (H1 & H2 & H3). unfold pUpdateExpr. destruct (pSym p zeroNode) as [[p1 col] ok] eqn:E1.
  apply pSym_spec in E1 as [A1 _]. eapply returns_later; [exact A1|].
  pose proof (adv_wfp _ _ A1 Hw) as W1. pass_expect p2 A2 W2.
  eapply returns_bind; [done|by apply expr_or_returns|]. intros p3 e A3 W3 He.
  apply returns_ok; [done|]. split; [done|]. split.
  - apply Forall_app. split; [done|]. by apply Forall_singleton.
  - cbn. rewrite !length_app, H3. done.
Qed.

Lemma pSelect_returns p : wfp p -> returns p (pSelect p) (fun o => stmt_ok (SSelect o)).
Proof.
  intros Hw. unfold pSelect. destruct (pkeyword p (kw "*")) as [p1 ok] eqn:E1.
  pose proof (pkeyword_adv _ _ _ _ E1) as A1. pose proof (adv_wfp _ _ A1 Hw) as W1.
  eapply returns_later; [exact A1|].
  eapply (returns_bind _ _ _ (fun s => Forall expr_ok (selOutput s) /\
     (selName s = [gostr "*"] /\ selOutput s = [] \/ length (selName s) = length (selOutput s)))); [done| |].
  { destruct ok; [apply returns_ok; [done|]; split; [done|by left]|].
    assert (H0 : items_ok (mkSelect (newScan []) [] [])) by (split; [apply newScan_ok|done]).
    unfold pSelectExprList. eapply returns_bind; [done|by apply pSelectExpr_returns|].
    intros p2 s2 A2 W2 H2.
    pose proof (sep_loop select_loop (kw ",") pSelectExpr items_ok (fun _ _ _ => eq_refl) ltac:(cbn; lia)
      pSelectExpr_returns (S (length (pInput p2))) p2 s2 W2 ltac:(pose proof (rem_length p2); lia) H2)
      as (p3 & s3 & E3 & A3 & (_ & F3 & L3)). exists p3, s3. split; [done|]. split; [done|]. split; [done|by right]. }
  intros p2 s2 A2 W2 [F2 L2]. pass_expect p3 A3 W3. pose proof (pMustSym_adv p3) as A4.
  destruct (pMustSym p3) as [p4 t]. cbn [fst] in A4. eapply returns_later; [exact A4|].
  pose proof (adv_wfp _ _ A4 W3) as W4. eapply returns_bind; [done|by apply pScan_returns, newScan_ok|].
  intros p5 sc A5 W5 H5. destruct (pError p5); [by apply returns_ok|].
  apply returns_ok; [apply expect_adv|]. by split.
Qed.
Lemma pInsert_returns p : wfp p -> returns p (pInsert p) (fun o => stmt_ok (SInsert o)).
Proof.
  intros Hw. unfold pInsert. pose proof (pMustSym_adv p) as A1. destruct (pMustSym p) as [p1 t]. cbn [fst] in A1.
  pose proof (adv_wfp _ _ A1 Hw) as W1. eapply returns_later; [exact A1|].
  pass_expect p2 A2 W2.
  eapply returns_bind; [done|by apply tuple_returns|]. intros p3 names A3 W3 H3.
  pass_expect p4 A4 W4. pass_expect p5 A5 W5. pass_expect p6 A6 W6.
  eapply returns_bind; [done|by apply tuple_returns|]. intros p7 vals A7 W7 H7.
  apply returns_ok; [|eexists; split; [done|by apply expr_ok_kids]].
  etransitivity; apply expect_adv.
Qed.
Lemma pUpdate_returns p : wfp p -> returns p (pUpdate p) (fun o => stmt_ok (SUpdate o)).
Proof.
  intros Hw. unfold pUpdate. pose proof (pMustSym_adv p) as A1. destruct (pMustSym p) as [p1 t]. cbn [fst] in A1.
  pose proof (adv_wfp _ _ A1 Hw) as W1. eapply returns_later; [exact A1|].
  pass_expect p2 A2 W2.
  eapply (returns_bind _ _ _ update_ok); [done| |].
  { unfold pUpdateExprList. eapply returns_bind; [done|apply pUpdateExpr_returns; [done|]|].
    { split; [apply newScan_ok|done]. }
    intros p3 s3 A3 W3 H3. apply (sep_loop update_loop (kw ",") pUpdateExpr update_ok (fun _ _ _ => eq_refl));
      [cbn; lia|exact pUpdateExpr_returns|done|pose proof (rem_length p3); lia|done]. }
  intros p3 s3 A3 W3 (H1 & H2 & H3). eapply returns_bind; [done|by apply pScan_returns|].
  intros p4 sc A4 W4 H4. destruct (pError p4); [by apply returns_ok|].
  apply returns_ok; [apply expect_adv|]. by split.
Qed.
Lemma pDelete_returns p : wfp p -> returns p (pDelete p) (fun o => stmt_ok (SDelete o)).
Proof.
  intros Hw. unfold pDelete. pass_expect p1 A1 W1. pose proof (pMustSym_adv p1) as A2. destruct (pMustSym p1) as [p2 t].
  cbn [fst] in A2. eapply returns_later; [exact A2|].
  pose proof (adv_wfp _ _ A2 W1) as W2. eapply returns_bind; [done|by apply pScan_returns, newScan_ok|].
  intros p3 sc A3 W3 H3. destruct (pError p3); [by apply returns_ok|].
  by apply returns_ok; [apply expect_adv|].
Qed.

(** ** Whole statements *)

(** C27: statements parse on every input.  Unless the input starts with
    [create table], [PStmt] returns (no panic, no endless loop), within the
    input, and what it returns has the shape the executor relies on: every
    expression is of the grammar, an insert is never [nil], a select has one name
    per output unless it is the star, an update one name per value. *)
Theorem PStmt_total fuel p : (pIdx p <= length (pInput p))%nat ->
  (pkeyword p (map gostr ["create"; "table"]%string)).2 = false ->
  exists p' s, PStmt fuel p = Ok (p', s) /\ pInput p' = pInput p /\
    (pIdx p' <= length (pInput p))%nat /\ stmt_ok s.
Proof.
  intros Hw Hc.
  assert (H : returns p (PStmt fuel p) stmt_ok).
  { unfold PStmt. destruct (pkeyword p _) as [p0 ok0] eqn:E0. cbn [snd] in Hc. subst ok0.
    apply pkeyword_false in E0 as ->.
    assert (HK : forall {A} kwds (m : Parser -> res (Parser * A)) (mk : A -> QLStmt) rest,
      (forall q, wfp q -> returns q (m q) (fun a => stmt_ok (mk a))) -> returns p (rest p) stmt_ok ->
      returns p (let '(q, ok) := pkeyword p kwds in
        if (ok : bool) then '(q, s) ← m q; Ok (q, mk s) else rest q) stmt_ok).
    { intros A kwds m mk rest Hm Hr. destruct (pkeyword p kwds) as [q ok] eqn:E. destruct ok.
      - pose proof (pkeyword_adv _ _ _ _ E) as Aq. pose proof (adv_wfp _ _ Aq Hw) as Wq.
        eapply returns_later; [exact Aq|]. eapply returns_bind; [done|by apply Hm|].
        intros q' a _ _ Ha. by apply returns_ok.
      - by apply pkeyword_false in E as ->. }
    apply (HK _ _ pSelect SSelect); [exact pSelect_returns|].
    apply (HK _ _ pInsert SInsert); [exact pInsert_returns|].
    apply (HK _ _ pUpsert SInsert).
    { intros q Wq. unfold pUpsert. eapply returns_bind; [done|by apply pInsert_returns|].
      intros q' s A' _ (i & -> & Hi). apply returns_ok; [done|]. by eexists. }
    apply (HK _ _ pUpdate SUpdate); [exact pUpdate_returns|].
    apply (HK _ _ pDelete SDelete); [exact pDelete_returns|].
    by apply returns_ok. }
  destruct H as (p' & s & E & A & Hs). exists p', s. split; [done|].
  pose proof (adv_wfp _ _ A Hw) as Hw'. destruct A as (A1 & _). unfold wfp in Hw'. rewrite A1 in Hw'. done.
Qed.

(** ** [create table] *)

(** A call that returns nothing: it goes round until its turns are spent, or
    panics on an index out of range. *)
Definition never {A} (m : res A) : Prop := m = Crash OutOfFuel \/ m = Crash IndexOutOfRange.
Lemma never_bind {A B} (m : res A) (f : A -> res B) : never m -> never (m ≫= f).
Proof. by intros [-> | ->]; [left|right]. Qed.

(** Positions at which the column loop makes no progress: the
    end of the input, and any character that neither starts a name nor is a
    comma nor a space. *)
Definition stuck (p : Parser) : Prop :=
  match rest_of p with
  | [] => True
  | ch :: _ => is_space ch = false /\ isStr ch = false /\ ch <> Byte.x2c
  end.

Lemma skipSpace_stuck p : stuck p -> skipSpace p = p.
Proof.
  unfold stuck, skipSpace. intros H. destruct (rest_of p) as [|ch r]; cbn [count_while].
  - rewrite Nat.add_0_r. apply set_idx_id.
  - destruct H as [-> _]. rewrite Nat.add_0_r. apply set_idx_id.
Qed.
Lemma pStr_stuck p n : stuck p -> exists n' ok, pStr p n = (p, n', ok).
Proof.
  intros H. unfold pStr. rewrite (skipSpace_stuck p H). case_bool_decide; [by eexists _, _|].
  assert (E : count_while isStr (rest_of p) = 0%nat).
  { unfold stuck in H. destruct (rest_of p) as [|ch r]; cbn [count_while]; [done|]. by destruct H as (_ & -> & _). }
  rewrite E, Nat.add_0_r. unfold between. rewrite Nat.sub_diag, take_0.
  change (isValidKeyword (ToLower [])) with false. rewrite set_idx_id. by eexists _, _.
Qed.
Lemma comma_stuck p : stuck p -> pkeyword p (kw ",") = (p, false).
Proof.
  intros H. unfold pkeyword. cbn [kw pkeyword_loop]. rewrite (skipSpace_stuck p H).
  change (gostr ",") with [Byte.x2c]. cbn [length]. case_bool_decide as Hb; [by rewrite set_idx_id|].
  assert (E : EqualFold (between p (pIdx p) (pIdx p + 1)) [Byte.x2c] = false).
  { unfold between, stuck, rest_of in *. replace (pIdx p + 1 - pIdx p)%nat with 1%nat by lia.
    destruct (drop (pIdx p) (pInput p)) as [|ch r]; [done|]. destruct H as (_ & _ & H).
    cbn [take]. unfold EqualFold. apply bool_decide_eq_false. cbn [ToLower map]. intros [= E].
    apply H. clear -E. revert E. by destruct ch; vm_compute. }
  by rewrite E, set_idx_id.
Qed.
Lemma stuck_err p m : stuck p -> stuck (pErr p m).
Proof. done. Qed.
Lemma peek_stuck p : stuck p -> never (peekNextToken p) \/
  exists tkn, peekNextToken p = Ok (p, tkn) /\ tkn <> gostr "index" /\ tkn <> gostr "primary".
Proof.
  intros H. unfold peekNextToken. rewrite (skipSpace_stuck p H). unfold guard_else.
  case_match; [right|by left; right]. eexists. split; [done|].
  unfold stuck, rest_of in H. set (e := (pIdx p + 1 + _ - pIdx p)%nat).
  destruct (drop (pIdx p) (pInput p)) as [|ch r] eqn:Ed.
  - assert (Hl : (length (pInput p) <= pIdx p)%nat) by (apply (f_equal length) in Ed; rewrite length_drop in Ed; cbn in Ed; lia).
    assert (e = 1%nat) as ->.
    { unfold e. rewrite drop_ge by lia. cbn. lia. }
    destruct (drop (pIdx p) (pInput p ++ pSpare p)) as [|b l]; cbn [take]; split; discriminate.
  - rewrite drop_app_le, Ed by (apply (f_equal length) in Ed; rewrite length_drop in Ed; cbn in Ed; lia).
    assert (exists e', e = S e') as [e' ->] by (exists (pred e); unfold e; lia).
    cbn [app take]. destruct H as (_ & H & _). split; intros [= -> _]; discriminate.
Qed.
Lemma cols_loop_stuck fuel p tkn cols : stuck p -> tkn <> gostr "index" -> tkn <> gostr "primary" -> never (cols_loop fuel p tkn cols).
Proof.
  revert p tkn cols. induction fuel as [|fuel IH]; intros p tkn cols H H1 H2; cbn [cols_loop]; [by left|].
  rewrite !bool_decide_false by done. cbn [orb].
  destruct (pStr_stuck p zeroNode H) as (n1 & o1 & ->). destruct (pStr_stuck p zeroNode H) as (n2 & o2 & ->).
  unfold expect. rewrite (comma_stuck p H). pose proof (stuck_err p (gostr "invalid create table syntax") H) as He.
  destruct (peek_stuck _ He) as [Hn|(t & -> & T1 & T2)]; [by apply never_bind|]. cbn [mbind res_bind].
  by apply IH.
Qed.

(** Whether a word occurs in a text. *)
Definition has_word (w s : bytes) : bool := existsb (fun i => bool_decide (take (length w) (drop i s) = w)) (seq 0 (length s)).
Lemma has_word_at w s i : w <> [] -> take (length w) (drop i s) = w -> has_word w s = true.
Proof.
  intros Hw E. apply existsb_exists. exists i. split; [|by apply bool_decide_eq_true]. apply in_seq.
  destruct (Nat.lt_ge_cases i (length s)) as [|Hge]; [lia|]. rewrite drop_ge, take_nil in E by done. by subst w.
Qed.

(** The loops end at the word [primary], which they find only where the input has it. *)
Section NoPrimary.
Context (p0 : Parser) (Hword : has_word (gostr "primary") (rest_of p0) = false).
Abbreviation later p := (adv p0 p /\ wfp p).

Lemma peek_word p : later p -> never (peekNextToken p) \/ exists p' tkn, peekNextToken p = Ok (p', tkn) /\ later p' /\ tkn <> gostr "primary".
Proof.
  intros [Ha Hw]. pose proof (skipSpace_adv p) as As. pose proof (adv_wfp _ _ As Hw) as Ws. assert (Al : adv p0 (skipSpace p)) by by etransitivity.
  unfold peekNextToken. set (q := skipSpace p) in *. unfold guard_else. case_match; [right|by left; right]. eexists q, _. split; [done|]. split; [done|].
  pose proof Al as (Ei & _ & Hi & _). unfold wfp in Ws. rewrite Ei in Ws |- *. set (k := count_while _ _).
  replace (pIdx q + 1 + k - pIdx q)%nat with (1 + k)%nat by lia. intros E.
  pose proof (count_while_le (fun b => isStr b || isNum b) (drop (pIdx q + 1) (pInput p0))) as Hk. fold k in Hk. rewrite length_drop in Hk.
  pose proof (f_equal length E) as El. rewrite length_take in El. change (length (gostr "primary")) with 7%nat in El.
  rewrite drop_app_le, take_app_le in E by (rewrite ?length_drop; lia).
  rewrite (has_word_at _ _ (pIdx q - pIdx p0)) in Hword; [done|done|]. unfold rest_of. rewrite drop_drop.
  replace (pIdx p0 + (pIdx q - pIdx p0))%nat with (pIdx q) by lia. rewrite <- E at 2. f_equal. rewrite <- (f_equal length E), length_take, length_drop. lia.
Qed.
Lemma cols_loop_word fuel : forall p tkn cols, later p -> tkn <> gostr "primary" -> never (cols_loop fuel p tkn cols) \/
  exists p' cols', cols_loop fuel p tkn cols = Ok (p', gostr "index", cols') /\ later p'.
Proof.
  induction fuel as [|fuel IH]; intros p tkn cols Hl Ht; cbn [cols_loop]; [by left; left|].
  rewrite (bool_decide_false (tkn = gostr "primary")), orb_false_r by done. case_bool_decide as Hi; [right; subst tkn; by eexists _, _|].
  destruct (pStr p zeroNode) as [[p1 n1] o1] eqn:E1. destruct (pStr p1 zeroNode) as [[p2 n2] o2] eqn:E2.
  apply pStr_spec in E1 as [A1 _], E2 as [A2 _]. set (p3 := expect p2 _ _). assert (A3 : adv p p3) by (etransitivity; [exact A1|etransitivity; [exact A2|apply expect_adv]]).
  destruct (peek_word p3) as [Hn|(p4 & t & -> & Hl4 & Ht4)]; [destruct Hl; split; [by etransitivity|by eapply adv_wfp]|left; by apply never_bind|].
  cbn [mbind res_bind]. by apply IH.
Qed.
Lemma indexes_loop_word fuel : forall p tkn indexes, later p -> tkn <> gostr "primary" -> never (indexes_loop fuel p tkn indexes).
Proof.
  induction fuel as [|fuel IH]; intros p tkn indexes Hl Ht; cbn [indexes_loop]; [by left|]. rewrite bool_decide_false by done.
  destruct (pkeyword p (kw "index")) as [p1 o1] eqn:E1. apply pkeyword_adv in E1. set (p2 := expect p1 _ _).
  assert (A2 : adv p p2) by (etransitivity; [exact E1|apply expect_adv]). destruct Hl as [Ha Hw].
  destruct (tuple_returns p2) as (p3 & idx & -> & A3 & _); [by eapply adv_wfp|]. cbn [mbind res_bind]. set (p5 := expect (expect p3 _ _) _ _).
  assert (A5 : adv p p5) by (etransitivity; [exact A2|]; etransitivity; [exact A3|]; etransitivity; apply expect_adv).
  destruct (peek_word p5) as [Hn|(p6 & t & -> & Hl6 & Ht6)]; [split; [by etransitivity|by eapply adv_wfp]|by apply never_bind|].
  cbn [mbind res_bind]. by apply IH.
Qed.
End NoPrimary.

(** C35: [create table] need not return.  On a text that goes on after its
    name with a parenthesis, [PStmt] returns nothing for any number of turns of its
    loops (it goes round for ever, or, when the input fills its array,
    panics on the token after the end) if what follows has no word [primary],
    as any text that is cut off before its primary key or has none, or if at once
    a character follows that starts no column.  Without the parenthesis it
    returns, with a nil statement. *)
Theorem create_table_never_returns p p1 p2 n o : wfp p ->
  pkeyword p (map gostr ["create"; "table"]%string) = (p1, true) -> pStr p1 zeroNode = (p2, n, o) ->
  match pkeyword p2 (kw "(") with
  | (p3, true) => stuck p3 \/ has_word (gostr "primary") (rest_of p3) = false -> forall fuel, never (PStmt fuel p)
  | (_, false) => forall fuel, exists p', PStmt fuel p = Ok (p', SCreateTable None)
  end.
Proof.
  intros Hw E1 E2. pose proof (pkeyword_adv _ _ _ _ E1) as A1. pose proof (pStr_spec _ _ _ _ _ E2) as [A2 _].
  destruct (pkeyword p2 (kw "(")) as [p3 [|]] eqn:E3; [|intros fuel; unfold PStmt, pCreateTable; rewrite E1, E2, E3; by eexists].
  pose proof (pkeyword_adv _ _ _ _ E3) as A3. assert (W3 : wfp p3) by (eapply adv_wfp; [|exact Hw]; etransitivity; [exact A1|by etransitivity]).
  intros HC fuel. unfold PStmt, pCreateTable. rewrite E1, E2, E3. cbn [negb]. apply never_bind. destruct HC as [Hst|Hword].
  - destruct (peek_stuck p3 Hst) as [Hn|(t & -> & T1 & T2)]; [by apply never_bind|]. cbn [mbind res_bind]. by apply never_bind, cols_loop_stuck.
  - destruct (peek_word p3 Hword p3) as [Hn|(p4 & t & -> & Hl4 & Ht4)]; [done|by apply never_bind|]. cbn [mbind res_bind].
    destruct (cols_loop_word p3 Hword fuel p4 t [] Hl4 Ht4) as [Hn|(p5 & cols & -> & Hl5)]; [by apply never_bind|]. cbn [mbind res_bind].
    by apply never_bind, (indexes_loop_word p3 Hword).
Qed.

(** A text cut off in its columns, one cut off in its indexes, and one with a stray character in
    an otherwise complete statement. *)
Lemma create_table_never_returns_witness : never (PStmt 9 (new_parser (gostr "create table t (id int") [])) /\
  never (PStmt 9 (new_parser (gostr "create table t (id int, index (id),") [])) /\
  never (PStmt 9 (new_parser (gostr "create table t (!, id int, primary key (id));") [])).
Proof.
  split; [|split].
  - refine (create_table_never_returns (new_parser (gostr "create table t (id int") []) _ _ _ _ _ eq_refl eq_refl _ 9%nat); [by apply Nat.leb_le|by right].
  - refine (create_table_never_returns (new_parser (gostr "create table t (id int, index (id),") []) _ _ _ _ _ eq_refl eq_refl _ 9%nat); [by apply Nat.leb_le|by right].
  - refine (create_table_never_returns (new_parser (gostr "create table t (!, id int, primary key (id));") []) _ _ _ _ _ eq_refl eq_refl _ 9%nat); [by apply Nat.leb_le|by left].
Defined.

Lemma expressions_total_witness : exists p' n,
  expr_or (new_parser (gostr "1 +* )") []) = Ok (p', n) /\ pInput p' = gostr "1 +* )" /\
  (0 <= pIdx p' <= 6)%nat /\ expr_ok n.
Proof. apply (expressions_total (new_parser (gostr "1 +* )") [])). cbn. lia. Defined.

Lemma PStmt_total_witness : exists p' s,
  PStmt 0 (new_parser (gostr "select @a from") []) = Ok (p', s) /\ pInput p' = gostr "select @a from" /\
  (pIdx p' <= 14)%nat /\ stmt_ok s.
Proof. apply (PStmt_total 0 (new_parser (gostr "select @a from") [])); [cbn; lia|reflexivity]. Defined.
