(* ===== verification/PrintParse.v ===== *)
(** * The expression grammar: printing and parsing back

    [print d n] writes a node with the parentheses that precedence and left
    associativity make necessary at level [d] (0 an atom, 1 a negation, 2 to 6
    the five levels of binary operators).  The parser gives back every printable
    node: its precedences and associativity are those of the printer. *)
From Stdlib Require Import ZArith Lia Btauto.
From stdpp Require Import base gmap list strings countable.
From coqutil Require Import Byte Word.LittleEndianList.
From S2P Require Import Prelude Schema Lexer Parser ParserFacts.

(** ** The printer *)

Definition ops_at (d : nat) : list (bytes * Z) :=
  match d with
  | 2 => ops_mul | 3 => ops_add | 4 => ops_cmp | 5 => ops_and | 6 => ops_or | _ => []
  end%nat.
Definition op_level (t : Z) : nat :=
  if decide (t ∈ [QL_MUL; QL_DIV; QL_MOD]) then 2
  else if decide (t ∈ [QL_ADD; QL_SUB]) then 3
  else if decide (t ∈ cmp_types) then 4
  else if decide (t = QL_AND) then 5 else 6.
Fixpoint text_in (ops : list (bytes * Z)) (t : Z) : bytes :=
  match ops with
  | [] => []
  | (op, t') :: ops' => if decide (t' = t) then op else text_in ops' t
  end.
Definition op_text (t : Z) : bytes := text_in (ops_at (op_level t)) t.

Fixpoint dec (fuel : nat) (n : Z) : bytes :=
  match fuel with
  | O => []
  | S fuel => (if n <? 10 then [] else dec fuel (n / 10)) ++ [byte.of_Z (48 + n mod 10)]
  end.
Definition leaf_text (v : Value) : bytes :=
  if decide (vType v = QL_SYM) then Byte.x40 :: vStr v
  else if decide (vType v = QL_I64) then dec 20 (vI64 v)
  else vStr v.

Definition node_level (n : QLNode) : nat :=
  match nKids n with
  | [] => 0
  | _ => if decide (nType n = QL_NEG) then 1 else if decide (nType n = QL_TUP) then 0 else op_level (nType n)
  end.
Definition sp : bytes := [Byte.x20].
Definition open : bytes := [Byte.x28].
Definition close : bytes := [Byte.x29].

Fixpoint print (d : nat) (n : QLNode) : bytes :=
  let s := match n with
    | mkNode v kids =>
        match kids with
        | [] => leaf_text v
        | k :: kids' =>
            if decide (vType v = QL_NEG) then Byte.x2d :: print 0 k
            else if decide (vType v = QL_TUP) then
              open ++ print 6 k ++ concat (map (fun k => Byte.x2c :: sp ++ print 6 k) kids') ++ close
            else match kids' with
              | r :: _ => print (op_level (vType v)) k ++ sp ++ op_text (vType v) ++ sp ++ print (pred (op_level (vType v))) r
              | [] => []
              end
        end
    end in
  if (d <? node_level n)%nat then open ++ s ++ close else s.

(** Nodes that can be written: names that lex as one token, numbers of the
    range of [int]. *)
Definition name_ok (s : bytes) : Prop :=
  forallb isStr s = true /\ (exists c s', s = c :: s' /\ is_letter c = true) /\ isValidKeyword (ToLower s) = false.
Definition sym_ok (s : bytes) : Prop := forallb isSym s = true /\ isValidKeyword (ToLower s) = false.
Inductive printable : QLNode -> Prop :=
  | pr_str s : name_ok s -> printable (mkNode (mkValue QL_STR 0 s) [])
  | pr_sym s : sym_ok s -> printable (mkNode (mkValue QL_SYM 0 s) [])
  | pr_int i : 0 <= i < 9223372036854775808 -> printable (mkNode (mkValue QL_I64 i []) [])
  | pr_neg k : printable k -> printable (mkNode (valWithType QL_NEG) [k])
  | pr_bin t l r : t ∈ bin_types -> printable l -> printable r ->
      printable (mkNode (valWithType t) [l; r])
  | pr_tup k1 k2 kids : printable k1 -> printable k2 -> Forall printable kids ->
      printable (mkNode (valWithType QL_TUP) (k1 :: k2 :: kids)).

Section PrintableInd.
Context (P : QLNode -> Prop).
Context (Hstr : forall s, name_ok s -> P (mkNode (mkValue QL_STR 0 s) []))
  (Hsym : forall s, sym_ok s -> P (mkNode (mkValue QL_SYM 0 s) []))
  (Hint : forall i, 0 <= i < 9223372036854775808 -> P (mkNode (mkValue QL_I64 i []) []))
  (Hneg : forall k, P k -> P (mkNode (valWithType QL_NEG) [k]))
  (Hbin : forall t l r, t ∈ bin_types -> P l -> P r -> P (mkNode (valWithType t) [l; r]))
  (Htup : forall k1 k2 kids, P k1 -> P k2 -> Forall P kids -> P (mkNode (valWithType QL_TUP) (k1 :: k2 :: kids))).
Fixpoint printable_nested n (H : printable n) : P n :=
  match H with
  | pr_str s Hs => Hstr s Hs
  | pr_sym s Hs => Hsym s Hs
  | pr_int i Hi => Hint i Hi
  | pr_neg k Hk => Hneg k (printable_nested k Hk)
  | pr_bin t l r Ht Hl Hr => Hbin t l r Ht (printable_nested l Hl) (printable_nested r Hr)
  | pr_tup k1 k2 kids H1 H2 Hks =>
      Htup k1 k2 kids (printable_nested k1 H1) (printable_nested k2 H2)
        ((fix go l (Hl : Forall printable l) : Forall P l :=
            match Hl with
            | List.Forall_nil _ => List.Forall_nil P
            | List.Forall_cons _ x l Hx Hl => List.Forall_cons P x l (printable_nested x Hx) (go l Hl)
            end) kids Hks)
  end.
End PrintableInd.

(** ** Keywords at a position *)

Fixpoint fold_prefix (w s : bytes) : bool :=
  match w, s with
  | [], _ => true
  | a :: w', b :: s' => bool_decide (lower_byte b = lower_byte a) && fold_prefix w' s'
  | _ :: _, [] => false
  end.
Definition skip (s : bytes) : bytes := drop (count_while is_space s) s.
Definition op_match (w s : bytes) : bool := fold_prefix w (skip s).

Lemma fold_prefix_take w s : fold_prefix w s = bool_decide (length w <= length s)%nat && EqualFold (take (length w) s) w.
Proof.
  unfold EqualFold, ToLower. revert s.
  induction w as [|a w IH]; intros [|b s]; cbn [fold_prefix length take map]; try done.
  rewrite IH. rewrite (bool_decide_ext (S (length w) <= S (length s))%nat (length w <= length s)%nat) by lia.
  rewrite (bool_decide_ext (lower_byte b :: map lower_byte (take (length w) s) = lower_byte a :: map lower_byte w)
    (lower_byte b = lower_byte a /\ map lower_byte (take (length w) s) = map lower_byte w))
    by (split; [by intros [= ? ?]|by intros [-> ->]]).
  rewrite bool_decide_and. btauto.
Qed.
Lemma rest_set_idx p k : rest_of (set_idx (pIdx p + k) p) = drop k (rest_of p).
Proof. unfold rest_of. cbn. by rewrite drop_drop. Qed.
Lemma skipSpace_rest p : rest_of (skipSpace p) = skip (rest_of p).
Proof. apply rest_set_idx. Qed.
Lemma count_while_len f s : (count_while f s + length (drop (count_while f s) s) = length s)%nat.
Proof. pose proof (count_while_le f s). rewrite length_drop. lia. Qed.

(** [pkeyword] of one keyword depends on the text ahead only. *)
Lemma pkeyword_single p w : w <> [] -> isValidKeyword (ToLower w) = true ->
  pkeyword p [w] = if op_match w (rest_of p)
    then (set_idx (pIdx p + count_while is_space (rest_of p) + length w) p, true) else (p, false).
Proof.
  intros Hne Hw. unfold pkeyword. cbn [pkeyword_loop]. rewrite Hw. unfold op_match.
  rewrite fold_prefix_take, <- skipSpace_rest. set (q := skipSpace p).
  assert (Hs : set_idx (pIdx p) q = p) by (by destruct p).
  assert (Hl : (0 < length w)%nat) by (destruct w; [done|cbn; lia]).
  unfold between, rest_of at 1 2. replace (pIdx q + length w - pIdx q)%nat with (length w) by lia.
  rewrite length_drop. cbn [negb]. rewrite orb_false_r.
  destruct (decide (length (pInput q) < pIdx q + length w)%nat) as [Hd|Hd].
  - rewrite bool_decide_true by done.
    rewrite (bool_decide_false (length w <= length (pInput q) - pIdx q)%nat) by lia. by rewrite Hs.
  - rewrite (bool_decide_false (_ < _)%nat) by done.
    rewrite (bool_decide_true (length w <= length (pInput q) - pIdx q)%nat) by lia.
    cbn [andb]. destruct (EqualFold _ _); cbn [negb]; [done|by rewrite Hs].
Qed.

(** ** Reading at a level *)

Definition ahead (p : Parser) (k : nat) : Parser := set_idx (pIdx p + k) p.
Lemma ahead_ahead p a b : ahead (ahead p a) b = ahead p (a + b).
Proof. unfold ahead. cbn. by rewrite Nat.add_assoc. Qed.
Lemma rest_ahead p k : rest_of (ahead p k) = drop k (rest_of p).
Proof. apply rest_set_idx. Qed.
Lemma rest_ahead_app p s rest : rest_of p = s ++ rest -> rest_of (ahead p (length s)) = rest.
Proof. intros E. by rewrite rest_ahead, E, drop_app_length. Qed.
Lemma rest_ahead_app3 p a b rest : rest_of p = a ++ b ++ rest -> rest_of (ahead p (length a + length b)) = rest.
Proof. intros E. rewrite <- ahead_ahead. by apply rest_ahead_app, rest_ahead_app. Qed.

Fixpoint lev (tup : Parser -> res (Parser * QLNode)) (d : nat) : Parser -> res (Parser * QLNode) :=
  match d with
  | 0 => pExprAtom tup
  | 1 => pExprUnOp tup
  | S d' => pExprBinOp (ops_at d) (lev tup d')
  end%nat.
Lemma lev_or tup : lev tup 6 = pExprOr tup.
Proof. reflexivity. Qed.
Lemma lev_binop tup d : (2 <= d)%nat -> lev tup d = pExprBinOp (ops_at d) (lev tup (pred d)).
Proof. intros H. destruct d as [|[|d]]; [lia|lia|done]. Qed.

(** Text that begins with a character that is not a space. *)
Definition solid (s : bytes) : Prop := exists c s', s = c :: s' /\ is_space c = false.
Definition spaces (ws : bytes) : Prop := forallb is_space ws = true.

Lemma count_while_app f a b : forallb f a = true -> (forall c b', b = c :: b' -> f c = false) ->
  count_while f (a ++ b) = length a.
Proof.
  intros Ha Hb. induction a as [|x a IH]; cbn in *.
  - destruct b as [|c b]; [done|]. cbn. by rewrite (Hb c b).
  - apply andb_true_iff in Ha as [-> Ha]. by rewrite IH.
Qed.
Lemma skip_count ws s : spaces ws -> solid s -> count_while is_space (ws ++ s) = length ws.
Proof. intros Hw (c & s' & -> & Hc). apply count_while_app; [done|]. by intros ? ? [= <- <-]. Qed.
Lemma skip_spaces ws s : spaces ws -> solid s -> skip (ws ++ s) = s.
Proof. intros Hw Hs. unfold skip. rewrite skip_count by done. apply drop_app_length. Qed.
Lemma solid_app s t : solid s -> solid (s ++ t).
Proof. intros (c & s' & -> & H). by exists c, (s' ++ t). Qed.

(** A keyword that is, and one that is not, ahead. *)
Lemma keyword_hit p ws w s : w <> [] -> isValidKeyword (ToLower w) = true -> spaces ws -> solid w ->
  rest_of p = ws ++ w ++ s -> pkeyword p [w] = (ahead p (length ws + length w), true).
Proof.
  intros Hne Hv Hws Hw E. rewrite pkeyword_single, E by done. unfold op_match.
  rewrite skip_spaces, skip_count by (done || by apply solid_app).
  assert (Hp : fold_prefix w (w ++ s) = true).
  { clear. induction w as [|a w IH]; cbn; [done|]. by rewrite bool_decide_true by done. }
  rewrite Hp. unfold ahead. by rewrite Nat.add_assoc.
Qed.
Lemma keyword_miss p ws w s : w <> [] -> isValidKeyword (ToLower w) = true -> spaces ws -> solid s ->
  rest_of p = ws ++ s -> fold_prefix w s = false -> pkeyword p [w] = (p, false).
Proof.
  intros Hne Hv Hws Hs E H. rewrite pkeyword_single, E by done. unfold op_match.
  by rewrite skip_spaces, H.
Qed.

(** What may follow an expression read at level [d]: no character that would
    prolong its last name, no operator of a level up to [d]. *)
Definition ends (rest : bytes) : Prop := forall c r, rest = c :: r -> isSym c = false.
Definition follow (d : nat) (rest : bytes) : Prop :=
  ends rest /\ forall e w t, (e <= d)%nat -> (w, t) ∈ ops_at e -> op_match w rest = false.
Lemma follow_le d d' rest : (d' <= d)%nat -> follow d rest -> follow d' rest.
Proof. intros H [H1 H2]. split; [done|]. intros e w t He. apply (H2 e w t). lia. Qed.

Lemma ops_valid e w t : (w, t) ∈ ops_at e -> w <> [] /\ isValidKeyword (ToLower w) = true /\ t ∈ bin_types /\
  op_level t = e /\ op_text t = w.
Proof.
  intros H. do 7 (destruct e as [|e]; [cbn in H; repeat (apply elem_of_cons in H as [[= -> ->]|H]; [by repeat split; vm_compute; repeat constructor|]);
    by apply not_elem_of_nil in H|]). by apply not_elem_of_nil in H.
Qed.
Lemma bin_op_at t : t ∈ bin_types -> (op_text t, t) ∈ ops_at (op_level t) /\ (2 <= op_level t <= 6)%nat.
Proof.
  intros H. unfold bin_types, cmp_types, log_types, num_types in H. cbn in H.
  repeat (apply elem_of_cons in H as [->|H]; [split; [vm_compute; repeat constructor|vm_compute; lia]|]).
  by apply not_elem_of_nil in H.
Qed.

Lemma first_op_none p ops e : ops = ops_at e ->
  (forall w t, (w, t) ∈ ops -> op_match w (rest_of p) = false) -> first_op p ops = None.
Proof.
  intros He H. assert (Hv : forall w t, (w, t) ∈ ops -> w <> [] /\ isValidKeyword (ToLower w) = true).
  { intros w t Hin. rewrite He in Hin. apply ops_valid in Hin. naive_solver. }
  clear He. induction ops as [|[w t] ops IH]; cbn [first_op]; [done|].
  destruct (Hv w t) as [V1 V2]; [apply elem_of_cons; by left|].
  rewrite pkeyword_single, (H w t) by (done || apply elem_of_cons; by left).
  apply IH; intros w' t' Hin; [apply (H w' t')|apply (Hv w' t')]; apply elem_of_cons; by right.
Qed.

Lemma set_idx_plus0 p : ahead p 0 = p.
Proof. unfold ahead. rewrite Nat.add_0_r. by destruct p. Qed.

(** Reading [s] as [n] at level [d] when [rest] follows. *)
Definition reads (fuel d : nat) (n : QLNode) (s rest : bytes) : Prop :=
  forall p ws, spaces ws -> rest_of p = ws ++ s ++ rest -> (length (rest_of p) <= fuel)%nat ->
  lev (pExprTuple fuel) d p = Ok (ahead p (length ws + length s), n).

Lemma lower_minus c : lower_byte c = Byte.x2d -> c = Byte.x2d.
Proof. by destruct c. Qed.
Lemma lower_open c : lower_byte c = Byte.x28 -> c = Byte.x28.
Proof. by destruct c. Qed.
Lemma prefix_hd_ne w a c s : lower_byte c <> lower_byte a -> fold_prefix (a :: w) (c :: s) = false.
Proof. intros H. cbn. by rewrite bool_decide_false. Qed.

(** A text that is no negation is read at every level above its own. *)
Lemma reads_up fuel e d n s rest : reads fuel e n s rest -> solid s ->
  (e = 0%nat -> forall s', s <> Byte.x2d :: s') -> follow d rest -> (e <= d)%nat -> reads fuel d n s rest.
Proof.
  intros Hr Hs Hm Hf. revert e Hr Hm. induction d as [|d IH]; intros e Hr Hm Hle.
  { by replace e with 0%nat in Hr by lia. }
  destruct (decide (e = S d)) as [->|Hne]; [done|].
  assert (Hd : reads fuel d n s rest) by (apply (IH ltac:(by apply (follow_le (S d)); [lia|]) e); [done|done|lia]).
  intros p ws Hws E Hl. destruct d as [|d].
  - cbn [lev]. unfold pExprUnOp, kw. destruct Hs as (c & s' & -> & Hc).
    rewrite (keyword_miss p ws (gostr "-") ((c :: s') ++ rest)); try done.
    + by apply (Hd p ws).
    + apply solid_app. by exists c, s'.
    + apply prefix_hd_ne. intros H%lower_minus. subst c. by apply (Hm ltac:(lia) s').
  - rewrite lev_binop by lia. cbn [pred]. unfold pExprBinOp. rstep (Hd p ws Hws E Hl). cbn [binop_loop].
    rewrite (first_op_none _ _ (S (S d))); [done|done|]. intros w t Hin.
    rewrite (rest_ahead_app3 _ _ _ _ E). destruct Hf as [_ Hf]. by apply (Hf (S (S d)) w t).
Qed.

(** The characters of names and numbers. *)
Lemma class_disjoint c : isSym c = true -> is_space c = false /\ isSymStart c = false /\
  lower_byte c <> Byte.x28 /\ c <> Byte.x2d.
Proof. destruct c; vm_compute; intros ?; repeat split; congruence. Qed.
Lemma letter_not_number c : is_letter c = true -> isNum c = false /\ isSym c = true.
Proof. destruct c; vm_compute; intros ?; split; congruence. Qed.
Lemma str_is_sym c : isStr c = true -> isSym c = true.
Proof. unfold isStr, isSym. by intros ->. Qed.
Lemma num_is_str c : isNum c = true -> isStr c = true.
Proof. unfold isStr, isNum. intros ->. by rewrite orb_true_r. Qed.
Lemma digit_is_num c : is_digit c = true -> isNum c = true.
Proof. unfold isNum, is_number. by intros ->. Qed.

Lemma between_rest p k : between p (pIdx p) (pIdx p + k) = take k (rest_of p).
Proof. unfold between, rest_of. f_equal. lia. Qed.
Lemma scan_ahead p f s rest : rest_of p = s ++ rest -> forallb f s = true ->
  (forall c r, rest = c :: r -> f c = false) ->
  count_while f (rest_of p) = length s /\ between p (pIdx p) (pIdx p + count_while f (rest_of p)) = s.
Proof.
  intros E Hs Hr. assert (Hc : count_while f (rest_of p) = length s) by (rewrite E; by apply count_while_app).
  split; [done|]. rewrite Hc, between_rest, E. apply take_app_length.
Qed.
Lemma ends_class f rest : ends rest -> (forall c, f c = true -> isSym c = true) ->
  forall c r, rest = c :: r -> f c = false.
Proof. intros He Hf c r ->. specialize (He c r eq_refl). destruct (f c) eqn:E; [|done]. by rewrite Hf in He. Qed.

(** The state after the spaces. *)
Lemma skip_to p ws s : spaces ws -> solid s -> rest_of p = ws ++ s ->
  skipSpace p = ahead p (length ws) /\ rest_of (ahead p (length ws)) = s /\
  bool_decide (length (pInput (ahead p (length ws))) <= pIdx (ahead p (length ws)))%nat = false.
Proof.
  intros Hw Hs E. split; [|split].
  - unfold skipSpace, ahead. by rewrite E, skip_count.
  - by apply rest_ahead_app.
  - apply bool_decide_eq_false. intros Hl.
    assert (Hr : rest_of (ahead p (length ws)) = s) by (by apply rest_ahead_app).
    unfold rest_of, ahead in Hr. cbn [set_idx pInput pIdx] in *. rewrite drop_ge in Hr by done.
    destruct Hs as (c & s' & -> & _). done.
Qed.

(** ** Leaves *)

Lemma byte_digit d : 0 <= d < 10 -> is_digit (byte.of_Z (48 + d)) = true /\ digit_val (byte.of_Z (48 + d)) = d.
Proof.
  intros H. unfold is_digit, in_range, digit_val. rewrite byte.unsigned_of_Z. unfold byte.wrap.
  rewrite Z.mod_small by lia. split; [apply andb_true_iff; rewrite !Z.leb_le; lia|lia].
Qed.
Definition num_value (s : bytes) : Z := fold_left (fun n b => 10 * n + digit_val b) s 0.
Lemma dec_spec fuel n : 0 <= n < 10 ^ Z.of_nat fuel ->
  forallb is_digit (dec fuel n) = true /\ num_value (dec fuel n) = n.
Proof.
  revert n. induction fuel as [|fuel IH]; intros n Hn; [cbn in Hn; cbn; split; [done|lia]|].
  rewrite Nat2Z.inj_succ, Z.pow_succ_r in Hn by lia.
  destruct (byte_digit (n mod 10)) as [D1 D2]; [apply Z.mod_pos_bound; lia|]. cbn [dec].
  destruct (Z.ltb_spec n 10) as [H|H].
  - unfold num_value. cbn [app forallb fold_left]. rewrite D1, D2. split; [done|].
    rewrite Z.mod_small; lia.
  - destruct (IH (n / 10)) as [I1 I2]; [split; [apply Z.div_pos; lia|apply Z.div_lt_upper_bound; lia]|].
    unfold num_value in *. rewrite forallb_app, fold_left_app, I1, I2. cbn [forallb fold_left]. rewrite D1, D2.
    split; [done|]. pose proof (Z.div_mod n 10). lia.
Qed.
Lemma dec_solid n : exists c s, dec 20 n = c :: s.
Proof. cbn [dec]. destruct (if n <? 10 then [] else _) as [|c s]; by eexists _, _. Qed.
Lemma Atoi_dec i : 0 <= i < 9223372036854775808 -> Atoi (dec 20 i) = Some i.
Proof.
  intros Hi. destruct (dec_spec 20 i) as [D1 D2]; [change (10 ^ Z.of_nat 20) with 100000000000000000000; lia|].
  unfold Atoi. rewrite D1. destruct (dec_solid i) as (c & s & E). rewrite bool_decide_false by (by rewrite E).
  fold (num_value (dec 20 i)). rewrite D2. by replace (i <? _) with true by (symmetry; apply Z.ltb_lt; lia).
Qed.
Lemma forallb_impl {A} (f g : A -> bool) l : (forall a, f a = true -> g a = true) ->
  forallb f l = true -> forallb g l = true.
Proof. intros H Hl. apply forallb_forall. intros a Ha. apply H. by apply (proj1 (forallb_forall f l)). Qed.

(** An atom that opens no parenthesis: the three token functions in order. *)
Lemma atom_leaf tup p ws c s : spaces ws -> is_space c = false -> lower_byte c <> Byte.x28 ->
  rest_of p = ws ++ c :: s ->
  pExprAtom tup p =
    let '(p, node, ok) := pSym p zeroNode in
    if (ok : bool) then Ok (p, node) else
    let '(p, node, ok) := pNum p node in
    if (ok : bool) then Ok (p, node) else
    let '(p, node, ok) := pStr p node in
    if (ok : bool) then Ok (p, node) else
    Ok (pErr p (gostr "expected symbol, number or string"), node).
Proof.
  intros Hw Hc Hl E. unfold pExprAtom, kw. rewrite (keyword_miss p ws (gostr "(") (c :: s)); try done.
  - by exists c, s.
  - by apply prefix_hd_ne.
Qed.

Lemma pSym_miss p n ws c s : spaces ws -> is_space c = false -> isSymStart c = false ->
  rest_of p = ws ++ c :: s -> pSym p n = (ahead p (length ws), n, false).
Proof.
  intros Hw Hc Hs E. destruct (skip_to p ws (c :: s) Hw) as (E1 & E2 & _); [by eexists _, _|done|].
  unfold pSym. by rewrite E1, E2, Hs.
Qed.
Lemma reads_sym fuel s rest : sym_ok s -> ends rest ->
  reads fuel 0 (mkNode (mkValue QL_SYM 0 s) []) (Byte.x40 :: s) rest.
Proof.
  intros [Hs Hk] He p ws Hw E _. cbn [lev app] in *.
  rewrite (atom_leaf _ p ws Byte.x40 (s ++ rest)); try done.
  destruct (skip_to p ws (Byte.x40 :: s ++ rest) Hw) as (E1 & E2 & _); [by eexists _, _|done|].
  unfold pSym. rewrite E1, E2. cbn [isSymStart in_range negb]. change (isSymStart Byte.x40) with true. cbn [negb].
  set (q := set_idx (S _) _). assert (Eq : rest_of q = s ++ rest).
  { unfold q. rewrite <- Nat.add_1_r. fold (ahead (ahead p (length ws)) 1). rewrite rest_ahead, E2. done. }
  destruct (scan_ahead q isSym s rest Eq Hs) as [S1 S2]; [by apply (ends_class isSym)|].
  rewrite S2, Hk. rewrite S1. f_equal. f_equal. unfold q, ahead, set_idx. cbn. f_equal. lia.
Qed.
Lemma reads_int fuel i rest : 0 <= i < 9223372036854775808 -> ends rest ->
  reads fuel 0 (mkNode (mkValue QL_I64 i []) []) (dec 20 i) rest.
Proof.
  intros Hi He p ws Hw E _. destruct (dec_spec 20 i) as [D1 _]; [change (10 ^ Z.of_nat 20) with 100000000000000000000; lia|].
  destruct (dec_solid i) as (c & s & Ed). pose proof D1 as D0. rewrite Ed in D0. cbn in D0. apply andb_true_iff in D0 as [Dc _].
  apply digit_is_num, num_is_str, str_is_sym in Dc. destruct (class_disjoint c Dc) as (C1 & C2 & C3 & C4).
  assert (Hsol : solid (dec 20 i ++ rest)) by (rewrite Ed; by exists c, (s ++ rest)).
  cbn [lev]. rewrite (atom_leaf _ p ws c (s ++ rest)) by (done || by rewrite E, Ed).
  destruct (skip_to p ws _ Hw Hsol E) as (E1 & E2 & E3).
  rewrite (pSym_miss p zeroNode ws c (s ++ rest)) by (done || by rewrite E, Ed). cbn beta iota. unfold pNum.
  set (q := ahead p (length ws)) in *. assert (Eq : skipSpace q = q).
  { destruct (skip_to q [] (dec 20 i ++ rest)) as (Eq & _); [done|done|done|]. rewrite Eq. apply set_idx_plus0. }
  rewrite Eq, E3. destruct (scan_ahead q isNum (dec 20 i) rest E2) as [S1 S2].
  { by apply (forallb_impl is_digit); [apply digit_is_num|]. }
  { apply (ends_class isNum); [done|]. intros a Ha. by apply str_is_sym, num_is_str. }
  rewrite S2, Atoi_dec by done. rewrite S1. f_equal. f_equal. unfold q, ahead, set_idx. cbn. f_equal. lia.
Qed.
Lemma reads_str fuel s rest : name_ok s -> ends rest ->
  reads fuel 0 (mkNode (mkValue QL_STR 0 s) []) s rest.
Proof.
  intros (Hs & (c & s' & Es & Hc) & Hk) He p ws Hw E _.
  destruct (letter_not_number c Hc) as [N1 N2]. destruct (class_disjoint c N2) as (C1 & C2 & C3 & C4).
  assert (Hsol : solid (s ++ rest)) by (rewrite Es; by exists c, (s' ++ rest)).
  cbn [lev]. rewrite (atom_leaf _ p ws c (s' ++ rest)) by (done || by rewrite E, Es).
  destruct (skip_to p ws _ Hw Hsol E) as (E1 & E2 & E3).
  rewrite (pSym_miss p zeroNode ws c (s' ++ rest)) by (done || by rewrite E, Es). cbn beta iota. unfold pNum.
  set (q := ahead p (length ws)) in *. assert (Eq : skipSpace q = q).
  { destruct (skip_to q [] (s ++ rest)) as (Eq & _); [done|done|done|]. rewrite Eq. apply set_idx_plus0. }
  rewrite Eq, E3. assert (E0 : count_while isNum (rest_of q) = 0%nat) by (rewrite E2, Es; cbn; by rewrite N1).
  rewrite E0, between_rest, take_0. change (Atoi []) with (@None Z). cbn iota. unfold pStr. rewrite Eq, E3.
  destruct (scan_ahead q isStr s rest E2 Hs) as [S1 S2]; [by apply (ends_class isStr); [|apply str_is_sym]|].
  rewrite S2, Hk, S1. f_equal. f_equal. unfold q, ahead, set_idx. cbn. f_equal. lia.
Qed.

(** ** What follows an operand *)

Lemma follow_stop c r : c ∈ [Byte.x29; Byte.x2c; Byte.x3b] -> follow 6 (c :: r).
Proof.
  intros Hc. split.
  - intros c' r' [= <- <-]. repeat (apply elem_of_cons in Hc as [->|Hc]; [done|]). by apply not_elem_of_nil in Hc.
  - intros e w t _ H. do 7 (destruct e as [|e]; [cbn in H;
      repeat (apply elem_of_cons in H as [[= -> ->]|H];
        [repeat (apply elem_of_cons in Hc as [->|Hc]; [done|]); by apply not_elem_of_nil in Hc|]);
      by apply not_elem_of_nil in H|]). by apply not_elem_of_nil in H.
Qed.
Lemma follow_op t r d : t ∈ bin_types -> (d < op_level t)%nat -> follow d (sp ++ op_text t ++ sp ++ r).
Proof.
  intros Ht Hd. split; [by intros c r' [= <- <-]|]. intros e w t' He H.
  unfold bin_types, cmp_types, log_types, num_types in Ht. cbn in Ht.
  repeat (apply elem_of_cons in Ht as [->|Ht];
    [vm_compute in Hd; do 7 (destruct e as [|e]; [try lia; cbn in H;
      repeat (apply elem_of_cons in H as [[= -> ->]|H]; [reflexivity|]); by apply not_elem_of_nil in H|]); lia|]).
  by apply not_elem_of_nil in Ht.
Qed.
Ltac eval_match :=
  match goal with
  | |- context [op_match ?w ?s] =>
      let b := eval vm_compute in (op_match w s) in change (op_match w s) with b; cbn beta iota
  end.
(** At its own level the operator is found. *)
Lemma first_op_hit p t r : t ∈ bin_types -> rest_of p = sp ++ op_text t ++ sp ++ r ->
  first_op p (ops_at (op_level t)) = Some (ahead p (1 + length (op_text t)), t).
Proof.
  intros Ht E. assert (HM : forall w, w <> [] -> isValidKeyword (ToLower w) = true ->
     pkeyword p [w] = if op_match w (rest_of p) then (ahead p (1 + length w), true) else (p, false)).
  { intros w H1 H2. rewrite pkeyword_single by done.
    assert (Hc : count_while is_space (rest_of p) = 1%nat).
    { rewrite E. apply (skip_count sp); [done|]. destruct (bin_op_at t Ht) as [Hin _].
      destruct (ops_valid _ _ _ Hin) as (Hne & _). unfold bin_types, cmp_types, log_types, num_types in Ht. cbn in Ht.
      clear -Ht. repeat (apply elem_of_cons in Ht as [->|Ht]; [by eexists _, _|]). by apply not_elem_of_nil in Ht. }
    rewrite Hc. unfold ahead. by rewrite Nat.add_assoc. }
  unfold bin_types, cmp_types, log_types, num_types in Ht. cbn in Ht. rewrite E in HM.
  repeat (apply elem_of_cons in Ht as [->|Ht];
    [vm_compute (ops_at _); cbn [first_op]; repeat (rewrite HM; [eval_match|done|reflexivity]); reflexivity|]).
  by apply not_elem_of_nil in Ht.
Qed.

(** ** Parentheses and tuples *)

Lemma keyword_stop_miss p c r w : c ∈ [Byte.x29; Byte.x2c; Byte.x3b] -> w ∈ map gostr [","; ")"]%string ->
  w <> [c] -> rest_of p = c :: r -> pkeyword p [w] = (p, false).
Proof.
  intros Hc Hw Hne E. cbn in Hw.
  repeat (apply elem_of_cons in Hw as [->|Hw];
    [repeat (apply elem_of_cons in Hc as [->|Hc];
      [first [done | eapply (keyword_miss p []); [done|reflexivity|done| |exact E|reflexivity]; by eexists _, _]|]);
     by apply not_elem_of_nil in Hc|]).
  by apply not_elem_of_nil in Hw.
Qed.

Definition items (kids : list QLNode) : bytes := concat (map (fun k => Byte.x2c :: sp ++ print 6 k) kids).
Lemma tuple_loop_reads f kids :
  Forall (fun k => solid (print 6 k) /\ forall rest, follow 6 rest -> reads f 6 k (print 6 k) rest) kids ->
  forall p acc rest fuel, rest_of p = items kids ++ close ++ rest -> (length (rest_of p) <= f)%nat ->
  (length kids < fuel)%nat ->
  tuple_loop (pExprTuple f) fuel p acc = Ok (ahead p (length (items kids)), acc ++ kids).
Proof.
  induction 1 as [|k kids [Hs Hk] Hks IH]; intros p acc rest fuel E Hl Hf; (destruct fuel as [|fuel]; [cbn in Hf; lia|]); cbn [tuple_loop]; unfold kw.
  - rewrite (keyword_stop_miss p Byte.x29 rest (gostr ",")); [|set_solver|cbn; set_solver|done|done].
    cbn [items map concat length]. by rewrite set_idx_plus0, app_nil_r.
  - unfold items in E. cbn [map concat] in E. fold (items kids) in E.
    rewrite <- app_assoc in E.
    assert (EH : pkeyword p [gostr ","] = (ahead p 1, true)).
    { apply (keyword_hit p [] (gostr ",") ((sp ++ print 6 k) ++ items kids ++ close ++ rest)); [done|done|done| |exact E].
      by exists Byte.x2c, []. }
    rewrite EH. set (p1 := ahead p 1).
    assert (E1 : rest_of p1 = sp ++ print 6 k ++ items kids ++ close ++ rest).
    { unfold p1. by rewrite rest_ahead, E. }
    assert (Hl1 : (length (rest_of p1) <= f)%nat) by (unfold p1; rewrite rest_ahead, length_drop; lia).
    rewrite <- lev_or. rstep (Hk (items kids ++ close ++ rest)
      ltac:(destruct kids; apply follow_stop; cbn; set_solver) p1 sp eq_refl E1 Hl1).
    set (p2 := ahead p1 _). assert (E2 : rest_of p2 = items kids ++ close ++ rest) by (by apply rest_ahead_app3 with (b := print 6 k)).
    rewrite (IH p2 (acc ++ [k]) rest fuel E2).
    + rewrite <- app_assoc. unfold p2, p1. rewrite !ahead_ahead. do 3 f_equal.
      unfold items. cbn [map concat]. rewrite length_app. cbn [length]. rewrite length_app. cbn. lia.
    + unfold p2. rewrite rest_ahead, length_drop. lia.
    + cbn in Hf. lia.
Qed.

(** The inside of a tuple, up to the closing parenthesis: one item is itself,
    several make a tuple node. *)
Definition item_reads (f : nat) (k : QLNode) : Prop :=
  solid (print 6 k) /\ forall r, follow 6 r -> reads f 6 k (print 6 k) r.
Definition tuple_node (k : QLNode) (kids : list QLNode) : QLNode :=
  match kids with [] => k | _ => set_kids (k :: kids) (set_type QL_TUP zeroNode) end.
Lemma items_length kids : (length kids <= length (items kids))%nat.
Proof.
  unfold items. induction kids as [|a l IH]; [done|]. cbn [map concat length]. rewrite length_app. cbn [length]. lia.
Qed.
Lemma tuple_body_reads f k kids p ws rest : spaces ws ->
  rest_of p = ws ++ print 6 k ++ items kids ++ close ++ rest -> (length (rest_of p) <= f)%nat ->
  item_reads f k -> Forall (item_reads f) kids ->
  tuple_body (pExprTuple f) p = Ok (ahead p (length ws + length (print 6 k) + length (items kids)), tuple_node k kids).
Proof.
  intros Hw E Hl [_ Hk] Hks. unfold tuple_body.
  rewrite <- lev_or. rstep (Hk (items kids ++ close ++ rest)
      ltac:(destruct kids; apply follow_stop; cbn; set_solver) p ws Hw E Hl).
  set (p2 := ahead p _).
  assert (E2 : rest_of p2 = items kids ++ close ++ rest) by (by apply (rest_ahead_app3 p ws (print 6 k))).
  pose proof (items_length kids) as Hik.
  assert (Hp2 : (length (rest_of p2) <= length (pInput p2))%nat) by (unfold rest_of; rewrite length_drop; lia).
  rstep (tuple_loop_reads f kids Hks p2 [k] rest (S (length (pInput p2))) E2
    ltac:(unfold p2; rewrite rest_ahead, length_drop; lia) ltac:(rewrite E2, length_app in Hp2; lia)).
  cbn [app]. unfold p2. rewrite ahead_ahead. by destruct kids.
Qed.

(** An atom in parentheses, from what is inside. *)
Lemma reads_tuple fuel n k kids rest :
  (forall f, fuel = S f -> item_reads f k) -> (forall f, fuel = S f -> Forall (item_reads f) kids) ->
  n = tuple_node k kids ->
  reads fuel 0 n (open ++ print 6 k ++ items kids ++ close) rest.
Proof.
  intros Hk Hks -> p ws Hw E Hl. cbn [lev]. unfold pExprAtom, kw.
  assert (EO : pkeyword p [gostr "("] = (ahead p (length ws + 1), true)).
  { apply (keyword_hit p ws (gostr "(") (print 6 k ++ items kids ++ close ++ rest)); [done|done|done| |].
    - by exists Byte.x28, [].
    - by rewrite E, <- !app_assoc. }
  rewrite EO. set (p1 := ahead p (length ws + 1)).
  assert (E1 : rest_of p1 = print 6 k ++ items kids ++ close ++ rest).
  { unfold p1. apply (rest_ahead_app3 p ws open). by rewrite E, <- !app_assoc. }
  assert (Hlen : (length (rest_of p) = length ws + 1 + length (rest_of p1))%nat).
  { rewrite E1, E. rewrite !length_app. cbn. lia. }
  destruct fuel as [|f]; [lia|]. cbn [pExprTuple].
  rstep (tuple_body_reads f k kids p1 [] rest eq_refl E1 ltac:(lia) (Hk f eq_refl) (Hks f eq_refl)).
  set (p3 := ahead p1 _).
  assert (E3 : rest_of p3 = close ++ rest).
  { unfold p3. cbn [length Nat.add]. apply (rest_ahead_app3 p1 (print 6 k)). by rewrite E1. }
  assert (EH : pkeyword p3 [gostr ")"] = (ahead p3 1, true)).
  { apply (keyword_hit p3 [] (gostr ")") rest); try done. by exists Byte.x29, []. }
  rewrite EH. unfold p3, p1. rewrite !ahead_ahead. do 3 f_equal. rewrite !length_app. cbn. lia.
Qed.

(** ** Every node *)

Definition body (n : QLNode) : bytes :=
  let 'mkNode v kids := n in
  match kids with
  | [] => leaf_text v
  | k :: kids' =>
      if decide (vType v = QL_NEG) then Byte.x2d :: print 0 k
      else if decide (vType v = QL_TUP) then open ++ print 6 k ++ items kids' ++ close
      else match kids' with
        | r :: _ => print (op_level (vType v)) k ++ sp ++ op_text (vType v) ++ sp ++ print (pred (op_level (vType v))) r
        | [] => []
        end
  end.
Lemma print_eq d n : print d n = if (d <? node_level n)%nat then open ++ body n ++ close else body n.
Proof. by destruct n as [v [|k kids]]. Qed.
Lemma print_low d n : (node_level n <= d)%nat -> print d n = body n.
Proof. intros H. rewrite print_eq. by rewrite (proj2 (Nat.ltb_ge _ _) H). Qed.
Lemma print_high d n : (d < node_level n)%nat -> print d n = open ++ body n ++ close.
Proof. intros H. rewrite print_eq. by rewrite (proj2 (Nat.ltb_lt _ _) H). Qed.
Lemma node_level_bin t l r : t ∈ bin_types -> node_level (mkNode (valWithType t) [l; r]) = op_level t.
Proof.
  intros H. unfold bin_types, cmp_types, log_types, num_types in H. cbn in H.
  repeat (apply elem_of_cons in H as [->|H]; [done|]). by apply not_elem_of_nil in H.
Qed.
Lemma body_bin t l r : t ∈ bin_types -> body (mkNode (valWithType t) [l; r]) =
  print (op_level t) l ++ sp ++ op_text t ++ sp ++ print (pred (op_level t)) r.
Proof.
  intros H. unfold bin_types, cmp_types, log_types, num_types in H. cbn in H.
  repeat (apply elem_of_cons in H as [->|H]; [reflexivity|]). by apply not_elem_of_nil in H.
Qed.
Lemma node_level_le n : printable n -> (node_level n <= 6)%nat.
Proof.
  destruct 1 as [| | | |t l r Ht _ _|]; [vm_compute; lia..| |vm_compute; lia].
  pose proof (bin_op_at t Ht). rewrite node_level_bin by done. lia.
Qed.

(** Printed text starts with a character that is no space, and with a minus
    only for a negation. *)
Lemma print_solid_of_body n d : solid (body n) -> solid (print d n).
Proof.
  intros H. rewrite print_eq. case_match; [|done]. by exists Byte.x28, (body n ++ close).
Qed.
Lemma leaf_first c s : isSym c = true -> solid (c :: s) /\ forall s', c :: s <> Byte.x2d :: s'.
Proof.
  intros H. destruct (class_disjoint c H) as (H1 & _ & _ & H2).
  split; [by exists c, s|]. by intros s' [= -> _].
Qed.
Lemma body_solid n : printable n ->
  solid (body n) /\ (node_level n = 0%nat -> forall s, body n <> Byte.x2d :: s).
Proof.
  intros H. induction H as [s Hs|s Hs|i Hi|k IH|t l r Ht IHl IHr|k1 k2 kids IH1 IH2 _] using printable_nested.
  - destruct Hs as (_ & (c & s' & -> & Hc) & _). apply letter_not_number in Hc as [_ Hc].
    destruct (leaf_first c s' Hc). done.
  - split; [by exists Byte.x40, s|done].
  - destruct (dec_solid i) as (c & s & E). cbn [body leaf_text]. change (leaf_text _) with (dec 20 i). rewrite E.
    destruct (dec_spec 20 i) as [D _]; [change (10 ^ Z.of_nat 20) with 100000000000000000000; lia|].
    rewrite E in D. cbn in D. apply andb_true_iff in D as [D _].
    apply digit_is_num, num_is_str, str_is_sym in D. destruct (leaf_first c s D). done.
  - split; [by exists Byte.x2d, (print 0 k)|done].
  - rewrite body_bin, node_level_bin by done. split.
    + apply solid_app, print_solid_of_body, IHl.
    + intros E. destruct (bin_op_at t Ht). lia.
  - split; [by eexists _, _|done].
Qed.
Lemma print_solid d n : printable n -> solid (print d n).
Proof. intros H. by apply print_solid_of_body, body_solid. Qed.

(** The loop at the level of an operator, started by its left operand. *)
Definition loops (fuel e : nat) (n : QLNode) (s rest : bytes) : Prop :=
  forall p ws, spaces ws -> rest_of p = ws ++ s ++ rest -> (length (rest_of p) <= fuel)%nat ->
  exists f, (length rest < f)%nat /\ lev (pExprTuple fuel) e p =
    binop_loop f (ops_at e) (lev (pExprTuple fuel) (pred e)) (ahead p (length ws + length s)) n.

Lemma loops_operand fuel e n s rest : (2 <= e)%nat -> reads fuel (pred e) n s rest -> loops fuel e n s rest.
Proof.
  intros He Hr p ws Hw E Hl. rewrite lev_binop by done. unfold pExprBinOp. rstep (Hr p ws Hw E Hl).
  eexists. split; [|reflexivity]. cbn [ahead set_idx pInput].
  assert (H : (length (rest_of p) <= length (pInput p))%nat) by (unfold rest_of; rewrite length_drop; lia).
  rewrite E, !length_app in H. lia.
Qed.
Lemma loops_bin fuel t l r rest : t ∈ bin_types -> let e := op_level t in
  (forall rest, follow (pred e) rest -> loops fuel e l (print e l) rest) ->
  (forall rest, follow (pred e) rest -> reads fuel (pred e) r (print (pred e) r) rest) ->
  follow (pred e) rest ->
  loops fuel e (mkNode (valWithType t) [l; r]) (body (mkNode (valWithType t) [l; r])) rest.
Proof.
  intros Ht e Hl Hr Hf p ws Hw E Hlen. rewrite body_bin in E |- * by done. fold e in E |- *.
  destruct (bin_op_at t Ht) as [_ He]. fold e in He.
  rewrite <- !app_assoc in E.
  destruct (Hl (sp ++ op_text t ++ sp ++ print (pred e) r ++ rest)) with (p := p) (ws := ws) as (f & Hf1 & E1);
    [apply follow_op; [done|lia]|done|done|done|]. rewrite E1.
  set (p1 := ahead p _) in *.
  assert (R1 : rest_of p1 = sp ++ op_text t ++ sp ++ print (pred e) r ++ rest) by (by apply rest_ahead_app3).
  destruct f as [|f]; [lia|]. cbn [binop_loop].
  pose proof (first_op_hit p1 t (print (pred e) r ++ rest) Ht R1) as E2. fold e in E2. rewrite E2.
  set (p2 := ahead p1 _).
  assert (R2 : rest_of p2 = sp ++ print (pred e) r ++ rest) by (by apply (rest_ahead_app3 p1 sp)).
  rstep (Hr rest Hf p2 sp eq_refl R2 ltac:(unfold p2, p1; rewrite !rest_ahead, !length_drop; lia)).
  exists f. split; [rewrite !length_app in Hf1; cbn in Hf1; lia|]. unfold p2, p1. rewrite !ahead_ahead.
  do 2 f_equal. rewrite !length_app. cbn. lia.
Qed.

Lemma reads_loop fuel e n s rest : (2 <= e)%nat -> follow e rest -> loops fuel e n s rest -> reads fuel e n s rest.
Proof.
  intros He [_ Hf] Hl p ws Hw E Hlen. destruct (Hl p ws Hw E Hlen) as (f & Hf1 & ->).
  destruct f as [|f]; [lia|]. cbn [binop_loop]. rewrite (first_op_none _ _ e); [done|done|].
  intros w t Hin. rewrite (rest_ahead_app3 _ _ _ _ E). by apply (Hf e w t).
Qed.

(** What is proved of every node. *)
Definition prints (n : QLNode) : Prop :=
  printable n /\
  (forall d fuel rest, (d <= 6)%nat -> follow d rest -> reads fuel d n (print d n) rest) /\
  (forall e fuel rest, (2 <= e <= 6)%nat -> follow (pred e) rest -> loops fuel e n (print e n) rest).

(** It is enough to read the bare text at the node's own level. *)
Lemma prints_core n : printable n -> let e := node_level n in
  (forall fuel rest, follow e rest -> reads fuel e n (body n) rest) ->
  (forall fuel rest, (2 <= e)%nat -> follow (pred e) rest -> loops fuel e n (body n) rest) ->
  prints n.
Proof.
  intros Hp e Hr Hl. pose proof (node_level_le n Hp) as He. fold e in He. split; [done|].
  destruct (body_solid n Hp) as [Hs Hm]. fold e in Hm.
  assert (Hbare : forall d fuel rest, (e <= d)%nat -> follow d rest -> reads fuel d n (body n) rest).
  { intros d fuel rest Hd Hf. apply (reads_up fuel e); [|done|done|done|done]. apply Hr. by apply (follow_le d). }
  assert (Hread : forall d fuel rest, (d <= 6)%nat -> follow d rest -> reads fuel d n (print d n) rest).
  { intros d fuel rest Hd Hf. destruct (decide (e <= d)%nat) as [Hle|Hgt].
    - rewrite print_low by done. by apply Hbare.
    - rewrite print_high by (fold e; lia).
      assert (Hpar : reads fuel 0 n (open ++ print 6 n ++ items [] ++ close) rest).
      { apply (reads_tuple fuel n n []); [|by constructor|done]. intros f _. split; [by apply print_solid|].
        intros r Hf'. rewrite print_low by done. by apply Hbare. }
      rewrite print_low in Hpar by done. apply (reads_up fuel 0); [done|by eexists _, _|by intros _ s|done|lia]. }
  split; [done|]. intros e' fuel rest He' Hf. destruct (decide (e' = e)) as [->|Hne].
  - rewrite print_low by done. apply Hl; [lia|done].
  - assert (E : print e' n = print (pred e') n).
    { rewrite !print_eq. fold e. replace (e' <? e)%nat with (pred e' <? e)%nat; [done|].
      apply Bool.eq_iff_eq_true. rewrite !Nat.ltb_lt. lia. }
    rewrite E. apply loops_operand; [lia|]. apply Hread; [lia|done].
Qed.

Lemma reads_neg fuel k rest : prints k -> follow 1 rest ->
  reads fuel 1 (mkNode (valWithType QL_NEG) [k]) (Byte.x2d :: print 0 k) rest.
Proof.
  intros (_ & Hk & _) Hf p ws Hw E Hl. cbn [lev]. unfold pExprUnOp, kw.
  assert (EH : pkeyword p [gostr "-"] = (ahead p (length ws + 1), true)).
  { apply (keyword_hit p ws (gostr "-") (print 0 k ++ rest)); [done|done|done| |done]. by eexists _, _. }
  rewrite EH. set (p1 := ahead p _).
  assert (E1 : rest_of p1 = print 0 k ++ rest) by (by apply (rest_ahead_app3 p ws [Byte.x2d])).
  pose proof (Hk 0%nat fuel rest ltac:(lia) ltac:(by apply (follow_le 1); [lia|]) p1 [] eq_refl E1
    ltac:(unfold p1; rewrite rest_ahead, length_drop; lia)) as Hread. cbn [lev] in Hread. rstep Hread.
  unfold p1. rewrite ahead_ahead. do 3 f_equal. cbn. lia.
Qed.

Lemma printable_prints n : printable n -> prints n.
Proof.
  intros H. induction H as [s Hs|s Hs|i Hi|k IH|t l r Ht IHl IHr|k1 k2 kids IH1 IH2 IHs] using printable_nested.
  - apply prints_core; [by constructor| |intros ? ? H2; exfalso; revert H2; vm_compute; lia]. intros fuel rest [He _]. by apply reads_str.
  - apply prints_core; [by constructor| |intros ? ? H2; exfalso; revert H2; vm_compute; lia]. intros fuel rest [He _]. by apply reads_sym.
  - apply prints_core; [by constructor| |intros ? ? H2; exfalso; revert H2; vm_compute; lia]. intros fuel rest [He _]. by apply reads_int.
  - apply prints_core; [constructor; apply IH| |intros ? ? H2; exfalso; revert H2; vm_compute; lia]. intros fuel rest Hf. by apply reads_neg.
  - destruct IHl as (Pl & _ & Ll), IHr as (Pr & Rr & _). destruct (bin_op_at t Ht) as [_ He].
    assert (HL : forall fuel rest, follow (pred (op_level t)) rest ->
      loops fuel (op_level t) (mkNode (valWithType t) [l; r]) (body (mkNode (valWithType t) [l; r])) rest).
    { intros fuel rest Hf. apply loops_bin; [done| | |done].
      - intros rest' Hf'. apply Ll; [lia|done].
      - intros rest' Hf'. apply Rr; [lia|done]. }
    apply prints_core; [by constructor| |]; rewrite node_level_bin by done.
    + intros fuel rest Hf. apply reads_loop; [lia|done|]. apply HL. by apply (follow_le (op_level t)); [lia|].
    + intros fuel rest _ Hf. by apply HL.
  - destruct IH1 as (P1 & R1 & _), IH2 as (P2 & R2 & _).
    assert (Hks : Forall printable kids) by (eapply list.Forall_impl; [exact IHs|]; by intros k (? & _)).
    apply prints_core; [by constructor| |intros ? ? H2; exfalso; revert H2; vm_compute; lia]. intros fuel rest Hf. cbn [node_level].
    apply (reads_tuple fuel _ k1 (k2 :: kids)); [| |done].
    + intros f _. split; [by apply print_solid|]. intros; by apply R1.
    + intros f _. apply list.Forall_cons. split; [split; [by apply print_solid|intros; by apply R2]|].
      eapply list.Forall_impl; [exact IHs|]. intros k (Pk & Rk & _). split; [by apply print_solid|].
      intros; by apply Rk.
Qed.

(** C26: the expression grammar.  Written with parentheses only where precedence
    (or, and, comparisons, sums, products, negation, from weakest to strongest)
    and left associativity require them, with spaces in front or not, every
    printable node is parsed back exactly, up to where its text ends, whenever
    what follows neither prolongs a name nor is an operator. *)
Theorem parse_print n p ws rest : printable n -> spaces ws -> follow 6 rest ->
  rest_of p = ws ++ print 6 n ++ rest ->
  expr_or p = Ok (ahead p (length ws + length (print 6 n)), n).
Proof.
  intros Hn Hw Hf E. destruct (printable_prints n Hn) as (_ & H & _).
  unfold expr_or. rewrite <- lev_or. apply (H 6%nat (expr_fuel p) rest); [lia|done|done|done|].
  unfold expr_fuel, rest_of. rewrite length_drop. lia.
Qed.

Definition node_str (s : string) : QLNode := mkNode (mkValue QL_STR 0 (gostr s)) [].
Definition node_sym (s : string) : QLNode := mkNode (mkValue QL_SYM 0 (gostr s)) [].
Definition node_int (i : Z) : QLNode := mkNode (mkValue QL_I64 i []) [].
Definition node_bin (t : Z) (l r : QLNode) : QLNode := mkNode (valWithType t) [l; r].
(** [@a + 2 * -(@b - 1) <= x or (name)] *)
Definition ex_node : QLNode :=
  node_bin QL_OR
    (node_bin QL_CMP_LE
      (node_bin QL_ADD (node_sym "a")
        (node_bin QL_MUL (node_int 2) (mkNode (valWithType QL_NEG) [node_bin QL_SUB (node_sym "b") (node_int 1)])))
      (node_str "x"))
    (node_str "name").
Lemma ex_node_printable : printable ex_node.
Proof.
  assert (Hn : forall s c s', gostr s = c :: s' -> is_letter c = true -> forallb isStr (gostr s) = true ->
    isValidKeyword (ToLower (gostr s)) = false -> printable (node_str s)).
  { intros s c s' E Hc Hf Hk. constructor. split; [done|]. split; [by exists c, s'|done]. }
  assert (Hs : forall s, forallb isSym (gostr s) = true -> isValidKeyword (ToLower (gostr s)) = false ->
    printable (node_sym s)) by (intros; by constructor).
  assert (Ht : forall t l r, bool_decide (t ∈ bin_types) = true -> printable l -> printable r -> printable (node_bin t l r)).
  { intros t l r Ht%bool_decide_eq_true. by constructor. }
  apply Ht; [reflexivity| |by eapply Hn]. apply Ht; [reflexivity| |by eapply Hn].
  apply Ht; [reflexivity|by apply Hs|]. apply Ht; [reflexivity|by constructor|]. constructor.
  apply Ht; [reflexivity|by apply Hs|by constructor].
Qed.
Lemma follow_nil : follow 6 [].
Proof. split; [done|]. intros e w t _ H. apply ops_valid in H as (H & _). by destruct w. Qed.
Lemma parse_print_witness :
  expr_or (new_parser (gostr "  @a + 2 * -(@b - 1) <= x or name") []) =
    Ok (ahead (new_parser (gostr "  @a + 2 * -(@b - 1) <= x or name") []) 33, ex_node).
Proof.
  apply (parse_print ex_node (new_parser (gostr "  @a + 2 * -(@b - 1) <= x or name") []) (gostr "  ") []);
    [apply ex_node_printable|reflexivity|apply follow_nil|reflexivity].
Defined.

(** ** The insert statement *)

Definition tuple_text (k : QLNode) (kids : list QLNode) : bytes := open ++ print 6 k ++ items kids ++ close.
Definition insert_text (t : bytes) (c : QLNode) (cs : list QLNode) (v : QLNode) (vs : list QLNode) : bytes :=
  gostr "insert into " ++ t ++ sp ++ tuple_text c cs ++ gostr " values " ++ tuple_text v vs ++ gostr ";".

Lemma keyword_cons_miss p w ws : pkeyword p [w] = (p, false) -> pkeyword p (w :: ws) = (p, false).
Proof.
  unfold pkeyword. cbn [pkeyword_loop]. case_bool_decide; [done|].
  destruct (negb _ || negb _); [done|]. by intros [= E].
Qed.
Lemma keyword_two p a b q q' : pkeyword p [a] = (q, true) -> pkeyword q [b] = (q', true) ->
  pkeyword p [a; b] = (q', true).
Proof.
  unfold pkeyword. cbn [pkeyword_loop]. case_bool_decide; [done|]. destruct (negb _ || negb _); [done|].
  intros [= <-]. cbn [set_idx pIdx]. destruct (bool_decide _); [done|]. by destruct (negb _ || negb _).
Qed.
Lemma expect_hit p ws w s m : w <> [] -> isValidKeyword (ToLower w) = true -> spaces ws -> solid w ->
  rest_of p = ws ++ w ++ s -> expect p [w] m = ahead p (length ws + length w).
Proof. intros. unfold expect. by rewrite (keyword_hit p ws w s). Qed.
Lemma pMustSym_reads p ws t rest : spaces ws -> solid t -> forallb isSym t = true ->
  rest_of p = ws ++ t ++ rest -> ends rest -> pMustSym p = (ahead p (length ws + length t), t).
Proof.
  intros Hw Hs Ht E He. destruct (skip_to p ws (t ++ rest) Hw) as (E1 & E2 & E3); [by apply solid_app|done|].
  unfold pMustSym. rewrite E1, E3.
  destruct (scan_ahead _ isSym t rest E2 Ht) as [S1 S2]; [by apply (ends_class isSym)|].
  rewrite S2, S1. by rewrite <- ahead_ahead.
Qed.
Lemma tuple_reads p ws k kids rest : spaces ws -> printable k -> Forall printable kids ->
  rest_of p = ws ++ print 6 k ++ items kids ++ close ++ rest ->
  tuple p = Ok (ahead p (length ws + length (print 6 k) + length (items kids)), tuple_node k kids).
Proof.
  intros Hw Hk Hks E. assert (HI : forall f n, printable n -> item_reads f n).
  { intros f n Hn. split; [by apply print_solid|]. intros r Hf.
    destruct (printable_prints n Hn) as (_ & H & _). apply H; [lia|done]. }
  unfold tuple, expr_fuel. cbn [pExprTuple]. apply (tuple_body_reads _ k kids p ws rest); [done|done| |by apply HI|].
  - unfold rest_of. rewrite length_drop. lia.
  - eapply list.Forall_impl; [exact Hks|]. intros n. apply HI.
Qed.

(** A later position of the same parser. *)
Definition is_ahead (p q : Parser) : Prop := exists k, q = ahead p k.
#[export] Instance is_ahead_preorder : PreOrder is_ahead.
Proof.
  split; [intros p; exists 0%nat; symmetry; apply set_idx_plus0|].
  intros a b c [k ->] [k' ->]. exists (k + k')%nat. apply ahead_ahead.
Qed.
Ltac step_to q p A :=
  set (q := ahead p _) in *; assert (A : is_ahead p q) by (by eexists); clearbody q.

Lemma paren_tuple_reads p k kids rest m1 m2 : printable k -> Forall printable kids ->
  rest_of p = sp ++ open ++ print 6 k ++ items kids ++ close ++ rest ->
  exists q, is_ahead p q /\ rest_of q = rest /\
    exists q1, tuple (expect p (kw "(") m1) = Ok (q1, tuple_node k kids) /\ expect q1 (kw ")") m2 = q.
Proof.
  intros Hk Hks E. unfold kw.
  rewrite (expect_hit p sp (gostr "(") _ _ ltac:(done) ltac:(by vm_compute) eq_refl ltac:(by eexists _, _) E).
  apply (rest_ahead_app3 p sp (gostr "(")) in E. step_to p2 p A2.
  rewrite (tuple_reads p2 [] k kids _ eq_refl Hk Hks E). rewrite app_assoc in E. cbn [length Nat.add].
  apply rest_ahead_app in E. rewrite length_app in E. step_to p3 p2 A3.
  eexists. split; [|split; [|exists p3; split; [done|reflexivity]]].
  - rewrite (expect_hit p3 [] (gostr ")") _ _ ltac:(done) ltac:(by vm_compute) eq_refl ltac:(by eexists _, _) E).
    etransitivity; [exact A2|]. etransitivity; [exact A3|]. by eexists.
  - rewrite (expect_hit p3 [] (gostr ")") _ _ ltac:(done) ltac:(by vm_compute) eq_refl ltac:(by eexists _, _) E).
    by apply (rest_ahead_app3 p3 [] (gostr ")")) in E.
Qed.

(** [pInsert] from the results of its calls. *)
Lemma pInsert_run p p1 t q1 c q2 v :
  let m := "invalid insert query syntax"%string in
  pMustSym p = (p1, t) -> tuple (expect p1 (kw "(") m) = Ok (q1, c) ->
  tuple (expect (expect (expect q1 (kw ")") m) (kw "values") m) (kw "(") m) = Ok (q2, v) ->
  pInsert p = Ok (expect (expect q2 (kw ")") m) (kw ";") m,
    Some (mkInsert t (map nStr (nKids c)) (nKids v) false)).
Proof.
  intros m E1 E2 E3. unfold pInsert. fold m. rewrite E1. cbv beta iota zeta.
  rewrite E2, bind_Ok. cbv beta iota zeta. by rewrite E3, bind_Ok.
Qed.

Lemma pInsert_parse p t c cs v vs : forallb isSym t = true -> solid t ->
  printable c -> Forall printable cs -> printable v -> Forall printable vs ->
  rest_of p = sp ++ t ++ sp ++ open ++ print 6 c ++ items cs ++ close ++ sp ++ gostr "values" ++ sp ++
    open ++ print 6 v ++ items vs ++ close ++ gostr ";" ->
  exists q, is_ahead p q /\ pInsert p = Ok (q, Some (mkInsert t (map nStr (nKids (tuple_node c cs))) (nKids (tuple_node v vs)) false)).
Proof.
  intros Ht Hts Hc Hcs Hv Hvs E. set (m := "invalid insert query syntax"%string).
  pose proof (pMustSym_reads p sp t _ eq_refl Hts Ht E ltac:(by intros ? ? [= <-])) as E1.
  apply rest_ahead_app3 in E. step_to p1 p A1.
  destruct (paren_tuple_reads p1 c cs _ m m Hc Hcs E) as (p2 & A2 & R2 & q1 & T1 & E2).
  assert (E3 : expect p2 (kw "values") m = ahead p2 (length sp + length (gostr "values"))).
  { apply (expect_hit p2 sp (gostr "values") _ _ ltac:(done) ltac:(by vm_compute) eq_refl ltac:(by eexists _, _) R2). }
  apply (rest_ahead_app3 p2 sp (gostr "values")) in R2. step_to p3 p2 A3.
  destruct (paren_tuple_reads p3 v vs _ m m Hv Hvs R2) as (p4 & A4 & R4 & q2 & T2 & E4).
  assert (E5 : expect p4 (kw ";") m = ahead p4 1).
  { apply (expect_hit p4 [] (gostr ";") [] _ ltac:(done) ltac:(by vm_compute) eq_refl ltac:(by eexists _, _) R4). }
  step_to p5 p4 A5. exists p5. split.
  - etransitivity; [exact A1|]. etransitivity; [exact A2|]. etransitivity; [exact A3|]. by etransitivity.
  - rewrite <- E5, <- E4. apply (pInsert_run p p1 t q1 _ q2 _ E1 T1). fold m. rewrite E2, E3. exact T2.
Qed.

(** C32: insert statements.  Parsing the text of an insert gives the table and,
    for a tuple of several columns and values, exactly their names and the value
    expressions, without an error.  A column list of one name is parsed as the
    name itself, which has no kids: the statement then has no column at all, and
    in the same way a single value without kids is lost. *)
Theorem insert_parse t c cs v vs spare fuel : forallb isSym t = true -> solid t ->
  printable c -> Forall printable cs -> printable v -> Forall printable vs ->
  exists p', PStmt fuel (new_parser (insert_text t c cs v vs) spare) =
    Ok (p', SInsert (Some (mkInsert t
      (match cs with [] => map nStr (nKids c) | _ => map nStr (c :: cs) end)
      (match vs with [] => nKids v | _ => v :: vs end) false))) /\ pError p' = None.
Proof.
  intros Ht Hts Hc Hcs Hv Hvs. set (p := new_parser _ spare).
  assert (E : rest_of p = gostr "insert" ++ sp ++ gostr "into" ++ sp ++ t ++ sp ++ tuple_text c cs ++ sp ++
    gostr "values" ++ sp ++ tuple_text v vs ++ gostr ";") by reflexivity.
  unfold tuple_text in E. rewrite <- !(app_assoc open), <- !(app_assoc (print 6 _)), <- !(app_assoc (items _)) in E.
  assert (K : forall w, w ∈ map gostr ["create"; "select"]%string -> pkeyword p [w] = (p, false)).
  { intros w Hw. cbn in Hw. repeat (apply elem_of_cons in Hw as [->|Hw];
      [eapply (keyword_miss p []); [done|reflexivity|done| |exact E|reflexivity]; by eexists _, _|]).
    by apply not_elem_of_nil in Hw. }
  unfold PStmt, kw. cbn [map]. rewrite keyword_cons_miss by (apply K; cbn; set_solver).
  rewrite (K (gostr "select")) by (cbn; set_solver).
  pose proof (keyword_hit p [] (gostr "insert") _ ltac:(done) ltac:(by vm_compute) eq_refl ltac:(by eexists _, _) E) as E1.
  apply (rest_ahead_app3 p [] (gostr "insert")) in E. set (p1 := ahead p _) in *.
  pose proof (keyword_hit p1 sp (gostr "into") _ ltac:(done) ltac:(by vm_compute) eq_refl ltac:(by eexists _, _) E) as E2.
  apply (rest_ahead_app3 p1 sp (gostr "into")) in E. set (p2 := ahead p1 _) in *.
  rewrite (keyword_two _ _ _ _ _ E1 E2).
  destruct (pInsert_parse p2 t c cs v vs Ht Hts Hc Hcs Hv Hvs E) as (q & [k ->] & ->). cbn [mbind res_bind].
  eexists. split; [by destruct cs, vs|done].
Qed.

Lemma insert_parse_witness :
  (exists p', PStmt 0 (new_parser (gostr "insert into users (id, name) values (1, alice);") []) =
    Ok (p', SInsert (Some (mkInsert (gostr "users") (map gostr ["id"; "name"]%string)
      [node_int 1; node_str "alice"] false))) /\ pError p' = None) /\
  (exists p', PStmt 0 (new_parser (gostr "insert into users (id) values (1);") []) =
    Ok (p', SInsert (Some (mkInsert (gostr "users") [] [] false))) /\ pError p' = None).
Proof.
  assert (Hn : forall s c s', gostr s = c :: s' -> is_letter c = true -> forallb isStr (gostr s) = true ->
    isValidKeyword (ToLower (gostr s)) = false -> printable (node_str s)).
  { intros s c s' E Hc Hf Hk. constructor. split; [done|]. split; [by exists c, s'|done]. }
  split.
  - apply (insert_parse (gostr "users") (node_str "id") [node_str "name"] (node_int 1) [node_str "alice"] [] 0);
      [reflexivity|by eexists _, _|by eapply Hn|apply Forall_singleton; by eapply Hn|by constructor|].
    apply Forall_singleton. by eapply Hn.
  - apply (insert_parse (gostr "users") (node_str "id") [] (node_int 1) [] [] 0);
      [reflexivity|by eexists _, _|by eapply Hn|done|by constructor|done].
Defined.
