(* ===== verification/BTree.v ===== *)
(** * storage/btree.go: the B+tree over a page store

    A [BTree] in Go is a root page number and three closures that read,
    allocate and free pages; here the closures are the interface [PageStore] on
    an explicit store that the operations thread.  Recursion over the tree is
    bounded by fuel, which the height of the tree suffices for. *)
From Stdlib Require Import ZArith Lia.
From stdpp Require Import base gmap list strings countable.
From coqutil Require Import Byte Word.LittleEndianList.
From S2P Require Import Prelude BNode.

(** [tree.get], [tree.new] and [tree.del]. *)
Class PageStore (S : Type) := {
  page_get : S -> Z -> res bytes;
  page_new : S -> bytes -> res (S * Z);
  page_del : S -> Z -> res S
}.

Section Tree.
Context {S : Type} `{PageStore S}.

(** One turn of the loop of [nodeReplaceKidN]. *)
Definition replace_kid (idx : Z) (st : S * BNode) (ik : nat * BNode) : res (S * BNode) :=
  let '(s, new) := st in
  let '(i, kidNode) := ik in
  '(s, ptr) ← page_new s kidNode;
  k ← getKey kidNode 0;
  new ← nodeAppendKV new (u16 (idx + Z.of_nat i)) ptr k [];
  Ok (s, new).
Definition nodeReplaceKidN (s : S) (new old : BNode) (idx : Z) (kids : list BNode) : res (S * BNode) :=
  let inc := u16 (Z.of_nat (length kids)) in
  nk ← nkeys old;
  new ← setHeader new BNODE_NODE (u16 (u16 (nk + inc) - 1));
  new ← nodeAppendRange new old 0 0 idx;
  '(s, new) ← foldM (replace_kid idx) (s, new) (imap pair kids);
  new ← nodeAppendRange new old (u16 (idx + inc)) (u16 (idx + 1)) (u16 (nk - u16 (idx + 1)));
  Ok (s, new).

(** The direction to merge in and the sibling. *)
Definition shouldMerge (s : S) (node : BNode) (idx : Z) (updated : BNode) : res (Z * BNode) :=
  nb ← nbytes updated;
  if PAGE_SIZE / 4 <? nb then Ok (0, []) else
  left ← (if 0 <? idx then
            p ← getptr node (u16 (idx - 1));
            leftSib ← page_get s p;
            nl ← nbytes leftSib;
            let merged := u16 (u16 (nl + nb) - HEADER) in
            Ok (if merged <=? PAGE_SIZE then Some leftSib else None)
          else Ok None);
  match left with
  | Some leftSib => Ok (-1, leftSib)
  | None =>
      nk ← nkeys node;
      if u16 (idx + 1) <? nk then
        p ← getptr node (u16 (idx + 1));
        rightSib ← page_get s p;
        nr ← nbytes rightSib;
        let merged := u16 (u16 (nr + nb) - HEADER) in
        if merged <=? PAGE_SIZE then Ok (1, rightSib) else Ok (0, [])
      else Ok (0, [])
  end.

(** [nodeInsert] and [treeInsert] call each other. *)
Definition nodeInsert (treeInsert : S -> BNode -> bytes -> bytes -> res (S * BNode))
    (s : S) (new node : BNode) (idx : Z) (key val : bytes) : res (S * BNode) :=
  kptr ← getptr node idx;
  kid ← page_get s kptr;
  '(s, knode) ← treeInsert s kid key val;
  split ← nodeSplit3 knode;
  s ← page_del s kptr;
  nodeReplaceKidN s new node idx split.

(** The leaf case. *)
Definition leaf_put (new node : BNode) (idx : Z) (key val : bytes) : res BNode :=
  k ← getKey node idx;
  if decide (key = k) then leafUpdate new node idx key val
  else
    k0 ← getKey node 0;
    if (Compare key k0 <? 0) && (idx =? 0) then
      nk ← nkeys node;
      new ← setHeader new BNODE_LEAF (u16 (nk + 1));
      new ← nodeAppendKV new 0 0 key val;
      nodeAppendRange new node 1 0 nk
    else leafInsert new node (u16 (idx + 1)) key val.

Fixpoint treeInsert (fuel : nat) (s : S) (node : BNode) (key val : bytes) : res (S * BNode) :=
  match fuel with
  | O => Crash OutOfFuel
  | Datatypes.S fuel =>
      let new := make_bytes (2 * PAGE_SIZE) in
      idx ← nodeLookupLE node key;
      bt ← btype node;
      if decide (bt = BNODE_LEAF) then new ← leaf_put new node idx key val; Ok (s, new)
      else if decide (bt = BNODE_NODE) then nodeInsert (treeInsert fuel) s new node idx key val
      else Crash Panicked
  end.

(** The second half of [nodeDelete]: merge the updated kid with a sibling, or
    put it in the place of the old one. *)
Definition replace_updated (s : S) (node : BNode) (idx : Z) (updated : BNode) : res (S * option BNode) :=
  let new := make_bytes PAGE_SIZE in
  '(mergeDir, sibling) ← shouldMerge s node idx updated;
  if mergeDir <? 0 then
    merged ← nodeMerge (make_bytes PAGE_SIZE) sibling updated;
    p ← getptr node (u16 (idx - 1));
    s ← page_del s p;
    '(s, ptr) ← page_new s merged;
    k ← getKey merged 0;
    new ← nodeReplace2Kid new node (u16 (idx - 1)) ptr k;
    Ok (s, Some new)
  else if 0 <? mergeDir then
    merged ← nodeMerge (make_bytes PAGE_SIZE) updated sibling;
    p ← getptr node (u16 (idx + 1));
    s ← page_del s p;
    '(s, ptr) ← page_new s merged;
    k ← getKey merged 0;
    new ← nodeReplace2Kid new node idx ptr k;
    Ok (s, Some new)
  else
    nku ← nkeys updated;
    if nku =? 0 then
      nk ← nkeys node;
      if (nk =? 1) && (idx =? 0) then new ← setHeader new BNODE_NODE 0; Ok (s, Some new)
      else Ok (s, Some new)
    else
      '(s, new) ← nodeReplaceKidN s new node idx [updated];
      Ok (s, Some new).

(** [None] is the empty node the deletion returns for a missing key. *)
Definition nodeDelete (treeDelete : S -> BNode -> bytes -> res (S * option BNode))
    (s : S) (node : BNode) (idx : Z) (key : bytes) : res (S * option BNode) :=
  kptr ← getptr node idx;
  kid ← page_get s kptr;
  '(s, updated) ← treeDelete s kid key;
  match updated with
  | None => Ok (s, None)
  | Some updated => replace_updated s node idx updated
  end.

Fixpoint treeDelete (fuel : nat) (s : S) (node : BNode) (key : bytes) : res (S * option BNode) :=
  match fuel with
  | O => Crash OutOfFuel
  | Datatypes.S fuel =>
      idx ← nodeLookupLE node key;
      bt ← btype node;
      if decide (bt = BNODE_LEAF) then
        k ← getKey node idx;
        if decide (key = k) then
          new ← leafDelete (make_bytes PAGE_SIZE) node idx; Ok (s, Some new)
        else Ok (s, None)
      else if decide (bt = BNODE_NODE) then nodeDelete (treeDelete fuel) s node idx key
      else Crash Panicked
  end.

(** [None] is the error "key not present" or "invalid node header". *)
Fixpoint getVal_at (fuel : nat) (s : S) (node : BNode) (key : bytes) : res (option bytes) :=
  match fuel with
  | O => Crash OutOfFuel
  | Datatypes.S fuel =>
      bt ← btype node;
      if decide (bt = BNODE_LEAF) then
        idx ← nodeLookupLE node key;
        k ← getKey node idx;
        if decide (k = key) then v ← getVal node idx; Ok (Some v) else Ok None
      else if decide (bt = BNODE_NODE) then
        idx ← nodeLookupLE node key;
        cptr ← getptr node idx;
        cnode ← page_get s cptr;
        getVal_at fuel s cnode key
      else Ok None
  end.

(** The operations on a whole tree: [root] is [t.Root]. *)
Definition GetVal (fuel : nat) (s : S) (root : Z) (key : bytes) : res (option bytes) :=
  if decide (root = 0) then Ok None else
  node ← page_get s root;
  getVal_at fuel s node key.

(** One turn of the loop of [Insert] over the parts of a split root. *)
Definition root_kid (rtype : Z) (st : S * BNode) (ic : nat * BNode) : res (S * BNode) :=
  let '(s, newRoot) := st in
  let '(i, childNode) := ic in
  childNode ← (if (rtype =? BNODE_LEAF) && (Z.of_nat i =? 0) then
                 bt ← btype childNode;
                 nk ← nkeys childNode;
                 modChildNode ← setHeader (make_bytes PAGE_SIZE) bt (u16 (nk - 1));
                 nodeAppendRange modChildNode childNode 0 1 (u16 (nk - 1))
               else Ok childNode);
  '(s, ptr) ← page_new s childNode;
  childKey ← getKey childNode 0;
  newRoot ← nodeAppendKV newRoot (u16 (Z.of_nat i)) ptr childKey [];
  Ok (s, newRoot).

Definition Insert (fuel : nat) (s : S) (root : Z) (key val : bytes) : res (S * Z) :=
  if decide (root = 0) then
    new ← setHeader (make_bytes PAGE_SIZE) BNODE_LEAF 2;
    new ← nodeAppendKV new 0 0 [] [];
    new ← nodeAppendKV new 1 0 key val;
    page_new s new
  else
    node0 ← page_get s root;
    '(s, node) ← treeInsert fuel s node0 key val;
    split ← nodeSplit3 node;
    rootnode ← page_get s root;
    rtype ← btype rootnode;
    s ← (if negb (rtype =? BNODE_LEAF) then page_del s root else Ok s);
    match split with
    | [part] => page_new s part
    | _ =>
        newRoot ← setHeader (make_bytes PAGE_SIZE) BNODE_NODE (u16 (Z.of_nat (length split)));
        '(s, newRoot) ← foldM (root_kid rtype) (s, newRoot) (imap pair split);
        page_new s newRoot
    end.

Definition Delete (fuel : nat) (s : S) (root : Z) (key : bytes) : res (S * Z * bool) :=
  if decide (root = 0) then Crash Panicked else
  node ← page_get s root;
  '(s, updatedNode) ← treeDelete fuel s node key;
  match updatedNode with
  | None => Ok (s, root, false)
  | Some updatedNode =>
      s ← page_del s root;
      bt ← btype updatedNode;
      nk ← nkeys updatedNode;
      if (bt =? BNODE_NODE) && (nk =? 1) then
        p ← getptr updatedNode 0; Ok (s, p, true)
      else
        '(s, p) ← page_new s updatedNode; Ok (s, p, true)
  end.

End Tree.

(** A page store in memory: the next free number and the pages. *)
Record MemStore := mkMem { mNext : Z; mPages : gmap Z bytes }.
#[export] Instance mem_store : PageStore MemStore := {|
  page_get s p := match mPages s !! p with Some b => Ok b | None => Crash Panicked end;
  page_new s b := Ok (mkMem (mNext s + 1) (<[mNext s := b]> (mPages s)), mNext s);
  page_del s p := Ok (mkMem (mNext s) (delete p (mPages s)))
|}.
Definition empty_mem : MemStore := mkMem 1 ∅.
