(* ===== verification/TreeRep.v ===== *)
(** * What a B+tree stores

    The sorted key-value list a tree of pages stands for: [body h M F es kvs]
    says that the entries [es] of a node of height [h] lead, through the pages
    [M], to the list [kvs]; [F] is the set of pages below the node.  Leaves hold
    the list itself; an entry of an inner node has the first key of its subtree
    as its key.  Also the interface of a page store and the operations on sorted
    key-value lists that are the specification of the tree. *)
From Stdlib Require Import ZArith Lia Sorted.
From stdpp Require Import base gmap list strings countable sorting.
From coqutil Require Import Byte Word.LittleEndianList.
From S2P Require Import Prelude KVList BNode NodeLayout NodeOps BTree.

(** ** Page stores

    [pages k s M]: the store [s] holds the pages [M] and has room for [k] more
    allocations and releases. *)
Class PageLaws (S : Type) `{PageStore S} (pages : nat -> S -> gmap Z bytes -> Prop) := {
  pages_get k s M p b : pages k s M -> M !! p = Some b -> page_get s p = Ok b;
  pages_new k s M b : pages (Datatypes.S k) s M -> blen b = PAGE_SIZE ->
    exists s' p, page_new s b = Ok (s', p) /\ M !! p = None /\ p <> 0 /\ in_u64 p /\ pages k s' (<[p := b]> M);
  pages_del k s M p : pages (Datatypes.S k) s M -> is_Some (M !! p) ->
    exists s', page_del s p = Ok s' /\ pages k s' (delete p M);
  pages_le k s M : pages (Datatypes.S k) s M -> pages k s M;
  pages_zero k s M : pages k s M -> M !! 0 = None
}.

Lemma pages_mono {St pages} `{PageLaws St pages} j k (s : St) M : (k <= j)%nat -> pages j s M -> pages k s M.
Proof. induction 1 as [|j _ IH]; [done|]. intros H1. apply IH. by eapply pages_le. Qed.

(** The store in memory keeps the laws until its numbers leave 64 bits. *)
Definition mem_pages (k : nat) (s : MemStore) (M : gmap Z bytes) : Prop :=
  mPages s = M /\ 0 < mNext s /\ mNext s + Z.of_nat k < 18446744073709551616 /\
  forall p, is_Some (M !! p) -> 0 < p < mNext s.
#[export] Instance mem_laws : PageLaws MemStore mem_pages.
Proof.
  split.
  - intros k s M p b (<- & _) Hp. cbn. by rewrite Hp.
  - intros k s M b (<- & Hn & Hk & HM) _. eexists _, _. split; [done|].
    assert (mPages s !! mNext s = None) as HN.
    { destruct (mPages s !! mNext s) eqn:E; [|done]. specialize (HM (mNext s) ltac:(by eexists)). lia. }
    split; [done|]. split; [lia|]. split; [unfold in_u64; lia|]. split; [done|]. cbn. split; [lia|]. split; [lia|].
    intros p Hp. destruct (decide (p = mNext s)) as [->|Hd]; [lia|].
    rewrite lookup_insert_ne in Hp by done. specialize (HM p Hp). lia.
  - intros k s M p (<- & Hn & Hk & HM) _. eexists. split; [done|]. split; [done|]. cbn. split; [lia|]. split; [lia|].
    intros q Hq. apply HM. destruct (decide (q = p)) as [->|Hd]; [|by rewrite lookup_delete_ne in Hq].
    rewrite lookup_delete_eq in Hq. by destruct Hq.
  - intros k s M (HM & Hn & Hk & Hp). split; [done|]. split; [lia|]. split; [lia|done].
  - intros k s M (_ & _ & _ & HM). destruct (M !! 0) eqn:E; [|done]. specialize (HM 0 ltac:(by eexists)). lia.
Qed.

(** What an operation does to the pages: those outside the footprint [F] keep
    their contents, and the new footprint [F'] takes only pages of [F] and
    unused ones. *)
Definition page_step (M M' : gmap Z bytes) (F F' : gset Z) : Prop :=
  (forall q x, M !! q = Some x -> q ∉ F -> M' !! q = Some x) /\
  (forall q, q ∈ F' -> q ∈ F \/ M !! q = None).
Lemma page_step_refl M F : page_step M M F F.
Proof. split; [done|]. by left. Qed.
Lemma page_step_trans M M1 M2 F F1 F2 : page_step M M1 F F1 -> page_step M1 M2 F1 F2 -> page_step M M2 F F2.
Proof.
  intros [H1 H2] [H3 H4]. split.
  - intros q x Hq HF. apply H3; [by apply H1|]. intros [?|?]%H2; [done|congruence].
  - intros q [HF|HN]%H4; [by apply H2|]. destruct (decide (q ∈ F)) as [|HF]; [by left|right].
    destruct (M !! q) eqn:E; [|done]. apply H1 in E; [congruence|done].
Qed.

(** The same, when the pages [M1] of a sub-operation on [FI] lose pages of [F]
    only, and then gain some. *)
Lemma page_step_around M M1 M2 M' F FI FI1 F' : page_step M M1 FI FI1 -> FI ⊆ F ->
  (forall q x, M1 !! q = Some x -> q ∉ F -> M2 !! q = Some x) -> (forall q, M2 !! q = None -> q ∈ F \/ M1 !! q = None) ->
  M2 ⊆ M' -> (forall q, q ∈ F' -> q ∈ F ∪ FI1 \/ M2 !! q = None) -> page_step M M' F F'.
Proof.
  intros [H1 H2] HF H3 H4 HM H5.
  assert (HN : forall q, M1 !! q = None -> q ∈ F \/ M !! q = None).
  { intros q Hq. destruct (decide (q ∈ F)) as [|HqF]; [by left|right]. destruct (M !! q) as [x|] eqn:E; [|done].
    rewrite (H1 q x E) in Hq; [done|set_solver]. }
  split.
  - intros q x Hq HqF. eapply lookup_weaken; [|exact HM]. apply H3; [|done]. apply H1; [done|set_solver].
  - intros q Hq. destruct (H5 q Hq) as [[|Hq2]%elem_of_union|Hq2]; [by left| |].
    + destruct (H2 q Hq2) as [|]; [left; set_solver|by right].
    + destruct (H4 q Hq2) as [|Hq3]; [by left|by apply HN].
Qed.

(** ** The relation *)

Definition kv_entry (kv : bytes * bytes) : entry := mkEntry 0 kv.1 kv.2.
Definition ntype (h : nat) : Z := match h with O => BNODE_LEAF | _ => BNODE_NODE end.

Section Forest.
Context (M : gmap Z bytes) (T : gset Z -> bytes -> kvl -> Prop).
(** The subtrees the entries of an inner node lead to. *)
Inductive forest : gset Z -> list entry -> kvl -> Prop :=
  | forest_nil : forest ∅ [] []
  | forest_cons p b F kvs k F2 es kvs2 :
      M !! p = Some b -> blen b = PAGE_SIZE -> T F b kvs -> head kvs.*1 = Some k ->
      p ∉ F -> ({[p]} ∪ F) ## F2 -> forest F2 es kvs2 ->
      forest ({[p]} ∪ F ∪ F2) (mkEntry p k [] :: es) (kvs ++ kvs2).
(** The same subtrees with the tops not yet allocated: their pages, first keys
    and lists. *)
Inductive roots : gset Z -> list bytes -> list bytes -> kvl -> Prop :=
  | roots_nil : roots ∅ [] [] []
  | roots_cons b F kvs k F2 bs ks kvs2 :
      blen b = PAGE_SIZE -> T F b kvs -> head kvs.*1 = Some k -> F ## F2 -> roots F2 bs ks kvs2 ->
      roots (F ∪ F2) (b :: bs) (k :: ks) (kvs ++ kvs2).
End Forest.

Fixpoint body (M : gmap Z bytes) (h : nat) (F : gset Z) (es : list entry) (kvs : kvl) {struct h} : Prop :=
  match h with
  | O => F = ∅ /\ es = map kv_entry kvs
  | S h => forest M (fun F b kvs => exists es, node_is b (ntype h) es /\ body M h F es kvs) F es kvs
  end.
Definition tree (M : gmap Z bytes) (h : nat) (F : gset Z) (b : bytes) (kvs : kvl) : Prop :=
  exists es, node_is b (ntype h) es /\ body M h F es kvs.
Lemma body_S M h F es kvs : body M (S h) F es kvs = forest M (tree M h) F es kvs.
Proof. reflexivity. Qed.

(** ** Forests *)

Lemma forest_app M T F1 F2 es1 es2 kvs1 kvs2 : forest M T F1 es1 kvs1 -> forest M T F2 es2 kvs2 -> F1 ## F2 ->
  forest M T (F1 ∪ F2) (es1 ++ es2) (kvs1 ++ kvs2).
Proof.
  induction 1 as [|p b F kvs k F' es kvs' Hp Hb HT Hk HpF Hd Hf IH]; intros H2 HF.
  - by rewrite (left_id_L ∅ (∪)).
  - rewrite <- (assoc_L (∪)), <- (assoc app kvs). cbn [app]. apply (forest_cons M T p b F kvs k (F' ∪ F2)); try done.
    + set_solver.
    + apply IH; set_solver.
Qed.
Lemma forest_app_inv M T F es1 es2 kvs : forest M T F (es1 ++ es2) kvs ->
  exists F1 F2 kvs1 kvs2, F = F1 ∪ F2 /\ F1 ## F2 /\ kvs = kvs1 ++ kvs2 /\ forest M T F1 es1 kvs1 /\ forest M T F2 es2 kvs2.
Proof.
  revert F kvs. induction es1 as [|e es1 IH]; intros F kvs H; cbn [app] in H.
  - exists ∅, F, [], kvs. split; [set_solver|]. split; [set_solver|]. split; [done|]. split; [apply forest_nil|done].
  - inversion H as [|p b F' kvs' k F'' es kvs'' Hp Hb HT Hk HpF Hd Hf]; subst.
    apply IH in Hf as (F1 & F2 & kvs1 & kvs2 & -> & HF & -> & H1 & H2).
    exists ({[p]} ∪ F' ∪ F1), F2, (kvs' ++ kvs1), kvs2. split; [set_solver|]. split; [set_solver|].
    split; [by rewrite app_assoc|]. split; [|done]. apply (forest_cons M T p b); try done. set_solver.
Qed.
Lemma forest_cons_inv M T F e es kvs : forest M T F (e :: es) kvs ->
  exists b F1 kvs1 F2 kvs2, e = mkEntry (ePtr e) (eKey e) [] /\ M !! ePtr e = Some b /\ blen b = PAGE_SIZE /\ T F1 b kvs1 /\
    head kvs1.*1 = Some (eKey e) /\ ePtr e ∉ F1 /\ ({[ePtr e]} ∪ F1) ## F2 /\ forest M T F2 es kvs2 /\
    F = {[ePtr e]} ∪ F1 ∪ F2 /\ kvs = kvs1 ++ kvs2.
Proof.
  intros H. inversion H as [|p b F' kvs' k F'' es' kvs'' Hp Hb HT Hk HpF Hd Hf]; subst. cbn.
  by exists b, F', kvs', F'', kvs''.
Qed.
Lemma forest_single M T p b F kvs k : M !! p = Some b -> blen b = PAGE_SIZE -> T F b kvs ->
  head kvs.*1 = Some k -> p ∉ F -> forest M T ({[p]} ∪ F) [mkEntry p k []] kvs.
Proof.
  intros. rewrite <- (app_nil_r kvs), <- (right_id_L ∅ (∪) ({[p]} ∪ F)).
  apply (forest_cons M T p b); try done; try apply forest_nil; set_solver.
Qed.

(** Pages outside the footprint do not matter; the footprint is allocated. *)
Lemma forest_mono M M' T T' F es kvs : forest M T F es kvs ->
  (forall F' b kvs', F' ⊆ F -> T F' b kvs' -> T' F' b kvs') ->
  (forall q x, q ∈ F -> M !! q = Some x -> M' !! q = Some x) -> forest M' T' F es kvs.
Proof.
  induction 1 as [|p b F kvs k F' es kvs' Hp Hb HT Hk HpF Hd Hf IH]; intros HTT HM; [apply forest_nil|].
  apply (forest_cons M' T' p b); try done.
  - apply HM; [set_solver|done].
  - apply HTT; [set_solver|done].
  - apply IH; [intros; apply HTT; [set_solver|done]|]. intros; apply HM; [set_solver|done].
Qed.
Lemma body_mono M M' h : forall F es kvs, body M h F es kvs ->
  (forall q x, q ∈ F -> M !! q = Some x -> M' !! q = Some x) -> body M' h F es kvs.
Proof.
  induction h as [|h IH]; intros F es kvs H HM; [done|]. cbn [body] in *.
  eapply forest_mono; [exact H| |done]. intros F' b kvs' HF (es' & Hn & Hb). exists es'. split; [done|].
  apply IH; [done|]. intros q x Hq. apply HM. set_solver.
Qed.
Lemma tree_mono M M' h F b kvs : tree M h F b kvs ->
  (forall q x, q ∈ F -> M !! q = Some x -> M' !! q = Some x) -> tree M' h F b kvs.
Proof. intros (es & Hn & Hb) HM. exists es. split; [done|]. by eapply body_mono. Qed.
Lemma forest_tree_mono M M' h F es kvs : forest M (tree M h) F es kvs ->
  (forall q x, q ∈ F -> M !! q = Some x -> M' !! q = Some x) -> forest M' (tree M' h) F es kvs.
Proof. apply (body_mono M M' (S h)). Qed.
Lemma body_dom M h : forall F es kvs, body M h F es kvs -> forall q, q ∈ F -> is_Some (M !! q).
Proof.
  induction h as [|h IH]; intros F es kvs H q Hq.
  - destruct H as [-> _]. set_solver.
  - cbn [body] in H. induction H as [|p b F kvs k F' es kvs' Hp Hb HT Hk HpF Hd Hf IHf]; [set_solver|].
    apply elem_of_union in Hq as [[->%elem_of_singleton|Hq]%elem_of_union|Hq]; [by eexists| |by apply IHf].
    destruct HT as (es0 & _ & Hb0). by eapply IH.
Qed.

(** ** Keys along a forest *)

Section Keys.
Context {M : gmap Z bytes} {T : gset Z -> bytes -> kvl -> Prop}.

Lemma forest_key_in F es kvs e : forest M T F es kvs -> e ∈ es -> eKey e ∈ kvs.*1.
Proof.
  induction 1 as [|p b F kvs k F' es kvs' Hp Hb HT Hk HpF Hd Hf IH]; [by intros ?%not_elem_of_nil|].
  rewrite fmap_app, elem_of_app. intros [->|He]%elem_of_cons; [left|right; by apply IH].
  destruct kvs as [|[k' v] kvs]; [done|]. cbn in *. injection Hk as ->. by left.
Qed.
Lemma forest_sorted F es kvs : forest M T F es kvs -> kv_sorted kvs -> sorted_keys es.
Proof.
  induction 1 as [|p b F kvs k F' es kvs' Hp Hb HT Hk HpF Hd Hf IH]; intros Hs; [constructor|].
  apply kv_sorted_app in Hs as (H1 & H2 & H12). constructor; [by apply IH|]. rewrite List.Forall_forall.
  intros k2 Hk2. apply list_elem_of_In, list_elem_of_fmap in Hk2 as (e & -> & He).
  apply (forest_key_in _ _ _ _ Hf), list_elem_of_fmap in He as (kv & -> & Hkv). cbn.
  destruct kvs as [|[k' v] kvs]; [done|]. cbn in Hk. injection Hk as ->.
  apply list.Forall_cons in H12 as [H _]. unfold keys_gt in H. rewrite list.Forall_forall in H. by apply H.
Qed.
Lemma forest_above F es kvs key : forest M T F es kvs -> kv_sorted kvs ->
  (forall e, e ∈ es -> blt key (eKey e)) -> keys_gt key kvs.
Proof.
  induction 1 as [|p b F kvs k F' es kvs' Hp Hb HT Hk HpF Hd Hf IH]; intros Hs Hlt; [constructor|].
  apply kv_sorted_app in Hs as (H1 & H2 & _). apply list.Forall_app. split.
  - eapply list.Forall_impl; [by eapply kv_sorted_head|]. cbn. intros kv Hkv. eapply blt_le_trans; [|done].
    apply (Hlt (mkEntry p k [])). by left.
  - apply IH; [done|]. intros e He. apply Hlt. by right.
Qed.
Lemma forest_nonempty F es kvs : forest M T F es kvs -> kvs <> [] -> es <> [].
Proof. by destruct 1. Qed.
Lemma forest_nonempty_2 F es kvs : forest M T F es kvs -> es <> [] -> kvs <> [].
Proof. destruct 1 as [|p b F kvs k F' es kvs' Hp Hb HT Hk]; [done|]. by destruct kvs. Qed.

(** The subtree at a position. *)
Record child_at (F : gset Z) (es : list entry) (kvs : kvl) (i : nat) (p : Z) (k : bytes) (b : bytes)
    (F1 FI F2 : gset Z) (l1 lI l2 : kvl) : Prop := {
  ca_entry : es !! i = Some (mkEntry p k []);
  ca_page : M !! p = Some b;
  ca_len : blen b = PAGE_SIZE;
  ca_tree : T FI b lI;
  ca_key : head lI.*1 = Some k;
  ca_left : forest M T F1 (take i es) l1;
  ca_right : forest M T F2 (drop (S i) es) l2;
  ca_list : kvs = l1 ++ lI ++ l2;
  ca_foot : F = F1 ∪ ({[p]} ∪ FI ∪ F2);
  ca_p : p ∉ FI;
  ca_d1 : F1 ## {[p]} ∪ FI ∪ F2;
  ca_d2 : {[p]} ∪ FI ## F2
}.
Lemma forest_child F es kvs i : forest M T F es kvs -> (i < length es)%nat ->
  exists p k b F1 FI F2 l1 lI l2, child_at F es kvs i p k b F1 FI F2 l1 lI l2.
Proof.
  intros Hf Hi. destruct (lookup_lt_is_Some_2 es i Hi) as [e He].
  rewrite <- (take_drop_middle _ _ _ He) in Hf.
  apply forest_app_inv in Hf as (F1 & F' & l1 & l' & -> & Hd & -> & H1 & H2).
  apply forest_cons_inv in H2 as (b & FI & lI & F2 & l2 & E & Hp & Hb & HT & Hk & HpF & Hd2 & H2 & -> & ->).
  rewrite E in He. exists (ePtr e), (eKey e), b, F1, FI, F2, l1, lI, l2. split; done.
Qed.

(** The child that [nodeLookupLE] chooses: all keys to its left are smaller,
    all to its right larger than the searched key. *)
Lemma choose_child {b t F es kvs} key : node_is b t es -> forest M T F es kvs -> kv_sorted kvs -> kvs <> [] ->
  exists i p k bI F1 FI F2 l1 lI l2, nodeLookupLE b key = Ok (Z.of_nat i) /\ (i < length es)%nat /\
    child_at F es kvs i p k bI F1 FI F2 l1 lI l2 /\ keys_lt l1 key /\ keys_gt key l2.
Proof.
  intros R Hf Hs Hne. pose proof (forest_nonempty _ _ _ Hf Hne) as Hes.
  assert (HS : sorted_keys (tail es)).
  { pose proof (forest_sorted _ _ _ Hf Hs) as HS. destruct es; [done|]. by apply StronglySorted_inv in HS as [? _]. }
  destruct (nodeLookupLE_repr R key HS) as (E & Hle & Hbel & Habv).
  remember (lookupLE_spec es key) as i. assert (Hi : (i < length es)%nat) by (destruct es; [done|cbn in *; lia]).
  destruct (forest_child _ _ _ _ Hf Hi) as (p & k & bI & F1 & FI & F2 & l1 & lI & l2 & C).
  exists i, p, k, bI, F1, FI, F2, l1, lI, l2. split; [done|]. split; [done|]. split; [done|].
  rewrite (ca_list _ _ _ _ _ _ _ _ _ _ _ _ _ C) in Hs.
  apply kv_sorted_app in Hs as (_ & Hs2 & H12). apply kv_sorted_app in Hs2 as (_ & Hs2 & _). split.
  - destruct i as [|i].
    + pose proof (ca_left _ _ _ _ _ _ _ _ _ _ _ _ _ C) as HL. cbn in HL. inversion HL. constructor.
    + specialize (Hbel (S i) _ ltac:(lia) (ca_entry _ _ _ _ _ _ _ _ _ _ _ _ _ C)). cbn in Hbel.
      pose proof (ca_key _ _ _ _ _ _ _ _ _ _ _ _ _ C) as Hk. destruct lI as [|[k' v] lI]; [done|]. cbn in Hk.
      injection Hk as ->. eapply list.Forall_impl; [exact H12|]. cbn. intros kv Hkv.
      apply list.Forall_cons in Hkv as [Hkv _]. cbn in Hkv. eauto with key_order.
  - apply (forest_above _ _ _ _ (ca_right _ _ _ _ _ _ _ _ _ _ _ _ _ C)); [done|].
    intros e He. apply list_elem_of_lookup in He as [j Hj]. rewrite lookup_drop in Hj.
    apply (Habv (S i + j)%nat); [lia|done].
Qed.
End Keys.

(** In a leaf: the entry found is the last one not above the key, if there is
    one. *)
Lemma choose_entry b kvs key : node_is b BNODE_LEAF (map kv_entry kvs) -> kv_sorted kvs -> kvs <> [] ->
  exists l1 k v l2, nodeLookupLE b key = Ok (Z.of_nat (length l1)) /\ kvs = l1 ++ (k, v) :: l2 /\
    keys_lt l1 key /\ keys_gt key l2 /\ (l1 = [] \/ ble k key).
Proof.
  intros R Hs Hne.
  assert (HS : sorted_keys (tail (map kv_entry kvs))).
  { destruct kvs as [|[k v] kvs]; [done|]. apply kv_sorted_cons in Hs as [_ Hs]. unfold sorted_keys. cbn.
    rewrite map_map. exact Hs. }
  destruct (nodeLookupLE_repr R key HS) as (E & Hle & Hbel & Habv).
  remember (lookupLE_spec (map kv_entry kvs) key) as i. rewrite length_map in Hle.
  assert (Hi : (i < length kvs)%nat) by (destruct kvs; [done|cbn in *; lia]).
  destruct (lookup_lt_is_Some_2 kvs i Hi) as [[k v] Hkv].
  exists (take i kvs), k, v, (drop (S i) kvs). rewrite length_take_le by lia.
  split; [done|]. rewrite (take_drop_middle _ _ _ Hkv). split; [done|].
  assert (Hat : forall j kv, kvs !! j = Some kv -> map kv_entry kvs !! j = Some (kv_entry kv)).
  { intros j kv Hj. by rewrite list_lookup_fmap, Hj. }
  rewrite <- (take_drop_middle _ _ _ Hkv) in Hs. apply kv_sorted_app in Hs as (_ & _ & H12).
  destruct i as [|i].
  - split; [constructor|]. split; [|by left]. apply list.Forall_forall. intros kv Hin.
    apply list_elem_of_lookup in Hin as [j Hj]. rewrite lookup_drop in Hj.
    apply (Habv (1 + j)%nat (kv_entry kv)); [lia|by apply Hat].
  - pose proof (Hbel (S i) _ ltac:(lia) (Hat _ _ Hkv)) as Hk. cbn in Hk. split; [|split; [|by right]].
    + eapply list.Forall_impl; [exact H12|]. cbn. intros kv Hin. apply list.Forall_cons in Hin as [Hin _]. cbn in Hin.
      eauto with key_order.
    + apply list.Forall_forall. intros kv Hin. apply list_elem_of_lookup in Hin as [j Hj]. rewrite lookup_drop in Hj.
      apply (Habv (S (S i) + j)%nat (kv_entry kv)); [lia|by apply Hat].
Qed.
