(* ===== verification/TreeGet.v ===== *)
(** * Lookup in the B+tree

    [getVal] on a tree of pages returns what the sorted key-value list it
    stands for holds. *)
From Stdlib Require Import ZArith Lia Sorted.
From stdpp Require Import base gmap list strings countable sorting.
From coqutil Require Import Byte Word.LittleEndianList.
From S2P Require Import Prelude KVList BNode NodeLayout NodeOps BTree TreeRep.

Lemma tree_leaf_inv M F b kvs : tree M 0 F b kvs -> F = ∅ /\ node_is b BNODE_LEAF (map kv_entry kvs).
Proof. intros (es & R & -> & ->). split; [done|exact R]. Qed.
Lemma tree_node_inv M h F b kvs : tree M (S h) F b kvs ->
  exists es, node_is b BNODE_NODE es /\ forest M (tree M h) F es kvs.
Proof. intros (es & R & Hf). by exists es. Qed.
Lemma entry_at kvs l1 k v l2 : kvs = l1 ++ (k, v) :: l2 ->
  map kv_entry kvs !! length l1 = Some (mkEntry 0 k v).
Proof. intros ->. by rewrite map_app, lookup_app_r, length_map, Nat.sub_diag by (rewrite length_map; lia). Qed.

(** A tree that reads as the list of a node around one of its children. *)
Lemma child_around (l1 lI l2 : kvl) key : keys_lt l1 key -> keys_gt key l2 ->
  kv_get key (l1 ++ lI ++ l2) = kv_get key lI.
Proof. intros H1 H2. rewrite kv_get_skip by done. by apply kv_get_before. Qed.

Section Get.
Context {St pages} `{PageLaws St pages}.

Lemma getVal_leaf fuel (s : St) b kvs key : node_is b BNODE_LEAF (map kv_entry kvs) -> kv_sorted kvs -> kvs <> [] ->
  getVal_at (S fuel) s b key = Ok (kv_get key kvs).
Proof.
  intros R Hs Hne. cbn [getVal_at].
  destruct (choose_entry b kvs key R Hs Hne) as (l1 & k & v & l2 & E & -> & H1 & H2 & Hk).
  pose proof (entry_at _ l1 k v l2 eq_refl) as He.
  rstep (repr_btype R). rewrite decide_True by done. rstep E. rstep (repr_getKey R _ _ He). cbn [eKey].
  rewrite kv_get_skip by done. cbn [kv_get].
  case_decide as Hkk; [by rstep (repr_getVal R _ _ He)|]. by rewrite kv_get_above.
Qed.

Lemma getVal_at_spec h : forall fuel (s : St) n M F b kvs key, (h < fuel)%nat -> pages n s M -> tree M h F b kvs ->
  kv_sorted kvs -> kvs <> [] -> getVal_at fuel s b key = Ok (kv_get key kvs).
Proof.
  induction h as [|h IH]; intros [|fuel] s n M F b kvs key Hf Hp Ht Hs Hne; try lia.
  - apply tree_leaf_inv in Ht as [_ R]. by apply getVal_leaf.
  - apply tree_node_inv in Ht as (es & R & Hfo). cbn [getVal_at].
    destruct (choose_child key R Hfo Hs Hne) as (i & p & k & bI & F1 & FI & F2 & l1 & lI & l2 & E & Hi & C & H1 & H2).
    destruct C. subst kvs. rstep (repr_btype R). rewrite decide_False, decide_True by done. rstep E.
    rstep (repr_getptr R _ _ ca_entry). cbn [ePtr]. rstep (pages_get n s M p bI Hp ca_page).
    rewrite child_around by done. apply kv_sorted_app in Hs as (_ & Hs & _). apply kv_sorted_app in Hs as (Hs & _ & _).
    apply (IH _ _ n M FI); try done; [lia|]. by intros ->.
Qed.
End Get.
