(* ===== verification/TreeInsert.v ===== *)
(** * Insertion into the B+tree

    [treeInsert] and [Insert] put a key into the list the tree stands for:
    leaves are rewritten, overfull nodes split, the pages on the way replaced,
    and everything else is left alone. *)
From Stdlib Require Import ZArith Lia Sorted.
From stdpp Require Import base gmap list strings countable sorting.
From coqutil Require Import Byte Word.LittleEndianList.
From S2P Require Import Prelude KVList BNode NodeLayout NodeOps BTree TreeRep TreeGet.

(** Key and value sizes for which no split can fail: an entry takes at most a
    third of the room of a page. *)
Definition MAXENTRY : Z := 1364.
Definition small_kv (kv : bytes * bytes) : Prop :=
  blen kv.1 <= MAXKEYLEN /\ 14 + blen kv.1 + blen kv.2 <= MAXENTRY.
(** A node that [nodeSplit3] can handle with two pages. *)
Definition splittable (es : list entry) : Prop :=
  node_size es <= 2 * PAGE_SIZE - 8 /\
  exists m, 0 <= m <= MAXENTRY /\ Forall (fun e => esize e + 10 <= m) es /\ m + node_size es / 2 <= PAGE_SIZE + 1.

Lemma esize_kv kv : esize (kv_entry kv) = 4 + blen kv.1 + blen kv.2.
Proof. reflexivity. Qed.
Lemma small_entries_kv kvs : Forall small_kv kvs -> Forall (fun e => esize e + 10 <= MAXENTRY) (map kv_entry kvs).
Proof.
  intros H. apply list.Forall_fmap. eapply list.Forall_impl; [exact H|]. intros kv [_ Hk]. cbn. rewrite esize_kv. lia.
Qed.
Lemma small_insert k v kvs : Forall small_kv kvs -> small_kv (k, v) -> Forall small_kv (kv_insert k v kvs).
Proof.
  intros H Hk. induction H as [|[k' v'] kvs H' H IH]; cbn; [by apply list.Forall_singleton|].
  repeat case_match; repeat (apply list.Forall_cons; split); done.
Qed.
Lemma insert_size k v kvs : node_size (map kv_entry (kv_insert k v kvs)) <=
  node_size (map kv_entry kvs) + 14 + blen k + blen v.
Proof.
  induction kvs as [|[k' v'] kvs IH]; cbn [map kv_insert].
  - rewrite node_size_cons, esize_kv. cbn [fst snd]. lia.
  - rewrite !node_size_cons, esize_kv. cbn [fst snd]. pose proof (blen_nonneg k'). pose proof (blen_nonneg v').
    case_decide; [|case_bool_decide]; cbn [map]; rewrite ?node_size_cons, ?esize_kv; cbn [fst snd]; lia.
Qed.
Lemma page_node_size b t es : node_is b t es -> node_size es <= blen b.
Proof. intros R. destruct R. unfold node_size. done. Qed.

(** ** The leaf case *)

Lemma drop_S_at {A} (l1 : list A) x l2 : drop (S (length l1)) (l1 ++ x :: l2) = l2.
Proof. rewrite cons_middle, app_assoc. apply drop_app_length'. rewrite length_app. cbn. lia. Qed.
Lemma update_at (f : bytes * bytes -> entry) l1 x y l2 :
  es_update (length l1) (f y) (map f (l1 ++ x :: l2)) = map f (l1 ++ y :: l2).
Proof. unfold es_update. rewrite firstn_map, skipn_map, take_app_length, drop_S_at. by rewrite map_app. Qed.
Lemma insert_at (f : bytes * bytes -> entry) l1 x y l2 :
  es_insert (S (length l1)) (f y) (map f (l1 ++ x :: l2)) = map f (l1 ++ x :: y :: l2).
Proof.
  unfold es_insert. rewrite firstn_map, skipn_map, drop_S_at, (cons_middle x l1 l2), (cons_middle x l1), !app_assoc.
  rewrite take_app_length' by (rewrite length_app; cbn; lia). by rewrite (map_app _ (l1 ++ [x])).
Qed.

Lemma leaf_prepend new b kvs key val : node_is b BNODE_LEAF (map kv_entry kvs) -> blen new < 65536 ->
  node_size (map kv_entry ((key, val) :: kvs)) <= blen new ->
  exists new1 new2 new', nkeys b = Ok (Z.of_nat (length kvs)) /\
    setHeader new BNODE_LEAF (u16 (Z.of_nat (length kvs) + 1)) = Ok new1 /\
    nodeAppendKV new1 0 0 key val = Ok new2 /\ nodeAppendRange new2 b 1 0 (Z.of_nat (length kvs)) = Ok new' /\
    blen new' = blen new /\ node_is new' BNODE_LEAF (map kv_entry ((key, val) :: kvs)).
Proof.
  intros R Hs Hf. set (es := map kv_entry kvs) in *.
  assert (Hl : length es = length kvs) by apply length_map.
  pose proof (kvsize_nonneg es). pose proof (kvsize_nonneg [mkEntry 0 key val]).
  change (map kv_entry ((key, val) :: kvs)) with (mkEntry 0 key val :: es) in *.
  assert (HN : node_size (mkEntry 0 key val :: es) = 4 + 10 * Z.of_nat (S (length es)) + (kvsize [mkEntry 0 key val] + kvsize es)).
  { unfold node_size. cbn [length kvsize]. lia. }
  set (n := Z.of_nat (S (length es))) in *.
  destruct (setHeader_repr new BNODE_LEAF n) as (b0 & E0 & L0 & R0); [done|done|lia|lia|].
  destruct (append_kv_at b0 BNODE_LEAF n [] 0 0 key val R0) as (b1 & E1 & L1 & R1); [done|cbn; lia|done|cbn [app]; lia|].
  destruct (append_range_at b1 b BNODE_LEAF n [mkEntry 0 key val] BNODE_LEAF es 0 (length es) 1 0 (Z.of_nat (length es)) R R1)
    as (b2 & E2 & L2 & R2); [done|done|done|lia|cbn; lia| |].
  { rewrite drop_0, firstn_all, kvsize_app. lia. }
  rewrite drop_0, firstn_all in R2. exists b0, b1, b2. rewrite <- Hl. split; [apply (repr_nkeys R)|].
  split; [|split; [done|split; [done|split; [lia|done]]]].
  rewrite u16_id by lia. replace (Z.of_nat (length es) + 1) with n by lia. done.
Qed.

Lemma leaf_put_spec new b kvs key val i : node_is b BNODE_LEAF (map kv_entry kvs) -> kv_sorted kvs -> kvs <> [] ->
  blen new < 65536 -> node_size (map kv_entry (kv_insert key val kvs)) <= blen new -> nodeLookupLE b key = Ok i ->
  exists new', leaf_put new b i key val = Ok new' /\ blen new' = blen new /\
    node_is new' BNODE_LEAF (map kv_entry (kv_insert key val kvs)).
Proof.
  intros R Hs Hne Hl Hf Hi. destruct (choose_entry b kvs key R Hs Hne) as (l1 & k & v & l2 & E & -> & H1 & H2 & Hk).
  rewrite Hi in E. injection E as ->. pose proof (entry_at _ l1 k v l2 eq_refl) as He.
  pose proof (lookup_lt_Some _ _ _ He) as Hlt. unfold leaf_put. rstep (repr_getKey R _ _ He). cbn [eKey].
  rewrite kv_insert_skip in * by done.
  destruct (decide (key = k)) as [->|Hkk].
  { rewrite kv_insert_hit in *.
    pose proof (update_at kv_entry l1 (k, v) (k, val) l2) as Heq. cbn [kv_entry fst snd] in Heq.
    rewrite <- Heq in *. by apply leafUpdate_repr. }
  assert (H0 : exists k0 v0, map kv_entry (l1 ++ (k, v) :: l2) !! 0%nat = Some (mkEntry 0 k0 v0) /\
    (l1 = [] -> k0 = k) /\ (l1 <> [] -> blt k0 key)).
  { destruct l1 as [|[k0 v0] l1]; [by exists k, v|]. exists k0, v0. split; [done|]. split; [done|].
    intros _. by apply list.Forall_cons in H1 as [H1 _]. }
  destruct H0 as (k0 & v0 & H0 & Hk0 & Hk0'). 
  assert (E0 : getKey b 0 = Ok k0) by (apply (repr_getKey R 0 _ H0)). rstep E0.
  destruct ((Compare key k0 <? 0) && (Z.of_nat (length l1) =? 0)) eqn:Hc.
  - apply andb_true_iff in Hc as [Hc1%Z.ltb_lt%Compare_lt Hc2%Z.eqb_eq]. destruct l1; [|cbn in Hc2; lia]. cbn [app] in *.
    specialize (Hk0 eq_refl) as ->. rewrite kv_insert_head in * by (constructor; [done|]; eauto with key_order).
    destruct (leaf_prepend new b ((k, v) :: l2) key val) as (n1 & n2 & n3 & EN & E1 & E2 & E3 & L3 & R3); try done.
    rstep EN. rstep E1. rstep E2. by exists n3.
  - assert (Hlt' : blt k key).
    { destruct Hk as [->|Hk]; [|by apply ble_lt_eq in Hk as [?|?]]. cbn in Hc. rewrite andb_true_r in Hc.
      apply Z.ltb_ge in Hc. rewrite (Hk0 eq_refl) in Hc. destruct (blt_total key k) as [Hb|[?|?]]; try done.
      apply Compare_lt in Hb. lia. }
    assert (Hins : kv_insert key val ((k, v) :: l2) = (k, v) :: (key, val) :: l2).
    { change ((k, v) :: l2) with ([(k, v)] ++ l2). rewrite kv_insert_skip by by apply list.Forall_singleton.
      by rewrite kv_insert_head. }
    rewrite Hins in *.
    pose proof (insert_at kv_entry l1 (k, v) (key, val) l2) as Heq. cbn [kv_entry fst snd] in Heq.
    rewrite <- Heq in *.
    destruct (leafInsert_repr new b _ _ (S (length l1)) key val R) as (new' & E & L & R'); [lia|done|done|].
    pose proof (repr_bounds R). rewrite u16_id by lia. replace (Z.of_nat (length l1) + 1) with (Z.of_nat (S (length l1))) by lia.
    by exists new'.
Qed.

(** ** Splitting a node of a tree *)

Lemma body_app_inv M h F es1 es2 kvs : body M h F (es1 ++ es2) kvs ->
  exists F1 F2 l1 l2, F = F1 ∪ F2 /\ F1 ## F2 /\ kvs = l1 ++ l2 /\ body M h F1 es1 l1 /\ body M h F2 es2 l2.
Proof.
  destruct h as [|h].
  - intros [-> E]. symmetry in E. apply map_eq_app in E as (l1 & l2 & -> & <- & <-).
    exists ∅, ∅, l1, l2. split; [set_solver|]. split; [set_solver|]. done.
  - intros H. apply forest_app_inv in H as (F1 & F2 & l1 & l2 & -> & Hd & -> & H1 & H2). by exists F1, F2, l1, l2.
Qed.
Lemma body_nonempty M h F es kvs : body M h F es kvs -> es <> [] -> exists k, head kvs.*1 = Some k.
Proof.
  destruct h as [|h].
  - intros [_ ->]. destruct kvs as [|[k v] kvs]; [done|]. by exists k.
  - intros H Hes. pose proof (forest_nonempty_2 _ _ _ H Hes). destruct kvs as [|[k v] kvs]; [done|]. by exists k.
Qed.
Lemma body_ne M h F es kvs : body M h F es kvs -> kvs <> [] -> es <> [].
Proof.
  destruct h as [|h]; [intros [_ ->] Hk E; by destruct kvs|]. intros H Hk. exact (forest_nonempty _ _ _ H Hk).
Qed.

Lemma roots_one T F b kvs k : blen b = PAGE_SIZE -> T F b kvs -> head kvs.*1 = Some k -> roots T F [b] [k] kvs.
Proof.
  intros. rewrite <- (app_nil_r kvs), <- (right_id_L ∅ (∪) F). apply (roots_cons T b); try done; try apply roots_nil; set_solver.
Qed.
Lemma split_tree M h F b es kvs : node_is b (ntype h) es -> body M h F es kvs -> kvs <> [] ->
  blen b = 2 * PAGE_SIZE -> splittable es ->
  (exists b1 k, nodeSplit3 b = Ok [b1] /\ blen b1 = PAGE_SIZE /\ tree M h F b1 kvs /\ head kvs.*1 = Some k /\
     node_size es <= PAGE_SIZE) \/
  (exists b1 b2 k1 k2 F1 F2 l1 l2, nodeSplit3 b = Ok [b1; b2] /\ F = F1 ∪ F2 /\ F1 ## F2 /\ kvs = l1 ++ l2 /\
     blen b1 = PAGE_SIZE /\ tree M h F1 b1 l1 /\ head l1.*1 = Some k1 /\
     blen b2 = PAGE_SIZE /\ tree M h F2 b2 l2 /\ head l2.*1 = Some k2 /\ (h = 0%nat -> (2 <= length l1)%nat) /\
     PAGE_SIZE < node_size es).
Proof.
  intros R Hb Hne Hl (Hsz & m & Hm & HF & Hhalf). pose proof (body_ne _ _ _ _ _ Hb Hne) as Hes.
  destruct (Z.leb_spec (node_size es) PAGE_SIZE) as [Hfit|Hbig].
  - assert (Hs : split3_spec es = Some [es]) by (unfold split3_spec; by rewrite (proj2 (Z.leb_le _ _) Hfit)).
    destruct (nodeSplit3_repr b (ntype h) es [es] R Hl Hsz Hs) as (ps & E & _ & H2).
    apply list.Forall2_cons_inv_r in H2 as (b1 & ps' & [Hb1 R1] & H2 & ->). apply list.Forall2_nil_inv_r in H2 as ->.
    destruct (body_nonempty _ _ _ _ _ Hb Hes) as [k Hk]. left. exists b1, k. split; [done|]. split; [done|]. split; [by exists es|].
    by split.
  - set (k := split_point (node_size es / 2) 4 es).
    assert (Hs : split3_spec es = Some [take k es; drop k es]).
    { unfold split3_spec. rewrite (proj2 (Z.leb_gt _ _) Hbig). fold k.
      pose proof (split_point_below (node_size es / 2) 4 es m HF ltac:(lia)) as H'. fold k in H'.
      rewrite (proj2 (Z.leb_le (node_size (take k es)) PAGE_SIZE)); [done|]. unfold PAGE_SIZE in *.
      Z.div_mod_to_equations. lia. }
    destruct (nodeSplit3_repr b (ntype h) es _ R Hl Hsz Hs) as (ps & E & _ & H2).
    apply list.Forall2_cons_inv_r in H2 as (b1 & ps' & [Hb1 R1] & H2 & ->).
    apply list.Forall2_cons_inv_r in H2 as (b2 & ps'' & [Hb2 R2] & H2 & ->).
    apply list.Forall2_nil_inv_r in H2 as ->.
    pose proof (split_point_reaches (node_size es / 2) 4 es) as Hr. fold k in Hr.
    pose proof (page_node_size _ _ _ R1). pose proof (page_node_size _ _ _ R2). rewrite Hb1 in *. rewrite Hb2 in *.
    pose proof (node_size_take_drop k es) as Htd.
    assert (Hd : drop k es <> []).
    { intros E0. rewrite E0 in Htd. unfold node_size in Htd at 3. cbn in Htd. lia. }
    assert (H2l : (2 <= length (take k es))%nat).
    { unfold MAXENTRY, PAGE_SIZE in *. assert (2048 <= node_size (take k es)).
      { Z.div_mod_to_equations. lia. }
      assert (HF' : Forall (fun e => esize e + 10 <= m) (take k es)) by by apply Forall_take.
      destruct (take k es) as [|e [|e' l]]; [unfold node_size in *; cbn in *; lia| |cbn; lia].
      apply list.Forall_cons in HF' as [He _]. rewrite node_size_cons in *. unfold node_size in *. cbn in *. lia. }
    rewrite <- (take_drop k es) in Hb. apply body_app_inv in Hb as (F1 & F2 & l1 & l2 & -> & HD & -> & B1 & B2).
    destruct (body_nonempty _ _ _ _ _ B1) as [k1 Hk1]; [intros E0; rewrite E0 in H2l; cbn in H2l; lia|].
    destruct (body_nonempty _ _ _ _ _ B2 Hd) as [k2 Hk2].
    right. exists b1, b2, k1, k2, F1, F2, l1, l2. repeat (split; [done|]). split; [by exists (take k es)|].
    repeat (split; [done|]). split; [by exists (drop k es)|]. split; [done|]. split; [|done]. intros ->.
    destruct B1 as [_ E1]. by rewrite E1, length_map in H2l.
Qed.

(** ** The loop that allocates the kids *)

Lemma tree_first_key M h F b kvs k : tree M h F b kvs -> head kvs.*1 = Some k -> getKey b 0 = Ok k.
Proof.
  intros (es & R & Hb) Hk.
  assert (H0 : exists e, es !! 0%nat = Some e /\ eKey e = k).
  { destruct h as [|h].
    - destruct Hb as [_ ->]. destruct kvs as [|[k' v] kvs]; [done|]. exists (mkEntry 0 k' v). cbn in *. by injection Hk.
    - destruct es as [|e es]; [inversion Hb; subst; done|].
      apply forest_cons_inv in Hb as (b1 & F1 & l1 & F2 & l2 & E & _ & _ & _ & Hk1 & _ & _ & _ & _ & ->).
      exists e. split; [done|]. destruct l1 as [|[k' v] l1]; [done|]. cbn in *. congruence. }
  destruct H0 as (e & He & <-). apply (repr_getKey R 0 _ He).
Qed.
Definition key_entry (k : bytes) : entry := mkEntry 0 k [].
Lemma esize_key p k : esize (mkEntry p k []) = 4 + blen k.
Proof. unfold esize. cbn. rewrite blen_nil. lia. Qed.

Lemma roots_mono M M' h F bs ks kvs : roots (tree M h) F bs ks kvs ->
  (forall q x, q ∈ F -> M !! q = Some x -> M' !! q = Some x) -> roots (tree M' h) F bs ks kvs.
Proof.
  induction 1 as [|b F kvs k F2 bs ks kvs2 Hb HT Hk Hd Hr IH]; intros HM; [apply roots_nil|].
  apply (roots_cons _ b); try done; [|apply IH; intros; apply HM; [set_solver|done]].
  eapply tree_mono; [exact HT|]. intros; apply HM; [set_solver|done].
Qed.

Lemma roots_keys T F bs ks kvs : roots T F bs ks kvs -> ks ⊆ kvs.*1 /\ length ks = length bs.
Proof.
  induction 1 as [|b F kvs k F2 bs ks kvs2 Hb HT Hk Hd Hr [IH IHl]]; [done|]. split; [|cbn; lia].
  rewrite fmap_app. intros x [->|Hx]%elem_of_cons; apply elem_of_app; [left|right; by apply IH].
  destruct kvs as [|[k' v] kvs]; [done|]. cbn in *. injection Hk as ->. by left.
Qed.

Section Kids.
Context {St pages} `{PageLaws St pages}.

(** One kid: a new page for it, and its entry in the node. *)
Lemma replace_kid_step h F M (s : St) n new t cnt es idx j b l k :
  tree M h F b l -> head l.*1 = Some k -> blen b = PAGE_SIZE -> pages (S n) s M ->
  node_repr new t cnt es -> Z.of_nat (length es) < cnt -> 4 + 10 * cnt + (kvsize es + (4 + blen k)) <= blen new -> (idx + j = length es)%nat ->
  exists s1 p new1, replace_kid (Z.of_nat idx) (s, new) (j, b) = Ok (s1, new1) /\ pages n s1 (<[p := b]> M) /\ M !! p = None /\
    blen new1 = blen new /\ node_repr new1 t cnt (es ++ [mkEntry p k []]).
Proof.
  intros HT Hk Hb Hp R Hc Hsz Hj. destruct (pages_new _ s M b Hp Hb) as (s1 & p & E1 & HpM & Hp0 & Hpu & Hp1).
  assert (Hk1 : kvsize [mkEntry p k []] = 4 + blen k) by (cbn [kvsize]; rewrite esize_key; lia).
  destruct (nodeAppendKV_repr new t cnt es p k [] R) as (new1 & E2 & L2 & R2); [lia|done|rewrite kvsize_app; lia|].
  exists s1, p, new1. split; [|done]. unfold replace_kid. rstep E1. rstep (tree_first_key M h F b l k HT Hk).
  pose proof (repr_bounds R2) as HB. rewrite length_app in HB. cbn in HB. rewrite u16_id by lia.
  replace (Z.of_nat idx + Z.of_nat j) with (Z.of_nat (length es)) by lia. by rstep E2.
Qed.
Lemma replace_kids_loop h bs : forall ks kvs F M (s : St) n new t cnt es idx j,
  roots (tree M h) F bs ks kvs -> pages (length bs + n)%nat s M -> (forall q, q ∈ F -> is_Some (M !! q)) ->
  node_repr new t cnt es -> Z.of_nat (length es + length bs) <= cnt ->
  4 + 10 * cnt + kvsize (es ++ map key_entry ks) <= blen new -> (idx + j = length es)%nat ->
  exists s' new' M' F' esN,
    foldM (replace_kid (Z.of_nat idx)) (s, new) (imap (fun i b => ((j + i)%nat, b)) bs) = Ok (s', new') /\
    pages n s' M' /\ M ⊆ M' /\ (forall q, q ∈ F' -> q ∈ F \/ M !! q = None) /\
    forest M' (tree M' h) F' esN kvs /\ map eKey esN = ks /\
    node_repr new' t cnt (es ++ esN) /\ blen new' = blen new.
Proof.
  induction bs as [|b bs IH]; intros ks kvs F M s n new t cnt es idx j Hr Hp HF R Hc Hsz Hj.
  { inversion Hr; subst. exists s, new, M, ∅, []. rewrite app_nil_r in *. split; [done|]. split; [done|].
    split; [done|]. split; [set_solver|]. split; [apply forest_nil|done]. }
  inversion Hr as [|b' F1 l1 k F2 bs' ks' l2 Hb HT Hk Hd Hr2]; subst. cbn [map length imap foldM] in *.
  pose proof (kvsize_nonneg es). pose proof (kvsize_nonneg (map key_entry ks')).
  assert (Hkv : kvsize (es ++ key_entry k :: map key_entry ks') = kvsize es + (4 + blen k) + kvsize (map key_entry ks')).
  { rewrite kvsize_app. cbn [kvsize]. unfold key_entry at 1. rewrite esize_key. lia. }
  destruct (replace_kid_step h F1 M s _ new t cnt es idx j b l1 k HT Hk Hb Hp R) as (s1 & p & new1 & ES & Hp1 & HpM & L2 & R2); [lia..|].
  assert (HM : forall q x, M !! q = Some x -> <[p := b]> M !! q = Some x).
  { intros q x Hq. rewrite lookup_insert_ne; [done|]. congruence. }
  assert (HpF : forall q, q ∈ F1 ∪ F2 -> q <> p).
  { intros q Hq ->. destruct (HF _ Hq). congruence. }
  destruct (IH ks' l2 F2 (<[p := b]> M) s1 n new1 t cnt (es ++ [mkEntry p k []]) idx (S j))
    as (s' & new' & M' & F' & esN & E & Hp' & HMM & HF' & Hfo & Hks & R' & L'); try done.
  { eapply roots_mono; [exact Hr2|]. intros; by apply HM. }
  { intros q Hq. destruct (HF q ltac:(set_solver)) as [x Hx]. exists x. by apply HM. }
  { rewrite length_app. cbn. lia. }
  { rewrite L2, !kvsize_app in *. cbn [kvsize]. rewrite esize_key. lia. }
  { rewrite length_app. cbn. lia. }
  assert (HMM' : forall q x, M !! q = Some x -> M' !! q = Some x).
  { intros q x Hq. eapply lookup_weaken; [by apply HM|done]. }
  exists s', new', M', ({[p]} ∪ F1 ∪ F'), (mkEntry p k [] :: esN). split.
  { rewrite Nat.add_0_r. rstep ES. erewrite imap_ext; [exact E|]. intros i x _. cbn. f_equal. lia. }
  split; [done|]. split; [by apply map_subseteq_spec|]. split.
  { intros q [[Hq%elem_of_singleton|Hq]%elem_of_union|Hq]%elem_of_union; [subst q; by right|left; set_solver|].
    destruct (HF' q Hq) as [|HN]; [left; set_solver|right]. destruct (decide (q = p)) as [->|]; [done|].
    by rewrite lookup_insert_ne in HN. }
  split.
  { apply (forest_cons M' _ p b); try done.
    - eapply lookup_weaken; [|exact HMM]. by rewrite lookup_insert_eq.
    - eapply tree_mono; [exact HT|]. intros; by apply HMM'.
    - intros Hq. by apply (HpF p); [set_solver|].
    - intros q Hq1 Hq2. destruct (HF' q Hq2) as [Hq|HN].
      + apply elem_of_union in Hq1 as [->%elem_of_singleton|Hq1]; [|by apply (Hd q)]. by apply (HpF p); [set_solver|].
      + apply elem_of_union in Hq1 as [->%elem_of_singleton|Hq1]; [by rewrite lookup_insert_eq in HN|].
        destruct (HF q ltac:(set_solver)) as [x Hx]. rewrite (HM _ _ Hx) in HN. done. }
  split; [cbn; by rewrite Hks|]. rewrite <- app_assoc in R'. split; [done|lia].
Qed.
End Kids.

(** ** Replacing a kid *)

Lemma kvsize_keys es : Forall (fun e => eVal e = []) es -> kvsize es = kvsize (map key_entry (map eKey es)).
Proof.
  induction 1 as [|[p k v] es He _ IH]; [done|]. cbn in He. subst v. cbn [map kvsize]. rewrite IH.
  unfold key_entry. cbn [eKey]. by rewrite !esize_key.
Qed.
Lemma forest_vals M T F es kvs : forest M T F es kvs -> Forall (fun e => eVal e = []) es.
Proof. induction 1; by constructor. Qed.

(** The size of an inner node with the kid at [i] replaced by kids with first
    keys [ks]. *)
Definition replaced_size (es : list entry) (i : nat) (ks : list bytes) : Z :=
  node_size (take i es ++ map key_entry ks ++ drop (S i) es).

Section Replace.
Context {St pages} `{PageLaws St pages}.

(** The subtrees of a node with one of them replaced. *)
Lemma forest_replaced M M' h F1 F2 FK F' es1 es2 esN l1 l2 lK :
  forest M (tree M h) F1 es1 l1 -> forest M (tree M h) F2 es2 l2 -> forest M' (tree M' h) F' esN lK -> M ⊆ M' ->
  F1 ## FK -> F1 ## F2 -> FK ## F2 -> (forall q, q ∈ F1 ∪ FK ∪ F2 -> is_Some (M !! q)) -> (forall q, q ∈ F' -> q ∈ FK \/ M !! q = None) ->
  forest M' (tree M' h) (F1 ∪ (F' ∪ F2)) (es1 ++ esN ++ es2) (l1 ++ lK ++ l2) /\
  forall q, q ∈ F1 ∪ (F' ∪ F2) -> q ∈ F1 ∪ FK ∪ F2 \/ M !! q = None.
Proof.
  intros Hf1 Hf2 HfN HMM D1 D2 D3 HF HF'.
  assert (HN : forall q, q ∈ F' -> q ∉ F1 ∪ F2).
  { intros q Hq Hq2. destruct (HF' q Hq) as [HK|HNo]; [set_solver|]. destruct (HF q ltac:(set_solver)). congruence. }
  assert (Hmono : forall F es l, forest M (tree M h) F es l -> forest M' (tree M' h) F es l).
  { intros F es0 l Hfo0. eapply forest_tree_mono; [exact Hfo0|]. intros q x _ Hq. by eapply lookup_weaken. }
  split.
  - apply forest_app; [by apply Hmono| |set_solver]. apply forest_app; [done|by apply Hmono|set_solver].
  - intros q Hq. destruct (decide (q ∈ F')) as [Hq'|Hq']; [|left; set_solver]. destruct (HF' q Hq') as [|]; [left; set_solver|by right].
Qed.

Lemma nodeReplaceKidN_spec h (s : St) n M new old es i F1 F2 FK l1 l2 lK bs ks :
  node_is old BNODE_NODE es -> (i < length es)%nat ->
  forest M (tree M h) F1 (take i es) l1 -> forest M (tree M h) F2 (drop (S i) es) l2 ->
  roots (tree M h) FK bs ks lK -> F1 ## FK -> F1 ## F2 -> FK ## F2 ->
  (forall q, q ∈ F1 ∪ FK ∪ F2 -> is_Some (M !! q)) ->
  pages (length bs + n)%nat s M -> blen new < 65536 -> replaced_size es i ks <= blen new -> (1 <= length bs)%nat ->
  exists s' new' M' F' es', nodeReplaceKidN s new old (Z.of_nat i) bs = Ok (s', new') /\ pages n s' M' /\ M ⊆ M' /\
    (forall q, q ∈ F' -> q ∈ F1 ∪ FK ∪ F2 \/ M !! q = None) /\ node_is new' BNODE_NODE es' /\ blen new' = blen new /\
    forest M' (tree M' h) F' es' (l1 ++ lK ++ l2) /\ node_size es' = replaced_size es i ks.
Proof.
  intros R Hi Hf1 Hf2 Hr D1 D2 D3 HF Hp Hl Hsz Hbs. pose proof (roots_keys _ _ _ _ _ Hr) as [_ Hkl].
  set (cnt := (length es + length bs - 1)%nat).
  assert (Hcnt : length (take i es ++ map key_entry ks ++ drop (S i) es) = cnt).
  { rewrite !length_app, length_take_le, length_map, length_drop by lia. lia. }
  unfold replaced_size, node_size in Hsz. rewrite Hcnt, !kvsize_app in Hsz.
  pose proof (kvsize_nonneg (take i es)). pose proof (kvsize_nonneg (map key_entry ks)).
  pose proof (kvsize_nonneg (drop (S i) es)).
  destruct (setHeader_repr new BNODE_NODE (Z.of_nat cnt)) as (b0 & E0 & L0 & R0); [done|done|lia|lia|].
  destruct (append_range_at b0 old BNODE_NODE (Z.of_nat cnt) [] _ es 0 i 0 0 (Z.of_nat i) R R0)
    as (b1 & E1 & L1 & R1); [done|done|done|lia|cbn; lia| |].
  { rewrite drop_0. cbn [app]. lia. }
  rewrite drop_0 in R1. cbn [app] in R1.
  destruct (replace_kids_loop h bs ks lK FK M s n b1 BNODE_NODE (Z.of_nat cnt) (take i es) i 0 Hr)
    as (s' & b2 & M' & F' & esN & E2 & Hp' & HMM & HF' & Hfo & Hks & R2 & L2); try done.
  { intros q Hq. apply HF. set_solver. }
  { rewrite length_take_le by lia. lia. }
  { rewrite kvsize_app. lia. }
  { rewrite length_take_le by lia. lia. }
  assert (HlN : length esN = length bs) by by rewrite <- Hkl, <- Hks, length_map.
  pose proof (kvsize_keys esN (forest_vals _ _ _ _ _ Hfo)) as HkN. rewrite Hks in HkN.
  destruct (append_range_at b2 old BNODE_NODE (Z.of_nat cnt) (take i es ++ esN) _ es (S i) (length es - S i)
    (Z.of_nat (i + length bs)) (Z.of_nat (S i)) (Z.of_nat (length es - S i)) R R2) as (b3 & E3 & L3 & R3).
  { rewrite length_app, length_take_le by lia. lia. }
  { done. }
  { done. }
  { lia. }
  { rewrite length_app, length_take_le by lia. lia. }
  { rewrite !kvsize_app, (take_ge (drop (S i) es)) by (rewrite length_drop; lia). lia. }
  rewrite (take_ge (drop (S i) es)), <- app_assoc in R3 by (rewrite length_drop; lia).
  assert (Hlen : length (take i es ++ esN ++ drop (S i) es) = cnt).
  { rewrite !length_app, length_take_le, length_drop by lia. lia. }
  destruct (forest_replaced M M' h F1 F2 FK F' _ _ esN l1 l2 lK Hf1 Hf2 Hfo HMM D1 D2 D3 HF HF') as [HfR HFR].
  exists s', b3, M', (F1 ∪ (F' ∪ F2)), (take i es ++ esN ++ drop (S i) es). split.
  { pose proof (repr_bounds R). unfold nodeReplaceKidN. rstep (repr_nkeys R).
    rewrite (u16_id (Z.of_nat (length bs))), (u16_id (Z.of_nat (length es) + Z.of_nat (length bs))),
      (u16_id (Z.of_nat i + 1)), !u16_id by lia.
    replace (Z.of_nat (length es) + Z.of_nat (length bs) - 1) with (Z.of_nat cnt) by lia. rstep E0. rstep E1.
    erewrite imap_ext in E2; [rstep E2|done].
    replace (Z.of_nat i + Z.of_nat (length bs)) with (Z.of_nat (i + length bs)) by lia.
    replace (Z.of_nat (length es) - (Z.of_nat i + 1)) with (Z.of_nat (length es - S i)) by lia.
    replace (Z.of_nat i + 1) with (Z.of_nat (S i)) by lia. by rstep E3. }
  split; [done|]. split; [done|]. split; [exact HFR|].
  split; [unfold node_is; by rewrite Hlen|]. split; [lia|]. split; [exact HfR|].
  unfold replaced_size, node_size. rewrite Hlen, Hcnt, !kvsize_app. lia.
Qed.
End Replace.

(** ** Insertion below a node *)

Lemma kvsize_key_bound ks : Forall (fun k => blen k <= MAXKEYLEN) ks ->
  kvsize (map key_entry ks) <= 1004 * Z.of_nat (length ks).
Proof.
  induction 1 as [|k ks Hk _ IH]; [done|]. cbn [map kvsize length]. unfold key_entry at 1. rewrite esize_key.
  unfold MAXKEYLEN in *. lia.
Qed.
Lemma replaced_size_le es i ks : (i < length es)%nat -> Forall (fun k => blen k <= MAXKEYLEN) ks ->
  replaced_size es i ks <= node_size es + 1014 * Z.of_nat (length ks) - 10.
Proof.
  intros Hi Hk. apply kvsize_key_bound in Hk. unfold replaced_size, node_size.
  rewrite !length_app, length_take_le, length_map, length_drop by lia. rewrite !kvsize_app.
  destruct (lookup_lt_is_Some_2 es i Hi) as [e He]. pose proof (kvsize_take_drop (S i) es) as Hs.
  rewrite (take_S_r es i e He), kvsize_app in Hs. cbn [kvsize] in Hs. pose proof (esize_pos e). lia.
Qed.
Lemma small_keys T F bs ks kvs : roots T F bs ks kvs -> Forall small_kv kvs ->
  Forall (fun k => blen k <= MAXKEYLEN) ks.
Proof.
  intros Hr Hs. apply list.Forall_forall. intros k Hk.
  apply (proj1 (roots_keys _ _ _ _ _ Hr)), list_elem_of_fmap in Hk as (kv & -> & Hkv).
  rewrite list.Forall_forall in Hs. by apply Hs in Hkv as [? _].
Qed.
Lemma forest_small M T F es kvs : forest M T F es kvs -> Forall small_kv kvs ->
  Forall (fun e => esize e + 10 <= 1014) es.
Proof.
  intros Hf Hs. apply list.Forall_forall. intros e He. pose proof (forest_vals _ _ _ _ _ Hf) as Hv.
  rewrite list.Forall_forall in Hv. apply (forest_key_in _ _ _ _ Hf) in He as Hk.
  apply list_elem_of_fmap in Hk as (kv & Hk & Hkv). rewrite list.Forall_forall in Hs. apply Hs in Hkv as [Hl _].
  unfold esize. rewrite (Hv e He), blen_nil, Hk. unfold MAXKEYLEN in Hl. lia.
Qed.

Section TreeInsert.
Context {St pages} `{PageLaws St pages}.

(** What an insertion that returns the bytes [b'] has done. *)
Definition inserted (h : nat) (n : nat) (M : gmap Z bytes) (F : gset Z) (key val : bytes) (kvs : kvl) (r : res (St * bytes)) : Prop :=
  exists s' b' M' F' es', r = Ok (s', b') /\ pages n s' M' /\ page_step M M' F F' /\ blen b' = 2 * PAGE_SIZE /\
    node_is b' (ntype h) es' /\ body M' h F' es' (kv_insert key val kvs) /\ splittable es'.

Lemma leaf_insert n M (s : St) fuel b kvs key val : node_is b BNODE_LEAF (map kv_entry kvs) -> blen b = PAGE_SIZE ->
  pages n s M -> kv_sorted kvs -> kvs <> [] -> Forall small_kv kvs -> small_kv (key, val) ->
  inserted 0 n M ∅ key val kvs (treeInsert (S fuel) s b key val).
Proof.
  intros R Hb Hp Hs Hne Hsm Hk. destruct (choose_entry b kvs key R Hs Hne) as (l1 & k & v & l2 & E & _).
  pose proof (insert_size key val kvs) as Hsz. pose proof (page_node_size _ _ _ R) as Hfit. rewrite Hb in Hfit.
  destruct Hk as [Hk1 Hk2]. cbn [fst snd] in *. unfold MAXENTRY, PAGE_SIZE in *.
  destruct (leaf_put_spec (make_bytes (2 * PAGE_SIZE)) b kvs key val (Z.of_nat (length l1)) R Hs Hne)
    as (b' & E1 & L1 & R1);
    rewrite ?blen_make by (unfold PAGE_SIZE; lia); try done; [unfold PAGE_SIZE; lia..|].
  rewrite blen_make in L1 by (unfold PAGE_SIZE; lia).
  exists s, b', M, ∅, (map kv_entry (kv_insert key val kvs)). split.
  { cbn [treeInsert]. rstep E. rstep (repr_btype R). rewrite decide_True by done. by rstep E1. }
  split; [done|]. split; [apply page_step_refl|]. split; [done|]. split; [done|]. split; [done|].
  split; [unfold PAGE_SIZE; lia|]. exists MAXENTRY. unfold MAXENTRY, PAGE_SIZE. split; [lia|]. split.
  - apply small_entries_kv. apply small_insert; [done|]. by split.
  - Z.div_mod_to_equations. lia.
Qed.

(** What a change below the child at a position leaves of the rest. *)
Lemma around_child M M1 M2 h F es kvs i p k bI F1 FI F2 l1 lI l2 FI1 :
  child_at (M := M) (T := tree M h) F es kvs i p k bI F1 FI F2 l1 lI l2 -> (forall q, q ∈ F -> is_Some (M !! q)) ->
  page_step M M1 FI FI1 -> (forall q x, M1 !! q = Some x -> q <> p -> M2 !! q = Some x) ->
  M1 !! p = Some bI /\ forest M2 (tree M2 h) F1 (take i es) l1 /\ forest M2 (tree M2 h) F2 (drop (S i) es) l2 /\
  (forall es1 l, body M1 h FI1 es1 l -> body M2 h FI1 es1 l) /\ F1 ## FI1 /\ FI1 ## F2 /\ F1 ## F2 /\ p ∉ FI1 /\
  (forall q, q ∈ F1 ∪ F2 -> is_Some (M2 !! q)).
Proof.
  intros C HF [HS1 HS2] HM2. destruct C. subst F.
  assert (HD : forall q, q ∈ F1 ∪ F2 -> q ∉ FI /\ q <> p /\ is_Some (M !! q)).
  { intros q Hq. split; [set_solver|]. split; [set_solver|]. apply HF. set_solver. }
  assert (HM : forall q x, q ∈ F1 ∪ F2 -> M !! q = Some x -> M2 !! q = Some x).
  { intros q x Hq Hx. destruct (HD q Hq) as (? & ? & _). apply HM2; [by apply HS1|done]. }
  assert (HpI : p ∉ FI1) by (intros [?|?]%HS2; [done|congruence]).
  assert (HX : forall q, q ∈ F1 ∪ F2 -> q ∉ FI1).
  { intros q Hq Hq2. destruct (HD q Hq) as (? & _ & [x Hx]). apply HS2 in Hq2 as [?|?]; [done|congruence]. }
  split; [by apply HS1|]. split; [eapply forest_tree_mono; [done|]; intros; apply HM; [set_solver|done]|].
  split; [eapply forest_tree_mono; [done|]; intros; apply HM; [set_solver|done]|]. split.
  { intros es1 l HB. eapply body_mono; [exact HB|]. intros q x Hq Hx. apply HM2; [done|]. by intros ->. }
  split; [set_solver|]. split; [set_solver|]. split; [set_solver|]. split; [done|].
  intros q Hq. destruct (HD q Hq) as (_ & _ & [x Hx]). exists x. by apply HM.
Qed.

(** The parts an updated node is split in. *)
Lemma split_parts M h F b es kvs : node_is b (ntype h) es -> body M h F es kvs -> kvs <> [] ->
  blen b = 2 * PAGE_SIZE -> splittable es ->
  exists bs ks, nodeSplit3 b = Ok bs /\ roots (tree M h) F bs ks kvs /\ (1 <= length bs <= 2)%nat.
Proof.
  intros R HB Hne Hb Hspl. destruct (split_tree M h F b es kvs R HB Hne Hb Hspl)
    as [(c1 & k1 & Es & ? & ? & ? & _)|(c1 & c2 & k1 & k2 & F1 & F2 & l1 & l2 & Es & -> & Hd & -> & ? & ? & ? & ? & ? & ? & _)].
  - exists [c1], [k1]. split; [done|]. split; [by apply roots_one|cbn; lia].
  - exists [c1; c2], [k1; k2]. split; [done|]. split; [|cbn; lia]. apply (roots_cons _ c1); try done. by apply roots_one.
Qed.

Lemma node_insert h fuel n (s : St) M F b es kvs key val : node_is b BNODE_NODE es -> forest M (tree M h) F es kvs ->
  blen b = PAGE_SIZE -> pages (3 * S h + n)%nat s M -> kv_sorted kvs -> kvs <> [] -> Forall small_kv kvs -> small_kv (key, val) ->
  (forall bI FI lI, tree M h FI bI lI -> blen bI = PAGE_SIZE -> kv_sorted lI -> lI <> [] -> Forall small_kv lI ->
     inserted h (3 + n) M FI key val lI (treeInsert fuel s bI key val)) ->
  inserted (S h) n M F key val kvs (treeInsert (S fuel) s b key val).
Proof.
  intros R Hfo Hb Hp Hs Hne Hsm Hk IH.
  destruct (choose_child key R Hfo Hs Hne) as (i & p & k & bI & F1 & FI & F2 & l1 & lI & l2 & E & Hi & C & H1 & H2).
  pose proof (body_dom M (S h) F es kvs Hfo) as HFdom. pose proof (ca_list _ _ _ _ _ _ _ _ _ _ _ _ _ C) as ->.
  apply kv_sorted_app in Hs as (_ & Hs & _). apply kv_sorted_app in Hs as (Hs & _ & _).
  apply list.Forall_app in Hsm as [Hsm1 Hsm]. apply list.Forall_app in Hsm as [HsmI Hsm2].
  destruct (IH bI FI lI) as (s1 & b1 & M1 & FI1 & es1 & E1 & Hp1 & HS & Hb1 & R1 & B1 & Hspl);
    try (by destruct C); [by intros ->; destruct C|].
  set (M2 := delete p M1).
  assert (HM2 : forall q x, M1 !! q = Some x -> q <> p -> M2 !! q = Some x) by (intros; unfold M2; by rewrite lookup_delete_ne).
  destruct (around_child _ _ M2 _ _ _ _ _ _ _ _ _ _ _ _ _ _ _ C HFdom HS HM2)
    as (Hpage & Hf1 & Hf2 & HB & D1 & D2 & D3 & HpI & Hdom).
  destruct (pages_del (2 + n) s1 M1 p Hp1) as (s2 & E2 & Hp2); [by eexists|]. fold M2 in Hp2. apply HB in B1.
  pose proof (small_insert key val lI HsmI Hk) as HsmI'.
  destruct (split_parts M2 h FI1 b1 es1 _ R1 B1 (kv_insert_ne _ _ _) Hb1 Hspl) as (bs & ks & Es & Hr & Hbs).
  pose proof (small_keys _ _ _ _ _ Hr HsmI') as Hks.
  pose proof (roots_keys _ _ _ _ _ Hr) as [_ Hkl]. pose proof (replaced_size_le es i ks Hi Hks) as Hrs.
  pose proof (page_node_size _ _ _ R) as Hfit. rewrite Hb in Hfit.
  destruct (nodeReplaceKidN_spec h s2 n M2 (make_bytes (2 * PAGE_SIZE)) b es i F1 F2 FI1 l1 l2 (kv_insert key val lI) bs ks)
    as (s' & b' & M' & F' & es' & E3 & Hp' & HMM & HF' & R' & L' & Hfo' & Hsz'); try done; [|by eapply pages_mono; [|exact Hp2]; lia| |lia|].
  { intros q Hq. destruct (decide (q ∈ FI1)); [by eapply (body_dom M2 h FI1)|]. apply Hdom. set_solver. }
  { rewrite blen_make by (unfold PAGE_SIZE; lia). unfold PAGE_SIZE in *. lia. }
  destruct C. subst F. exists s', b', M', F', es'. split.
  { cbn [treeInsert]. rstep E. rstep (repr_btype R). rewrite decide_False, decide_True by done.
    unfold nodeInsert. rstep (repr_getptr R _ _ ca_entry). cbn [ePtr]. rstep (pages_get _ s M p bI Hp ca_page).
    rstep E1. rstep Es. rstep E2. done. }
  split; [done|]. split.
  { apply (page_step_around M M1 M2 M' _ FI FI1); try done; [set_solver|intros; apply HM2; [done|set_solver]| |intros; set_solver].
    intros q Hq. destruct (decide (q = p)) as [->|]; [left; set_solver|right]. unfold M2 in Hq. by rewrite lookup_delete_ne in Hq. }
  rewrite blen_make in L' by (unfold PAGE_SIZE; lia). split; [done|]. split; [done|].
  rewrite kv_insert_skip, kv_insert_before by done. split; [done|].
  unfold splittable. rewrite Hsz'. unfold PAGE_SIZE, MAXENTRY in *. split; [lia|]. exists 1014. split; [lia|]. split.
  - apply (forest_small _ _ _ _ _ Hfo'). apply list.Forall_app. split; [done|]. by apply list.Forall_app.
  - Z.div_mod_to_equations. lia.
Qed.

Lemma treeInsert_spec h : forall fuel n (s : St) M F b kvs key val, (h < fuel)%nat -> pages (3 * h + n)%nat s M ->
  tree M h F b kvs -> blen b = PAGE_SIZE -> kv_sorted kvs -> kvs <> [] -> Forall small_kv kvs -> small_kv (key, val) ->
  inserted h n M F key val kvs (treeInsert fuel s b key val).
Proof.
  induction h as [|h IH]; intros [|fuel] n s M F b kvs key val Hfuel Hp Ht Hb Hs Hne Hsm Hk; try lia.
  { apply tree_leaf_inv in Ht as [-> R]. by apply leaf_insert. }
  apply tree_node_inv in Ht as (es & R & Hfo). apply (node_insert h fuel n s M F b es); try done.
  intros bI FI lI HT HbI HsI HneI HsmI. apply IH; try done; [lia|]. eapply pages_mono; [|exact Hp]. lia.
Qed.
End TreeInsert.
