(* ===== verification/TreeDelete.v ===== *)
(** * Deletion from the B+tree

    [treeDelete] removes a key from the list a node stands for: the leaf is
    rewritten, small nodes are merged with a sibling, and the links and first
    keys on the way are replaced.  The new first key of a subtree must fit where
    the old one was: [succ_fits] says that the key that follows the deleted one
    is not longer, as it is when all keys have one length. *)
From Stdlib Require Import ZArith Lia Sorted.
From stdpp Require Import base gmap list strings countable sorting.
From coqutil Require Import Byte Word.LittleEndianList.
From S2P Require Import Prelude KVList BNode NodeLayout NodeOps BTree TreeRep TreeGet TreeInsert.

Definition succ_fits (key : bytes) (l : kvl) : Prop :=
  forall l1 v k' v' l2, l = l1 ++ (key, v) :: (k', v') :: l2 -> blen k' <= blen key.
Lemma succ_fits_mid key l1 l l2 : succ_fits key (l1 ++ l ++ l2) -> succ_fits key l.
Proof.
  intros H a v k' v' c ->. apply (H (l1 ++ a) v k' v' (c ++ l2)). by rewrite <- !app_assoc.
Qed.
(** The first key after a removal is the old one or its successor. *)
Lemma remove_head key l k k' : kv_sorted l -> succ_fits key l -> head l.*1 = Some k ->
  head (kv_remove key l).*1 = Some k' -> blen k' <= blen k.
Proof.
  intros Hs Hf Hk. destruct l as [|[k0 v0] l]; [done|]. cbn in Hk. injection Hk as ->.
  apply kv_sorted_cons in Hs as [Hg _]. unfold kv_remove. rewrite filter_cons. cbn. case_decide as Hkk.
  - cbn. intros [= ->]. lia.
  - assert (k = key) as -> by (destruct (decide (k = key)); [done|by destruct Hkk]).
    fold (kv_remove key l). rewrite kv_remove_gt by done. destruct l as [|[k1 v1] l]; [done|]. cbn. intros [= ->].
    by apply (Hf [] v0 k' v1 l).
Qed.

Section Delete.
Context {St pages} `{PageLaws St pages}.

Definition deleted (h n : nat) (s : St) (M : gmap Z bytes) (F : gset Z) (key : bytes) (kvs : kvl) (r : res (St * option bytes)) : Prop :=
  match kv_get key kvs with
  | None => r = Ok (s, None)
  | Some _ => exists s' b' M' F' es', r = Ok (s', Some b') /\ pages n s' M' /\ page_step M M' F F' /\ blen b' = PAGE_SIZE /\
      node_is b' (ntype h) es' /\ body M' h F' es' (kv_remove key kvs)
  end.

Lemma leaf_delete n M (s : St) fuel b kvs key : node_is b BNODE_LEAF (map kv_entry kvs) -> blen b = PAGE_SIZE ->
  pages n s M -> kv_sorted kvs -> kvs <> [] -> deleted 0 n s M ∅ key kvs (treeDelete (S fuel) s b key).
Proof.
  intros R Hb Hp Hs Hne. destruct (choose_entry b kvs key R Hs Hne) as (l1 & k & v & l2 & E & -> & H1 & H2 & _).
  pose proof (entry_at _ l1 k v l2 eq_refl) as He. pose proof (lookup_lt_Some _ _ _ He) as Hlt.
  unfold deleted. rewrite kv_get_skip by done. cbn [kv_get].
  assert (Hgo : treeDelete (S fuel) s b key = (if decide (key = k)
    then new ← leafDelete (make_bytes PAGE_SIZE) b (Z.of_nat (length l1)); Ok (s, Some new) else Ok (s, None))).
  { cbn [treeDelete]. rstep E. rstep (repr_btype R). rewrite decide_True by done. by rstep (repr_getKey R _ _ He). }
  rewrite Hgo. destruct (decide (k = key)) as [->|Hk]; [|rewrite kv_get_above by done; by rewrite decide_False by congruence].
  rewrite decide_True by done.
  assert (Hes : es_delete (length l1) (map kv_entry (l1 ++ (key, v) :: l2)) = map kv_entry (l1 ++ l2)).
  { unfold es_delete. rewrite firstn_map, skipn_map, take_app_length, drop_S_at. by rewrite map_app. }
  pose proof (page_node_size _ _ _ R) as Hfit. rewrite Hb in Hfit.
  destruct (leafDelete_repr (make_bytes PAGE_SIZE) b _ _ (length l1) R Hlt) as (b' & E1 & L1 & R1); [done| |].
  { rewrite Hes. change (blen (make_bytes PAGE_SIZE)) with PAGE_SIZE. rewrite map_app in *. cbn [map] in Hfit.
    rewrite node_size_app, ?node_size_cons in *. pose proof (esize_pos (kv_entry (key, v))). lia. }
  rewrite Hes in R1. rstep E1. exists s, b', M, ∅, (map kv_entry (l1 ++ l2)). split; [done|]. split; [done|].
  split; [apply page_step_refl|]. split; [by rewrite L1|]. split; [done|]. split; [done|].
  by rewrite kv_remove_app, kv_remove_lt, kv_remove_hit by done.
Qed.

(** ** Merging *)

Lemma shouldMerge_spec n (s : St) M node t es i updated tU esU : pages n s M -> node_is node t es -> (i < length es)%nat ->
  node_is updated tU esU -> node_size esU <= PAGE_SIZE ->
  (forall j e, es !! j = Some e -> j <> i -> exists b sz, M !! ePtr e = Some b /\ nbytes b = Ok sz /\ 4 <= sz <= PAGE_SIZE) ->
  (exists j e b sz, i = S j /\ shouldMerge s node (Z.of_nat i) updated = Ok (-1, b) /\ es !! j = Some e /\
     M !! ePtr e = Some b /\ nbytes b = Ok sz /\ sz + node_size esU - 4 <= PAGE_SIZE) \/
  (exists e b sz, shouldMerge s node (Z.of_nat i) updated = Ok (1, b) /\ es !! S i = Some e /\
     M !! ePtr e = Some b /\ nbytes b = Ok sz /\ sz + node_size esU - 4 <= PAGE_SIZE) \/
  (shouldMerge s node (Z.of_nat i) updated = Ok (0, []) /\ (esU = [] -> length es = 1%nat)).
Proof.
  intros Hp R Hi RU HU Hsib. pose proof (repr_bounds R) as HB. pose proof (node_size_nonneg esU).
  pose proof (eq_refl : PAGE_SIZE = 4096) as HP. pose proof (eq_refl : HEADER = 4) as HH.
  unfold shouldMerge. rstep (node_is_nbytes _ _ _ RU).
  destruct (Z.ltb_spec (PAGE_SIZE / 4) (node_size esU)) as [Hbig|Hsm].
  { right. right. split; [done|]. intros ->. by vm_compute in Hbig. }
  assert (Hright : (esU = [] -> i = 0%nat) ->
    (exists e b sz, (nk ← nkeys node; if u16 (Z.of_nat i + 1) <? nk then
        p ← getptr node (u16 (Z.of_nat i + 1)); rightSib ← page_get s p; nr ← nbytes rightSib;
        if u16 (u16 (nr + node_size esU) - HEADER) <=? PAGE_SIZE then Ok (1, rightSib) else Ok (0, []) else Ok (0, [])) = Ok (1, b) /\
      es !! S i = Some e /\ M !! ePtr e = Some b /\ nbytes b = Ok sz /\ sz + node_size esU - 4 <= PAGE_SIZE) \/
    ((nk ← nkeys node; if u16 (Z.of_nat i + 1) <? nk then
        p ← getptr node (u16 (Z.of_nat i + 1)); rightSib ← page_get s p; nr ← nbytes rightSib;
        if u16 (u16 (nr + node_size esU) - HEADER) <=? PAGE_SIZE then Ok (1, rightSib) else Ok (0, []) else Ok (0, [])) = Ok (0, []) /\
      (esU = [] -> length es = 1%nat))).
  { intros Hi0. rstep (repr_nkeys R). rewrite (u16_id (Z.of_nat i + 1)) by lia.
    replace (Z.of_nat i + 1) with (Z.of_nat (S i)) by lia.
    destruct (Z.ltb_spec (Z.of_nat (S i)) (Z.of_nat (length es))) as [Hlt|Hge]; [|right; split; [done|]; intros ?%Hi0; lia].
    destruct (lookup_lt_is_Some_2 es (S i)) as [e He]; [lia|].
    destruct (Hsib (S i) e He ltac:(lia)) as (b & sz & Hb & Hsz & Hszb).
    rstep (repr_getptr R _ _ He). rstep (pages_get _ s M _ b Hp Hb). rstep Hsz. 
    rewrite (u16_id (sz + _)), (u16_id (_ - HEADER)) by lia.
    destruct (Z.leb_spec (sz + node_size esU - HEADER) PAGE_SIZE); [left; exists e, b, sz; repeat (split; [done|]); lia|]. right. split; [done|].
    intros ->. unfold node_size in *. cbn in *. lia. }
  destruct i as [|j].
  { change (0 <? Z.of_nat 0) with false. cbn [mbind res_bind]. right. by apply Hright. }
  destruct (lookup_lt_is_Some_2 es j) as [e He]; [lia|].
  destruct (Hsib j e He ltac:(lia)) as (b & sz & Hb & Hsz & Hszb).
  rewrite (proj2 (Z.ltb_lt 0 (Z.of_nat (S j)))) by lia. rewrite (u16_id (Z.of_nat (S j) - 1)) by lia.
  replace (Z.of_nat (S j) - 1) with (Z.of_nat j) by lia.
  rstep (repr_getptr R _ _ He). rstep (pages_get _ s M _ b Hp Hb). rstep Hsz. 
  rewrite (u16_id (sz + _)), (u16_id (_ - HEADER)) by lia.
  destruct (Z.leb_spec (sz + node_size esU - HEADER) PAGE_SIZE); [left; exists j, e, b, sz; repeat (split; [done|]); lia|].
  right. apply Hright. intros ->. unfold node_size in *. cbn in *. lia.
Qed.

(** Two neighbours replaced by one new page. *)
Lemma replace2_step h (s : St) n M node es j merged FM lM k F1 l1 F2 l2 : node_is node BNODE_NODE es -> (j + 2 <= length es)%nat ->
  forest M (tree M h) F1 (take j es) l1 -> forest M (tree M h) F2 (drop (j + 2) es) l2 -> tree M h FM merged lM ->
  blen merged = PAGE_SIZE -> head lM.*1 = Some k -> F1 ## FM -> FM ## F2 -> F1 ## F2 ->
  (forall q, q ∈ F1 ∪ FM ∪ F2 -> is_Some (M !! q)) -> pages (S n) s M ->
  node_size (es_replace2 j (mkEntry 0 k []) es) <= PAGE_SIZE ->
  exists s' new' p M' F' es', page_new s merged = Ok (s', p) /\ getKey merged 0 = Ok k /\
    nodeReplace2Kid (make_bytes PAGE_SIZE) node (Z.of_nat j) p k = Ok new' /\ pages n s' M' /\ M ⊆ M' /\
    (forall q, q ∈ F' -> q ∈ F1 ∪ FM ∪ F2 \/ M !! q = None) /\ blen new' = PAGE_SIZE /\ node_is new' BNODE_NODE es' /\
    forest M' (tree M' h) F' es' (l1 ++ lM ++ l2).
Proof.
  intros R Hj Hf1 Hf2 HT Hm Hk D1 D2 D3 HF Hp Hsz.
  destruct (pages_new n s M merged Hp Hm) as (s' & p & E & HpM & Hp0 & Hpu & Hp').
  assert (HpF : p ∉ F1 ∪ FM ∪ F2) by (intros Hq; destruct (HF p Hq); congruence).
  destruct (nodeReplace2Kid_repr (make_bytes PAGE_SIZE) node BNODE_NODE es j p k R Hj) as (new' & E2 & L2 & R2); [done|done| |].
  { unfold es_replace2 in *. rewrite node_size_app, node_size_cons, esize_key in *.
    change (blen (make_bytes PAGE_SIZE)) with PAGE_SIZE. lia. }
  assert (HM : forall q x, M !! q = Some x -> <[p := merged]> M !! q = Some x).
  { intros q x Hq. rewrite lookup_insert_ne; [done|]. congruence. }
  exists s', new', p, (<[p := merged]> M), (F1 ∪ ({[p]} ∪ FM ∪ F2)), (es_replace2 j (mkEntry p k []) es).
  split; [done|]. split; [by apply (tree_first_key M h FM merged lM)|]. split; [done|]. split; [done|].
  split; [by apply map_subseteq_spec|]. split.
  { intros q Hq. destruct (decide (q = p)) as [->|]; [by right|left; set_solver]. }
  split; [by rewrite L2|]. split; [done|]. unfold es_replace2. apply forest_app; [|  |set_solver].
  - eapply forest_tree_mono; [exact Hf1|]. intros; by apply HM.
  - apply (forest_cons _ _ p merged); [by rewrite lookup_insert_eq|done| |done|set_solver|set_solver|].
    + eapply tree_mono; [exact HT|]. intros; by apply HM.
    + eapply forest_tree_mono; [exact Hf2|]. intros; by apply HM.
Qed.
Lemma body_app M h F1 F2 es1 es2 l1 l2 : body M h F1 es1 l1 -> body M h F2 es2 l2 -> F1 ## F2 ->
  body M h (F1 ∪ F2) (es1 ++ es2) (l1 ++ l2).
Proof.
  destruct h as [|h]; [|apply forest_app]. intros [-> ->] [-> ->] _. split; [set_solver|by rewrite map_app].
Qed.
(** The merged node. *)
Lemma merge_trees M h FL FR bL bR lL lR esL esR : node_is bL (ntype h) esL -> body M h FL esL lL ->
  node_is bR (ntype h) esR -> body M h FR esR lR -> FL ## FR -> node_size esL + node_size esR - 4 <= PAGE_SIZE ->
  exists merged, nodeMerge (make_bytes PAGE_SIZE) bL bR = Ok merged /\ blen merged = PAGE_SIZE /\
    tree M h (FL ∪ FR) merged (lL ++ lR).
Proof.
  intros RL BL RR BR Hd Hsz. destruct (nodeMerge_repr (make_bytes PAGE_SIZE) bL bR _ _ _ _ RL RR) as (m & E & L & R); [done| |].
  { rewrite node_size_app. exact Hsz. }
  exists m. split; [done|]. split; [by rewrite L|]. exists (esL ++ esR). split; [done|]. by apply body_app.
Qed.

(** ** A node whose kid was updated *)

Lemma forest_entry_page M h F es l j e : forest M (tree M h) F es l -> es !! j = Some e ->
  exists b sz, M !! ePtr e = Some b /\ nbytes b = Ok sz /\ 4 <= sz <= PAGE_SIZE.
Proof.
  intros Hf He. destruct (forest_child _ _ _ j Hf) as (p & k & b & F1 & FI & F2 & l1 & lI & l2 & []); [by eapply lookup_lt_Some|].
  rewrite He in ca_entry. injection ca_entry as ->. destruct ca_tree as (es' & R & _). exists b, (node_size es').
  split; [done|]. split; [by eapply node_is_nbytes|]. pose proof (page_node_size _ _ _ R). pose proof (node_size_nonneg es'). lia.
Qed.
Lemma node_size_at es i e : es !! i = Some e ->
  node_size es = node_size (take i es) + node_size (drop (S i) es) + esize e + 6.
Proof.
  intros He. rewrite <- (take_drop_middle es i e He) at 1. rewrite node_size_app, node_size_cons. lia.
Qed.
Lemma node_size_at2 es i e e' : es !! i = Some e -> es !! S i = Some e' ->
  node_size es = node_size (take i es) + node_size (drop (i + 2) es) + esize e + esize e' + 16.
Proof.
  intros He He'. rewrite (node_size_at es i e He), (drop_S _ _ _ He'), node_size_cons.
  replace (i + 2)%nat with (S (S i)) by lia. lia.
Qed.

(** The footprints around a merge, with the sibling to the left and to the
    right. *)
Lemma sep_left (A B C D : gset Z) p : A ## {[p]} ∪ B ∪ ∅ -> p ∉ B -> A ∪ ({[p]} ∪ B ∪ ∅) ## C -> C ## D ->
  A ∪ ({[p]} ∪ B ∪ ∅) ## D -> p ∉ A ∪ (B ∪ C) ∪ D /\ B ## C /\ A ## B ∪ C /\ B ∪ C ## D /\ A ## D /\
    A ∪ (B ∪ C) ∪ D ⊆ A ∪ ({[p]} ∪ B ∪ ∅) ∪ C ∪ D.
Proof. intros. split_and!; set_solver. Qed.
Lemma sep_right (A B C D : gset Z) p : A ## C -> p ∉ B -> {[p]} ∪ B ## D -> C ## {[p]} ∪ B ∪ D ->
  A ## {[p]} ∪ B ∪ D -> p ∉ A ∪ (C ∪ B) ∪ D /\ C ## B /\ A ## C ∪ B /\ C ∪ B ## D /\ A ## D /\
    A ∪ (C ∪ B) ∪ D ⊆ A ∪ C ∪ ({[p]} ∪ B ∪ D).
Proof. intros. split_and!; set_solver. Qed.

Section Updated.
Context (h n : nat) (s1 : St) (M1 : gmap Z bytes) (b : bytes) (es : list entry) (i : nat) (p : Z) (k : bytes).
Context (F1 FI1 F2 : gset Z) (l1 lU l2 : kvl) (b1 : bytes) (es1 : list entry).
Hypothesis R : node_is b BNODE_NODE es.
Hypothesis Hb : blen b = PAGE_SIZE.
Hypothesis Hent : es !! i = Some (mkEntry p k []).
Hypothesis Hp1 : pages (2 + n) s1 M1.
Hypothesis R1 : node_is b1 (ntype h) es1.
Hypothesis Hb1 : blen b1 = PAGE_SIZE.
Hypothesis B1 : body M1 h FI1 es1 lU.
Hypothesis Hf1 : forest M1 (tree M1 h) F1 (take i es) l1.
Hypothesis Hf2 : forest M1 (tree M1 h) F2 (drop (S i) es) l2.
Hypothesis D1 : F1 ## FI1.
Hypothesis D2 : FI1 ## F2.
Hypothesis D3 : F1 ## F2.
Hypothesis Hdom : forall q, q ∈ F1 ∪ FI1 ∪ F2 -> is_Some (M1 !! q).
Hypothesis Hkey : forall k', head lU.*1 = Some k' -> blen k' <= blen k.

(** The result: the pages [M2] are [M1] without pages of the siblings. *)
Definition updated_ok (r : res (St * option bytes)) : Prop :=
  exists s' new M2 M' F' es', r = Ok (s', Some new) /\ pages n s' M' /\
    (forall q x, M1 !! q = Some x -> q ∉ F1 ∪ F2 -> M2 !! q = Some x) /\ (forall q, M2 !! q = None -> q ∈ F1 ∪ F2 \/ M1 !! q = None) /\
    M2 ⊆ M' /\ (forall q, q ∈ F' -> q ∈ F1 ∪ FI1 ∪ F2 \/ M2 !! q = None) /\ blen new = PAGE_SIZE /\
    node_is new BNODE_NODE es' /\ forest M' (tree M' h) F' es' (l1 ++ lU ++ l2).

Lemma del_keep q0 q x : M1 !! q = Some x -> q <> q0 -> delete q0 M1 !! q = Some x.
Proof. intros. by rewrite lookup_delete_ne. Qed.
Lemma del_none q0 q : delete q0 M1 !! q = None -> q = q0 \/ M1 !! q = None.
Proof. intros Hq. destruct (decide (q = q0)) as [->|]; [by left|right]. by rewrite lookup_delete_ne in Hq. Qed.

(** The common part of both merges: [q0] is the page of the sibling, [m] the
    merged node, which takes the places [j] and [S j]. *)
Lemma merge_common j e e' sb m lM FM Fa la Fz lz km : es !! j = Some e -> es !! S j = Some e' -> eVal e = [] -> eVal e' = [] ->
  forall e0, M1 !! ePtr e0 = Some sb -> tree M1 h FM m lM -> blen m = PAGE_SIZE -> head lM.*1 = Some km ->
  blen km <= blen (eKey e) + 14 + blen (eKey e') ->
  forest M1 (tree M1 h) Fa (take j es) la -> forest M1 (tree M1 h) Fz (drop (j + 2) es) lz ->
  ePtr e0 ∉ Fa ∪ FM ∪ Fz -> Fa ## FM -> FM ## Fz -> Fa ## Fz -> Fa ∪ FM ∪ Fz ⊆ F1 ∪ FI1 ∪ F2 -> ePtr e0 ∈ F1 ∪ F2 ->
  la ++ lM ++ lz = l1 ++ lU ++ l2 ->
  exists s2 s' new ptr, page_del s1 (ePtr e0) = Ok s2 /\ page_new s2 m = Ok (s', ptr) /\ getKey m 0 = Ok km /\
    nodeReplace2Kid (make_bytes PAGE_SIZE) b (Z.of_nat j) ptr km = Ok new /\ updated_ok (Ok (s', Some new)).
Proof.
  intros He He' Hv Hv' e0 Hsb HT Hm Hkm Hkl Hfa Hfz HpN Da Db Dc Hsub Hin Hlist.
  set (M2 := delete (ePtr e0) M1).
  destruct (pages_del (1 + n) s1 M1 (ePtr e0) Hp1) as (s2 & Ed & Hp2); [by eexists|]. fold M2 in Hp2.
  assert (HM2 : forall q x, q ∈ Fa ∪ FM ∪ Fz -> M1 !! q = Some x -> M2 !! q = Some x).
  { intros q x Hq Hx. apply del_keep; [done|]. by intros ->. }
  assert (Hlen : (j + 2 <= length es)%nat) by (apply lookup_lt_Some in He'; lia).
  destruct (replace2_step h s2 n M2 b es j m FM lM km Fa la Fz lz R Hlen)
    as (s' & new' & pn & M' & F' & es' & En & Ek & Er & Hp' & HMM & HF' & Hb' & R' & Hfo'); try done.
  { eapply forest_tree_mono; [exact Hfa|]. intros q x Hq. apply HM2. apply elem_of_union_l, elem_of_union_l, Hq. }
  { eapply forest_tree_mono; [exact Hfz|]. intros q x Hq. apply HM2. apply elem_of_union_r, Hq. }
  { eapply tree_mono; [exact HT|]. intros q x Hq. apply HM2. apply elem_of_union_l, elem_of_union_r, Hq. }
  { intros q Hq. destruct (Hdom q (Hsub q Hq)) as [x Hx]. exists x. by apply HM2. }
  { pose proof (node_size_at2 _ _ _ _ He He') as Hsz. pose proof (page_node_size _ _ _ R) as Hfull.
    unfold es_replace2. rewrite node_size_app, node_size_cons, esize_key.
    unfold esize in Hsz. rewrite Hv, Hv', blen_nil in Hsz. lia. }
  exists s2, s', new', pn. split; [done|]. split; [done|]. split; [done|]. split; [done|].
  exists s', new', M2, M', F', es'. split; [done|]. split; [done|].
  split; [intros q x Hx Hq; apply del_keep; [done|by intros ->]|].
  split; [intros q [->|]%del_none; [by left|by right]|]. split; [done|].
  split; [intros q [Hq|?]%HF'; [left; by apply Hsub|by right]|]. split; [done|]. split; [done|]. by rewrite <- Hlist.
Qed.

Lemma merge_left j e sb sz : i = S j -> shouldMerge s1 b (Z.of_nat i) b1 = Ok (-1, sb) -> es !! j = Some e ->
  M1 !! ePtr e = Some sb -> nbytes sb = Ok sz -> sz + node_size es1 - 4 <= PAGE_SIZE ->
  updated_ok (replace_updated s1 b (Z.of_nat i) b1).
Proof.
  intros Hi Em He Hsb Hsz Hfit. pose proof Hf1 as Hf1'. rewrite Hi, (take_S_r _ _ _ He) in Hf1'.
  apply forest_app_inv in Hf1' as (Fa & Fb & la & lb & EF1 & Da & El1 & Hfa & Hfb).
  apply forest_cons_inv in Hfb as (bL & FL & lL & F0 & l0 & Ee & HpL & HbL & (esL & RL & BL) & HkL & HpFL & DL & Hf0 & -> & ->).
  inversion Hf0; subst F0 l0. rewrite Hsb in HpL. injection HpL as <-.
  rewrite (node_is_nbytes _ _ _ RL) in Hsz. injection Hsz as <-.
  pose proof D1 as D1'. pose proof D3 as D3'. rewrite EF1 in D1', D3'.
  destruct (sep_left Fa FL FI1 F2 (ePtr e) Da HpFL D1' D2 D3') as (S1 & S2 & S3 & S4 & S5 & S6).
  destruct (merge_trees M1 h FL FI1 sb b1 lL lU esL es1 RL BL R1 B1 S2 Hfit) as (m & Ems & Hm & HT).
  assert (Hl2 : drop (j + 2) es = drop (S i) es) by (f_equal; lia).
  rewrite app_nil_r in El1. pose proof Hent as Hent'. rewrite Hi in Hent'.
  destruct (merge_common j e (mkEntry p k []) sb m (lL ++ lU) (FL ∪ FI1) Fa la F2 l2 (eKey e)) with (e0 := e)
    as (s2 & s' & new & ptr & Ed & En & Ek & Er & Hok); try done.
  { by rewrite Ee. }
  { by destruct lL. }
  { cbn [eKey]. pose proof (blen_nonneg k). lia. }
  { by rewrite Hl2. }
  { by rewrite EF1. }
  { rewrite EF1. set_solver. }
  { by rewrite El1, <- !app_assoc. }
  pose proof (repr_bounds R). pose proof (lookup_lt_Some _ _ _ He). unfold replace_updated. rstep Em.
  change (-1 <? 0) with true. cbv iota. rstep Ems. rewrite Hi, u16_id by lia.
  replace (Z.of_nat (S j) - 1) with (Z.of_nat j) by lia. rstep (repr_getptr R _ _ He). rstep Ed. rstep En. rstep Ek. by rstep Er.
Qed.

Lemma merge_right e sb sz : shouldMerge s1 b (Z.of_nat i) b1 = Ok (1, sb) -> es !! S i = Some e ->
  M1 !! ePtr e = Some sb -> nbytes sb = Ok sz -> sz + node_size es1 - 4 <= PAGE_SIZE ->
  updated_ok (replace_updated s1 b (Z.of_nat i) b1).
Proof.
  intros Em He Hsb Hsz Hfit. pose proof Hf2 as Hf2'. rewrite (drop_S _ _ _ He) in Hf2'.
  apply forest_cons_inv in Hf2' as (bR & FR & lR & Fz & lz & Ee & HpR & HbR & (esR & RR & BR) & HkR & HpFR & DR & Hfz & EF2 & El2).
  rewrite Hsb in HpR. injection HpR as <-. rewrite (node_is_nbytes _ _ _ RR) in Hsz. injection Hsz as <-.
  pose proof D2 as D2'. pose proof D3 as D3'. rewrite EF2 in D2', D3'.
  destruct (sep_right F1 FR FI1 Fz (ePtr e) D1 HpFR DR D2' D3') as (S1 & S2 & S3 & S4 & S5 & S6).
  destruct (merge_trees M1 h FI1 FR b1 sb lU lR es1 esR R1 B1 RR BR S2 ltac:(lia)) as (m & Ems & Hm & HT).
  assert (Hkm : exists km, head (lU ++ lR).*1 = Some km /\ blen km <= blen k + 14 + blen (eKey e)).
  { pose proof (blen_nonneg k). pose proof (blen_nonneg (eKey e)). destruct lU as [|[k' v'] lU']; cbn [app].
    - exists (eKey e). split; [done|lia].
    - exists k'. split; [done|]. specialize (Hkey k' eq_refl). lia. }
  destruct Hkm as (km & Hkm & Hkl).
  destruct (merge_common i (mkEntry p k []) e sb m (lU ++ lR) (FI1 ∪ FR) F1 l1 Fz lz km) with (e0 := e)
    as (s2 & s' & new & ptr & Ed & En & Ek & Er & Hok); try done.
  { by rewrite Ee. }
  { by replace (i + 2)%nat with (S (S i)) by lia. }
  { by rewrite EF2. }
  { rewrite EF2. set_solver. }
  { by rewrite El2, <- !app_assoc. }
  pose proof (repr_bounds R). pose proof (lookup_lt_Some _ _ _ He). unfold replace_updated. rstep Em.
  change (1 <? 0) with false. change (0 <? 1) with true. cbv iota. rstep Ems. rewrite u16_id by lia.
  replace (Z.of_nat i + 1) with (Z.of_nat (S i)) by lia. rstep (repr_getptr R _ _ He). rstep Ed. rstep En. rstep Ek. by rstep Er.
Qed.

Lemma merge_none : shouldMerge s1 b (Z.of_nat i) b1 = Ok (0, []) -> (es1 = [] -> length es = 1%nat) ->
  updated_ok (replace_updated s1 b (Z.of_nat i) b1).
Proof.
  intros Em Hone. pose proof (lookup_lt_Some _ _ _ Hent) as Hi. unfold replace_updated. rstep Em.
  change (0 <? 0) with false. cbv iota. rstep (repr_nkeys R1).
  destruct (decide (es1 = [])) as [->|Hne].
  - specialize (Hone eq_refl). assert (i = 0%nat) as Hi0 by lia. change (Z.of_nat (length []) =? 0) with true. cbv iota.
    rstep (repr_nkeys R). rewrite Hone, Hi0. change ((Z.of_nat 1 =? 1) && (Z.of_nat 0 =? 0)) with true. cbv iota.
    destruct (setHeader_repr (make_bytes PAGE_SIZE) BNODE_NODE 0) as (b0 & E0 & L0 & R0); [done|done|lia|done|].
    rstep E0. exists s1, b0, M1, M1, ∅, []. split; [done|]. split; [by eapply pages_mono; [|exact Hp1]; lia|].
    split; [done|]. split; [by right|]. split; [done|]. split; [set_solver|]. split; [by rewrite L0|]. split; [done|].
    pose proof Hf1 as Hf1'. pose proof Hf2 as Hf2'. rewrite Hi0, take_0 in Hf1'. rewrite Hi0, drop_ge in Hf2' by lia.
    inversion Hf1' as [E1 E2 E3|]. inversion Hf2' as [E4 E5 E6|].
    assert (lU = []) as ->; [|apply forest_nil]. destruct h; [by destruct B1 as [_ ?], lU|]. by inversion B1.
  - rewrite (proj2 (Z.eqb_neq _ 0)) by (destruct es1; [done|cbn; lia]). cbv iota.
    destruct (body_nonempty _ _ _ _ _ B1 Hne) as [k' Hk'].
    assert (Hr : roots (tree M1 h) FI1 [b1] [k'] lU) by (apply roots_one; [done|by exists es1|done]).
    destruct (nodeReplaceKidN_spec h s1 (1 + n) M1 (make_bytes PAGE_SIZE) b es i F1 F2 FI1 l1 l2 lU [b1] [k'] R Hi Hf1 Hf2 Hr D1 D3 D2 Hdom Hp1)
      as (s' & new & M' & F' & es' & E & Hp' & HMM & HF' & R' & Hb' & Hfo & _); [done| |cbn; lia|].
    { unfold replaced_size. rewrite node_size_app, node_size_app. change (map key_entry [k']) with [key_entry k'].
      rewrite node_size_cons. unfold key_entry. rewrite esize_key. change (node_size []) with 4.
      pose proof (node_size_at _ _ _ Hent) as Hsz. rewrite esize_key in Hsz. pose proof (page_node_size _ _ _ R).
      specialize (Hkey k' Hk'). change (blen (make_bytes PAGE_SIZE)) with PAGE_SIZE. lia. }
    rstep E. exists s', new, M1, M', F', es'. split; [done|]. split; [by eapply pages_le|].
    split; [done|]. split; [by right|]. split; [done|]. split; [done|]. split; [by rewrite Hb'|]. by split.
Qed.
End Updated.

(** ** The whole deletion *)

Lemma remove_around (l1 lI l2 : kvl) key : keys_lt l1 key -> keys_gt key l2 ->
  kv_remove key (l1 ++ lI ++ l2) = l1 ++ kv_remove key lI ++ l2.
Proof. intros H1 H2. by rewrite !kv_remove_app, (kv_remove_lt l1), (kv_remove_gt l2). Qed.

Lemma updated_result h n s1 M1 b es i F1 FI1 F2 l1 lU l2 b1 es1 p k :
  node_is b BNODE_NODE es -> blen b = PAGE_SIZE -> es !! i = Some (mkEntry p k []) -> pages (2 + n) s1 M1 ->
  node_is b1 (ntype h) es1 -> blen b1 = PAGE_SIZE -> body M1 h FI1 es1 lU ->
  forest M1 (tree M1 h) F1 (take i es) l1 -> forest M1 (tree M1 h) F2 (drop (S i) es) l2 ->
  F1 ## FI1 -> FI1 ## F2 -> F1 ## F2 -> (forall q, q ∈ F1 ∪ FI1 ∪ F2 -> is_Some (M1 !! q)) ->
  (forall k', head lU.*1 = Some k' -> blen k' <= blen k) ->
  updated_ok h n M1 F1 FI1 F2 l1 lU l2 (replace_updated s1 b (Z.of_nat i) b1).
Proof.
  intros R Hb Hent Hp1 R1 Hb1 B1 Hf1 Hf2 D1 D2 D3 Hdom Hkey.
  assert (Hsib : forall j e, es !! j = Some e -> j <> i -> exists b sz, M1 !! ePtr e = Some b /\ nbytes b = Ok sz /\ 4 <= sz <= PAGE_SIZE).
  { intros j e He Hj. destruct (decide (j < i)%nat) as [Hlt|Hge].
    - apply (forest_entry_page M1 h F1 (take i es) l1 j e Hf1). by rewrite lookup_take_lt.
    - apply (forest_entry_page M1 h F2 (drop (S i) es) l2 (j - S i) e Hf2). rewrite lookup_drop.
      replace (S i + (j - S i))%nat with j by lia. done. }
  pose proof (page_node_size _ _ _ R1) as Hsz1. rewrite Hb1 in Hsz1.
  destruct (shouldMerge_spec (2 + n) s1 M1 b _ es i b1 _ es1 Hp1 R (lookup_lt_Some _ _ _ Hent) R1 Hsz1 Hsib)
    as [(j & e & sb & sz & Hi & Em & He & Hsb & Hsz & Hfit)|[(e & sb & sz & Em & He & Hsb & Hsz & Hfit)|[Em Hone]]].
  - by eapply merge_left.
  - by eapply merge_right.
  - by eapply merge_none.
Qed.

Lemma node_delete h fuel n (s : St) M F b es kvs key : node_is b BNODE_NODE es -> forest M (tree M h) F es kvs ->
  blen b = PAGE_SIZE -> pages (2 * S h + n)%nat s M -> kv_sorted kvs -> kvs <> [] -> succ_fits key kvs ->
  (forall bI FI lI, tree M h FI bI lI -> blen bI = PAGE_SIZE -> kv_sorted lI -> lI <> [] -> succ_fits key lI ->
     deleted h (2 + n) s M FI key lI (treeDelete fuel s bI key)) ->
  deleted (S h) n s M F key kvs (treeDelete (S fuel) s b key).
Proof.
  intros R Hfo Hb Hp Hs Hne Hsf IH.
  destruct (choose_child key R Hfo Hs Hne) as (i & p & k & bI & F1 & FI & F2 & l1 & lI & l2 & E & Hi & C & H1 & H2).
  pose proof (body_dom M (S h) F es kvs Hfo) as HFdom. pose proof (ca_list _ _ _ _ _ _ _ _ _ _ _ _ _ C) as ->.
  apply kv_sorted_app in Hs as (_ & Hs & _). apply kv_sorted_app in Hs as (Hs & _ & _).
  apply succ_fits_mid in Hsf. unfold deleted. rewrite child_around, remove_around by done.
  specialize (IH bI FI lI). unfold deleted in IH.
  assert (Hgo : forall r, treeDelete fuel s bI key = r -> treeDelete (S fuel) s b key =
    ('(s, updated) ← r; match updated with None => Ok (s, None) | Some updated => replace_updated s b (Z.of_nat i) updated end)).
  { intros r <-. destruct C. cbn [treeDelete]. rstep E. rstep (repr_btype R). rewrite decide_False, decide_True by done.
    unfold nodeDelete. rstep (repr_getptr R _ _ ca_entry). cbn [ePtr]. by rstep (pages_get _ s M p bI Hp ca_page). }
  destruct (kv_get key lI) as [v|].
  2:{ destruct C. rewrite (Hgo _ eq_refl), IH; try done. by intros ->. }
  destruct IH as (s1 & b1 & M1 & FI1 & es1 & E1 & Hp1 & HS & Hb1 & R1 & B1); try (by destruct C); [by intros ->; destruct C|].
  destruct (around_child _ _ M1 _ _ _ _ _ _ _ _ _ _ _ _ _ _ _ C HFdom HS ltac:(done))
    as (_ & Hf1 & Hf2 & _ & D1 & D2 & D3 & HpI & Hdom).
  destruct (updated_result h n s1 M1 b es i F1 FI1 F2 l1 (kv_remove key lI) l2 b1 es1 p k) as
    (s' & new & M2 & M' & F' & es' & Er & Hp' & HM2 & HN2 & HMM & HF' & Hnew & R' & Hfo'); try done.
  { by destruct C. }
  { intros q Hq. destruct (decide (q ∈ FI1)) as [HqI|]; [by apply (body_dom M1 h FI1 es1 _ B1)|]. apply Hdom. set_solver. }
  { intros k' Hk'. eapply remove_head; [exact Hs|exact Hsf|by destruct C|done]. }
  pose proof (ca_foot _ _ _ _ _ _ _ _ _ _ _ _ _ C) as HF. exists s', new, M', F', es'.
  split; [by rewrite (Hgo _ eq_refl), E1|]. split; [done|]. split; [|split; [done|split; [exact R'|exact Hfo']]].
  apply (page_step_around M M1 M2 M' F FI FI1); try done; rewrite HF.
  - set_solver.
  - intros q x Hx Hq. apply HM2; [done|set_solver].
  - intros q [|]%HN2; [left; set_solver|by right].
  - intros q [|]%HF'; [left; set_solver|by right].
Qed.

Lemma treeDelete_spec h : forall fuel n (s : St) M F b kvs key, (h < fuel)%nat -> pages (2 * h + n)%nat s M ->
  tree M h F b kvs -> blen b = PAGE_SIZE -> kv_sorted kvs -> kvs <> [] -> succ_fits key kvs ->
  deleted h n s M F key kvs (treeDelete fuel s b key).
Proof.
  induction h as [|h IH]; intros [|fuel] n s M F b kvs key Hfuel Hp Ht Hb Hs Hne Hsf; try lia.
  { apply tree_leaf_inv in Ht as [-> R]. by apply leaf_delete. }
  apply tree_node_inv in Ht as (es & R & Hfo). apply (node_delete h fuel n s M F b es); try done.
  intros bI FI lI HT HbI HsI HneI HsfI. apply IH; try done; [lia|]. eapply pages_mono; [|exact Hp]. lia.
Qed.
End Delete.
