(* ===== verification/TreeRoot.v ===== *)
(** * The B+tree from its root

    [tree_rep M root h l]: the pages [M] hold at [root] a tree for the sorted
    list [l].  A tree that fits one leaf starts with an entry for the empty key;
    a taller tree has none.  [Insert] and [GetVal] on such trees are insertion
    and lookup in the list. *)
From Stdlib Require Import ZArith Lia Sorted.
From stdpp Require Import base gmap list strings countable sorting.
From coqutil Require Import Byte Word.LittleEndianList.
From S2P Require Import Prelude KVList BNode NodeLayout NodeOps BTree TreeRep TreeGet TreeInsert.

Definition sentinel : bytes * bytes := ([], []).
Inductive tree_rep (M : gmap Z bytes) : Z -> nat -> kvl -> Prop :=
  | rep_empty : tree_rep M 0 0 []
  | rep_leaf root b l : root <> 0 -> M !! root = Some b -> blen b = PAGE_SIZE ->
      tree M 0 ∅ b (sentinel :: l) -> tree_rep M root 0 l
  | rep_node root b h F l : root <> 0 -> M !! root = Some b -> blen b = PAGE_SIZE ->
      tree M (S h) F b l -> root ∉ F -> l <> [] -> tree_rep M root (S h) l.
(** The lists a tree is made for: sorted, entries small, keys not empty. *)
Definition user_kv (kv : bytes * bytes) : Prop := small_kv kv /\ kv.1 <> [].
Definition user_kvs (l : kvl) : Prop := kv_sorted l /\ Forall user_kv l.

Lemma nil_blt key : key <> [] -> blt [] key.
Proof. by destruct key. Qed.
Lemma sentinel_sorted l : user_kvs l -> kv_sorted (sentinel :: l).
Proof.
  intros [Hs Hu]. apply kv_sorted_cons. split; [|done]. eapply list.Forall_impl; [exact Hu|].
  intros kv [_ Hk]. by apply nil_blt.
Qed.
Lemma sentinel_small l : user_kvs l -> Forall small_kv (sentinel :: l).
Proof.
  intros [_ Hu]. constructor; [by split|]. eapply list.Forall_impl; [exact Hu|]. by intros kv [? _].
Qed.
Lemma user_small l : user_kvs l -> Forall small_kv l.
Proof. intros H. by apply sentinel_small, list.Forall_cons in H as [_ ?]. Qed.
Lemma sentinel_insert key val l : key <> [] -> kv_insert key val (sentinel :: l) = sentinel :: kv_insert key val l.
Proof.
  intros Hk. change (sentinel :: l) with ([sentinel] ++ l). rewrite kv_insert_skip; [done|].
  apply list.Forall_singleton. by apply nil_blt.
Qed.
Lemma user_insert key val l : user_kvs l -> user_kv (key, val) -> user_kvs (kv_insert key val l).
Proof.
  intros [Hs Hu] Hk. split; [by apply kv_insert_sorted|]. clear Hs.
  induction Hu as [|[k' v'] l H' H IH]; cbn; [by apply list.Forall_singleton|].
  repeat case_match; repeat (apply list.Forall_cons; split); done.
Qed.

Section Root.
Context {St pages} `{PageLaws St pages}.

(** ** A new root over the parts of a split one *)

Lemma drop_first_spec b e es : node_is b BNODE_LEAF (e :: es) -> blen b = PAGE_SIZE ->
  exists b0 b', btype b = Ok BNODE_LEAF /\ nkeys b = Ok (Z.of_nat (S (length es))) /\
    setHeader (make_bytes PAGE_SIZE) BNODE_LEAF (u16 (Z.of_nat (S (length es)) - 1)) = Ok b0 /\
    nodeAppendRange b0 b 0 1 (u16 (Z.of_nat (S (length es)) - 1)) = Ok b' /\
    blen b' = PAGE_SIZE /\ node_is b' BNODE_LEAF es.
Proof.
  intros R Hb. pose proof (page_node_size _ _ _ R) as Hfit. rewrite node_size_cons, Hb in Hfit.
  pose proof (esize_pos e). pose proof (kvsize_nonneg es). unfold node_size in Hfit.
  pose proof (repr_bounds R) as HB. cbn [length] in HB.
  assert (Hl : blen (make_bytes PAGE_SIZE) = PAGE_SIZE) by done.
  destruct (setHeader_repr (make_bytes PAGE_SIZE) BNODE_LEAF (Z.of_nat (length es))) as (b0 & E0 & L0 & R0); [done|done|lia|lia|].
  rewrite Hl in L0.
  destruct (append_range_at b0 b BNODE_LEAF (Z.of_nat (length es)) [] _ (e :: es) 1 (length es) 0 1 (Z.of_nat (length es)) R R0)
    as (b' & E1 & L1 & R1); [done|done|done|cbn; lia|cbn; lia| |].
  { cbn [skipn app]. rewrite drop_0, firstn_all. lia. }
  cbn [skipn app] in R1. rewrite drop_0, firstn_all in R1. exists b0, b'. split; [apply (repr_btype R)|]. split; [apply (repr_nkeys R)|].
  rewrite u16_id by lia. replace (Z.of_nat (S (length es)) - 1) with (Z.of_nat (length es)) by lia.
  split; [done|]. split; [done|]. split; [lia|done].
Qed.

Lemma root_kid_same rtype (s : St) new i b : rtype <> BNODE_LEAF \/ i <> 0%nat ->
  root_kid rtype (s, new) (i, b) = replace_kid 0 (s, new) (i, b).
Proof.
  intros Hi. unfold root_kid.
  assert (Hc : (rtype =? BNODE_LEAF) && (Z.of_nat i =? 0) = false).
  { apply andb_false_iff. destruct Hi as [Hi|Hi]; [left; by apply Z.eqb_neq|right; apply Z.eqb_neq; lia]. }
  rewrite Hc. reflexivity.
Qed.
Lemma root_kid_first b kv l : tree (∅ : gmap Z bytes) 0 ∅ b (kv :: l) -> blen b = PAGE_SIZE ->
  exists b', (forall (s : St) new, root_kid BNODE_LEAF (s, new) (0%nat, b) = replace_kid 0 (s, new) (0%nat, b')) /\
    blen b' = PAGE_SIZE /\ node_is b' BNODE_LEAF (map kv_entry l).
Proof.
  intros [_ R]%tree_leaf_inv Hb. cbn [map] in R.
  destruct (drop_first_spec b _ _ R Hb) as (b0 & b' & E1 & E2 & E3 & E4 & L & R'). exists b'. split; [|done].
  intros s new. unfold root_kid. cbn [Z.of_nat Z.eqb andb BNODE_LEAF Pos.eqb]. rstep E1. rstep E2. rstep E3. by rstep E4.
Qed.
(** The new root node with two kids. *)
Lemma new_root_spec h (s : St) n M b1 b2 k1 k2 F l : roots (tree M h) F [b1; b2] [k1; k2] l ->
  pages (3 + n)%nat s M -> (forall q, q ∈ F -> is_Some (M !! q)) -> Forall small_kv l ->
  exists s' new0 new' M' root,
    setHeader (make_bytes PAGE_SIZE) BNODE_NODE (u16 (Z.of_nat 2)) = Ok new0 /\
    (s ← foldM (replace_kid 0) (s, new0) [(0%nat, b1); (1%nat, b2)]; page_new s.1 s.2) = Ok (s', root) /\
    pages n s' M' /\ M' !! root = Some new' /\ tree_rep M' root (S h) l.
Proof.
  intros Hr Hp HF Hsm. pose proof (small_keys _ _ _ _ _ Hr Hsm) as Hks. apply kvsize_key_bound in Hks.
  destruct (setHeader_repr (make_bytes PAGE_SIZE) BNODE_NODE 2) as (b0 & E0 & L0 & R0); [done|done|lia|done|].
  assert (Hl : blen b0 = PAGE_SIZE) by (rewrite L0; done).
  destruct (replace_kids_loop h [b1; b2] [k1; k2] l F M s (1 + n) b0 BNODE_NODE 2 [] 0 0 Hr Hp HF R0)
    as (s1 & b' & M1 & F' & esN & E1 & Hp1 & HMM & HF' & Hfo & Hks' & R1 & L1); [done| |done|].
  { cbn [app]. rewrite Hl. cbn [length] in Hks. unfold PAGE_SIZE. lia. }
  assert (HlN : length esN = 2%nat) by by rewrite <- (length_map eKey), Hks'.
  destruct (pages_new n s1 M1 b' Hp1) as (s2 & root & E2 & Hr0 & Hr1 & _ & Hp2); [by rewrite L1|].
  assert (HFd : forall q, q ∈ F' -> is_Some (M1 !! q)) by apply (body_dom M1 (S h) F' esN l Hfo).
  exists s2, b0, b', (<[root := b']> M1), root. split; [done|]. cbn [imap Nat.add] in E1. change (foldM (replace_kid 0) (s, b0) [(0%nat, b1); (1%nat, b2)] = Ok (s1, b')) in E1.
  split; [by rstep E1|]. split; [done|]. split; [by rewrite lookup_insert_eq|].
  apply (rep_node _ _ b' h F'); [done|by rewrite lookup_insert_eq|by rewrite L1| | |].
  - exists esN. split; [unfold node_is; by rewrite HlN|]. eapply forest_tree_mono; [exact Hfo|].
    intros q x Hq Hx. rewrite lookup_insert_ne; [done|]. congruence.
  - intros Hq. apply HFd in Hq as [x Hx]. congruence.
  - intros ->. by inversion Hr as [|? ? [|] ? ? ? ? ? ? ? Hk].
Qed.
(** ** Insertion *)

(** What [Insert] promises of its result. *)
Definition inserted_root (n : nat) (h : nat) (l : kvl) (r : res (St * Z)) : Prop :=
  exists s' root' h' M', r = Ok (s', root') /\ pages n s' M' /\ tree_rep M' root' h' l /\ (h' <= S h)%nat.

Lemma insert_empty fuel n (s : St) M key val : pages (S n) s M -> user_kv (key, val) ->
  inserted_root n 0 [(key, val)] (Insert fuel s 0 key val).
Proof.
  intros Hp [[Hk1 Hk2] _]. cbn [fst snd] in *. unfold MAXENTRY, MAXKEYLEN in *.
  assert (Hl : blen (make_bytes PAGE_SIZE) = PAGE_SIZE) by done. unfold PAGE_SIZE in Hl at 2.
  destruct (setHeader_repr (make_bytes PAGE_SIZE) BNODE_LEAF 2) as (b0 & E0 & L0 & R0); [done|done|lia|lia|].
  destruct (append_kv_at b0 BNODE_LEAF 2 [] 0 0 [] [] R0) as (b1 & E1 & L1 & R1); [done|cbn; lia|done|rewrite L0, Hl; by vm_compute|].
  cbn [app] in R1. destruct (append_kv_at b1 BNODE_LEAF 2 [mkEntry 0 [] []] 1 0 key val R1) as (b2 & E2 & L2 & R2);
    [done|cbn; lia|done| |].
  { rewrite L1, L0, Hl, kvsize_app. change (mkEntry 0 key val) with (kv_entry (key, val)). cbn [kvsize].
    rewrite esize_kv. cbn [fst snd]. change (esize (mkEntry 0 [] [])) with 4. lia. }
  destruct (pages_new n s M b2 Hp) as (s' & p & E3 & HpM & Hp0 & _ & Hp'); [by rewrite L2, L1, L0|].
  exists s', p, 0%nat, (<[p := b2]> M). split.
  { unfold Insert. rewrite decide_True by done. rstep E0. rstep E1. by rstep E2. }
  split; [done|]. split; [|lia]. apply (rep_leaf _ _ b2); [done|by rewrite lookup_insert_eq|by rewrite L2, L1, L0|].
  exists (map kv_entry [sentinel; (key, val)]). split; [exact R2|by split].
Qed.

(** The leaf at the root, whatever its list starts with: either the new leaf
    takes its place, or it is split under a new root and loses its first entry. *)
Lemma insert_leaf_at fuel n (s : St) M root b l key val : root <> 0 -> M !! root = Some b -> blen b = PAGE_SIZE ->
  tree M 0 ∅ b l -> pages (5 + n)%nat s M -> kv_sorted l -> l <> [] -> Forall small_kv l -> small_kv (key, val) -> (0 < fuel)%nat ->
  exists s' root' M', Insert fuel s root key val = Ok (s', root') /\ pages n s' M' /\
    if decide (node_size (map kv_entry (kv_insert key val l)) <= PAGE_SIZE)
    then root' <> 0 /\ exists b', M' !! root' = Some b' /\ blen b' = PAGE_SIZE /\ tree M' 0 ∅ b' (kv_insert key val l)
    else tree_rep M' root' 1 (tail (kv_insert key val l)).
Proof.
  intros Hr0 HM Hb HT Hp Hs Hl Hsm Hk Hfuel.
  destruct (treeInsert_spec 0 fuel (5 + n) s M ∅ b l key val Hfuel Hp HT Hb Hs Hl Hsm Hk)
    as (s1 & b1 & M1 & F1 & es1 & E1 & Hp1 & [HS1 HS2] & Hb1 & R1 & B1 & Hspl).
  pose proof (small_insert key val l Hsm Hk) as Hsm'.
  assert (HM1 : M1 !! root = Some b) by (apply HS1; [done|set_solver]).
  pose proof (tree_leaf_inv _ _ _ _ HT) as [_ R]. pose proof B1 as [HF1 Hes1].
  assert (Hgo : forall split, nodeSplit3 b1 = Ok split -> Insert fuel s root key val =
    match split with
    | [part] => page_new s1 part
    | _ => newRoot ← setHeader (make_bytes PAGE_SIZE) BNODE_NODE (u16 (Z.of_nat (length split)));
           '(s, newRoot) ← foldM (root_kid BNODE_LEAF) (s1, newRoot) (imap pair split); page_new s newRoot
    end).
  { intros split Es. unfold Insert. rewrite decide_False by done. rstep (pages_get _ s M root b Hp HM). rstep E1. rstep Es.
    rstep (pages_get _ s1 M1 root b Hp1 HM1). rstep (repr_btype R). done. }
  destruct (split_tree M1 0 F1 b1 es1 _ R1 B1 (kv_insert_ne _ _ _) Hb1 Hspl)
    as [(c1 & k1 & Es & Hc & Ht & Hk1 & Hfit)|(c1 & c2 & k1 & k2 & F1' & F2' & l1 & l2 & Es & HFe & _ & Hll & Hc1 & Ht1 & Hk1 & Hc2 & Ht2 & Hk2 & Hlen & Hbig)];
    rewrite (Hgo _ Es); rewrite Hes1 in *.
  - rewrite HF1 in Ht.
    destruct (pages_new (4 + n) s1 M1 c1 Hp1 Hc) as (s' & p & E & HpM & Hp0 & _ & Hp').
    exists s', p, (<[p := c1]> M1). split; [done|]. split; [by eapply pages_mono; [|exact Hp']; lia|].
    rewrite decide_True by done. split; [done|]. exists c1. split; [by rewrite lookup_insert_eq|]. split; [done|]. destruct Ht as (es & Re & Be). by exists es.
  - specialize (Hlen eq_refl). destruct l1 as [|kv0 l1]; [cbn in Hlen; lia|].
    destruct l1 as [|[k0 v0] l1]; [cbn in Hlen; lia|]. rewrite Hll in *. cbn [tail app].
    pose proof (tree_leaf_inv _ _ _ _ Ht1) as [-> _]. pose proof (tree_leaf_inv _ _ _ _ Ht2) as [-> _].
    assert (Ht1' : tree (∅ : gmap Z bytes) 0 ∅ c1 (kv0 :: (k0, v0) :: l1)).
    { destruct Ht1 as (es & Re & Hbe). by exists es. }
    destruct (root_kid_first c1 _ _ Ht1' Hc1) as (c1' & Hfirst & Hc1' & R1').
    assert (Hroots : roots (tree M1 0) (∅ ∪ ∅) [c1'; c2] [k0; k2] (((k0, v0) :: l1) ++ l2)).
    { apply (roots_cons _ c1'); try done; [eexists; by split|]. by apply roots_one. }
    destruct (new_root_spec 0 s1 n M1 c1' c2 k0 k2 (∅ ∪ ∅) _ Hroots)
      as (s' & new0 & new' & M' & root' & E0 & E & Hp' & Hroot & Hrep).
    { eapply pages_mono; [|exact Hp1]. lia. }
    { set_solver. }
    { cbn [app] in Hsm'. by apply list.Forall_cons in Hsm' as [_ ?]. }
    exists s', root', M'. rewrite decide_False by (apply Z.lt_nge; exact Hbig). split; [|by split].
    cbn [length imap]. rstep E0. rewrite <- E. cbn [foldM]. rewrite Hfirst.
    destruct (replace_kid 0 (s1, new0) (0%nat, c1')) as [[s2 n2]|]; [|done]. cbn [mbind res_bind].
    cbn [Nat.add compose]. rewrite root_kid_same by by right. by destruct (replace_kid 0 (s2, n2) (1%nat, c2)) as [[s3 n3]|].
Qed.
Lemma insert_leaf fuel n (s : St) M root b l key val : root <> 0 -> M !! root = Some b -> blen b = PAGE_SIZE ->
  tree M 0 ∅ b (sentinel :: l) -> pages (5 + n)%nat s M -> user_kvs l -> user_kv (key, val) -> (0 < fuel)%nat ->
  inserted_root n 0 (kv_insert key val l) (Insert fuel s root key val).
Proof.
  intros Hr0 HM Hb HT Hp Hu [Hks Hkn] Hfuel.
  destruct (insert_leaf_at fuel n s M root b (sentinel :: l) key val Hr0 HM Hb HT Hp (sentinel_sorted l Hu) ltac:(done)
    (sentinel_small l Hu) Hks Hfuel) as (s' & root' & M' & E & Hp' & Hcase).
  rewrite sentinel_insert in Hcase by done. exists s', root'. case_decide.
  - destruct Hcase as (Hr & b' & HM' & Hb' & HT'). exists 0%nat, M'. split; [done|]. split; [done|]. split; [by eapply rep_leaf|lia].
  - by exists 1%nat, M'.
Qed.

(** A new root for what [treeInsert] made of the old one. *)
Lemma single_root h n (s : St) M b F l : pages (S n) s M -> blen b = PAGE_SIZE -> tree M (S h) F b l ->
  l <> [] -> (forall q, q ∈ F -> is_Some (M !! q)) ->
  exists s' root M', page_new s b = Ok (s', root) /\ pages n s' M' /\ tree_rep M' root (S h) l.
Proof.
  intros Hp Hb HT Hl HF. destruct (pages_new n s M b Hp Hb) as (s' & p & E & HpM & Hp0 & _ & Hp').
  exists s', p, (<[p := b]> M). split; [done|]. split; [done|].
  apply (rep_node _ _ b h F); [done|by rewrite lookup_insert_eq|done| | |done].
  - eapply tree_mono; [exact HT|]. intros q x _ Hx. rewrite lookup_insert_ne; [done|]. congruence.
  - intros Hq. destruct (HF p Hq). congruence.
Qed.

Lemma root_kids_same rtype (bs : list bytes) : rtype <> BNODE_LEAF -> forall (st : St * BNode) j,
  foldM (root_kid rtype) st (imap (fun i b => ((j + i)%nat, b)) bs) = foldM (replace_kid 0) st (imap (fun i b => ((j + i)%nat, b)) bs).
Proof.
  intros Hr. induction bs as [|b bs IH]; intros [s new] j; [done|]. cbn [imap foldM]. rewrite root_kid_same by by left.
  destruct (replace_kid 0 (s, new) _) as [st'|]; [|done]. cbn [mbind res_bind].
  erewrite imap_ext; [apply (IH st' (S j))|]. intros i x _. cbn. f_equal. lia.
Qed.
Lemma insert_node h fuel n (s : St) M root b F l key val : root <> 0 -> M !! root = Some b -> blen b = PAGE_SIZE ->
  tree M (S h) F b l -> root ∉ F -> l <> [] -> pages (3 * S h + (4 + n))%nat s M -> user_kvs l -> user_kv (key, val) ->
  (S h < fuel)%nat -> inserted_root n (S h) (kv_insert key val l) (Insert fuel s root key val).
Proof.
  intros Hr0 HM Hb HT HrF Hl Hp Hu Hk Hfuel. destruct Hk as [Hks Hkn].
  destruct (treeInsert_spec (S h) fuel (4 + n) s M F b l key val Hfuel Hp HT Hb (proj1 Hu) Hl (user_small l Hu) Hks)
    as (s1 & b1 & M1 & F1 & es1 & E1 & Hp1 & [HS1 HS2] & Hb1 & R1 & B1 & Hspl).
  pose proof (user_insert key val l Hu (conj Hks Hkn)) as Hu'.
  assert (HM1 : M1 !! root = Some b) by by apply HS1.
  assert (HrF1 : root ∉ F1) by (intros [?|?]%HS2; [done|congruence]).
  pose proof (tree_node_inv _ _ _ _ _ HT) as (es & R & _).
  destruct (pages_del (3 + n) s1 M1 root Hp1) as (s2 & E2 & Hp2); [by eexists|].
  set (M2 := delete root M1) in *.
  assert (B2 : body M2 (S h) F1 es1 (kv_insert key val l)).
  { eapply body_mono; [exact B1|]. intros q x Hq Hx. unfold M2. rewrite lookup_delete_ne; [done|]. by intros ->. }
  assert (Hgo : forall split, nodeSplit3 b1 = Ok split -> Insert fuel s root key val =
    match split with
    | [part] => page_new s2 part
    | _ => newRoot ← setHeader (make_bytes PAGE_SIZE) BNODE_NODE (u16 (Z.of_nat (length split)));
           '(s, newRoot) ← foldM (root_kid BNODE_NODE) (s2, newRoot) (imap pair split); page_new s newRoot
    end).
  { intros split Es. unfold Insert. rewrite decide_False by done. rstep (pages_get _ s M root b Hp HM). rstep E1. rstep Es.
    rstep (pages_get _ s1 M1 root b Hp1 HM1). rstep (repr_btype R). change (negb (BNODE_NODE =? BNODE_LEAF)) with true. by rstep E2. }
  destruct (split_tree M2 (S h) F1 b1 es1 _ R1 B2 (kv_insert_ne _ _ _) Hb1 Hspl)
    as [(c1 & k1 & Es & Hc & Ht & Hk1 & _)|(c1 & c2 & k1 & k2 & F1' & F2' & l1 & l2 & Es & HFe & HFd & Hll & Hc1 & Ht1 & Hk1 & Hc2 & Ht2 & Hk2 & _)].
  - rewrite (Hgo _ Es). destruct (single_root h n s2 M2 c1 F1 (kv_insert key val l)) as (s' & root' & M' & E & Hp' & Hrep); try done;
      [by eapply pages_mono; [|exact Hp2]; lia|apply kv_insert_ne|by apply (body_dom _ (S h) F1 es1 _ B2)|].
    exists s', root', (S h), M'. split; [done|]. split; [done|]. split; [done|lia].
  - rewrite (Hgo _ Es).
    assert (Hroots : roots (tree M2 (S h)) (F1' ∪ F2') [c1; c2] [k1; k2] (l1 ++ l2)).
    { apply (roots_cons _ c1); try done. by apply roots_one. }
    rewrite <- HFe, <- Hll in Hroots.
    destruct (new_root_spec (S h) s2 n M2 c1 c2 k1 k2 F1 _ Hroots)
      as (s' & new0 & new' & M' & root' & E0 & E & Hp' & Hroot & Hrep); [done|by apply (body_dom _ (S h) F1 es1 _ B2)|by apply user_small|].
    exists s', root', (S (S h)), M'. split; [|split; [done|split; [done|lia]]].
    change (length [c1; c2]) with 2%nat. rstep E0. rewrite <- E.
    pose proof (root_kids_same BNODE_NODE [c1; c2] ltac:(done) (s2, new0) 0) as HR.
    change (imap (fun i b => ((0 + i)%nat, b)) [c1; c2]) with [(0%nat, c1); (1%nat, c2)] in HR.
    change (imap pair [c1; c2]) with [(0%nat, c1); (1%nat, c2)]. rewrite HR.
    by destruct (foldM (replace_kid 0) (s2, new0) [(0%nat, c1); (1%nat, c2)]) as [[s3 n3]|].
Qed.

Lemma Insert_spec h fuel n (s : St) M root l key val : tree_rep M root h l -> pages (3 * h + (5 + n))%nat s M ->
  user_kvs l -> user_kv (key, val) -> (h < fuel)%nat ->
  inserted_root n h (kv_insert key val l) (Insert fuel s root key val).
Proof.
  intros Hrep Hp Hu Hk Hfuel. destruct Hrep as [|root b l Hr HM Hb HT|root b h F l Hr HM Hb HT HrF Hl].
  - apply (insert_empty fuel n s M); [|done]. eapply pages_mono; [|exact Hp]. lia.
  - by apply (insert_leaf fuel n s M root b).
  - apply (insert_node h fuel n s M root b F); try done. eapply pages_mono; [|exact Hp]. lia.
Qed.
End Root.
