(* ===== verification/TreeSpec.v ===== *)
(** * The B+tree as a map

    What [GetVal], [Insert] and [Delete] do to the finite map a tree stands
    for, for every page store that keeps the laws of [PageLaws]; and two states
    in which they do something else, both reached by deletions. *)
From Stdlib Require Import ZArith Lia Sorted.
From stdpp Require Import base gmap list strings countable sorting.
From coqutil Require Import Byte Word.LittleEndianList.
From S2P Require Import Prelude KVList BNode NodeLayout NodeOps BTree TreeRep TreeGet TreeInsert TreeDelete TreeRoot.

(** A tree of any shape: also the leaf without the entry for the empty key
    that remains when a taller tree has shrunk. *)
Inductive tree_any (M : gmap Z bytes) (root : Z) (h : nat) (l : kvl) : Prop :=
  | any_rep : tree_rep M root h l -> tree_any M root h l
  | any_bare b : h = 0%nat -> root <> 0 -> M !! root = Some b -> blen b = PAGE_SIZE -> tree M 0 ∅ b l -> l <> [] ->
      tree_any M root h l.

Lemma user_remove key l : user_kvs l -> user_kvs (kv_remove key l).
Proof.
  intros [Hs Hu]. split; [by apply kv_remove_sorted|]. apply list.Forall_forall. intros kv [_ Hkv]%list_elem_of_filter.
  rewrite list.Forall_forall in Hu. by apply Hu.
Qed.
Lemma succ_fits_sentinel key l : key <> [] -> succ_fits key l -> succ_fits key (sentinel :: l).
Proof.
  intros Hk H l1 v k' v' l2 E. destruct l1 as [|kv l1]; [by injection E as <-|]. cbn in E. injection E as <- E.
  by eapply H.
Qed.
Lemma sentinel_get key l : key <> [] -> kv_get key (sentinel :: l) = kv_get key l.
Proof. intros Hk. cbn. rewrite decide_False; [done|]. by intros <-. Qed.
Lemma sentinel_remove key l : key <> [] -> kv_remove key (sentinel :: l) = sentinel :: kv_remove key l.
Proof. intros Hk. unfold kv_remove. rewrite filter_cons_True; [done|]. cbn. by intros <-. Qed.

(** The keys of a map. *)
Abbreviation stored m := (fun k => is_Some (m !! k)).

Section Spec.
Context {St pages} `{PageLaws St pages}.

Lemma GetVal_spec h fuel n (s : St) M root l key : tree_any M root h l -> pages n s M -> user_kvs l -> key <> [] ->
  (h < fuel)%nat -> GetVal fuel s root key = Ok (kv_get key l).
Proof.
  intros Hrep Hp Hu Hk Hf. unfold GetVal.
  assert (Hgo : forall b h F l', root <> 0 -> M !! root = Some b -> tree M h F b l' -> kv_sorted l' -> l' <> [] -> (h < fuel)%nat ->
    (if decide (root = 0) then Ok None else node ← page_get s root; getVal_at fuel s node key) = Ok (kv_get key l')).
  { intros b h' F l' Hr HM HT Hs Hl Hh. rewrite decide_False by done. rstep (pages_get n s M root b Hp HM).
    by apply (getVal_at_spec h' fuel s n M F). }
  destruct Hrep as [Hrep|b -> Hr HM Hb HT Hl]; [|by apply (Hgo b 0%nat ∅); try done; destruct Hu].
  inversion Hrep as [|r0 b l0 Hr HM Hb HT|r0 b h0 F l0 Hr HM Hb HT HrF Hl]; subst.
  - done.
  - rewrite (Hgo b 0%nat ∅ (sentinel :: l)); try done; [by rewrite sentinel_get|by apply sentinel_sorted].
  - apply (Hgo b (S h0) F); try done. by destruct Hu.
Qed.

(** The page of a deleted node is released and the new node takes its place,
    or its only child does. *)
Definition deleted_root (n : nat) (l : kvl) (h : nat) (r : res (St * Z * bool)) : Prop :=
  exists s' root' h' M', r = Ok (s', root', true) /\ pages n s' M' /\ tree_any M' root' h' l /\ (h' <= h)%nat.

(** Deletion from a leaf at the root, whatever its list starts with. *)
Lemma delete_leaf_at fuel n (s : St) M root b l key v : root <> 0 -> M !! root = Some b -> blen b = PAGE_SIZE ->
  tree M 0 ∅ b l -> pages (2 + n)%nat s M -> kv_sorted l -> l <> [] -> kv_get key l = Some v -> succ_fits key l -> (0 < fuel)%nat ->
  exists s' root' M' b', Delete fuel s root key = Ok (s', root', true) /\ pages n s' M' /\ root' <> 0 /\
    M' !! root' = Some b' /\ blen b' = PAGE_SIZE /\ tree M' 0 ∅ b' (kv_remove key l).
Proof.
  intros Hr HM Hb HT Hp Hs Hl Hg Hsf Hfuel.
  pose proof (treeDelete_spec 0 fuel (2 + n) s M ∅ b l key Hfuel Hp HT Hb Hs Hl Hsf) as HD.
  unfold deleted in HD. rewrite Hg in HD.
  destruct HD as (s1 & b1 & M1 & F1 & es1 & E1 & Hp1 & [HS1 HS2] & Hb1 & R1 & B1). destruct B1 as [_ B1].
  destruct (pages_del (1 + n) s1 M1 root Hp1) as (s2 & E2 & Hp2); [exists b; apply HS1; [done|set_solver]|].
  destruct (pages_new n s2 (delete root M1) b1 Hp2 Hb1) as (s3 & p & E3 & HpM & Hp0 & _ & Hp3).
  exists s3, p, (<[p := b1]> (delete root M1)), b1. split.
  { unfold Delete. rewrite decide_False by done. rstep (pages_get _ s M root b Hp HM). rstep E1. rstep E2.
    rstep (repr_btype R1). rstep (repr_nkeys R1). change (ntype 0 =? BNODE_NODE) with false. cbn [andb]. by rstep E3. }
  split; [done|]. split; [done|]. split; [by rewrite lookup_insert_eq|]. split; [done|]. exists es1. by split.
Qed.
Lemma delete_leaf fuel n (s : St) M root b l key v : root <> 0 -> M !! root = Some b -> blen b = PAGE_SIZE ->
  tree M 0 ∅ b (sentinel :: l) -> pages (2 + n)%nat s M -> user_kvs l -> key <> [] -> kv_get key l = Some v ->
  succ_fits key l -> (0 < fuel)%nat -> deleted_root n (kv_remove key l) 0 (Delete fuel s root key).
Proof.
  intros Hr HM Hb HT Hp Hu Hk Hg Hsf Hfuel.
  destruct (delete_leaf_at fuel n s M root b (sentinel :: l) key v) as (s' & root' & M' & b' & E & Hp' & Hr' & HM' & Hb' & HT');
    try done; [by apply sentinel_sorted|by rewrite sentinel_get|by apply succ_fits_sentinel|].
  rewrite sentinel_remove in HT' by done. exists s', root', 0%nat, M'. split; [done|]. split; [done|]. split; [|lia].
  by eapply any_rep, rep_leaf.
Qed.
Lemma delete_bare fuel n (s : St) M root b l key v : root <> 0 -> M !! root = Some b -> blen b = PAGE_SIZE ->
  tree M 0 ∅ b l -> pages (2 + n)%nat s M -> user_kvs l -> l <> [] -> kv_get key l = Some v ->
  succ_fits key l -> kv_remove key l <> [] -> (0 < fuel)%nat -> deleted_root n (kv_remove key l) 0 (Delete fuel s root key).
Proof.
  intros Hr HM Hb HT Hp [Hs _] Hl Hg Hsf Hrest Hfuel.
  destruct (delete_leaf_at fuel n s M root b l key v) as (s' & root' & M' & b' & E & Hp' & Hr' & HM' & Hb' & HT'); try done.
  exists s', root', 0%nat, M'. split; [done|]. split; [done|]. split; [|lia]. by eapply any_bare.
Qed.

(** After the update of an inner root. *)
Lemma delete_node h fuel n (s : St) M root b F l key v : root <> 0 -> M !! root = Some b -> blen b = PAGE_SIZE ->
  tree M (S h) F b l -> root ∉ F -> l <> [] -> pages (2 * S h + (2 + n))%nat s M -> user_kvs l -> kv_get key l = Some v ->
  succ_fits key l -> kv_remove key l <> [] -> (S h < fuel)%nat ->
  deleted_root n (kv_remove key l) (S h) (Delete fuel s root key).
Proof.
  intros Hr HM Hb HT HrF Hl Hp Hu Hg Hsf Hrest Hfuel.
  pose proof (treeDelete_spec (S h) fuel (2 + n) s M F b l key Hfuel Hp HT Hb (proj1 Hu) Hl Hsf) as HD.
  unfold deleted in HD. rewrite Hg in HD.
  destruct HD as (s1 & b1 & M1 & F1 & es1 & E1 & Hp1 & [HS1 HS2] & Hb1 & R1 & B1).
  assert (HM1 : M1 !! root = Some b) by by apply HS1.
  assert (HrF1 : root ∉ F1) by (intros [?|?]%HS2; [done|congruence]).
  destruct (pages_del (1 + n) s1 M1 root Hp1) as (s2 & E2 & Hp2); [by eexists|]. set (M2 := delete root M1) in *.
  assert (B2 : body M2 (S h) F1 es1 (kv_remove key l)).
  { eapply body_mono; [exact B1|]. intros q x Hq Hx. unfold M2. rewrite lookup_delete_ne; [done|]. by intros ->. }
  assert (Hgo : Delete fuel s root key = (if Z.of_nat (length es1) =? 1 then p ← getptr b1 0; Ok (s2, p, true)
    else '(s, p) ← page_new s2 b1; Ok (s, p, true))).
  { unfold Delete. rewrite decide_False by done. rstep (pages_get _ s M root b Hp HM). rstep E1. rstep E2.
    rstep (repr_btype R1). by rstep (repr_nkeys R1). }
  destruct (Z.eqb_spec (Z.of_nat (length es1)) 1) as [H1|H1]; cycle 1.
  { destruct (single_root h n s2 M2 b1 F1 (kv_remove key l)) as (s3 & p & M3 & E3 & Hp3 & Hrep); try done;
      [by exists es1|by apply (body_dom M2 (S h) F1 es1 _ B2)|].
    exists s3, p, (S h), M3. rewrite Hgo, E3. split; [done|]. split; [done|]. split; [by apply any_rep|lia]. }
  destruct es1 as [|e [|]]; [cbn in H1; lia| |cbn in H1; lia].
  assert (Hptr : getptr b1 0 = Ok (ePtr e)) by (apply (repr_getptr R1 0 e eq_refl)).
  apply forest_cons_inv in B2 as (bK & FK & lK & F0 & l0 & Ee & HpK & HbK & HTK & HkK & HpFK & _ & Hf0 & -> & El).
  inversion Hf0; subst F0 l0. rewrite app_nil_r in El. rewrite Hgo, Hptr. cbn [mbind res_bind].
  assert (HpK0 : ePtr e <> 0).
  { intros E0. rewrite E0 in HpK. pose proof (pages_zero _ s2 M2 Hp2). congruence. }
  exists s2, (ePtr e), h, M2. split; [done|]. split; [by eapply pages_le|]. split; [|lia].
  rewrite El in *. assert (HTK' : tree M2 h FK bK lK) by exact HTK. destruct h as [|h].
  - apply (any_bare _ _ _ _ bK); try done. by destruct (tree_leaf_inv _ _ _ _ HTK') as [-> _].
  - by apply any_rep, (rep_node _ _ bK h FK).
Qed.

Lemma Delete_spec h fuel n (s : St) M root l key v : tree_rep M root h l -> pages (2 * h + (2 + n))%nat s M ->
  user_kvs l -> key <> [] -> kv_get key l = Some v -> succ_fits key l -> h = 0%nat \/ kv_remove key l <> [] -> (h < fuel)%nat ->
  deleted_root n (kv_remove key l) h (Delete fuel s root key).
Proof.
  intros Hrep Hp Hu Hk Hg Hsf Hrest Hfuel. destruct Hrep as [|root b l Hr HM Hb HT|root b h F l Hr HM Hb HT HrF Hl].
  - done.
  - by apply (delete_leaf fuel n s M root b l key v).
  - destruct Hrest as [|Hrest]; [done|]. by apply (delete_node h fuel n s M root b F l key v).
Qed.
Lemma Delete_missing h fuel n (s : St) M root l key : tree_any M root h l -> root <> 0 -> pages (2 * h + n)%nat s M ->
  user_kvs l -> key <> [] -> kv_get key l = None -> succ_fits key l -> (h < fuel)%nat ->
  Delete fuel s root key = Ok (s, root, false).
Proof.
  intros Hrep Hr0 Hp Hu Hk Hg Hsf Hfuel.
  assert (Hgo : forall b h F l', M !! root = Some b -> blen b = PAGE_SIZE -> tree M h F b l' -> kv_sorted l' -> l' <> [] -> (h < fuel)%nat ->
    pages (2 * h + n)%nat s M -> succ_fits key l' -> kv_get key l' = None -> Delete fuel s root key = Ok (s, root, false)).
  { intros b h' F l' HM Hb HT Hs Hl Hh Hp' Hsf' Hg'. unfold Delete. rewrite decide_False by done.
    rstep (pages_get _ s M root b Hp' HM). pose proof (treeDelete_spec h' fuel n s M F b l' key Hh Hp' HT Hb Hs Hl Hsf') as HD.
    unfold deleted in HD. rewrite Hg' in HD. by rewrite HD. }
  destruct Hrep as [Hrep|b -> Hr HM Hb HT Hl]; [|apply (Hgo b 0%nat ∅ l); try done; by destruct Hu].
  destruct Hrep as [|root b l Hr HM Hb HT|root b h F l Hr HM Hb HT HrF Hl].
  - done.
  - apply (Hgo b 0%nat ∅ (sentinel :: l)); try done; [by apply sentinel_sorted|by apply succ_fits_sentinel|by rewrite sentinel_get].
  - apply (Hgo b (S h) F l); try done. by destruct Hu.
Qed.

(** Deletion from a tree of any shape, as long as something remains. *)
Lemma Delete_any h fuel n (s : St) M root l key : tree_any M root h l -> pages (2 * h + (2 + n))%nat s M ->
  user_kvs l -> key <> [] -> succ_fits key l -> kv_remove key l <> [] -> (h < fuel)%nat ->
  exists s' root' h' M' ok, Delete fuel s root key = Ok (s', root', ok) /\ pages n s' M' /\
    tree_any M' root' h' (kv_remove key l) /\ (h' <= h)%nat.
Proof.
  intros Hrep Hp Hu Hk Hsf Hrest Hfuel. destruct (kv_get key l) as [v|] eqn:Hg.
  - assert (HD : deleted_root n (kv_remove key l) h (Delete fuel s root key)).
    { destruct Hrep as [Hrep|b -> Hr HM Hb HT Hl]; [|by apply (delete_bare fuel n s M root b l key v)].
      apply (Delete_spec h fuel n s M root l key v); try done. by right. }
    destruct HD as (s' & root' & h' & M' & E & H'). by exists s', root', h', M', true.
  - assert (Hrm : kv_remove key l = l) by by apply kv_remove_none. rewrite Hrm in *.
    assert (Hr : root <> 0) by (destruct Hrep as [Hrep|]; [by inversion Hrep; subst|done]).
    exists s, root, h, M, false. split; [by apply (Delete_missing h fuel (2 + n) s M root l key)|].
    split; [eapply pages_mono; [|exact Hp]; lia|]. by split.
Qed.

(** ** The tree as a map *)

(** The tree at [root] has the shape [R], holds the map [m] and has room for [n]
    page operations. *)
Definition map_tree (R : gmap Z bytes -> Z -> nat -> kvl -> Prop) (n h : nat) (s : St) (root : Z) (m : gmap bytes bytes) : Prop :=
  exists M l, R M root h l /\ pages n s M /\ user_kvs l /\ kv_map l = m.

Lemma map_tree_any n h s root m : map_tree tree_rep n h s root m -> map_tree tree_any n h s root m.
Proof. intros (M & l & HR & H'). exists M, l. split; [by apply any_rep|done]. Qed.
Lemma map_tree_mono R j n h s root m : (n <= j)%nat -> map_tree R j h s root m -> map_tree R n h s root m.
Proof. intros Hn (M & l & HR & Hp & H'). exists M, l. split; [done|]. split; [by eapply pages_mono|done]. Qed.
Lemma map_tree_empty n s M : pages n s M -> map_tree tree_rep n 0 s 0 ∅.
Proof. intros Hp. exists M, []. split; [apply rep_empty|]. split; [done|]. split; [by split; constructor|done]. Qed.
Lemma map_tree_user R n h s root m k v : map_tree R n h s root m -> m !! k = Some v -> user_kv (k, v).
Proof.
  intros (M & l & _ & _ & [_ Hu] & <-) Hk. rewrite kv_get_map in Hk. revert Hk.
  induction Hu as [|[k' v'] l Hkv _ IH]; cbn; [done|]. case_decide as Hd; [|done]. subst k'. by intros [= ->].
Qed.

Lemma map_get n h fuel s root m key : map_tree tree_any n h s root m -> key <> [] -> (h < fuel)%nat ->
  GetVal fuel s root key = Ok (m !! key).
Proof. intros (M & l & Ht & Hp & Hu & <-) Hk Hf. rewrite kv_get_map. by eapply GetVal_spec. Qed.
Lemma map_insert n h fuel s root m key val : map_tree tree_rep (3 * h + (5 + n)) h s root m -> user_kv (key, val) -> (h < fuel)%nat ->
  exists s' root' h', Insert fuel s root key val = Ok (s', root') /\ map_tree tree_rep n h' s' root' (<[key := val]> m) /\ (h' <= S h)%nat.
Proof.
  intros (M & l & Ht & Hp & Hu & <-) Hk Hf.
  destruct (Insert_spec h fuel n s M root l key val Ht Hp Hu Hk Hf) as (s' & root' & h' & M' & E & Hp' & Ht' & Hh).
  exists s', root', h'. split; [done|]. split; [|done]. exists M', (kv_insert key val l). split; [done|]. split; [done|].
  split; [by apply user_insert|apply kv_insert_map].
Qed.
(** Of the keys [P] that follow [key], up to the first of the keys [Q], none is
    longer. *)
Definition run_fits (key : bytes) (P Q : bytes -> Prop) : Prop :=
  forall k, P k -> blt key k -> (forall q, Q q -> blt key q -> ~ blt q k) -> blen k <= blen key.
Lemma run_fits_mono key (P Q P' Q' : bytes -> Prop) : (forall k, P' k -> P k) -> (forall k, Q k -> Q' k) -> run_fits key P Q -> run_fits key P' Q'.
Proof. intros HP HQ HR k Hk Hlt Hno. apply HR; [by apply HP|done|]. intros q Hq. by apply Hno, HQ. Qed.
Lemma stored_in (l : kvl) k : kv_sorted l -> is_Some (kv_map l !! k) <-> k ∈ l.*1.
Proof.
  intros Hs. unfold kv_map. rewrite list_elem_of_fmap. split.
  - intros [v Hv]. apply elem_of_list_to_map_2 in Hv. by exists (k, v).
  - intros ([k' v] & -> & Hin). exists v. apply elem_of_list_to_map; [by apply kv_sorted_nodup|done].
Qed.
Lemma run_fits_succ key l : run_fits key (stored (kv_map l)) (stored (kv_map l)) -> kv_sorted l -> succ_fits key l.
Proof.
  intros Hl Hs l1 v k' v' l2 ->. pose proof Hs as (Hs1 & [Hk [Hk2 Hs2]%kv_sorted_cons]%kv_sorted_cons & H1)%kv_sorted_app.
  apply list.Forall_cons in Hk as [Hk Hk']. apply Hl; [apply stored_in; [done|]|exact Hk|].
  { rewrite fmap_app, elem_of_app. right. cbn. rewrite !elem_of_cons. auto. }
  intros q Hq%stored_in Hq1 Hq2; [|done]. rewrite fmap_app, elem_of_app in Hq. cbn in Hq. rewrite !elem_of_cons in Hq.
  destruct Hq as [Hq|[->|[->|Hq]]]; [|by apply blt_irrefl in Hq1|by apply blt_irrefl in Hq2|].
  - apply list_elem_of_fmap in Hq as ([q0 w] & -> & Hin). rewrite list.Forall_forall in H1. specialize (H1 _ Hin). apply list.Forall_cons in H1 as [H1 _].
    by destruct (blt_asym _ _ Hq1).
  - apply list_elem_of_fmap in Hq as ([q0 w] & -> & Hin). unfold keys_gt in Hk2. rewrite list.Forall_forall in Hk2. specialize (Hk2 _ Hin).
    by destruct (blt_asym _ _ Hq2).
Qed.
Lemma map_delete n h fuel s root m key : map_tree tree_any (2 * h + (2 + n)) h s root m -> key <> [] -> run_fits key (stored m) (stored m) ->
  delete key m <> ∅ -> (h < fuel)%nat ->
  exists s' root' h' ok, Delete fuel s root key = Ok (s', root', ok) /\ map_tree tree_any n h' s' root' (delete key m) /\ (h' <= h)%nat.
Proof.
  intros (M & l & Ht & Hp & Hu & <-) Hk Hlen Hne Hf. rewrite <- kv_remove_map in *.
  destruct (Delete_any h fuel n s M root l key Ht Hp Hu Hk) as (s' & root' & h' & M' & ok & E & Hp' & Ht' & Hh);
    [by apply run_fits_succ; destruct Hu|by intros Hr; rewrite Hr in Hne|done|].
  exists s', root', h', ok. split; [done|]. split; [|done]. exists M', (kv_remove key l). split; [done|]. split; [done|].
  split; [by apply user_remove|done].
Qed.
End Spec.
