(* ===== verification/TreeMap.v ===== *)
(** * The B+tree is a finite map, except after it has shrunk

    The properties of the operations of storage/btree.go on a whole tree, over
    any page store with the laws of [PageLaws], each with an instance on the
    store in memory; and the two states in which [Insert] is not insertion. *)
From Stdlib Require Import ZArith Lia Sorted.
From stdpp Require Import base gmap list strings countable sorting.
From coqutil Require Import Byte Word.LittleEndianList.
From S2P Require Import Prelude KVList BNode NodeLayout NodeOps BTree TreeRep TreeGet TreeInsert TreeDelete TreeRoot TreeSpec.

(** A sequence of insertions. *)
Definition insert_all {S} `{PageStore S} (fuel : nat) (st : S * Z) (ops : list (bytes * bytes)) : res (S * Z) :=
  foldM (fun '(s, root) '(key, val) => Insert fuel s root key val) st ops.
(** The map it leaves: the last value of each key. *)
Definition inserted_map (ops : list (bytes * bytes)) (m : gmap bytes bytes) : gmap bytes bytes :=
  foldl (fun m kv => <[kv.1 := kv.2]> m) m ops.

(** Keys of one length always fit. *)
Lemma succ_fits_len n key l : Forall (fun kv => blen kv.1 = n) l -> blen key = n -> succ_fits key l.
Proof. intros H Hk l1 v k' v' l2 ->. rewrite !list.Forall_app, !list.Forall_cons in H. cbn in H. lia. Qed.

Section Map.
Context {St pages} `{PageLaws St pages}.

Lemma insert_all_spec fuel ops : forall h n (s : St) M root l, tree_rep M root h l -> user_kvs l -> Forall user_kv ops ->
  pages (length ops * (3 * (h + length ops) + 5) + n)%nat s M -> (h + length ops < fuel)%nat ->
  exists s' root' h' M' l', insert_all fuel (s, root) ops = Ok (s', root') /\ pages n s' M' /\ tree_rep M' root' h' l' /\
    user_kvs l' /\ kv_map l' = inserted_map ops (kv_map l) /\ (h' <= h + length ops)%nat.
Proof.
  induction ops as [|[key val] ops IH]; intros h n s M root l Hrep Hu Hops Hp Hf.
  - exists s, root, h, M, l. split; [done|]. split; [exact Hp|]. split; [done|]. split; [done|]. split; [done|]. cbn. lia.
  - apply list.Forall_cons in Hops as [Hk Hops]. cbn [length] in *.
    destruct (Insert_spec h fuel (length ops * (3 * (S h + length ops) + 5) + n) s M root l key val Hrep)
      as (s1 & root1 & h1 & M1 & E1 & Hp1 & Hrep1 & Hh1); [eapply pages_mono; [|exact Hp]; nia|done|done|lia|].
    destruct (IH h1 n s1 M1 root1 _ Hrep1 (user_insert key val l Hu Hk) Hops)
      as (s2 & root2 & h2 & M2 & l2 & E2 & Hp2 & Hrep2 & Hu2 & Hm & Hh2); [eapply pages_mono; [|exact Hp1]; nia|lia|].
    exists s2, root2, h2, M2, l2. split; [unfold insert_all; cbn [foldM]; by rstep E1|].
    split; [done|]. split; [done|]. split; [done|]. split; [|lia]. by rewrite Hm, kv_insert_map.
Qed.

(** C16: GetVal on a tree of any shape, of height below the fuel, returns the
    value the finite map of the tree has for the key, and the error exactly when
    the map has none: the search through the inner nodes ends in the right leaf. *)
Theorem GetVal_correct h fuel n (s : St) M root l key : tree_any M root h l -> pages n s M -> user_kvs l -> key <> [] ->
  (h < fuel)%nat -> GetVal fuel s root key = Ok (kv_map l !! key).
Proof. intros. rewrite kv_get_map. by eapply GetVal_spec. Qed.

(** C14: Insert into a tree that represents a sorted list, of an entry of at
    most a third of a page, never panics; the new root represents the list with
    the entry inserted or its value replaced, so lookups change at that key
    only; the tree grows by at most one level and needs [3 * h + 5] pages. *)
Theorem Insert_correct h fuel n (s : St) M root l key val : tree_rep M root h l ->
  pages (3 * h + (5 + n))%nat s M -> user_kvs l -> user_kv (key, val) -> (h < fuel)%nat ->
  exists s' root' h' M' l', Insert fuel s root key val = Ok (s', root') /\ pages n s' M' /\ tree_rep M' root' h' l' /\
    user_kvs l' /\ kv_map l' = <[key := val]> (kv_map l) /\ (h' <= S h)%nat.
Proof.
  intros Hrep Hp Hu Hk Hf. destruct (Insert_spec h fuel n s M root l key val Hrep Hp Hu Hk Hf) as (s' & root' & h' & M' & E & Hp' & Hr & Hh).
  exists s', root', h', M', (kv_insert key val l). rewrite kv_insert_map. split; [done|]. split; [done|]. split; [done|].
  split; [by apply user_insert|done].
Qed.

(** C15: Delete of a key the tree holds, whose successor is not longer, and
    not the last key of an inner root: never panics, merges what it must, and
    the new root represents the map without the key.  A key the tree does not
    hold leaves store and root as they are and returns false. *)
Theorem Delete_correct h fuel n (s : St) M root l key : tree_rep M root h l -> root <> 0 ->
  pages (2 * h + (2 + n))%nat s M -> user_kvs l -> key <> [] -> succ_fits key l ->
  h = 0%nat \/ kv_remove key l <> [] -> (h < fuel)%nat ->
  match kv_map l !! key with
  | Some _ => exists s' root' h' M' l', Delete fuel s root key = Ok (s', root', true) /\ pages n s' M' /\
      tree_any M' root' h' l' /\ user_kvs l' /\ kv_map l' = delete key (kv_map l) /\ (h' <= h)%nat
  | None => Delete fuel s root key = Ok (s, root, false)
  end.
Proof.
  intros Hrep Hr Hp Hu Hk Hsf Hrest Hf. rewrite kv_get_map. destruct (kv_get key l) as [v|] eqn:Hg.
  - destruct (Delete_spec h fuel n s M root l key v Hrep Hp Hu Hk Hg Hsf Hrest Hf) as (s' & root' & h' & M' & E & Hp' & Ht & Hh).
    exists s', root', h', M', (kv_remove key l). rewrite kv_remove_map. split; [done|]. split; [done|]. split; [done|].
    split; [by apply user_remove|done].
  - eapply (Delete_missing h fuel (2 + n)); try done. by apply any_rep.
Qed.

(** C13: A sequence of insertions into the empty tree runs through, over a
    page store with room, when every entry has a key that is not empty and fits a third
    of a page ([user_kv]; the split of a page can panic on larger entries,
    [NodeOps.nodeSplit3_panics]); and then GetVal of any key is the lookup in the finite map that holds the last value
    given to each key. *)
Theorem insertions_refine_map fuel ops n (s : St) M : Forall user_kv ops ->
  pages (length ops * (3 * length ops + 5) + n)%nat s M -> (length ops < fuel)%nat ->
  exists s' root', insert_all fuel (s, 0) ops = Ok (s', root') /\
    forall key, key <> [] -> GetVal fuel s' root' key = Ok (inserted_map ops ∅ !! key).
Proof.
  intros Hops Hp Hf.
  destruct (insert_all_spec fuel ops 0 n s M 0 [] (rep_empty M) ltac:(split; constructor) Hops Hp Hf)
    as (s' & root' & h' & M' & l' & E & Hp' & Hrep & Hu & Hm & Hh).
  exists s', root'. split; [done|]. intros key Hk. change (∅ : gmap bytes bytes) with (kv_map []). rewrite <- Hm, kv_get_map.
  eapply GetVal_spec; [by apply any_rep|done|done|done|cbn in Hh; lia].
Qed.

(** C40: A leaf at the root without the entry for the empty key, as a tree
    that shrank leaves it, loses its smallest entry when an insertion splits it:
    Insert drops the first entry of the left part as if it were that entry. *)
Theorem bare_leaf_drops_smallest fuel n (s : St) M root b k v l key val : root <> 0 -> M !! root = Some b ->
  blen b = PAGE_SIZE -> tree M 0 ∅ b ((k, v) :: l) -> pages (5 + n)%nat s M -> user_kvs ((k, v) :: l) ->
  user_kv (key, val) -> blt k key -> PAGE_SIZE < node_size (map kv_entry (kv_insert key val ((k, v) :: l))) ->
  (1 < fuel)%nat ->
  exists s' root', Insert fuel s root key val = Ok (s', root') /\ GetVal fuel s root k = Ok (Some v) /\
    GetVal fuel s' root' k = Ok None.
Proof.
  intros Hr HM Hb HT Hp Hu [Hk Hkn] Hlt Hbig Hf.
  destruct (insert_leaf_at fuel n s M root b ((k, v) :: l) key val) as (s' & root' & M' & E & Hp' & Hcase); try done;
    [by destruct Hu|by apply user_small|lia|].
  rewrite decide_False in Hcase by (by apply Z.lt_nge).
  pose proof (user_insert key val _ Hu (conj Hk Hkn)) as Hu'. pose proof Hu as [[Hgt _]%kv_sorted_cons [[_ Hk0] _]%list.Forall_cons].
  assert (Ek : kv_insert key val ((k, v) :: l) = (k, v) :: kv_insert key val l).
  { apply (kv_insert_skip [(k, v)]). by apply list.Forall_singleton. }
  rewrite Ek in *. cbn [tail] in Hcase. destruct Hu' as [[Hgt' Hs']%kv_sorted_cons [_ Hu']%list.Forall_cons].
  exists s', root'. split; [done|]. split.
  - erewrite (GetVal_spec 0 fuel); [|by eapply any_bare|exact Hp|done|done|lia]. cbn. by rewrite decide_True.
  - erewrite (GetVal_spec 1 fuel); [|by apply any_rep|exact Hp'|by split|done|lia]. by rewrite kv_get_above.
Qed.
End Map.

(** ** Instances on the store in memory *)

(** A store with one page, a leaf with the entries [l]. *)
Definition leaf_page (l : kvl) : bytes := encode_node PAGE_SIZE BNODE_LEAF (map kv_entry l).
Definition leaf_store (l : kvl) : MemStore := mkMem 2 {[1 := leaf_page l]}.
(** Entries of 1315 bytes: three of them fit a page, four do not. *)
Definition big (c : byte) : bytes * bytes := ([c], replicate 1300 Byte.x2e).
Definition abc : kvl := map big [Byte.x61; Byte.x62; Byte.x63].
Definition abcd : kvl := map big [Byte.x61; Byte.x62; Byte.x63; Byte.x64].

Lemma kv_entries_ok l : Forall entry_ok (map kv_entry l).
Proof. induction l; constructor; [|done]. by split. Qed.
Lemma leaf_store_ok l : node_size (map kv_entry l) <= PAGE_SIZE ->
  mem_pages 1000 (leaf_store l) {[1 := leaf_page l]} /\ blen (leaf_page l) = PAGE_SIZE /\
  tree {[1 := leaf_page l]} 0 ∅ (leaf_page l) l.
Proof.
  intros Hs. destruct (encode_node_is PAGE_SIZE BNODE_LEAF (map kv_entry l)) as [Hl R]; [done|apply kv_entries_ok|done|].
  split; [|split; [done|by exists (map kv_entry l)]]. split; [done|]. split; [done|]. split; [done|].
  intros p [x Hp]. apply lookup_singleton_Some in Hp as [<- _]. by cbn.
Qed.
Lemma leaf_store_rep l : node_size (map kv_entry (sentinel :: l)) <= PAGE_SIZE ->
  tree_rep {[1 := leaf_page (sentinel :: l)]} 1 0 l.
Proof. intros Hs. destruct (leaf_store_ok _ Hs) as (_ & Hb & HT). by eapply rep_leaf. Qed.
Lemma user_dec l : bool_decide (user_kvs l) = true -> user_kvs l.
Proof. apply bool_decide_eq_true. Qed.
Lemma user_kv_dec kv : bool_decide (user_kv kv) = true -> user_kv kv.
Proof. apply bool_decide_eq_true. Qed.
Lemma abcd_user : Forall user_kv abcd.
Proof. apply (bool_decide_eq_true (Forall user_kv abcd)). by vm_compute. Qed.

Lemma GetVal_correct_witness : exists s root, Insert 1 (leaf_store (sentinel :: abc)) 1 [Byte.x64] (replicate 1300 Byte.x2e) = Ok (s, root) /\
  GetVal 3 s root [Byte.x62] = Ok (Some (replicate 1300 Byte.x2e)) /\ GetVal 3 s root [Byte.x65] = Ok None.
Proof.
  assert (Hfit : node_size (map kv_entry (sentinel :: abc)) <= PAGE_SIZE) by (vm_compute; discriminate).
  destruct (leaf_store_ok _ Hfit) as (Hp & _).
  destruct (Insert_spec 0 1 995 _ _ 1 abc [Byte.x64] (replicate 1300 Byte.x2e) (leaf_store_rep abc Hfit) Hp)
    as (s & root & h & M & E & Hp' & Hrep & Hh); [apply user_dec; by vm_compute|apply user_kv_dec; by vm_compute|by constructor|].
  exists s, root. split; [exact E|].
  assert (Hu : user_kvs (kv_insert [Byte.x64] (replicate 1300 Byte.x2e) abc)) by (apply user_dec; by vm_compute).
  assert (Hf : (h < 3)%nat) by (clear - Hh; lia).
  pose proof (GetVal_correct h 3 995 s M root _ [Byte.x62] (any_rep _ _ _ _ Hrep) Hp' Hu ltac:(discriminate) Hf) as H1.
  pose proof (GetVal_correct h 3 995 s M root _ [Byte.x65] (any_rep _ _ _ _ Hrep) Hp' Hu ltac:(discriminate) Hf) as H2.
  rewrite kv_get_map in H1, H2. split; [exact H1|exact H2].
Defined.
Lemma Insert_correct_witness : exists s root h M l, Insert 1 (leaf_store (sentinel :: abc)) 1 [Byte.x64] (replicate 1300 Byte.x2e) = Ok (s, root) /\
  tree_rep M root h l /\ kv_map l = <[[Byte.x64] := replicate 1300 Byte.x2e]> (kv_map abc) /\ mem_pages 995 s M.
Proof.
  assert (Hfit : node_size (map kv_entry (sentinel :: abc)) <= PAGE_SIZE) by (vm_compute; discriminate).
  destruct (leaf_store_ok _ Hfit) as (Hp & _).
  destruct (Insert_correct 0 1 995 _ _ 1 abc [Byte.x64] (replicate 1300 Byte.x2e) (leaf_store_rep abc Hfit) Hp)
    as (s & root & h & M & l & E & Hp' & Hrep & Hu & Hm & _); [apply user_dec; by vm_compute|apply user_kv_dec; by vm_compute|by constructor|].
  exists s, root, h, M, l. exact (conj E (conj Hrep (conj Hm Hp'))).
Defined.
Lemma Delete_correct_witness : exists s root h M l, Delete 1 (leaf_store (sentinel :: abc)) 1 [Byte.x62] = Ok (s, root, true) /\
  tree_any M root h l /\ kv_map l = delete [Byte.x62] (kv_map abc) /\
  Delete 1 (leaf_store (sentinel :: abc)) 1 [Byte.x7a] = Ok (leaf_store (sentinel :: abc), 1, false).
Proof.
  assert (Hfit : node_size (map kv_entry (sentinel :: abc)) <= PAGE_SIZE) by (vm_compute; discriminate).
  destruct (leaf_store_ok _ Hfit) as (Hp & _).
  assert (Hsf : forall key, blen key = 1 -> succ_fits key abc).
  { intros key Hk. apply (succ_fits_len 1); [|done]. repeat constructor. }
  assert (Hu : user_kvs abc) by (apply user_dec; by vm_compute).
  pose proof (Delete_correct 0 1 998 _ _ 1 abc [Byte.x62] (leaf_store_rep abc Hfit) ltac:(done) Hp Hu ltac:(done)
    (Hsf [Byte.x62] eq_refl) ltac:(by left) ltac:(lia)) as H1.
  pose proof (Delete_correct 0 1 998 _ _ 1 abc [Byte.x7a] (leaf_store_rep abc Hfit) ltac:(done) Hp Hu ltac:(done)
    (Hsf [Byte.x7a] eq_refl) ltac:(by left) ltac:(lia)) as H2.
  rewrite kv_get_map in H1, H2. change (kv_get [Byte.x62] abc) with (Some (replicate 1300 Byte.x2e)) in H1.
  change (kv_get [Byte.x7a] abc) with (@None bytes) in H2.
  destruct H1 as (s & root & h & M & l & E & _ & Ht & _ & Hm & _).
  exists s, root, h, M, l. exact (conj E (conj Ht (conj Hm H2))).
Defined.

Lemma insertions_refine_map_witness : exists s root, insert_all 5 (empty_mem, 0) abcd = Ok (s, root) /\
  GetVal 5 s root [Byte.x62] = Ok (inserted_map abcd ∅ !! [Byte.x62]).
Proof.
  assert (Hp : mem_pages (length abcd * (3 * length abcd + 5) + 0) empty_mem ∅).
  { split; [done|]. split; [done|]. split; [done|]. intros p [x Hx]. by rewrite lookup_empty in Hx. }
  destruct (insertions_refine_map 5 abcd 0 empty_mem ∅ abcd_user Hp ltac:(repeat constructor)) as (s & root & E & HG).
  exists s, root. exact (conj E (HG [Byte.x62] ltac:(discriminate))).
Defined.

(** The tree of the four entries, after the last two are deleted, is such a leaf;
    inserting them again loses the first entry. *)
Lemma bare_leaf_drops_smallest_witness : exists s root, Insert 2 (leaf_store abc) 1 [Byte.x64] (replicate 1300 Byte.x2e) = Ok (s, root) /\
  GetVal 2 (leaf_store abc) 1 [Byte.x61] = Ok (Some (replicate 1300 Byte.x2e)) /\ GetVal 2 s root [Byte.x61] = Ok None.
Proof.
  assert (Hfit : node_size (map kv_entry abc) <= PAGE_SIZE) by (vm_compute; discriminate).
  destruct (leaf_store_ok _ Hfit) as (Hp & Hb & HT).
  assert (Hu : user_kvs abc) by (apply user_dec; by vm_compute).
  assert (Hk : user_kv (big Byte.x64)) by (apply user_kv_dec; by vm_compute).
  apply (bare_leaf_drops_smallest 2 995 (leaf_store abc) {[1 := leaf_page abc]} 1 (leaf_page abc) [Byte.x61] (replicate 1300 Byte.x2e)
    (map big [Byte.x62; Byte.x63]) [Byte.x64]); try assumption.
  - discriminate.
  - apply lookup_singleton_eq.
  - reflexivity.
  - vm_compute. reflexivity.
  - repeat constructor.
Defined.

(** ** A history that ends the process *)

(** A sequence of deletions; [None] when one returns false. *)
Definition delete_all {S} `{PageStore S} (fuel : nat) (st : S * Z) (keys : list bytes) : res (S * Z) :=
  foldM (fun '(s, root) key => '(s, root, _) ← Delete fuel s root key; Ok (s, root)) st keys.

(** Four entries of 1315 bytes inserted into the empty tree and deleted
    again leave an inner node without entries at the root; the next insertion
    of the first of them asks for the first pointer of that node, which ends the
    process.  The
    same history shows the loss of an entry in a tree that has shrunk: with the
    last two deleted and inserted again, the first is gone. *)
Theorem emptied_tree_exits :
  (st ← insert_all 4 (empty_mem, 0) abcd;
   '(s, root) ← delete_all 4 st abcd.*1;
   Insert 4 s root [Byte.x61] (replicate 1300 Byte.x2e)) = Crash FatalExit /\
  (st ← insert_all 4 (empty_mem, 0) abcd;
   st ← delete_all 4 st [[Byte.x64]; [Byte.x63]];
   '(s, root) ← insert_all 4 st (map big [Byte.x63; Byte.x64]);
   GetVal 4 s root [Byte.x61]) = Ok None.
Proof. split; vm_compute; reflexivity. Qed.
