(* ===== verification/Iter.v ===== *)
(** * storage/btree.go: iterators

    A [BIter] is the path of nodes from the root to a leaf with a position in
    each, and a flag; the tree it belongs to is an argument.  Positions are
    [int32]. *)
From Stdlib Require Import ZArith Lia Sorted.
From stdpp Require Import base gmap list strings countable sorting.
From coqutil Require Import Byte Word.LittleEndianList.
From S2P Require Import Prelude KVList BNode NodeLayout NodeOps BTree TreeRep TreeGet.


Record BIter := mkIter { iPath : list BNode; iPos : list Z; iValid : bool }.
Definition set_pos (level : nat) (p : Z) (it : BIter) : BIter := mkIter (iPath it) (<[level := p]> (iPos it)) (iValid it).
Definition set_kid (level : nat) (node : BNode) (p : Z) (it : BIter) : BIter :=
  mkIter (<[level := node]> (iPath it)) (<[level := p]> (iPos it)) (iValid it).
Definition set_valid (v : bool) (it : BIter) : BIter := mkIter (iPath it) (iPos it) v.

(** [i.path[p]] and [i.pos[p]]. *)
Definition path_at (it : BIter) (p : nat) : res BNode := index (iPath it) (Z.of_nat p).
Definition pos_at (it : BIter) (p : nat) : res Z := index (iPos it) (Z.of_nat p).

(** The loops of [LastNode] and [StartNode]. *)
Fixpoint last_loop (path : list BNode) (pos : list Z) : res bool :=
  match path, pos with
  | [], _ => Ok true
  | node :: path, p :: pos => nk ← nkeys node; if p =? nk - 1 then last_loop path pos else Ok false
  | node :: _, [] => nk ← nkeys node; Crash Panicked
  end.
Fixpoint start_loop (path : list BNode) (pos : list Z) : res bool :=
  match path, pos with
  | [], _ => Ok true
  | _ :: path, p :: pos => if p =? 0 then start_loop path pos else Ok false
  | _ :: _, [] => Crash Panicked
  end.
Definition LastNode (it : BIter) : res bool := last_loop (iPath it) (iPos it).
Definition StartNode (it : BIter) : res bool := start_loop (iPath it) (iPos it).

Section Iterator.
Context {S : Type} `{PageStore S}.

(** [ptr] is zero in the entries of a leaf. *)
Fixpoint seek_loop (fuel : nat) (s : S) (ptr : Z) (key : bytes) (path : list BNode) (pos : list Z) : res (list BNode * list Z) :=
  if decide (ptr = 0) then Ok (path, pos) else
  match fuel with
  | O => Crash OutOfFuel
  | Datatypes.S fuel =>
      node ← page_get s ptr;
      idx ← nodeLookupLE node key;
      ptr ← getptr node idx;
      seek_loop fuel s ptr key (path ++ [node]) (pos ++ [idx])
  end.
Definition SeekLE (fuel : nat) (s : S) (root : Z) (key : bytes) : res BIter :=
  '(path, pos) ← seek_loop fuel s root key [] [];
  Ok (mkIter path pos true).

(** [None] is the pair of nil slices. *)
Definition Deref (root : Z) (it : BIter) : res (option (bytes * bytes)) :=
  if bool_decide (root = 0) || bool_decide (iPath it = []) then Ok None else
  node ← path_at it (length (iPos it) - 1);
  idx ← pos_at it (length (iPos it) - 1);
  key ← getKey node (u16 idx);
  val ← getVal node (u16 idx);
  Ok (Some (key, val)).

Definition Valid (root : Z) (it : BIter) : res bool :=
  if negb (iValid it) || bool_decide (root = 0) then Ok false else
  node ← path_at it (length (iPos it) - 1);
  pos ← pos_at it (length (iPos it) - 1);
  if pos <? 0 then Ok false else
  nk ← nkeys node;
  Ok (negb (u16 (nk - 1) <? u16 pos)).

(** Loading the kid that the position at [level] points to, with its first or
    its last position. *)
Definition load_kid (s : S) (it : BIter) (level : nat) (last : bool) : res BIter :=
  node ← path_at it level;
  p ← pos_at it level;
  ptr ← getptr node (u16 p);
  knode ← page_get s ptr;
  p ← (if last then nk ← nkeys knode; Ok (u16 (nk - 1)) else Ok 0);
  Ok (set_kid (level + 1) knode p it).

Fixpoint iterNext (s : S) (it : BIter) (level : nat) : res BIter :=
  p ← pos_at it level;
  node ← path_at it level;
  nk ← nkeys node;
  '(it, go) ← (if i32 (p + 1) <? nk then Ok (set_pos level (i32 (p + 1)) it, true)
               else match level with
                    | Datatypes.S l => it ← iterNext s it l; Ok (it, true)
                    | O => Ok (set_valid false it, false)
                    end);
  if go && bool_decide (level + 1 < length (iPos it))%nat then load_kid s it level false else Ok it.

Fixpoint iterPrev (s : S) (it : BIter) (level : nat) : res BIter :=
  p ← pos_at it level;
  '(it, go) ← (if 0 <? p then Ok (set_pos level (i32 (p - 1)) it, true)
               else match level with
                    | Datatypes.S l => it ← iterPrev s it l; Ok (it, true)
                    | O => Ok (set_valid false it, false)
                    end);
  if go && bool_decide (level + 1 < length (iPos it))%nat then
    lastp ← pos_at it (length (iPos it) - 1);
    if negb (lastp =? -1) then load_kid s it level true else Ok it
  else Ok it.

(** [iter.pos[len(path)-1]] on an empty path is an index out of range. *)
Definition Next (s : S) (it : BIter) : res BIter :=
  l ← LastNode it;
  if l && iValid it then Ok (set_valid false it) else
  st ← StartNode it;
  if st && negb (iValid it) then Ok (set_valid true it) else
  match length (iPath it) with O => Crash Panicked | Datatypes.S l => iterNext s it l end.
Definition Prev (s : S) (it : BIter) : res BIter :=
  st ← StartNode it;
  if st && iValid it then Ok (set_valid false it) else
  l ← LastNode it;
  if l && negb (iValid it) then Ok (set_valid true it) else
  match length (iPath it) with O => Crash Panicked | Datatypes.S l => iterPrev s it l end.
End Iterator.

(** ** Positions in a tree *)

Section Positions.
Context (M : gmap Z bytes).

(** The subtrees of the entries of an inner node, without footprints. *)
Inductive kids (h : nat) : list entry -> kvl -> Prop :=
  | kids_nil : kids h [] []
  | kids_cons p b F k s es l : M !! p = Some b -> tree M h F b s -> s <> [] -> kids h es l ->
      kids h (mkEntry p k [] :: es) (s ++ l).
Lemma forest_kids h F es l : forest M (tree M h) F es l -> kids h es l.
Proof.
  induction 1 as [|p b F kvs k F' es kvs' Hp Hb HT Hk HpF Hd Hf IH]; [constructor|].
  eapply kids_cons; try done. by destruct kvs.
Qed.
Lemma kids_app h es1 es2 l1 l2 : kids h es1 l1 -> kids h es2 l2 -> kids h (es1 ++ es2) (l1 ++ l2).
Proof. induction 1 as [|p b F k s es l Hp HT Hs Hk IH]; [done|]. intros H2. rewrite <- (assoc_L app). eapply kids_cons; try done. by apply IH. Qed.
Lemma kids_app_inv h es1 es2 l : kids h (es1 ++ es2) l -> exists l1 l2, l = l1 ++ l2 /\ kids h es1 l1 /\ kids h es2 l2.
Proof.
  revert l. induction es1 as [|e es1 IH]; intros l Hk; [by exists [], l; split; [|split; [constructor|]]|].
  cbn [app] in Hk. inversion Hk as [|p b F k s es l' Hp HT Hs Hk']; subst. apply IH in Hk' as (l1 & l2 & -> & H1 & H2).
  exists (s ++ l1), l2. rewrite (assoc_L app). split; [done|]. split; [by eapply kids_cons|done].
Qed.
Lemma kids_cons_inv h e es l : kids h (e :: es) l ->
  exists p b F k s l', e = mkEntry p k [] /\ l = s ++ l' /\ M !! p = Some b /\ tree M h F b s /\ s <> [] /\ kids h es l'.
Proof. intros Hk. inversion Hk as [|p b F k s es' l' Hp HT Hs Hk']; subst. by exists p, b, F, k, s, l'. Qed.
Lemma kids_empty h es l : kids h es l -> es = [] <-> l = [].
Proof. destruct 1 as [|p b F k [|kv s] es l]; done. Qed.

(** Entry [j] of the node [b] leads to [s]: one entry of a leaf, the list of a
    kid of an inner node; [a] and [c] are before and after it. *)
Inductive sel : nat -> bytes -> kvl -> nat -> kvl -> kvl -> kvl -> Prop :=
  | sel_leaf b a kv c : node_is b BNODE_LEAF (map kv_entry (a ++ kv :: c)) -> sel 0 b (a ++ kv :: c) (length a) a [kv] c
  | sel_node h b es1 es2 p bK FK k a s c : node_is b BNODE_NODE (es1 ++ mkEntry p k [] :: es2) ->
      kids h es1 a -> M !! p = Some bK -> tree M h FK bK s -> s <> [] -> kids h es2 c ->
      sel (S h) b (a ++ s ++ c) (length es1) a s c.

Lemma sel_list h b l j a s c : sel h b l j a s c -> l = a ++ s ++ c /\ s <> [].
Proof. by destruct 1. Qed.
Lemma sel_count h b l j a s c : sel h b l j a s c ->
  exists n, nkeys b = Ok (Z.of_nat n) /\ (j < n)%nat /\ Z.of_nat n < 65536 /\ (S j = n <-> c = []) /\ (j = 0%nat <-> a = []).
Proof.
  destruct 1 as [b a kv c R|h b es1 es2 p bK FK k a s c R Ha Hp HT Hs Hc]; pose proof (repr_bounds R) as HB.
  - exists (length (a ++ kv :: c)). rewrite (repr_nkeys R), length_map. split; [done|]. rewrite length_map, length_app in *. cbn [length] in *.
    split; [lia|]. split; [lia|]. rewrite <- (length_zero_iff_nil c), <- (length_zero_iff_nil a). lia.
  - exists (length (es1 ++ mkEntry p k [] :: es2)). rewrite (repr_nkeys R). split; [done|]. rewrite length_app in *. cbn [length] in *.
    split; [lia|]. split; [lia|]. rewrite <- (kids_empty _ _ _ Hc), <- (kids_empty _ _ _ Ha), <- !length_zero_iff_nil. lia.
Qed.
Lemma sel_next h b l j a s c : sel h b l j a s c -> c <> [] -> exists s' c', c = s' ++ c' /\ sel h b l (S j) (a ++ s) s' c'.
Proof.
  destruct 1 as [b a kv c R|h b es1 es2 p bK FK k a s c R Ha Hp HT Hs Hc]; intros Hne.
  - destruct c as [|kv' c]; [done|]. exists [kv'], c. split; [done|].
    pose proof (sel_leaf b (a ++ [kv]) kv' c) as HS. rewrite <- (assoc_L app), length_app in HS. cbn [length] in HS.
    rewrite Nat.add_1_r in HS. by apply HS.
  - destruct es2 as [|e es2]; [by apply kids_empty in Hc; destruct Hne; apply Hc|].
    apply kids_cons_inv in Hc as (p' & b' & F' & k' & s' & c' & -> & -> & Hp' & HT' & Hs' & Hc').
    exists s', c'. split; [done|]. pose proof (sel_node h b (es1 ++ [mkEntry p k []]) es2 p' b' F' k' (a ++ s) s' c') as HS.
    rewrite <- !(assoc_L app), length_app in HS. cbn [length] in HS. rewrite Nat.add_1_r in HS.
    apply HS; try done. apply kids_app; [done|]. rewrite <- (app_nil_r s). by eapply kids_cons; try done; constructor.
Qed.
Lemma sel_prev h b l j a s c : sel h b l (S j) a s c -> exists a' s', a = a' ++ s' /\ sel h b l j a' s' (s ++ c).
Proof.
  intros Hs. remember (S j) as j1 eqn:Ej. destruct Hs as [b a kv c R|h b es1 es2 p bK FK k a s c R Ha Hp HT Hs Hc].
  - destruct a as [|kv' a _] using rev_ind; [done|]. rewrite length_app in Ej. cbn [length] in Ej.
    exists a, [kv']. split; [done|]. replace j with (length a) by lia.
    pose proof (sel_leaf b a kv' (kv :: c)) as HS. rewrite <- (assoc_L app) in *. by apply HS.
  - destruct es1 as [|e es1 _] using rev_ind; [done|]. rewrite length_app in Ej. cbn [length] in Ej.
    apply kids_app_inv in Ha as (a1 & a2 & -> & Ha1 & Ha2). apply kids_cons_inv in Ha2 as (p' & b' & F' & k' & s' & c' & -> & -> & Hp' & HT' & Hs' & Hc').
    inversion Hc'; subst c'. rewrite app_nil_r in *. exists a1, s'. split; [done|]. replace j with (length es1) by lia.
    pose proof (sel_node h b es1 (mkEntry p k [] :: es2) p' b' F' k' a1 s' (s ++ c)) as HS. rewrite <- !(assoc_L app) in *.
    apply HS; try done. by eapply kids_cons.
Qed.
Lemma sel_first h F b l : tree M h F b l -> l <> [] -> exists s c, sel h b l 0 [] s c.
Proof.
  intros HT Hl. destruct h as [|h].
  - apply tree_leaf_inv in HT as [_ R]. destruct l as [|kv l]; [done|]. exists [kv], l. by apply (sel_leaf b [] kv l).
  - apply tree_node_inv in HT as (es & R & Hf). apply forest_kids in Hf. destruct es as [|e es]; [by inversion Hf; subst|].
    apply kids_cons_inv in Hf as (p & bK & FK & k & s & c & -> & -> & Hp & HT & Hs & Hk).
    exists s, c. by apply (sel_node h b [] es p bK FK k [] s c); try done; constructor.
Qed.
Lemma sel_last h F b l : tree M h F b l -> l <> [] -> exists j a s, sel h b l j a s [] /\ nkeys b = Ok (Z.of_nat (S j)).
Proof.
  intros HT Hl. assert (HX : exists j a s, sel h b l j a s []).
  { destruct h as [|h].
    - apply tree_leaf_inv in HT as [_ R]. destruct l as [|kv l _] using rev_ind; [done|]. exists (length l), l, [kv]. by apply (sel_leaf b l kv []).
    - apply tree_node_inv in HT as (es & R & Hf). apply forest_kids in Hf. destruct es as [|e es _] using rev_ind; [by inversion Hf; subst|].
      apply kids_app_inv in Hf as (a & l2 & -> & Ha & Hk). apply kids_cons_inv in Hk as (p & bK & FK & k & s & c & -> & -> & Hp & HT & Hs & Hk).
      inversion Hk; subst. exists (length es), a, s. by apply (sel_node h b es [] p bK FK k a s []); try done; constructor. }
  destruct HX as (j & a & s & Hs). exists j, a, s. split; [done|].
  destruct (sel_count _ _ _ _ _ _ _ Hs) as (n & En & Hj & _ & [_ Hn] & _). rewrite En. by rewrite <- (Hn eq_refl).
Qed.

(** ** Paths

    A path from the node [B] with the list [L], of which the last node has
    height [h] and selects [s]: before it come the entries [a], after it [c]. *)
Context (H : nat) (B : bytes) (L : kvl).
Inductive chain : nat -> list BNode -> list Z -> kvl -> kvl -> kvl -> Prop :=
  | chain_top j a s c : sel H B L j a s c -> chain H [B] [Z.of_nat j] a s c
  | chain_down h path pos a s c F b j a' s' c' : chain (S h) path pos a s c -> tree M h F b s -> sel h b s j a' s' c' ->
      chain h (path ++ [b]) (pos ++ [Z.of_nat j]) (a ++ a') s' (c' ++ c).

Lemma chain_list h path pos a s c : chain h path pos a s c -> L = a ++ s ++ c /\ s <> [].
Proof.
  induction 1 as [j a s c Hs|h path pos a s c F b j a' s' c' Hc [IH _] HT Hs]; [by eapply sel_list|].
  apply sel_list in Hs as [-> Hs']. split; [|done]. by rewrite IH, <- !(assoc_L app).
Qed.
Lemma chain_length h path pos a s c : chain h path pos a s c -> length path = length pos /\ path <> [].
Proof.
  induction 1 as [j a s c Hs|h path pos a s c F b j a' s' c' Hc [IH _] HT Hs]; [done|].
  rewrite !length_app, IH. split; [done|]. by destruct path.
Qed.
(** The last node of a path. *)
Lemma chain_end h path pos a s c : chain h path pos a s c ->
  exists path0 pos0 b j l a' c', path = path0 ++ [b] /\ pos = pos0 ++ [Z.of_nat j] /\ length path0 = length pos0 /\ sel h b l j a' s c'.
Proof.
  destruct 1 as [j a s c Hs|h path pos a s c F b j a' s' c' Hc HT Hs].
  - exists [], [], B, j, L, a, c. done.
  - exists path, pos, b, j, s, a', c'. repeat (split; [done|]). split; [by eapply chain_length|done].
Qed.
Lemma last_loop_app path pos b p : length path = length pos ->
  last_loop (path ++ [b]) (pos ++ [p]) = (r ← last_loop path pos; if (r : bool) then nk ← nkeys b; Ok (p =? nk - 1) else Ok false).
Proof.
  revert pos. induction path as [|b0 path IH]; intros [|p0 pos] Hl; try done.
  - cbn. destruct (nkeys b) as [nk|]; [|done]. cbn. by destruct (p =? nk - 1).
  - cbn [app last_loop]. destruct (nkeys b0) as [nk|]; [|done]. cbn [mbind res_bind]. destruct (p0 =? nk - 1); [|done].
    apply IH. by injection Hl.
Qed.
Lemma start_loop_app path pos b p : length path = length pos ->
  start_loop (path ++ [b]) (pos ++ [p]) = (r ← start_loop path pos; if (r : bool) then Ok (p =? 0) else Ok false).
Proof.
  revert pos. induction path as [|b0 path IH]; intros [|p0 pos] Hl; try done.
  - cbn. by destruct (p =? 0).
  - cbn [app start_loop]. destruct (p0 =? 0); [|done]. apply IH. by injection Hl.
Qed.
Lemma app_nil_dec {A} (x y : list A) : (x ++ y = []) <-> x = [] /\ y = [].
Proof. destruct x; naive_solver. Qed.
Lemma chain_last h path pos a s c : chain h path pos a s c -> last_loop path pos = Ok (bool_decide (c = [])).
Proof.
  assert (HL : forall n j (c' : kvl), (S j = n <-> c' = []) -> (Z.of_nat j =? Z.of_nat n - 1) = bool_decide (c' = [])).
  { intros n j c' Hc. case_bool_decide as Hd; [apply Z.eqb_eq|apply Z.eqb_neq]; [apply Hc in Hd; lia|].
    intros E. apply Hd, Hc. lia. }
  induction 1 as [j a s c Hs|h path pos a s c F b j a' s' c' Hc IH HT Hs];
    destruct (sel_count _ _ _ _ _ _ _ Hs) as (n & En & Hj & _ & Hn & _).
  - cbn. rewrite En. cbn [mbind res_bind]. rewrite (HL n j c Hn). by case_bool_decide.
  - rewrite last_loop_app by (by eapply chain_length). rewrite IH. cbn [mbind res_bind]. case_bool_decide as Hd.
    + rewrite En. cbn [mbind res_bind]. rewrite (HL n j c' Hn). f_equal. apply bool_decide_ext. rewrite app_nil_dec. tauto.
    + f_equal. symmetry. apply bool_decide_eq_false. rewrite app_nil_dec. tauto.
Qed.
Lemma chain_start h path pos a s c : chain h path pos a s c -> start_loop path pos = Ok (bool_decide (a = [])).
Proof.
  assert (HL : forall j (a' : kvl), (j = 0%nat <-> a' = []) -> (Z.of_nat j =? 0) = bool_decide (a' = [])).
  { intros j a' Hc. case_bool_decide as Hd; [apply Z.eqb_eq|apply Z.eqb_neq]; [apply Hc in Hd; lia|].
    intros E. apply Hd, Hc. lia. }
  induction 1 as [j a s c Hs|h path pos a s c F b j a' s' c' Hc IH HT Hs];
    destruct (sel_count _ _ _ _ _ _ _ Hs) as (n & En & Hj & _ & _ & Hn).
  - cbn. rewrite (HL j a Hn). by case_bool_decide.
  - rewrite start_loop_app by (by eapply chain_length). rewrite IH. cbn [mbind res_bind]. case_bool_decide as Hd.
    + rewrite (HL j a' Hn). f_equal. apply bool_decide_ext. rewrite app_nil_dec. tauto.
    + f_equal. symmetry. apply bool_decide_eq_false. rewrite app_nil_dec. tauto.
Qed.
End Positions.

(** ** Moving *)

Lemma index_app {A} (l1 : list A) x l2 i : i = length l1 -> index (l1 ++ x :: l2) (Z.of_nat i) = Ok x.
Proof. intros ->. unfold index. rewrite Nat2Z.id, list_lookup_middle by done. by rguard. Qed.
Lemma insert_app {A} (l1 : list A) x y l2 i : i = length l1 -> <[i := y]> (l1 ++ x :: l2) = l1 ++ y :: l2.
Proof. intros ->. rewrite insert_app_r_alt, Nat.sub_diag by done. done. Qed.
Lemma insert_app2 {A} (l1 : list A) b x y l2 i : i = S (length l1) -> <[i := y]> (l1 ++ b :: x :: l2) = l1 ++ b :: y :: l2.
Proof. intros ->. induction l1 as [|z l1 IH]; [done|]. cbn. by f_equal. Qed.

Section Moves.
Context {St pages} `{PageLaws St pages}.
Context (n : nat) (s0 : St) (M : gmap Z bytes) (Hpages : pages n s0 M).
Context (Ht : nat) (B : bytes) (L : kvl).
Abbreviation pchain := (chain M Ht B L).

(** Loading the kid of the selected entry. *)
Lemma load_spec h path pos a s c x y rp rq v last : pchain (S h) path pos a s c ->
  exists bK F, tree M h F bK s /\
    load_kid s0 (mkIter (path ++ x :: rp) (pos ++ y :: rq) v) (length path - 1) last =
      (p ← (if last then nk ← nkeys bK; Ok (u16 (nk - 1)) else Ok 0); Ok (mkIter (path ++ bK :: rp) (pos ++ p :: rq) v)).
Proof.
  intros Hc. destruct (chain_end _ _ _ _ _ _ _ _ _ _ Hc) as (path0 & pos0 & b & j & l & a' & c' & -> & -> & Hl & Hs).
  inversion Hs as [|h0 b0 es1 es2 p bK FK k a0 s1 c0 R Ha Hp HT Hsn Hc']; subst. exists bK, FK. split; [done|].
  unfold load_kid, path_at, pos_at, set_kid. cbn [iPath iPos iValid]. rewrite <- !(assoc_L app). cbn [app].
  rewrite !index_app by (rewrite ?length_app; cbn [length]; lia). cbn [mbind res_bind].
  assert (Hj : (es1 ++ mkEntry p k [] :: es2) !! length es1 = Some (mkEntry p k [])) by by apply list_lookup_middle.
  pose proof (repr_bounds R) as HB. rewrite length_app in HB. cbn [length] in HB.
  rewrite u16_id by lia. rstep (repr_getptr R _ _ Hj). cbn [ePtr]. rstep (pages_get n s0 M p bK Hpages Hp).
  assert (HI : forall z, mkIter (<[(length (path0 ++ [b]) - 1 + 1)%nat := bK]> (path0 ++ b :: x :: rp))
    (<[(length (path0 ++ [b]) - 1 + 1)%nat := z]> (pos0 ++ Z.of_nat (length es1) :: y :: rq)) v =
    mkIter (path0 ++ b :: bK :: rp) (pos0 ++ Z.of_nat (length es1) :: z :: rq) v).
  { intros z. by f_equal; apply insert_app2; rewrite length_app; cbn [length]; lia. }
  destruct last; [destruct (nkeys bK) as [nk|]; [|done]|]; cbn [mbind res_bind]; by rewrite HI, <- (assoc_L app).
Qed.

(** The path after a move at its last level, with the rest [rp], [rq] below:
    the kid of the new selection is loaded at its first or last position. *)
Definition moved (last : bool) (h : nat) (a s c : kvl) (k : nat)
    (rp : list BNode) (rq : list Z) (v : bool) (r : res BIter) : Prop :=
  exists path' pos', pchain h path' pos' a s c /\ length path' = k /\
    match rp, rq with
    | _ :: rp, _ :: rq => exists h0 bK F p, h = S h0 /\ tree M h0 F bK s /\
        (if last then exists nk, nkeys bK = Ok nk /\ p = u16 (nk - 1) else p = 0) /\
        r = Ok (mkIter (path' ++ bK :: rp) (pos' ++ p :: rq) v)
    | _, _ => r = Ok (mkIter path' pos' v)
    end.
Lemma tree_nkeys h F b s : tree M h F b s -> exists nk, nkeys b = Ok nk.
Proof. intros (es & R & _). eexists. apply (repr_nkeys R). Qed.

Lemma move_load last h path pos a s c rp rq v k : pchain h path pos a s c -> length path = S k -> length rp = h -> length rq = h ->
  moved last h a s c (S k) rp rq v
    (if bool_decide (k + 1 < length (pos ++ rq))%nat then load_kid s0 (mkIter (path ++ rp) (pos ++ rq) v) k last
     else Ok (mkIter (path ++ rp) (pos ++ rq) v)).
Proof.
  intros Hc Hk Hrp Hrq. exists path, pos. split; [done|]. split; [done|].
  destruct (chain_length _ _ _ _ _ _ _ _ _ _ Hc) as [Hl _]. rewrite length_app, <- Hl, Hk.
  destruct rp as [|x rp], rq as [|y rq], h as [|h]; try done.
  - rewrite bool_decide_false by (cbn; lia). by rewrite !app_nil_r.
  - rewrite bool_decide_true by (cbn; lia). replace k with (length path - 1)%nat by lia.
    destruct (load_spec h path pos a s c x y rp rq v last Hc) as (bK & F & HT & E). destruct (tree_nkeys _ _ _ _ HT) as [nk Enk].
    exists h, bK, F, (if last then u16 (nk - 1) else 0). split; [done|]. split; [done|]. split; [destruct last; [by exists nk|done]|].
    rewrite E. destruct last; [by rstep Enk|done].
Qed.

(** The last level of a path: it can move right, or the level above selects the
    same end. *)
Lemma chain_right h path pos a s c : pchain h path pos a s c ->
  exists path0 pos0 b j k, path = path0 ++ [b] /\ pos = pos0 ++ [Z.of_nat j] /\ length path0 = length pos0 /\
    nkeys b = Ok (Z.of_nat k) /\ (j < k)%nat /\ Z.of_nat k < 65536 /\
    ((S j < k)%nat -> exists s' c', c = s' ++ c' /\ pchain h path (pos0 ++ [Z.of_nat (S j)]) (a ++ s) s' c') /\
    (S j = k -> (path0 = [] /\ c = []) \/ exists a0 s0, pchain (S h) path0 pos0 a0 s0 c /\ a0 ++ s0 = a ++ s).
Proof.
  destruct 1 as [j a s c Hs|h path pos a s c F b j a' s' c' Hc HT Hs]; destruct (sel_count _ _ _ _ _ _ _ _ Hs) as (k & En & Hj & Hk & Hn & _).
  - exists [], [], B, j, k. split; [done|]. split; [done|]. split; [done|]. split; [done|]. split; [done|]. split; [done|].
    split; [|intros E; left; split; [done|by apply Hn]].
    intros Hlt. destruct (sel_next _ _ _ _ _ _ _ _ Hs) as (s' & c' & -> & Hs'); [intros Hc; apply Hn in Hc; lia|].
    exists s', c'. split; [done|]. by apply chain_top.
  - exists path, pos, b, j, k. split; [done|]. split; [done|]. split; [by eapply chain_length|].
    split; [done|]. split; [done|]. split; [done|]. split.
    + intros Hlt. destruct (sel_next _ _ _ _ _ _ _ _ Hs) as (s1 & c1 & -> & Hs'); [intros Hc'; apply Hn in Hc'; lia|].
      exists s1, (c1 ++ c). split; [by rewrite (assoc_L app)|]. rewrite <- (assoc_L app). by eapply chain_down.
    + intros E%Hn. subst c'. right. exists a, s. split; [done|]. apply sel_list in Hs as [-> _]. by rewrite app_nil_r, (assoc_L app).
Qed.

Lemma iterNext_at it level p node nk : pos_at it level = Ok p -> path_at it level = Ok node -> nkeys node = Ok nk ->
  iterNext s0 it level =
    '(it, go) ← (if i32 (p + 1) <? nk then Ok (set_pos level (i32 (p + 1)) it, true)
               else match level with
                    | Datatypes.S l => it ← iterNext s0 it l; Ok (it, true)
                    | O => Ok (set_valid false it, false)
                    end);
    if go && bool_decide (level + 1 < length (iPos it))%nat then load_kid s0 it level false else Ok it.
Proof. intros E1 E2 E3. destruct level; cbn [iterNext]; by rewrite E1, E2; cbn [mbind res_bind]; rewrite E3. Qed.

Lemma iterNext_spec level : forall h path pos a s c rp rq v, pchain h path pos a s c -> length path = S level ->
  length rp = h -> length rq = h -> c <> [] ->
  exists s' c', c = s' ++ c' /\
    moved false h (a ++ s) s' c' (S level) rp rq v (iterNext s0 (mkIter (path ++ rp) (pos ++ rq) v) level).
Proof.
  induction level as [level IH] using lt_wf_ind. intros h path pos a s c rp rq v Hc Hl Hrp Hrq Hne.
  destruct (chain_right _ _ _ _ _ _ Hc) as (path0 & pos0 & b & j & k & -> & -> & Hl0 & En & Hj & Hk & Hmove & Hend).
  rewrite length_app in Hl. cbn [length] in Hl. assert (Hl1 : length path0 = level) by lia.
  rewrite <- !(assoc_L app). cbn [app].
  erewrite iterNext_at; [|unfold pos_at; cbn [iPos]; apply index_app; lia|unfold path_at; cbn [iPath]; apply index_app; lia|exact En].
  assert (Hi : i32 (Z.of_nat j + 1) = Z.of_nat (S j)) by (unfold i32; rewrite Z.mod_small; lia). rewrite Hi.
  destruct (Z.ltb_spec (Z.of_nat (S j)) (Z.of_nat k)) as [Hlt|Hge].
  - destruct Hmove as (s' & c' & -> & Hc'); [lia|]. exists s', c'. split; [done|]. cbn [mbind res_bind andb]. unfold set_pos. cbn [iPath iPos iValid].
    rewrite insert_app by lia. pose proof (move_load false h (path0 ++ [b]) _ (a ++ s) s' c' rp rq v level Hc') as HM.
    rewrite length_app in HM. rewrite <- !(assoc_L app) in HM. cbn [app] in HM. apply HM; cbn [length]; lia.
  - destruct Hend as [[_ ?]|(aO & sO & HcO & EO)]; [lia|done|]. destruct (chain_length _ _ _ _ _ _ _ _ _ _ HcO) as [_ Hp0].
    destruct level as [|level]; [by destruct path0|].
    destruct (IH level ltac:(lia) (S h) path0 pos0 aO sO c (b :: rp) (Z.of_nat j :: rq) v HcO) as (s1 & c1 & -> & path1 & pos1 & Hc1 & Hl2 & HR);
      [lia|cbn; lia|cbn; lia|done|]. destruct HR as (h0 & bK & F & p & [= <-] & HT & -> & ER). rewrite ER. cbn [mbind res_bind andb iPos].
    destruct (chain_list _ _ _ _ _ _ _ _ _ _ Hc1) as [_ Hs1]. destruct (sel_first _ _ _ _ _ HT Hs1) as (s2 & c2 & Hs2).
    pose proof (sel_list _ _ _ _ _ _ _ _ Hs2) as [Es _]. cbn [app] in Es. subst s1.
    pose proof (chain_down M Ht B L _ _ _ _ _ _ _ _ _ _ _ _ Hc1 HT Hs2) as Hc2. rewrite app_nil_r, EO in Hc2.
    exists s2, (c2 ++ c1). split; [by rewrite (assoc_L app)|].
    pose proof (move_load false h (path1 ++ [bK]) _ (a ++ s) s2 (c2 ++ c1) rp rq v (S level) Hc2) as HM.
    rewrite length_app in HM. rewrite <- !(assoc_L app) in HM. cbn [app] in HM. apply HM; cbn [length]; lia.
Qed.

(** To the left. *)
Lemma chain_left h path pos a s c : pchain h path pos a s c ->
  exists path0 pos0 b j, path = path0 ++ [b] /\ pos = pos0 ++ [Z.of_nat j] /\ length path0 = length pos0 /\ Z.of_nat j < 65536 /\
    (forall j', j = S j' -> exists a' s', a = a' ++ s' /\ pchain h path (pos0 ++ [Z.of_nat j']) a' s' (s ++ c)) /\
    (j = 0%nat -> a = [] \/ exists s0 c0, pchain (S h) path0 pos0 a s0 c0 /\ s0 ++ c0 = s ++ c).
Proof.
  destruct 1 as [j a s c Hs|h path pos a s c F b j a' s' c' Hc HT Hs]; destruct (sel_count _ _ _ _ _ _ _ _ Hs) as (k & En & Hj & Hk & _ & Hn).
  - exists [], [], B, j. split; [done|]. split; [done|]. split; [done|]. split; [lia|].
    split; [|intros E; left; by apply Hn].
    intros j' ->. destruct (sel_prev _ _ _ _ _ _ _ _ Hs) as (a' & s' & -> & Hs').
    exists a', s'. split; [done|]. by apply chain_top.
  - exists path, pos, b, j. split; [done|]. split; [done|]. split; [by eapply chain_length|]. split; [lia|]. split.
    + intros j' ->. destruct (sel_prev _ _ _ _ _ _ _ _ Hs) as (a1 & s1 & -> & Hs').
      exists (a ++ a1), s1. split; [by rewrite (assoc_L app)|]. rewrite (assoc_L app). by eapply chain_down.
    + intros E%Hn. subst a'. right. exists s, c. rewrite app_nil_r. split; [done|]. apply sel_list in Hs as [-> _].
      by rewrite <- !(assoc_L app).
Qed.
Lemma chain_nonneg h path pos a s c : pchain h path pos a s c -> Forall (fun p => 0 <= p) pos.
Proof. induction 1; [by apply list.Forall_singleton; lia|]. apply list.Forall_app. split; [done|]. apply list.Forall_singleton. lia. Qed.
Lemma last_index (l : list Z) : Forall (fun p => 0 <= p) l -> l <> [] ->
  exists z, index l (Z.of_nat (length l - 1)) = Ok z /\ 0 <= z.
Proof.
  intros HF Hl. destruct l as [|z l _] using rev_ind; [done|]. apply list.Forall_app in HF as [_ Hz]. rewrite list.Forall_singleton in Hz.
  exists z. split; [|done]. apply index_app. rewrite length_app. cbn. lia.
Qed.
Lemma iterPrev_at it level p : pos_at it level = Ok p ->
  iterPrev s0 it level =
    '(it, go) ← (if 0 <? p then Ok (set_pos level (i32 (p - 1)) it, true)
               else match level with
                    | Datatypes.S l => it ← iterPrev s0 it l; Ok (it, true)
                    | O => Ok (set_valid false it, false)
                    end);
    if go && bool_decide (level + 1 < length (iPos it))%nat then
      lastp ← pos_at it (length (iPos it) - 1);
      if negb (lastp =? -1) then load_kid s0 it level true else Ok it
    else Ok it.
Proof. intros E1. destruct level; cbn [iterPrev]; by rewrite E1. Qed.
(** The last position is never -1. *)
Lemma prev_check path pos v k : Forall (fun p => 0 <= p) pos ->
  (if bool_decide (k + 1 < length pos)%nat then
     lastp ← pos_at (mkIter path pos v) (length pos - 1);
     if negb (lastp =? -1) then load_kid s0 (mkIter path pos v) k true else Ok (mkIter path pos v)
   else Ok (mkIter path pos v)) =
  (if bool_decide (k + 1 < length pos)%nat then load_kid s0 (mkIter path pos v) k true else Ok (mkIter path pos v)).
Proof.
  intros HF. case_bool_decide as Hk; [|done]. destruct (last_index pos HF) as (z & E & Hz); [by destruct pos; cbn in *; [lia|]|].
  unfold pos_at. cbn [iPos]. rstep E. by rewrite (proj2 (Z.eqb_neq z (-1))) by lia.
Qed.
Lemma tree_last_kid h F b s nk : tree M h F b s -> s <> [] -> nkeys b = Ok nk ->
  exists j a s', sel M h b s j a s' [] /\ u16 (nk - 1) = Z.of_nat j.
Proof.
  intros HT Hs En. destruct (sel_last _ _ _ _ _ HT Hs) as (j & a & s' & Hsel & En').
  exists j, a, s'. split; [done|]. rewrite En in En'. injection En' as ->.
  destruct (sel_count _ _ _ _ _ _ _ _ Hsel) as (k & Ek & Hj & Hk & _). rewrite u16_id; [lia|]. lia.
Qed.
Lemma iterPrev_spec level : forall h path pos a s c rp rq v, pchain h path pos a s c -> length path = S level ->
  length rp = h -> length rq = h -> Forall (fun p => 0 <= p) rq -> a <> [] ->
  exists a' s', a = a' ++ s' /\
    moved true h a' s' (s ++ c) (S level) rp rq v (iterPrev s0 (mkIter (path ++ rp) (pos ++ rq) v) level).
Proof.
  induction level as [level IH] using lt_wf_ind. intros h path pos a s c rp rq v Hc Hl Hrp Hrq HF Hne.
  pose proof (chain_nonneg _ _ _ _ _ _ Hc) as HFp.
  destruct (chain_left _ _ _ _ _ _ Hc) as (path0 & pos0 & b & j & -> & -> & Hl0 & Hj & Hmove & Hend).
  rewrite length_app in Hl. cbn [length] in Hl. assert (Hl1 : length path0 = level) by lia.
  rewrite <- !(assoc_L app). cbn [app].
  rewrite (iterPrev_at _ _ (Z.of_nat j)) by (unfold pos_at; cbn [iPos]; apply index_app; lia).
  destruct j as [|j].
  - change (0 <? Z.of_nat 0) with false. destruct Hend as [|(sO & cO & HcO & EO)]; [done|done|].
    destruct (chain_length _ _ _ _ _ _ _ _ _ _ HcO) as [_ Hp0]. destruct level as [|level]; [by destruct path0|].
    destruct (IH level ltac:(lia) (S h) path0 pos0 a sO cO (b :: rp) (Z.of_nat 0 :: rq) v HcO) as (a1 & s1 & -> & path1 & pos1 & Hc1 & Hl2 & HR);
      [lia|cbn; lia|cbn; lia|by apply list.Forall_cons|done|]. destruct HR as (h0 & bK & F & p & [= <-] & HT & (nk & En & ->) & ER).
    rewrite ER. cbn [mbind res_bind andb iPos].
    destruct (chain_list _ _ _ _ _ _ _ _ _ _ Hc1) as [_ Hs1]. destruct (tree_last_kid _ _ _ _ _ HT Hs1 En) as (j2 & a2 & s2 & Hs2 & ->).
    pose proof (sel_list _ _ _ _ _ _ _ _ Hs2) as [Es _]. rewrite app_nil_r in Es. subst s1.
    pose proof (chain_down M Ht B L _ _ _ _ _ _ _ _ _ _ _ _ Hc1 HT Hs2) as Hc2. cbn [app] in Hc2. rewrite EO in Hc2.
    exists (a1 ++ a2), s2. split; [by rewrite (assoc_L app)|].
    pose proof (move_load true h (path1 ++ [bK]) _ (a1 ++ a2) s2 (s ++ c) rp rq v (S level) Hc2) as HM.
    rewrite prev_check by (apply list.Forall_app; split; [by eapply chain_nonneg|apply list.Forall_cons; split; [lia|done]]).
    rewrite length_app in HM. rewrite <- !(assoc_L app) in HM. cbn [app] in HM. apply HM; cbn [length]; lia.
  - rewrite (proj2 (Z.ltb_lt 0 _)) by lia. destruct (Hmove j eq_refl) as (a' & s' & -> & Hc'). exists a', s'. split; [done|].
    assert (Hi : i32 (Z.of_nat (S j) - 1) = Z.of_nat j) by (unfold i32; rewrite Z.mod_small; lia). rewrite Hi.
    cbn [mbind res_bind andb]. unfold set_pos. cbn [iPath iPos iValid]. rewrite insert_app by lia.
    apply list.Forall_app in HFp as [HFp _].
    rewrite prev_check by (apply list.Forall_app; split; [done|apply list.Forall_cons; split; [lia|done]]).
    pose proof (move_load true h (path0 ++ [b]) _ a' s' (s ++ c) rp rq v level Hc') as HM.
    rewrite length_app in HM. rewrite <- !(assoc_L app) in HM. cbn [app] in HM. apply HM; cbn [length]; lia.
Qed.

(** At the level of the leaves one entry is selected. *)
Lemma chain_entry path pos a s c : pchain 0 path pos a s c -> exists kv, s = [kv].
Proof.
  intros Hc. destruct (chain_end _ _ _ _ _ _ _ _ _ _ Hc) as (path0 & pos0 & b & j & l & a' & c' & -> & -> & _ & Hs).
  inversion Hs; subst. by eexists.
Qed.
Lemma chain_level h path pos a s c : pchain h path pos a s c -> exists l, length path = S l.
Proof. intros Hc. apply chain_length in Hc as [_ Hp]. destruct path; [done|by eexists]. Qed.

Lemma Next_right path pos a s c : pchain 0 path pos a s c -> c <> [] ->
  exists path' pos' s' c', Next s0 (mkIter path pos true) = Ok (mkIter path' pos' true) /\
    c = s' ++ c' /\ pchain 0 path' pos' (a ++ s) s' c'.
Proof.
  intros Hc Hne. destruct (chain_level _ _ _ _ _ _ Hc) as [l El].
  destruct (iterNext_spec l 0 path pos a s c [] [] true Hc El eq_refl eq_refl Hne) as (s' & c' & -> & path' & pos' & Hc' & _ & ER).
  rewrite !app_nil_r in ER. exists path', pos', s', c'. split; [|done]. unfold Next, LastNode, StartNode. cbn [iPath iPos iValid].
  rewrite (chain_last _ _ _ _ _ _ _ _ _ _ Hc), (chain_start _ _ _ _ _ _ _ _ _ _ Hc), (bool_decide_false _ Hne).
  cbn [mbind res_bind andb negb]. by rewrite andb_false_r, El.
Qed.
Lemma Next_end path pos a s : pchain 0 path pos a s [] -> Next s0 (mkIter path pos true) = Ok (mkIter path pos false).
Proof. intros Hc. unfold Next, LastNode. cbn [iPath iPos iValid]. by rewrite (chain_last _ _ _ _ _ _ _ _ _ _ Hc). Qed.
(** The step back from before the first entry; the case of a single entry
    included. *)
Lemma Next_start path pos s c : pchain 0 path pos [] s c -> Next s0 (mkIter path pos false) = Ok (mkIter path pos true).
Proof.
  intros Hc. unfold Next, LastNode, StartNode. cbn [iPath iPos iValid].
  rewrite (chain_last _ _ _ _ _ _ _ _ _ _ Hc), (chain_start _ _ _ _ _ _ _ _ _ _ Hc). cbn [mbind res_bind]. by rewrite andb_false_r.
Qed.
Lemma Prev_left path pos a s c : pchain 0 path pos a s c -> a <> [] ->
  exists path' pos' a' s', Prev s0 (mkIter path pos true) = Ok (mkIter path' pos' true) /\
    a = a' ++ s' /\ pchain 0 path' pos' a' s' (s ++ c).
Proof.
  intros Hc Hne. destruct (chain_level _ _ _ _ _ _ Hc) as [l El].
  destruct (iterPrev_spec l 0 path pos a s c [] [] true Hc El eq_refl eq_refl (List.Forall_nil _) Hne)
    as (a' & s' & -> & path' & pos' & Hc' & _ & ER).
  rewrite !app_nil_r in ER. exists path', pos', a', s'. split; [|done]. unfold Prev, LastNode, StartNode. cbn [iPath iPos iValid].
  rewrite (chain_last _ _ _ _ _ _ _ _ _ _ Hc), (chain_start _ _ _ _ _ _ _ _ _ _ Hc), (bool_decide_false _ Hne).
  cbn [mbind res_bind andb negb]. by rewrite andb_false_r, El.
Qed.
Lemma Prev_start path pos s c : pchain 0 path pos [] s c -> Prev s0 (mkIter path pos true) = Ok (mkIter path pos false).
Proof. intros Hc. unfold Prev, StartNode. cbn [iPath iPos iValid]. by rewrite (chain_start _ _ _ _ _ _ _ _ _ _ Hc). Qed.
Lemma Prev_end path pos a s : pchain 0 path pos a s [] -> Prev s0 (mkIter path pos false) = Ok (mkIter path pos true).
Proof.
  intros Hc. unfold Prev, LastNode, StartNode. cbn [iPath iPos iValid].
  rewrite (chain_last _ _ _ _ _ _ _ _ _ _ Hc), (chain_start _ _ _ _ _ _ _ _ _ _ Hc). cbn [mbind res_bind]. by rewrite andb_false_r.
Qed.

(** Past the end again: the walk up finds no entry, but the levels below the
    second one are loaded again with their first positions. *)
Lemma iterNext_past level : forall h path pos a s rp rq v, pchain h path pos a s [] -> length path = S level ->
  length rp = h -> length rq = h ->
  match level with
  | O => iterNext s0 (mkIter (path ++ rp) (pos ++ rq) v) level = Ok (mkIter (path ++ rp) (pos ++ rq) false)
  | S _ => exists a' s' c', moved false h a' s' c' (S level) rp rq false (iterNext s0 (mkIter (path ++ rp) (pos ++ rq) v) level)
  end.
Proof.
  induction level as [level IH] using lt_wf_ind. intros h path pos a s rp rq v Hc Hl Hrp Hrq.
  destruct (chain_right _ _ _ _ _ _ Hc) as (path0 & pos0 & b & j & k & -> & -> & Hl0 & En & Hj & Hk & Hmove & Hend).
  rewrite length_app in Hl. cbn [length] in Hl. assert (Hl1 : length path0 = level) by lia.
  assert (Hjk : S j = k).
  { destruct (decide (S j < k)%nat) as [Hlt|]; [|lia]. destruct (Hmove Hlt) as (s' & c' & E & Hc').
    apply chain_list in Hc' as [_ Hs']. by destruct s'. }
  assert (Hi : ((i32 (Z.of_nat j + 1) <? Z.of_nat k) = false)%Z) by (unfold i32; rewrite Z.mod_small; lia).
  rewrite <- !(assoc_L app). cbn [app].
  assert (Hat := iterNext_at (mkIter (path0 ++ b :: rp) (pos0 ++ Z.of_nat j :: rq) v) level (Z.of_nat j) b (Z.of_nat k)).
  rewrite Hi in Hat. rewrite Hat; cycle 1.
  { unfold pos_at. cbn [iPos]. apply index_app. lia. }
  { unfold path_at. cbn [iPath]. apply index_app. lia. }
  { exact En. }
  destruct level as [|level]; [done|].
  destruct (Hend Hjk) as [[-> _]|(aO & sO & HcO & _)]; [done|].
  specialize (IH level ltac:(lia) (S h) path0 pos0 aO sO (b :: rp) (Z.of_nat j :: rq) v HcO ltac:(lia) ltac:(cbn; lia) ltac:(cbn; lia)).
  destruct level as [|level].
  - rewrite IH. cbn [mbind res_bind andb iPos]. exists a, s, [].
    pose proof (move_load false h (path0 ++ [b]) _ a s [] rp rq false 1 Hc) as HM.
    rewrite length_app in HM. rewrite <- !(assoc_L app) in HM. cbn [app] in HM. apply HM; cbn [length]; lia.
  - destruct IH as (a1 & s1 & c1 & path1 & pos1 & Hc1 & Hl2 & HR). destruct HR as (h0 & bK & F & p & [= <-] & HT & -> & ER).
    rewrite ER. cbn [mbind res_bind andb iPos].
    destruct (chain_list _ _ _ _ _ _ _ _ _ _ Hc1) as [_ Hs1]. destruct (sel_first _ _ _ _ _ HT Hs1) as (s2 & c2 & Hs2).
    pose proof (chain_down M Ht B L _ _ _ _ _ _ _ _ _ _ _ _ Hc1 HT Hs2) as Hc2.
    exists (a1 ++ []), s2, (c2 ++ c1).
    pose proof (move_load false h (path1 ++ [bK]) _ _ s2 (c2 ++ c1) rp rq false (S (S level)) Hc2) as HM.
    rewrite length_app in HM. rewrite <- !(assoc_L app) in HM. cbn [app] in HM. apply HM; cbn [length]; lia.
Qed.
End Moves.
