(* ===== verification/Cursor.v ===== *)
(** * Iterators as positions in the list of the tree

    What [SeekLE], [Deref], [Valid], [Next] and [Prev] of storage/btree.go do,
    in terms of the sorted list that the tree stores. *)
From Stdlib Require Import ZArith Lia Sorted.
From stdpp Require Import base gmap list strings countable sorting.
From coqutil Require Import Byte Word.LittleEndianList.
From S2P Require Import Prelude KVList BNode NodeLayout NodeOps BTree TreeRep TreeGet TreeRoot TreeSpec TreeMap Iter.

(** The loop of a client: all entries from the iterator on. *)
Fixpoint scan {S} `{PageStore S} (fuel : nat) (s : S) (root : Z) (it : BIter) : res (list (option (bytes * bytes))) :=
  match fuel with
  | O => Crash OutOfFuel
  | Datatypes.S fuel =>
      ok ← Valid root it;
      if (ok : bool) then
        kv ← Deref root it; it ← Next s it; l ← scan fuel s root it; Ok (kv :: l)
      else Ok []
  end.

(** The tree of the pages [M] at [root] stores the list [L], of which the
    iterator points to entry [i]. *)
Definition at_entry (M : gmap Z bytes) (root : Z) (L : kvl) (it : BIter) (i : nat) : Prop :=
  exists h B F a kv c, root <> 0 /\ M !! root = Some B /\ tree M h F B L /\
    chain M h B L 0 (iPath it) (iPos it) a [kv] c /\ length a = i.

Section Cursor.
Context {St pages} `{PageLaws St pages}.
Context (n : nat) (s : St) (M : gmap Z bytes) (Hpages : pages n s M).

(** ** Looking a key up *)

(** The entry of a node that [nodeLookupLE] selects. *)
Lemma seek_sel h F b l key : tree M h F b l -> kv_sorted l -> l <> [] ->
  exists j a sl c, nodeLookupLE b key = Ok (Z.of_nat j) /\ sel M h b l j a sl c /\ keys_lt a key /\ keys_gt key c /\
    (a = [] \/ exists k v l', sl = (k, v) :: l' /\ ble k key) /\
    match h with
    | O => getptr b (Z.of_nat j) = Ok 0
    | S h => exists p bK FK, getptr b (Z.of_nat j) = Ok p /\ p <> 0 /\ M !! p = Some bK /\ tree M h FK bK sl
    end.
Proof.
  intros HT Hs Hl. destruct h as [|h].
  - apply tree_leaf_inv in HT as [_ R]. destruct (choose_entry b l key R Hs Hl) as (l1 & k & v & l2 & E & -> & H1 & H2 & Hk).
    exists (length l1), l1, [(k, v)], l2. split; [done|]. split; [by constructor|]. split; [done|]. split; [done|].
    split; [destruct Hk; [by left|right; by exists k, v, []]|].
    exact (repr_getptr R _ _ (entry_at _ l1 k v l2 eq_refl)).
  - apply tree_node_inv in HT as (es & R & Hf).
    destruct (choose_child key R Hf Hs Hl) as (i & p & k & bI & F1 & FI & F2 & l1 & lI & l2 & E & Hi & C & H1 & H2).
    destruct C. subst l. exists i, l1, lI, l2. split; [done|]. destruct lI as [|[k' v'] lI]; [done|]. injection ca_key as ->.
    assert (HS : sel M (S h) b (l1 ++ ((k, v') :: lI) ++ l2) (length (take i es)) l1 ((k, v') :: lI) l2).
    { apply (sel_node M h b _ (drop (S i) es) p bI FI k); try done; [by rewrite (take_drop_middle _ _ _ ca_entry)|by eapply forest_kids..]. }
    rewrite length_take_le in HS by lia. split; [done|]. split; [done|]. split; [done|]. split.
    + destruct (sel_count _ _ _ _ _ _ _ _ HS) as (_ & _ & _ & _ & _ & Hi0). destruct i as [|i]; [left; by apply Hi0|right].
      exists k, v', lI. split; [done|].
      assert (HSk : sorted_keys (tail es)).
      { pose proof (forest_sorted _ _ _ Hf Hs) as HSk. destruct es; [done|]. by apply StronglySorted_inv in HSk as [? _]. }
      destruct (nodeLookupLE_repr R key HSk) as (E' & _ & Hbel & _). rewrite E in E'. injection E' as E'%Nat2Z.inj.
      exact (Hbel (S i) _ ltac:(lia) ca_entry).
    + exists p, bI, FI. split; [exact (repr_getptr R _ _ ca_entry)|]. split; [|done].
      intros ->. pose proof (pages_zero n s M Hpages). congruence.
Qed.

(** The path so far, from the root with the node [B] and the list [L]: empty, or
    selecting the node [b]. *)
Definition path_to (Ht : nat) (B : bytes) (L : kvl) (h : nat) (b : bytes) (path : list BNode) (pos : list Z) (a sl c : kvl) : Prop :=
  (h = Ht /\ b = B /\ path = [] /\ pos = [] /\ a = [] /\ sl = L /\ c = []) \/ chain M Ht B L (S h) path pos a sl c.
Lemma path_to_sel Ht B L h F b path pos a sl c j a' s' c' : path_to Ht B L h b path pos a sl c -> tree M h F b sl ->
  sel M h b sl j a' s' c' -> chain M Ht B L h (path ++ [b]) (pos ++ [Z.of_nat j]) (a ++ a') s' (c' ++ c).
Proof.
  intros [(-> & -> & -> & -> & -> & -> & ->)|Hc] HT Hs; [|by eapply chain_down].
  rewrite app_nil_r. by apply chain_top.
Qed.
Lemma seek_loop_spec Ht B L key h : forall fuel p b F path pos a sl c, (h < fuel)%nat -> path_to Ht B L h b path pos a sl c ->
  p <> 0 -> M !! p = Some b -> tree M h F b sl -> kv_sorted sl -> sl <> [] -> keys_lt a key -> keys_gt key c ->
  a = [] \/ (exists k v l', sl = (k, v) :: l' /\ ble k key) ->
  exists path' pos' a' kv c', seek_loop fuel s p key path pos = Ok (path', pos') /\ chain M Ht B L 0 path' pos' a' [kv] c' /\
    keys_lt a' key /\ keys_gt key c' /\ (a' = [] \/ ble kv.1 key).
Proof.
  induction h as [|h IH]; intros [|fuel] p b F path pos a sl c Hf Hpre Hp HM HT Hs Hsl Ha Hc Hk; try lia;
    cbn [seek_loop]; rewrite decide_False by done; rstep (pages_get n s M p b Hpages HM);
    destruct (seek_sel _ _ _ _ key HT Hs Hsl) as (j & a' & s' & c' & E & Hsel & Ha' & Hc' & Hk' & Hptr); rstep E;
    pose proof (path_to_sel _ _ _ _ _ _ _ _ _ _ _ _ _ _ _ Hpre HT Hsel) as Hchain;
    destruct (sel_list _ _ _ _ _ _ _ _ Hsel) as [-> Hs'];
    assert (HA : keys_lt (a ++ a') key) by (by apply list.Forall_app);
    assert (HC : keys_gt key (c' ++ c)) by (by apply list.Forall_app);
    assert (HK : a ++ a' = [] \/ exists k v l', s' = (k, v) :: l' /\ ble k key).
  1, 3: destruct Hk' as [->|]; [|by right]; rewrite app_nil_r; destruct Hk as [|(k & v & l' & El & Hk)]; [by left|right];
    destruct s' as [|[k0 v0] s']; [done|]; injection El as -> -> _; by exists k, v, s'.
  - rstep Hptr. assert (Hend : seek_loop fuel s 0 key (path ++ [b]) (pos ++ [Z.of_nat j]) = Ok (path ++ [b], pos ++ [Z.of_nat j])).
    { destruct fuel; cbn [seek_loop]; by rewrite decide_True. }
    inversion Hsel as [b0 a0 kv c0 R E1 E2 E3 E4 E5 E6|]; subst. eexists _, _, _, kv, _. split; [exact Hend|]. split; [exact Hchain|].
    split; [done|]. split; [done|]. destruct HK as [|(k & v & l' & E7 & HK)]; [by left|right]. by injection E7 as -> _.
  - destruct Hptr as (q & bK & FK & Eq & Hq & HMq & HTq). rstep Eq.
    apply kv_sorted_app in Hs as (_ & Hs & _). apply kv_sorted_app in Hs as (Hs & _ & _).
    eapply (IH fuel q bK FK); try done; [lia|by right].
Qed.
Lemma SeekLE_spec h fuel root B F L key : root <> 0 -> M !! root = Some B -> tree M h F B L -> kv_sorted L -> L <> [] -> (h < fuel)%nat ->
  exists it a kv c, SeekLE fuel s root key = Ok it /\ iValid it = true /\ chain M h B L 0 (iPath it) (iPos it) a [kv] c /\
    keys_lt a key /\ keys_gt key c /\ (a = [] \/ ble kv.1 key).
Proof.
  intros Hr HM HT Hs Hl Hf.
  destruct (seek_loop_spec h B L key h fuel root B F [] [] [] L []) as (path & pos & a & kv & c & E & Hc & H');
    try done; [by left|by constructor|by constructor|by left|]. exists (mkIter path pos true), a, kv, c. split; [|done]. unfold SeekLE. by rstep E.
Qed.

(** ** Reading an entry *)

Lemma chain_leaf Ht B L path pos a kv c : chain M Ht B L 0 path pos a [kv] c ->
  exists b j nk l1 l2, index path (Z.of_nat (length pos - 1)) = Ok b /\ index pos (Z.of_nat (length pos - 1)) = Ok (Z.of_nat j) /\
    nkeys b = Ok (Z.of_nat nk) /\ (j < nk)%nat /\ Z.of_nat nk < 65536 /\ node_is b BNODE_LEAF (map kv_entry (l1 ++ kv :: l2)) /\ length l1 = j.
Proof.
  intros Hc. destruct (chain_end _ _ _ _ _ _ _ _ _ _ Hc) as (path0 & pos0 & b & j & l & a' & c' & -> & -> & Hl & Hs).
  destruct (sel_count _ _ _ _ _ _ _ _ Hs) as (nk & En & Hj & Hk & _). inversion Hs; subst.
  eexists b, _, nk, a', c'. split; [apply index_app; rewrite length_app; cbn; lia|]. split; [apply index_app; rewrite length_app; cbn; lia|].
  done.
Qed.
Lemma Deref_spec Ht B L root it a kv c : root <> 0 -> chain M Ht B L 0 (iPath it) (iPos it) a [kv] c -> Deref root it = Ok (Some kv).
Proof.
  intros Hr Hc. destruct (chain_leaf _ _ _ _ _ _ _ _ Hc) as (b & j & nk & l1 & l2 & E1 & E2 & En & Hj & Hk & R & Hl).
  apply chain_length in Hc as [_ Hp]. unfold Deref, path_at, pos_at.
  rewrite !bool_decide_false by done. cbn [orb]. rstep E1. rstep E2. rewrite u16_id by lia. destruct kv as [k v]. rewrite <- Hl.
  pose proof (entry_at _ l1 k v l2 eq_refl) as He. rstep (repr_getKey R _ _ He). by rstep (repr_getVal R _ _ He).
Qed.
Lemma Valid_spec Ht B L root it a kv c : root <> 0 -> chain M Ht B L 0 (iPath it) (iPos it) a [kv] c -> Valid root it = Ok (iValid it).
Proof.
  intros Hr Hc. destruct (chain_leaf _ _ _ _ _ _ _ _ Hc) as (b & j & nk & l1 & l2 & E1 & E2 & En & Hj & Hk & _).
  unfold Valid, path_at, pos_at. rewrite bool_decide_false, orb_false_r by done. destruct (iValid it); [|done]. cbn [negb].
  rstep E1. rstep E2. rewrite (proj2 (Z.ltb_ge (Z.of_nat j) 0)) by lia. rstep En. rewrite !u16_id by lia.
  by rewrite (proj2 (Z.ltb_ge _ _)) by lia.
Qed.

(** ** Moving *)

Lemma Next_at root L it i : at_entry M root L it i -> iValid it = true ->
  (S i < length L)%nat /\ (exists it', Next s it = Ok it' /\ iValid it' = true /\ at_entry M root L it' (S i)) \/
  S i = length L /\ Next s it = Ok (set_valid false it).
Proof.
  intros (h & B & F & a & kv & c & Hr & HM & HT & Hc & Hi) Hv. destruct it as [path pos v]. cbn [iPath iPos iValid] in *. subst v i.
  destruct (chain_list _ _ _ _ _ _ _ _ _ _ Hc) as [EL _]. destruct (decide (c = [])) as [-> |Hne].
  - right. split; [rewrite EL, length_app; cbn; lia|]. exact (Next_end s M h B L _ _ _ _ Hc).
  - left. destruct (Next_right n s M Hpages h B L _ _ _ _ _ Hc Hne) as (path' & pos' & s' & c' & E & -> & Hc').
    destruct (chain_entry _ _ _ _ _ _ _ _ _ Hc') as [kv' ->].
    split; [rewrite EL, !length_app; cbn; lia|]. eexists. split; [exact E|]. split; [done|].
    exists h, B, F, (a ++ [kv]), kv', c'. rewrite length_app. cbn. repeat (split; [done|]). lia.
Qed.
Lemma Prev_at root L it i : at_entry M root L it i -> iValid it = true ->
  match i with
  | O => Prev s it = Ok (set_valid false it)
  | S i => exists it', Prev s it = Ok it' /\ iValid it' = true /\ at_entry M root L it' i
  end.
Proof.
  intros (h & B & F & a & kv & c & Hr & HM & HT & Hc & Hi) Hv. destruct it as [path pos v]. cbn [iPath iPos iValid] in *. subst v i.
  destruct (decide (a = [])) as [-> |Hne]; [exact (Prev_start s M h B L _ _ _ _ Hc)|].
  destruct (Prev_left n s M Hpages h B L _ _ _ _ _ Hc Hne) as (path' & pos' & a' & s' & E & -> & Hc').
  destruct (chain_entry _ _ _ _ _ _ _ _ _ Hc') as [kv' ->]. rewrite length_app, Nat.add_1_r. eexists. split; [exact E|]. split; [done|].
  exists h, B, F, a', kv', ([kv] ++ c). done.
Qed.
Lemma at_entry_read root L it i : at_entry M root L it i ->
  exists kv, L !! i = Some kv /\ Deref root it = Ok (Some kv) /\ Valid root it = Ok (iValid it).
Proof.
  intros (h & B & F & a & kv & c & Hr & HM & HT & Hc & Hi). exists kv.
  split; [|split; [by eapply Deref_spec|by eapply Valid_spec]].
  destruct (chain_list _ _ _ _ _ _ _ _ _ _ Hc) as [-> _]. subst i. by apply list_lookup_middle.
Qed.
(** The way back from either side, and nothing else is known of the tree there. *)
Lemma back_at root L it i : at_entry M root L it i ->
  (i = 0%nat -> Next s (set_valid false it) = Ok (set_valid true it)) /\
  (S i = length L -> Prev s (set_valid false it) = Ok (set_valid true it)).
Proof.
  intros (h & B & F & a & kv & c & Hr & HM & HT & Hc & Hi). destruct it as [path pos v]. cbn [iPath iPos] in Hc. unfold set_valid. cbn [iPath iPos].
  destruct (chain_list _ _ _ _ _ _ _ _ _ _ Hc) as [EL _]. split; intros E.
  - destruct a; [|cbn in *; lia]. exact (Next_start s M h B L _ _ _ _ Hc).
  - rewrite EL, !length_app in E. destruct c; [|cbn in *; lia]. exact (Prev_end s M h B L _ _ _ _ Hc).
Qed.

Lemma scan_spec root L k : forall it i fuel, at_entry M root L it i -> iValid it = true -> (length L <= i + k)%nat -> (k < fuel)%nat ->
  scan fuel s root it = Ok (map Some (drop i L)).
Proof.
  induction k as [|k IH]; intros it i [|fuel] Hat Hv Hk Hf; try lia; destruct (at_entry_read _ _ _ _ Hat) as (kv & Hkv & ED & EV).
  - apply lookup_lt_Some in Hkv. lia.
  - cbn [scan]. rstep EV. rewrite Hv. rstep ED. rewrite (drop_S _ _ _ Hkv). cbn [map].
    destruct (Next_at _ _ _ _ Hat Hv) as [(Hlt & it' & EN & Hv' & Hat')|(Hend & EN)]; rstep EN.
    + by rstep (IH it' (S i) fuel Hat' Hv' ltac:(lia) ltac:(lia)).
    + rewrite Hend, drop_all. destruct fuel as [|fuel]; [lia|]. cbn [scan]. done.
Qed.

(** Wherever it is and whether valid or not, [Next] leaves the iterator at some
    entry. *)
Lemma Next_any root L it i : at_entry M root L it i -> exists it' i', Next s it = Ok it' /\ at_entry M root L it' i'.
Proof.
  intros Hat. pose proof Hat as (h & B & F & a & kv & c & Hr & HM & HT & Hc & Hi). destruct (iValid it) eqn:Hv.
  { destruct (Next_at _ _ _ _ Hat Hv) as [(_ & it' & E & _ & Hat')|(_ & E)]; [by exists it', (S i)|].
    exists (set_valid false it), i. split; [done|]. by exists h, B, F, a, kv, c. }
  destruct it as [path pos v]. cbn [iPath iPos iValid] in *. subst v.
  destruct (decide (a = [])) as [-> |Ha].
  { exists (mkIter path pos true), 0%nat. split; [exact (Next_start s M h B L _ _ _ _ Hc)|]. by exists h, B, F, [], kv, c. }
  destruct (chain_level M h B L _ _ _ _ _ _ Hc) as [l El].
  assert (EN : Next s (mkIter path pos false) = iterNext s (mkIter path pos false) l).
  { unfold Next, LastNode, StartNode. cbn [iPath iPos iValid]. rewrite (chain_last _ _ _ _ _ _ _ _ _ _ Hc), (chain_start _ _ _ _ _ _ _ _ _ _ Hc).
    cbn [mbind res_bind negb]. rewrite andb_false_r, (bool_decide_false _ Ha). cbn [andb]. by rewrite El. }
  rewrite EN. assert (HX : forall a' s' c' r, moved M h B L false 0 a' s' c' (S l) [] [] false r ->
    exists it' i', r = Ok it' /\ at_entry M root L it' i').
  { intros a' s' c' r (path' & pos' & Hc' & _ & ER). destruct (chain_entry _ _ _ _ _ _ _ _ _ Hc') as [kv' ->].
    eexists _, _. split; [exact ER|]. by exists h, B, F, a', kv', c'. }
  destruct (decide (c = [])) as [-> |Hne].
  - pose proof (iterNext_past n s M Hpages h B L l 0 path pos a [kv] [] [] false Hc El eq_refl eq_refl) as HP.
    rewrite !app_nil_r in HP. destruct l as [|l]; [|destruct HP as (a' & s' & c' & HP); by eapply HX].
    rewrite HP. eexists _, i. split; [done|]. by exists h, B, F, a, kv, [].
  - destruct (iterNext_spec n s M Hpages h B L l 0 path pos a [kv] c [] [] false Hc El eq_refl eq_refl Hne) as (s' & c' & _ & HP).
    rewrite !app_nil_r in HP. by eapply HX.
Qed.

(** ** From the root *)

(** The tree of a map shows its list, after the entry for the empty key when
    there is one. *)
Lemma tree_any_shown root h l : tree_any M root h l -> root <> 0 -> user_kvs l ->
  exists B F L, M !! root = Some B /\ tree M h F B L /\ kv_sorted L /\ L <> [] /\ (L = l \/ L = sentinel :: l).
Proof.
  intros Ht Hr Hu. pose proof (sentinel_sorted l Hu) as Hs. destruct Hu as [Hsl _].
  destruct Ht as [Hrep|b -> _ HM Hb HT Hl].
  - inversion Hrep as [|r b l1 _ HM Hb HT|r b h1 F l1 _ HM Hb HT HF Hl]; subst; [done| |].
    + exists b, ∅, (sentinel :: l). split; [done|]. split; [done|]. split; [done|]. split; [done|by right].
    + exists b, F, l. split; [done|]. split; [done|]. split; [done|]. split; [done|by left].
  - exists b, ∅, l. split; [done|]. split; [done|]. split; [done|]. split; [done|by left].
Qed.
Lemma SeekLE_at h fuel root l key : tree_any M root h l -> root <> 0 -> user_kvs l -> (h < fuel)%nat ->
  exists it L a kv c, SeekLE fuel s root key = Ok it /\ iValid it = true /\ at_entry M root L it (length a) /\
    (L = l \/ L = sentinel :: l) /\ L = a ++ kv :: c /\ keys_lt a key /\ keys_gt key c /\ (a = [] \/ ble kv.1 key).
Proof.
  intros Ht Hr Hu Hf. destruct (tree_any_shown _ _ _ Ht Hr Hu) as (B & F & L & HM & HT & Hs & HL & Hsh).
  destruct (SeekLE_spec h fuel root B F L key Hr HM HT Hs HL Hf) as (it & a & kv & c & E & Hv & Hc & Ha & Hc' & Hk).
  exists it, L, a, kv, c. split; [done|]. split; [done|]. split; [by exists h, B, F, a, kv, c|]. split; [done|].
  split; [|done]. by apply chain_list in Hc as [-> _].
Qed.
Lemma filter_from (a c : kvl) kv key : keys_lt a key -> keys_gt key c ->
  filter (fun e => ble key e.1) (a ++ kv :: c) = (if decide (ble key kv.1) then [kv] else []) ++ c.
Proof.
  intros Ha Hc. rewrite filter_app, filter_cons.
  assert (Ea : filter (fun e : bytes * bytes => ble key e.1) a = []).
  { induction Ha as [|e a He _ IH]; [done|]. rewrite filter_cons_False; [done|]. intros Hk. eapply blt_irrefl. eauto with key_order. }
  assert (Ec : filter (fun e : bytes * bytes => ble key e.1) c = c).
  { clear Ea. induction Hc as [|e c He _ IH]; [done|]. rewrite filter_cons_True; [by f_equal|]. eauto with key_order. }
  rewrite Ea, Ec. by case_decide.
Qed.
End Cursor.

Section Claims.
Context {St pages} `{PageLaws St pages}.

(** C18: An iterator at entry [i] of the list of a tree, and its moves.  Deref gives
    the entry; Next and Prev go to the neighbours, through as many levels of the
    tree as it takes; past either end the iterator becomes invalid and the move
    back restores it. *)
Theorem iterator_moves n (s : St) M root L it i : pages n s M -> at_entry M root L it i -> iValid it = true ->
  (exists kv, L !! i = Some kv /\ Deref root it = Ok (Some kv) /\ Valid root it = Ok true) /\
  (exists it', Next s it = Ok it' /\
    if decide (S i < length L)%nat then iValid it' = true /\ at_entry M root L it' (S i)
    else Valid root it' = Ok false /\ Prev s it' = Ok it) /\
  exists it', Prev s it = Ok it' /\
    match i with
    | O => Valid root it' = Ok false /\ Next s it' = Ok it
    | S i => iValid it' = true /\ at_entry M root L it' i
    end.
Proof.
  intros Hp Hat Hv. destruct (at_entry_read M root L it i Hat) as (kv & Hkv & ED & EV). rewrite Hv in EV.
  assert (Hset : set_valid true it = it) by (destruct it; cbn in *; by subst).
  destruct (back_at s M root L it i Hat) as [Hb0 Hbn]. rewrite Hset in *.
  assert (HV : Valid root (set_valid false it) = Ok false) by done.
  split; [by exists kv|]. split.
  - destruct (Next_at n s M Hp root L it i Hat Hv) as [(Hlt & it' & EN & Hv' & Hat')|(Hend & EN)].
    + exists it'. rewrite decide_True by done. done.
    + eexists. split; [exact EN|]. rewrite decide_False by lia. split; [done|by apply Hbn].
  - pose proof (Prev_at n s M Hp root L it i Hat Hv) as HP. destruct i as [|i]; [|by destruct HP as (it' & E & H'); exists it'].
    eexists. split; [exact HP|]. split; [done|by apply Hb0].
Qed.

(** C17: A scan from a key.  SeekLE on a tree and the loop of Valid, Deref and Next
    end, and list in order every entry of the map from the key on, after at most
    one entry below the key. *)
Theorem scan_from_key h fuel n (s : St) M root l key fuel' : tree_any M root h l -> pages n s M -> user_kvs l -> root <> 0 ->
  key <> [] -> (h < fuel)%nat -> (length l + 2 < fuel')%nat ->
  exists it pre, SeekLE fuel s root key = Ok it /\ keys_lt pre key /\ (length pre <= 1)%nat /\
    scan fuel' s root it = Ok (map Some (pre ++ filter (fun kv => ble key kv.1) l)).
Proof.
  intros Ht Hp Hu Hr Hk Hf Hf'.
  destruct (SeekLE_at n s M Hp h fuel root l key Ht Hr Hu Hf) as (it & L & a & kv & c & E & Hv & Hat & HL & EL & Ha & Hc & _).
  assert (HLl : (length L <= S (length l))%nat) by (destruct HL as [->| ->]; cbn; lia).
  assert (HF : filter (fun e : bytes * bytes => ble key e.1) L = filter (fun e : bytes * bytes => ble key e.1) l).
  { destruct HL as [->| ->]; [done|]. apply filter_cons_False. cbn. intros Hk'%not_ble_lt; [done|]. by apply nil_blt. }
  exists it, (if decide (ble key kv.1) then [] else [kv]). split; [done|].
  split; [case_decide; [constructor|by apply list.Forall_singleton, not_ble_lt]|]. split; [case_decide; cbn; lia|].
  rewrite (scan_spec n s M Hp root L (length L) it (length a) fuel' Hat Hv) by lia. do 2 f_equal.
  rewrite <- HF, EL, filter_from, drop_app_length by done. by case_decide.
Qed.
End Claims.

(** ** Instances: the tree of two levels that four insertions make *)

Lemma abcd_tree : exists s root h M l, insert_all 5 (empty_mem, 0) abcd = Ok (s, root) /\ mem_pages 0 s M /\ tree_any M root h l /\
  user_kvs l /\ kv_map l = inserted_map abcd ∅ /\ root <> 0 /\ (h < 5)%nat.
Proof.
  assert (Hp : mem_pages (length abcd * (3 * (0 + length abcd) + 5) + 0) empty_mem ∅).
  { split; [done|]. split; [done|]. split; [done|]. intros p [x Hx]. by rewrite lookup_empty in Hx. }
  destruct (insert_all_spec 5 abcd 0 0 empty_mem ∅ 0 [] (rep_empty _) ltac:(split; constructor) abcd_user Hp ltac:(repeat constructor))
    as (s & root & h & M & l & E & Hp' & Ht & Hu & Hm & Hh). change (length abcd) with 4%nat in Hh.
  exists s, root, h, M, l. split; [done|]. split; [done|]. split; [by apply any_rep|]. split; [done|]. split; [exact Hm|]. split; [|lia].
  intros Hr. assert (Hl : l = []) by (revert Ht; rewrite Hr; clear; intros Ht; inversion Ht; [reflexivity|congruence..]). rewrite Hl in Hm.
  apply (f_equal (fun m : gmap bytes bytes => m !! [Byte.x64])) in Hm.
  change (inserted_map abcd (kv_map [])) with (<[[Byte.x64] := replicate 1300 Byte.x2e]> (inserted_map (take 3 abcd) ∅)) in Hm.
  rewrite lookup_insert_eq, kv_get_map in Hm. discriminate Hm.
Qed.
Lemma scan_from_key_witness : exists s root l it pre, insert_all 5 (empty_mem, 0) abcd = Ok (s, root) /\ kv_map l = inserted_map abcd ∅ /\
  SeekLE 5 s root [Byte.x62] = Ok it /\ scan (3 + length l) s root it = Ok (map Some (pre ++ filter (fun kv => ble [Byte.x62] kv.1) l)).
Proof.
  destruct abcd_tree as (s & root & h & M & l & E & Hp & Ht & Hu & Hm & Hr & Hh).
  destruct (scan_from_key h 5 0 s M root l [Byte.x62] (3 + length l) Ht Hp Hu Hr ltac:(done) Hh ltac:(lia)) as (it & pre & ES & _ & _ & EC).
  exists s, root, l, it, pre. exact (conj E (conj Hm (conj ES EC))).
Defined.
Lemma iterator_moves_witness : exists s root it it', insert_all 5 (empty_mem, 0) abcd = Ok (s, root) /\
  SeekLE 5 s root [Byte.x62] = Ok it /\ Next s it = Ok it'.
Proof.
  destruct abcd_tree as (s & root & h & M & l & E & Hp & Ht & Hu & Hm & Hr & Hh).
  destruct (SeekLE_at 0 s M Hp h 5 root l [Byte.x62] Ht Hr Hu Hh) as (it & L & a & kv & c & ES & Hv & Hat & _).
  destruct (iterator_moves 0 s M root L it (length a) Hp Hat Hv) as (_ & (it' & EN & _) & _).
  exists s, root, it, it'. exact (conj E (conj ES EN)).
Defined.
