(* ===== verification/KVStore.v ===== *)
(** * storage/disk.go as the page store of the B+tree

    [Open] gives the tree the closures [pageRead], [pageAlloc] and
    [freePushTail]: the instance [kv_store].  [kv_pages] says which pages a [KV]
    holds for its tree and how many operations it has room for; the laws of a
    page store follow from the refinement of the free list, so the theorems on
    trees hold of the tree on disk.  [Get], [Set] and [Del] of a [KV] are the
    operations of that tree. *)
From Stdlib Require Import ZArith Lia.
From stdpp Require Import base gmap list strings countable sorting.
From coqutil Require Import Byte Word.LittleEndianList.
From S2P Require Import Prelude KVList BNode NodeLayout NodeOps Disk FreeList Commit BTree TreeRep TreeGet TreeInsert TreeDelete TreeRoot TreeSpec.

#[export] Instance kv_store : PageStore KV := {|
  page_get := pageRead; page_new := pageAlloc; page_del := freePushTail
|}.

(** [KV.Get], [KV.Set] and [KV.Del]. *)
Definition KVGet (fuel : nat) (db : KV) (key : bytes) : res (option bytes) := GetVal fuel db (kRoot db) key.
Definition KVSet (fuel : nat) (db : KV) (key val : bytes) : res KV :=
  '(db, root) ← Insert fuel db (kRoot db) key val; Ok (set_root root db).
Definition KVDel (fuel : nat) (db : KV) (key : bytes) : res (KV * bool) :=
  '(db, root, ok) ← Delete fuel db (kRoot db) key; Ok (set_root root db, ok).

(** ** Sizes of the queue *)

(** An operation on a queue: the entries that may be taken stay the same, the
    tail moves by two at most, and at most [n] entries go. *)
Record q_step (n : nat) (q q' : queue) : Prop := {
  qs_max : q_max q' = q_max q;
  qs_head : 0 <= q_head q';
  qs_tail : q_tail q' <= q_tail q + 2;
  qs_items : (length (q_items q) <= n + length (q_items q'))%nat
}.
Lemma q_pop_size q q' x hd : q_pop q = (q', (x, hd)) -> 0 <= q_head q -> q_step 1 q q' /\ q_tail q' <= q_tail q.
Proof.
  unfold q_pop. intros E Hh. case_match; [injection E as <- <- <-; split; [split|]; try done; lia|].
  destruct (q_items q) as [|y items] eqn:Ei.
  - injection E as <- <- <-. split; [split|]; unfold q_tail; cbn [q_max q_head q_items length]; rewrite ?Ei; cbn [length]; try done; lia.
  - assert (HT : q_tail q = q_head q + 1 + Z.of_nat (length items)) by (unfold q_tail; rewrite Ei; cbn [length]; lia).
    assert (HK : forall c, q_step 1 q (mkQueue c items (q_head q + 1) (q_max q)) /\
      q_tail (mkQueue c items (q_head q + 1) (q_max q)) <= q_tail q).
    { intros c. rewrite HT. unfold q_tail. cbn [q_head q_items].
      split; [split|]; cbn [q_max q_head q_items]; rewrite ?HT, ?Ei; unfold q_tail; cbn [q_head q_items length]; try done; lia. }
    case_decide; injection E as <- <- <-; apply HK.
Qed.
Lemma q_push_size np q ptr : 0 <= q_head q -> (q_chain q = [] -> q_items q = []) -> q_step 0 q (q_push np q ptr).1.
Proof.
  intros Hh He. destruct (decide (q_chain q = [])) as [Hc|Hc].
  { unfold q_push. rewrite Hc. cbn [fst]. split; unfold q_tail; cbn [q_max q_head q_items length]; rewrite ?He by done; cbn [length]; try done; lia. }
  rewrite q_push_nonnil by done. cbn zeta. set (q1 := mkQueue _ (q_items q ++ [ptr]) _ _).
  assert (HT : q_tail q1 = q_tail q + 1) by (unfold q_tail, q1; cbn [q_head q_items]; rewrite length_app; cbn [length]; lia).
  assert (HL : length (q_items q1) = S (length (q_items q))) by (unfold q1; cbn [q_items]; rewrite length_app; cbn [length]; lia).
  case_decide; [|split; cbn [fst]; try done; lia].
  destruct (q_pop q1) as [q2 [x hd]] eqn:Ep. destruct (q_pop_size q1 q2 x hd Ep Hh) as ([Hm Hh2 _ Hi] & Ht).
  assert (HK : forall n, q_step 0 q (q_link q2 n hd)).
  { intros n. unfold q_link. assert (Hhd : (length (option_list hd) <= 1)%nat) by (destruct hd; cbn; lia).
    split; cbn [q_max q_head q_items]; try done.
    - unfold q_tail in *. cbn [q_head q_items]. rewrite length_app. lia.
    - rewrite length_app. lia. }
  destruct x; apply HK.
Qed.
Lemma q_alloc_size np q : 0 <= q_head q -> (q_chain q = [] -> q_items q = []) ->
  (forall q' x h, q_pop q = (q', (x, Some h)) -> q_chain q' = [] -> q_items q' = []) -> q_step 1 q (q_alloc np q).1.
Proof.
  intros Hh He He'. unfold q_alloc. destruct (q_pop q) as [q' [x hd]] eqn:Ep.
  destruct (q_pop_size q q' x hd Ep Hh) as ([Hm Hh2 Ht2 Hi] & Ht).
  destruct hd as [h|]; cbn [fst]; [|by split].
  destruct (q_push_size np q' h Hh2 (He' q' x h eq_refl)) as [Hm' Hh' Ht' Hi'].
  split; [congruence|done|lia|lia].
Qed.

(** ** The pages of a [KV] *)

(** Room for [k] operations: the sequence numbers stay in range, and the free
    list is short enough that no page of it fills or long enough that it is not
    drained. *)
Definition kv_room (k : nat) (q : queue) : Prop :=
  0 <= q_head q /\ q_tail q + 2 * Z.of_nat k < SEQ_LIMIT /\ (q_max q < CAP - 1 \/ (k <= length (q_items q))%nat).
(** Counters below 2^49 pages, a sound memory map, and whole pages in memory. *)
Definition PAGE_LIMIT : Z := 562949953421312.
Record kv_sizes (k : nat) (db : KV) : Prop := {
  ks_flushed : 0 < kFlushed db;
  ks_nappend : 0 <= kNappend db;
  ks_limit : kFlushed db + kNappend db + Z.of_nat k <= PAGE_LIMIT;
  ks_mmap : mmap_ok db;
  ks_updates : updates_ok db;
  ks_max : in_u64 (maxSeq (kFree db))
}.
(** The free list and the pages in use are apart, and below the next page. *)
Record kv_list (k : nat) (db : KV) (M : gmap Z bytes) (q : queue) : Prop := {
  kl_rep : q_rep db q;
  kl_room : kv_room k q;
  kl_bound p : p ∈ q_pages q -> p < kFlushed db + kNappend db;
  kl_used p b : M !! p = Some b ->
    pageRead db p = Ok b /\ blen b = PAGE_SIZE /\ 0 < p < kFlushed db + kNappend db /\ p ∉ q_pages q
}.
(** The free list a new database starts with: list page 1, which is not in the
    file yet; the first allocation takes it. *)
Definition fresh_list (db : KV) : Prop := kFree db = mkFree 1 0 1 0 0 /\ 1 < kFlushed db.
Definition kv_pages (k : nat) (db : KV) (M : gmap Z bytes) : Prop :=
  kv_sizes k db /\ ((M = ∅ /\ fresh_list db) \/ exists q, kv_list k db M q).

Lemma kv_next k db : kv_sizes k db -> next_page db = kFlushed db + kNappend db /\ next_page db <> 0.
Proof.
  intros [H1 H2 H3 _ _ _]. unfold PAGE_LIMIT in H3. unfold next_page. rewrite u64_small by (unfold in_u64; lia). lia.
Qed.
(** The sizes after an operation that appends at most one page. *)
Lemma kv_sizes_step k db db' t : kv_sizes (S k) db -> same_but_pages db db' -> maxSeq (kFree db') = maxSeq (kFree db) ->
  kNappend db <= kNappend db' <= kNappend db + 1 -> writes_in db db' t ->
  (forall x, x ∈ t -> 0 < x < kFlushed db + kNappend db') -> kv_sizes k db'.
Proof.
  intros [H1 H2 H3 (M1 & M2 & M3) H5 H6] (_ & Hfl & Htot & Hch & _) Hm Hn HW Ht. split; rewrite ?Hfl, ?Hm; try done; try lia.
  - unfold mmap_ok. by rewrite Htot, Hch.
  - intros p b Hp. rewrite Hfl. destruct (HW p b Hp) as [Hb|[Hin Hb]]; [|specialize (Ht p Hin); lia].
    destruct (H5 p b Hb). lia.
Qed.

(** A popped list without list pages holds no entries. *)
Lemma q_pop_chain db q q' x h : q_rep db q -> q_pop q = (q', (x, Some h)) -> q_chain q' = [] -> q_items q' = [].
Proof.
  intros Hq. unfold q_pop. case_match; [done|]. destruct (q_items q) as [|y items] eqn:Ei; [done|].
  case_decide as Hmod; [|done]. intros [= <- _ Hc]. cbn [q_chain q_items].
  destruct Hq as [[-> _]|Hq]; [done|].
  pose proof (q_repd1_exhausted db q Hq ltac:(by rewrite Ei) Hmod) as Hl.
  destruct (q_chain q) as [|c1 [|c2 ch]]; [done|cbn in Hl; lia|done].
Qed.
Lemma q_alloc_pages db np q x : q_rep db q -> x ∈ q_pages (q_alloc np q).1 -> x ∈ np :: q_pages q.
Proof.
  intros Hq. unfold q_alloc. destruct (q_pop q) as [q' [y hd]] eqn:Ep. pose proof (q_pop_chain db q q' y) as HC.
  assert (HP : forall z, z ∈ option_list hd ++ q_pages q' -> z ∈ q_pages q).
  { intros z Hz. destruct (decide (q_items q = [])) as [Hi|Hi].
    - unfold q_pop in Ep. rewrite Hi in Ep. case_match; injection Ep as <- <- <-; [done|by apply not_elem_of_nil in Hz].
    - destruct (q_pop_perm q q' y hd Hi Ep) as [-> _]. rewrite elem_of_app. by right. }
  destruct hd as [h|]; cbn [fst].
  - rewrite q_push_perm by (by eapply HC). rewrite elem_of_app, elem_of_cons. intros [Hx|Hx]; apply elem_of_cons.
    + case_match; [left; by apply list_elem_of_singleton|by apply not_elem_of_nil in Hx].
    + right. apply HP, elem_of_cons. exact Hx.
  - intros Hx. apply elem_of_cons. right. by apply HP.
Qed.
Lemma q_room_alloc k db q : q_rep db q -> kv_room (S k) q -> kv_room k (q_alloc (next_page db) q).1.
Proof.
  intros Hq (Hh & Ht & Hs). pose proof (proj2 (q_rep_tail _ _ Hq)) as He.
  destruct (q_alloc_size (next_page db) q Hh He) as [Hm Hh' Ht' Hi].
  - intros q' x h. by apply (q_pop_chain db).
  - split; [done|]. split; [lia|]. rewrite Hm. destruct Hs as [|Hs]; [by left|right; lia].
Qed.
Lemma q_room_push k db q ptr np : q_rep db q -> kv_room (S k) q -> kv_room k (q_push np q ptr).1 /\ q_safe q.
Proof.
  intros Hq (Hh & Ht & Hs). destruct (q_push_size np q ptr Hh (proj2 (q_rep_tail _ _ Hq))) as [Hm Hh' Ht' Hi]. split.
  - split; [done|]. split; [lia|]. rewrite Hm. destruct Hs as [|Hs]; [by left|right; lia].
  - intros Hn. destruct Hs as [Hs|Hs]; [|rewrite Hn in Hs; cbn in Hs; lia].
    destruct (Z.ltb_spec (q_max q) (q_head q)) as [|Hle]; [by right|left]. rewrite CAP_eq in *. rewrite Z.mod_small; lia.
Qed.

(** ** The laws *)

Definition kv_after (k : nat) (db : KV) (M : gmap Z bytes) (b : bytes) : Prop :=
  exists db' p, pageAlloc db b = Ok (db', p) /\ M !! p = None /\ p <> 0 /\ in_u64 p /\ kv_pages k db' (<[p := b]> M).

Lemma kv_alloc_fresh k db b : kv_sizes (S k) db -> fresh_list db -> blen b = PAGE_SIZE -> kv_after k db ∅ b.
Proof.
  intros Hks [HF Hfl] Hb. set (db' := set_page 1 b (set_free (mkFree 0 0 0 0 0) db)). exists db', 1.
  split; [unfold pageAlloc, freePopHead; by rewrite HF|]. split; [done|]. split; [done|]. split; [done|]. split.
  { apply (kv_sizes_step k db db' [1] Hks); [done|cbn; by rewrite HF|cbn; lia| |].
    - apply writes_page; [exact (writes_refl db [1])|apply elem_of_cons; by left|done].
    - intros x ->%list_elem_of_singleton. destruct Hks. cbn. lia. }
  destruct Hks as [H1 H2 H3 _ _ _]. unfold PAGE_LIMIT in H3. right. exists (mkQueue [] [] 0 0). split.
  - by left.
  - split; [done|]. unfold q_tail, SEQ_LIMIT. cbn [q_head q_items length]. split; [lia|by left].
  - by intros p ?%not_elem_of_nil.
  - intros p b' Hp. apply lookup_insert_Some in Hp as [[<- <-]|[_ Hp]]; [|done]. unfold db'. rewrite pageRead_set_page, decide_True by done.
    cbn [set_page set_pages set_free kFlushed kNappend]. split; [done|]. split; [done|]. split; [lia|apply not_elem_of_nil].
Qed.
(** A page of the free list or the next one. *)
Lemma kv_list_pages k db M q x : kv_sizes k db -> kv_list k db M q -> x ∈ next_page db :: q_pages q ->
  0 < x /\ in_u64 x /\ M !! x = None /\ (x = next_page db \/ x < kFlushed db + kNappend db).
Proof.
  intros Hks [Hq _ Hqp HM] Hx. destruct (kv_next _ _ Hks) as [En En0]. pose proof (in_u64_next db) as Hu.
  assert (Hxu : 0 < x /\ in_u64 x /\ (x = next_page db \/ x < kFlushed db + kNappend db)).
  { apply elem_of_cons in Hx as [-> |Hx]; [unfold in_u64 in *; split; [lia|split; [lia|by left]]|].
    destruct Hq as [[-> _]|Hq]; [by apply not_elem_of_nil in Hx|]. destruct (q_repd_in _ _ _ _ Hq Hx) as (? & Hxu & _).
    split; [unfold in_u64 in Hxu; lia|]. split; [done|right; by apply Hqp]. }
  split; [apply Hxu|]. split; [apply Hxu|]. split; [|apply Hxu].
  destruct (M !! x) as [y|] eqn:E; [|done]. destruct (HM x y E) as (_ & _ & Hlt & Hnin).
  apply elem_of_cons in Hx as [-> |Hx]; [lia|done].
Qed.
Lemma kv_alloc_list k db M q b : kv_sizes (S k) db -> kv_list (S k) db M q -> blen b = PAGE_SIZE -> kv_after k db M b.
Proof.
  intros Hks HL Hb. pose proof HL as [Hq Hr Hqp HM]. destruct (kv_next _ _ Hks) as [En En0].
  pose proof (fun x => kv_list_pages _ _ _ _ x Hks HL) as HT. pose proof Hks as [_ Hn0 Hlim _ _ _]. unfold PAGE_LIMIT in Hlim.
  assert (Hnq : next_page db ∉ q_pages q) by (intros H%Hqp; lia).
  pose proof (pageAlloc_rep db q b Hq) as HA. pose proof (q_room_alloc k db q Hq Hr) as Hr'. destruct Hr as (Hh & Ht & _).
  pose proof (fun x => q_alloc_pages db (next_page db) q x Hq) as HS. specialize (HA ltac:(lia) En0 Hnq).
  destruct (q_alloc (next_page db) q) as [q' p]. cbn [fst] in Hr', HS.
  destruct HA as (db' & E & Hq' & R & Hp & Hin & (Hsame & Hmx & Fr) & HC & HW).
  destruct (HT p Hin) as (Hp0 & Hpu & HMp & _).
  assert (HS' : forall x, x ∈ p :: q_pages q' -> x ∈ next_page db :: q_pages q) by (intros x [-> |Hx]%elem_of_cons; [done|by apply HS]).
  assert (Hcnt : kNappend db <= kNappend db' <= kNappend db + 1 /\
    (forall x, x ∈ p :: q_pages q' -> 0 < x < kFlushed db + kNappend db')).
  { destruct HC as [[-> Hn]| ->]; [|rewrite u64_small by (unfold in_u64; destruct Hks; lia)]; (split; [lia|]);
      intros x Hx; destruct (HT x (HS' x Hx)) as (? & _ & _ & [-> |?]); try done; lia. }
  destruct Hcnt as [Hc1 Hc2]. pose proof Hsame as (_ & Hfl & _).
  exists db', p. split; [done|]. split; [done|]. split; [lia|]. split; [done|].
  split; [by eapply kv_sizes_step; [..|apply HW|]|]. right. exists q'. split; [done|done| |]; rewrite Hfl.
  { intros x Hx. apply Hc2, elem_of_cons. by right. }
  intros x bx [[<- <-]|[Hpx Hx]]%lookup_insert_Some.
  - split; [done|]. split; [done|]. split; [|done]. apply Hc2, elem_of_cons. by left.
  - destruct (HM x bx Hx) as (Rx & Hbx & Hxl & Hxq).
    assert (Hxn : x ∉ next_page db :: q_pages q) by (intros (_ & _ & ? & _)%HT; congruence).
    split; [by rewrite Fr|]. split; [done|]. split; [lia|]. intros Hx'. by apply Hxn, HS.
Qed.
Lemma kv_del_list k db M p : kv_pages (S k) db M -> is_Some (M !! p) ->
  exists db', freePushTail db p = Ok db' /\ kv_pages k db' (delete p M).
Proof.
  intros [Hks Hcase] [b Hp]. destruct (kv_next _ _ Hks) as [En En0]. pose proof Hks as [_ Hn0 Hlim _ _ _]. unfold PAGE_LIMIT in Hlim.
  destruct Hcase as [[-> _]|(q & HL)]; [done|]. pose proof HL as [Hq Hr Hqp HM]. destruct (HM p b Hp) as (Rp & Hb & Hpl & Hpq).
  pose proof (fun x => kv_list_pages _ _ _ _ x Hks HL) as HT.
  destruct (q_room_push k db q p (next_page db) Hq Hr) as [Hr' Hsafe]. destruct Hr as (Hh & Ht & _).
  assert (Hnq : next_page db ∉ p :: q_pages q) by (rewrite elem_of_cons; intros [|H%Hqp]; lia).
  destruct (freePushTail_rep db q p Hq ltac:(lia) Hsafe En0 Hnq Hpq) as (db' & E & Hq' & N & (Hsame & Hmx & Fr) & HW).
  { split; [lia|]. split; [unfold in_u64; lia|by exists b]. }
  pose proof (q_push_perm (next_page db) q p (proj2 (q_rep_tail _ _ Hq))) as HP.
  exists db'. split; [done|]. set (q' := (q_push (next_page db) q p).1) in *. set (a := (q_push (next_page db) q p).2) in *.
  assert (Hcnt : kNappend db <= kNappend db' <= kNappend db + 1 /\
    (forall x, x ∈ (if a then [next_page db] else []) ++ p :: q_pages q -> 0 < x < kFlushed db + kNappend db')).
  { assert (Hqx : forall x, x ∈ q_pages q -> 0 < x < kFlushed db + kNappend db).
    { intros x Hx. split; [|by apply Hqp]. apply HT, elem_of_cons. by right. }
    rewrite N. destruct a; [rewrite u64_small by (unfold in_u64; destruct Hks; lia)|]; (split; [lia|]); intros x;
      cbn [app]; rewrite !elem_of_cons; [intros [-> |[-> |H%Hqx]]|intros [-> |H%Hqx]]; destruct Hks; lia. }
  destruct Hcnt as [Hc1 Hc2]. pose proof Hsame as (_ & Hfl & _). split; [by eapply kv_sizes_step|].
  right. exists q'. split; [done|done| |]; rewrite Hfl.
  { intros x Hx. apply Hc2. by rewrite <- HP. }
  intros x bx [Hpx Hx]%lookup_delete_Some. destruct (HM x bx Hx) as (Rx & Hbx & Hxl & Hxq).
  assert (Hxn : x ∉ next_page db :: q_pages q) by (intros (_ & _ & ? & _)%HT; congruence). rewrite elem_of_cons in Hxn.
  split; [|split; [done|split; [lia|]]].
  - rewrite Fr; [done|]. rewrite !elem_of_cons. intros [?|[-> |?]]; tauto.
  - rewrite HP. rewrite elem_of_app, elem_of_cons. intros [Hxa|[-> |?]]; [|done|tauto].
    destruct a; [apply list_elem_of_singleton in Hxa; tauto|by apply not_elem_of_nil in Hxa].
Qed.
#[export] Instance kv_laws : PageLaws KV kv_pages.
Proof.
  split.
  - intros k db M p b (_ & [[-> _]|[q [_ _ _ HM]]]) Hp; [done|]. by destruct (HM p b Hp).
  - intros k db M b [Hks [[-> Hf]|[q HL]]] Hb; [by apply kv_alloc_fresh|by apply (kv_alloc_list k db M q b)].
  - intros k db M p. apply kv_del_list.
  - intros k db M [[H1 H2 H3 H4 H5 H6] Hc]. split; [split; try done; lia|].
    destruct Hc as [Hc|(q & [Hq (Hh & Ht & Hs) Hb HM])]; [by left|right]. exists q. split; try done.
    split; [done|]. split; [lia|]. destruct Hs; [by left|right; lia].
  - intros k db M (_ & [[-> _]|[q [_ _ _ HM]]]); [done|]. destruct (M !! 0) eqn:E; [|done].
    destruct (HM _ _ E). lia.
Qed.

(** ** The database as a map *)

(** The root pointer plays no part in the pages. *)
Lemma kv_pages_root k r db M : kv_pages k db M -> kv_pages k (set_root r db) M.
Proof.
  intros [[H1 H2 H3 H4 H5 H6] Hc]. split; [by split|]. destruct Hc as [Hc|[q [L1 L2 L3 L4]]]; [by left|right].
  exists q. by split.
Qed.

(** [db] holds the map [m] in a tree of height [h], with room for [n] page
    operations. *)
Definition kv_holds (n h : nat) (db : KV) (m : gmap bytes bytes) : Prop :=
  map_tree (pages := kv_pages) tree_rep n h db (kRoot db) m.

Definition KVSets (fuel : nat) (db : KV) (ops : list (bytes * bytes)) : res KV :=
  foldM (fun db '(key, val) => KVSet fuel db key val) db ops.
Definition last_values (ops : list (bytes * bytes)) (m : gmap bytes bytes) : gmap bytes bytes :=
  foldl (fun m kv => <[kv.1 := kv.2]> m) m ops.

Lemma map_tree_root R r n h db root m :
  map_tree (pages := kv_pages) R n h db root m -> map_tree (pages := kv_pages) R n h (set_root r db) root m.
Proof. intros (M & l & HR & Hp & H). exists M, l. split; [done|]. split; [by apply kv_pages_root|done]. Qed.
Lemma KVSet_spec n h fuel db m key val : kv_holds (3 * h + (5 + n)) h db m -> user_kv (key, val) -> (h < fuel)%nat ->
  exists db' h', KVSet fuel db key val = Ok db' /\ kv_holds n h' db' (<[key := val]> m) /\ (h' <= S h)%nat.
Proof.
  intros Hdb Hk Hf. destruct (map_insert n h fuel db (kRoot db) m key val Hdb Hk Hf) as (db' & root & h' & E & Hdb' & Hh).
  exists (set_root root db'), h'. split; [unfold KVSet; by rstep E|]. split; [by apply map_tree_root|done].
Qed.
Lemma kv_holds_mono j n h db m : (n <= j)%nat -> kv_holds j h db m -> kv_holds n h db m.
Proof. apply map_tree_mono. Qed.
Lemma KVSets_spec fuel ops : forall n h db m, kv_holds (length ops * (3 * (h + length ops) + 5) + n) h db m -> Forall user_kv ops ->
  (h + length ops < fuel)%nat ->
  exists db' h', KVSets fuel db ops = Ok db' /\ kv_holds n h' db' (last_values ops m) /\ (h' <= h + length ops)%nat.
Proof.
  induction ops as [|[key val] ops IH]; intros n h db m Hdb Hops Hf; [exists db, h; cbn in *; split; [done|]; split; [done|lia]|].
  apply list.Forall_cons in Hops as [Hk Hops]. cbn [length] in *.
  destruct (KVSet_spec (length ops * (3 * (S h + length ops) + 5) + n) h fuel db m key val) as (db1 & h1 & E1 & Hdb1 & Hh1);
    [eapply kv_holds_mono; [|exact Hdb]; nia|done|lia|].
  destruct (IH n h1 db1 (<[key := val]> m)) as (db2 & h2 & E2 & Hdb2 & Hh2); [eapply kv_holds_mono; [|exact Hdb1]; nia|done|lia|].
  exists db2, h2. split; [unfold KVSets; cbn [foldM]; by rstep E1|]. split; [done|lia].
Qed.

(** ** Commit and reopening *)

(** A store that can only be read. *)
Definition readable {S} `{PageStore S} (k : nat) (s : S) (M : gmap Z bytes) : Prop :=
  k = 0%nat /\ M !! 0 = None /\ forall p b, M !! p = Some b -> page_get s p = Ok b.
Lemma readable_laws {S} `{PageStore S} : PageLaws S readable.
Proof.
  split; unfold readable.
  - by intros k s M p b (_ & _ & Hr) Hp; apply Hr.
  - by intros k s M b [Hk _].
  - by intros k s M p [Hk _].
  - by intros k s M [Hk _].
  - by intros k s M (_ & Hz & _).
Qed.

Lemma kv_holds_meta n h db m : map_tree (pages := kv_pages) tree_any n h db (kRoot db) m -> meta_ok db /\ size_ok db.
Proof.
  intros (M & l & Ht & [Hks Hc] & _ & _). pose proof Hks as [H1 H2 H3 _ _ H6]. unfold PAGE_LIMIT in H3.
  split; [|split; [lia|]; split; [lia|unfold PAGE_SIZE; lia]]. split; [|split; [unfold in_u64; lia|]].
  - assert (HM : forall p b, M !! p = Some b -> in_u64 p).
    { intros p b Hp. destruct Hc as [[-> _]|[q [_ _ _ HM]]]; [done|]. destruct (HM p b Hp). unfold in_u64. lia. }
    destruct Ht as [[]|]; [done|by eapply HM..].
  - destruct Hc as [[_ [-> _]]|[q [[[-> HF]|Hq] (Hh & Ht' & _) _ _]]]; [done|by rewrite HF|].
    pose proof (fun p => q_repd_in _ _ _ p Hq) as Hin. pose proof (q_repd_tail _ _ _ Hq) as HT.
    destruct Hq as (Hh' & _ & Hfc & _). unfold SEQ_LIMIT, q_tail in *.
    assert (HP : forall i p, q_chain q !! i = Some p -> in_u64 p).
    { intros i p Hp. apply Hin. apply elem_of_app. left. by eapply list_elem_of_lookup_2. }
    split; [by eapply HP, (fc_head _ _ _ _ Hfc)|]. split; [unfold in_u64; lia|].
    split; [by eapply HP, (fc_tail _ _ _ _ Hfc)|]. split; [unfold in_u64; lia|done].
Qed.
Lemma committed_tree n h db m faults ws db' : map_tree (pages := kv_pages) tree_any n h db (kRoot db) m ->
  ws ≡ₚ map_to_list (kUpdates db) -> updateFile faults ws db = Ok (db', true) -> blen (kFile db') <= 2305843009213693952 ->
  map_tree (pages := readable) tree_any 0 h db' (kRoot db') m /\
  exists db'', Open [] (kFile db') = Ok (db'', true) /\ map_tree (pages := readable) tree_any 0 h db'' (kRoot db'') m.
Proof.
  intros Hdb Hws E Hlen. destruct (kv_holds_meta _ _ _ _ Hdb) as [Hmeta Hsize].
  destruct Hdb as (M & l & Ht & Hp & Hu & Hm). pose proof Hp as [Hks Hc].
  assert (HG : forall d, kRoot d = kRoot db -> (forall p b, 1 <= p -> pageRead db p = Ok b -> pageRead d p = Ok b) ->
    map_tree (pages := readable) tree_any 0 h d (kRoot d) m).
  { intros d Hr Hd. exists M, l. rewrite Hr. split; [done|]. split; [|done].
    split; [done|]. split; [exact (pages_zero n db M Hp)|]. intros p b Hpb. apply Hd; [|exact (pages_get n db M p b Hp Hpb)].
    destruct Hc as [[-> _]|[q [_ _ _ HM]]]; [done|]. destruct (HM p b Hpb). lia. }
  destruct (updateFile_reads faults ws db db') as (E1 & E2 & E3 & E4 & E5 & Hm' & H96 & Hh & Hrd); try done; try apply Hks.
  split; [apply HG; [done|]; intros p b Hp1 Hpb; by apply Hrd|].
  destruct Hmeta as (Hr & Hfl & Hfr).
  destruct (Open_spec (kFile db') (kRoot db) (kFlushed db) (kFree db)) as (d & Eo & O1 & O2 & O3 & O4 & O5 & O6); try done.
  exists d. split; [done|]. apply HG; [done|]. intros p b Hp1 Hpb. destruct (Hrd p b Hp1 Hpb) as (P1 & <- & _). apply O6; [lia|done].
Qed.
(** After a commit the whole free list may be used: it must still be short
    enough or long enough. *)
Definition free_room (k : nat) (db : KV) : Prop :=
  tailSeq (kFree db) < CAP - 1 \/ Z.of_nat k <= tailSeq (kFree db) - headSeq (kFree db).
Lemma kv_list_commit n db db' M q : kv_sizes n db -> kv_list n db M q -> free_room n db ->
  kFree db' = mkFree (headPage (kFree db)) (headSeq (kFree db)) (tailPage (kFree db)) (tailSeq (kFree db)) (tailSeq (kFree db)) ->
  kFlushed db' + kNappend db' = kFlushed db + kNappend db ->
  (forall p b, 1 <= p -> pageRead db p = Ok b -> pageRead db' p = Ok b) -> exists q', kv_list n db' M q'.
Proof.
  intros Hks [Hq (Hh & Ht & _) Hb HM] Hroom HF Hn HR. rewrite <- Hn in *. exists (mkQueue (q_chain q) (q_items q) (q_head q) (q_tail q)).
  assert (HT : tailSeq (kFree db) = q_tail q /\ headSeq (kFree db) = q_head q).
  { destruct Hq as [[-> ->]|Hq]; [done|]. split; [by apply (q_repd_tail 1 db)|symmetry; apply Hq]. }
  destruct HT as [HT HH]. split.
  - destruct Hq as [[-> E]|Hq]; [left; rewrite HF, E; done|right]. pose proof (q_repd_in 1 db q) as Hin.
    destruct Hq as (E1 & E2 & Hc & Hl). split; [by rewrite HF|]. split; [rewrite HF; cbn; by rewrite HT|].
    rewrite HF. split; [|exact Hl]. apply (fl_core_ext (pageRead db)).
    + intros p Hp. destruct (Hin p ltac:(by split) Hp) as (H0 & H1 & b & Hpb & _). rewrite Hpb. apply HR; [unfold in_u64 in H1; lia|done].
    + destruct Hc. by split.
  - unfold kv_room, q_tail. cbn [q_head q_items q_max]. split; [done|]. split; [exact Ht|]. unfold free_room in Hroom. rewrite HT, HH in Hroom. unfold q_tail in Hroom.
    destruct Hroom as [|]; [by left|right; lia].
  - intros p Hp. by apply Hb.
  - intros p b Hp. destruct (HM p b Hp) as (R & Hbl & Hlt & Hnq). split; [apply HR; [lia|done]|done].
Qed.
Lemma kv_holds_commit R n h db m faults ws db' : map_tree (pages := kv_pages) R n h db (kRoot db) m -> (forall M r l, R M r h l -> tree_any M r h l) ->
  ws ≡ₚ map_to_list (kUpdates db) -> updateFile faults ws db = Ok (db', true) -> free_room n db' ->
  map_tree (pages := kv_pages) R n h db' (kRoot db') m.
Proof.
  intros (M & l & Ht & Hp & Hu & Hm) HR Hws E Hroom.
  destruct (kv_holds_meta n h db m) as [Hmeta Hsize]; [exists M, l; split; [by apply HR|done]|].
  destruct (updateFile_reads faults ws db db') as (E1 & E2 & E3 & E4 & E5 & Hm' & H96 & Hh & Hrd); try done; try apply Hp.
  assert (Hroom' : free_room n db) by (unfold free_room in *; by rewrite E5 in Hroom).
  exists M, l. rewrite E4. split; [done|]. split; [|done]. destruct Hp as [Hks Hc]. destruct Hmeta as (_ & _ & Hfr). split.
  - destruct Hks as [H1 H2 H3 _ _ _]. split; rewrite ?E2, ?E3, ?E5; try done; try lia; [intros p b; by rewrite E1|apply Hfr].
  - destruct Hc as [[-> [HF Hfl]]|(q & Hq)]; [left|right].
    + split; [done|]. destruct Hks. split; [by rewrite E5; cbn; rewrite HF|lia].
    + apply (kv_list_commit n db db' M q Hks Hq Hroom'); [by rewrite E5|lia|]. intros p b Hp1 Hpb. by apply Hrd.
Qed.
Lemma committed_reads n h fuel db m faults ws db' : map_tree (pages := kv_pages) tree_any n h db (kRoot db) m -> (h < fuel)%nat ->
  ws ≡ₚ map_to_list (kUpdates db) -> updateFile faults ws db = Ok (db', true) -> blen (kFile db') <= 2305843009213693952 ->
  (forall key, key <> [] -> KVGet fuel db' key = Ok (m !! key)) /\
  exists db'', Open [] (kFile db') = Ok (db'', true) /\ forall key, key <> [] -> KVGet fuel db'' key = Ok (m !! key).
Proof.
  intros Hdb Hf Hws E Hlen. destruct (committed_tree _ _ _ _ _ _ _ Hdb Hws E Hlen) as [H1 (db'' & Eo & H2)].
  pose proof (@readable_laws KV _) as HL.
  split; [intros key Hk; by apply (map_get 0 h)|]. exists db''. split; [done|]. intros key Hk. by apply (map_get 0 h).
Qed.

(** C1: the database as a whole.  On a [KV] whose tree holds the map [m], a
    sequence of [Set]s of entries that fit a third of a page ([user_kv]) runs through,
    as long as there is room for their pages, and [Get] then returns the last value set
    or the one of [m]; when [updateFile] reports success, [Get] returns the same
    in the running process and in a process that opens the file again. *)
Theorem database_refines_map fuel ops n h db m : kv_holds (length ops * (3 * (h + length ops) + 5) + n) h db m ->
  Forall user_kv ops -> (h + length ops < fuel)%nat ->
  exists db', KVSets fuel db ops = Ok db' /\
    (forall key, key <> [] -> KVGet fuel db' key = Ok (last_values ops m !! key)) /\
    forall faults ws db'', ws ≡ₚ map_to_list (kUpdates db') -> updateFile faults ws db' = Ok (db'', true) ->
      blen (kFile db'') <= 2305843009213693952 ->
      (forall key, key <> [] -> KVGet fuel db'' key = Ok (last_values ops m !! key)) /\
      exists db3, Open [] (kFile db'') = Ok (db3, true) /\
        forall key, key <> [] -> KVGet fuel db3 key = Ok (last_values ops m !! key).
Proof.
  intros Hdb Hops Hf. destruct (KVSets_spec fuel ops n h db m Hdb Hops Hf) as (db' & h' & E & Hdb' & Hh).
  exists db'. split; [done|]. split; [intros key Hk; eapply map_get; [by apply map_tree_any, Hdb'|done|lia]|].
  intros faults ws db'' Hws Eu Hlen. eapply committed_reads; [by apply map_tree_any, Hdb'|lia|done|done|done].
Qed.

(** ** Instance: a new database *)

Definition new_db : KV := mkKV 0 2 0 ∅ (mkFree 1 0 1 0 0) 0 [] [].
Lemma new_db_open : Open [] [] = Ok (new_db, true).
Proof. reflexivity. Qed.
Lemma new_db_holds n : Z.of_nat n <= 1000000 -> kv_holds n 0 new_db ∅.
Proof.
  intros Hn. exists ∅, []. split; [apply rep_empty|]. split; [|split; [by split; constructor|done]].
  split; [|left; by split; [|split]]. split; cbn; try done; unfold PAGE_LIMIT; lia.
Qed.
(** Two entries, their commit and the database opened again. *)
Definition two : list (bytes * bytes) := [([Byte.x61], [Byte.x31]); ([Byte.x62], [Byte.x32])].
Definition ok_or {A} (d : A) (r : res A) : A := match r with Ok x => x | Crash _ => d end.
Definition two_db : KV := ok_or new_db (KVSets 3 new_db two).
Definition two_committed : KV := (ok_or (new_db, false) (updateFile [] (map_to_list (kUpdates two_db)) two_db)).1.
Lemma two_commit : updateFile [] (map_to_list (kUpdates two_db)) two_db = Ok (two_committed, true).
Proof. vm_compute. reflexivity. Qed.
Lemma two_sets : KVSets 3 new_db two = Ok two_db.
Proof. vm_compute. reflexivity. Qed.
Lemma two_small : blen (kFile two_committed) <= 2305843009213693952.
Proof. vm_compute. discriminate. Qed.
Lemma database_refines_map_witness : exists db3, Open [] (kFile two_committed) = Ok (db3, true) /\
  KVGet 3 db3 [Byte.x62] = Ok (last_values two ∅ !! [Byte.x62]).
Proof.
  assert (Hops : Forall user_kv two) by (apply (bool_decide_eq_true (Forall user_kv two)); vm_compute; reflexivity).
  destruct (database_refines_map 3 two 0 0 new_db ∅ (new_db_holds 22 ltac:(lia)) Hops ltac:(repeat constructor))
    as (db & E & _ & HC).
  assert (Ed : two_db = db) by exact (f_equal (ok_or new_db) (eq_trans (eq_sym two_sets) E)). subst db.
  destruct (HC [] _ two_committed (Permutation_refl _) two_commit two_small) as [_ (db3 & E3 & H3)].
  exists db3. exact (conj E3 (H3 [Byte.x62] ltac:(discriminate))).
Defined.
