(* ===== verification/Util.v ===== *)
(** * util/util.go: sets of keys and removal from a slice

    A [Set] of Go keeps its keys as strings in a map to empty structs; here it is
    the finite set of the keys' bytes. *)
From Stdlib Require Import ZArith Lia.
From stdpp Require Import base gmap list strings countable.
From coqutil Require Import Byte.
From S2P Require Import Prelude.

(** The type [Set] of Go. *)
Definition KeySet : Type := gset bytes.
Definition NewSet : KeySet := ∅.
Definition Set_Has (s : KeySet) (key : bytes) : bool := bool_decide (key ∈ s).
(** The results say whether the set changed. *)
Definition Set_Set (s : KeySet) (key : bytes) : KeySet * bool :=
  if decide (key ∈ s) then (s, false) else ({[key]} ∪ s, true).
Definition Set_Del (s : KeySet) (key : bytes) : KeySet * bool :=
  if decide (key ∉ s) then (s, false) else (s ∖ {[key]}, true).

Lemma Set_Set_eq s key : (Set_Set s key).1 = {[key]} ∪ s.
Proof. unfold Set_Set. case_decide; cbn; set_solver. Qed.
Lemma Set_Del_eq s key : (Set_Del s key).1 = s ∖ {[key]}.
Proof. unfold Set_Del. case_decide; cbn; set_solver. Qed.

(** The loop of [IntSliceRemove]: [i] stays when an element is removed at it. *)
Fixpoint remove_loop (fuel : nat) (key : Z) (ls : list Z) (i : nat) : res (list Z) :=
  match fuel with
  | O => Crash OutOfFuel
  | S fuel =>
      match ls !! i with
      | None => Ok ls
      | Some x => if x =? key then remove_loop fuel key (take i ls ++ drop (S i) ls) i
                  else remove_loop fuel key ls (S i)
      end
  end.
Definition IntSliceRemove (key : Z) (ls : list Z) : res (list Z) := remove_loop (S (length ls)) key ls 0.

Lemma remove_loop_spec key rest : forall fuel pre, (length rest < fuel)%nat ->
  remove_loop fuel key (pre ++ rest) (length pre) = Ok (pre ++ filter (fun x => x <> key) rest).
Proof.
  induction rest as [|x rest IH]; intros fuel pre Hf; (destruct fuel as [|fuel]; [cbn in Hf; lia|]); cbn [remove_loop].
  - change (filter (fun x => x <> key) []) with (@nil Z). rewrite !app_nil_r. by rewrite (proj2 (lookup_ge_None pre _)).
  - cbn [length] in Hf. rewrite list_lookup_middle by done. rewrite filter_cons. destruct (Z.eqb_spec x key) as [->|Hx].
    + rewrite decide_False by (intros H; by apply H). rewrite take_app_length.
      assert (Hd : drop (S (length pre)) (pre ++ key :: rest) = rest) by (by rewrite (drop_app_ge _ _ (S (length pre))), Nat.sub_succ_l, Nat.sub_diag by lia).
      rewrite Hd. apply IH. lia.
    + rewrite decide_True by done. change (x :: filter (fun x => x <> key) rest) with ([x] ++ filter (fun x => x <> key) rest).
      change (x :: rest) with ([x] ++ rest). rewrite !app_assoc.
      replace (S (length pre)) with (length (pre ++ [x])) by (rewrite length_app; cbn; lia). apply IH. lia.
Qed.
(** The loop ends, and every copy of the key is gone; nothing else is. *)
Lemma IntSliceRemove_filter key ls : IntSliceRemove key ls = Ok (filter (fun x => x <> key) ls).
Proof. apply (remove_loop_spec key ls (S (length ls)) []). lia. Qed.
