(* ===== verification/Tx.v ===== *)
(** * storage/disk.go: transactions

    A [KVTX] of Go holds a pointer to the database, a snapshot (the root of the
    tree at [Begin], read through the database) and a pending tree in memory;
    here the database is an argument of the operations that read it.  The maps
    [writes] and [deletes] are used as sets of keys; the order in which [Commit]
    iterates over them is an argument. *)
From Stdlib Require Import ZArith Lia.
From stdpp Require Import base gmap list strings countable sorting.
From coqutil Require Import Byte Word.LittleEndianList.
From S2P Require Import Prelude KVList BNode NodeLayout NodeOps Disk FreeList Commit BTree TreeRep TreeGet TreeInsert TreeDelete TreeRoot TreeSpec Iter KVStore Util.

(** ** The pending pages

    The closures that [Begin] gives the pending tree: pages are numbered from 1,
    reading a number that is not there gives a nil node, and nothing is freed. *)
Record Pending := mkPending { nPages : Z; pPages : gmap Z bytes }.
#[export] Instance pending_store : PageStore Pending := {|
  page_get s ptr := Ok (default [] (pPages s !! ptr));
  page_new s node := let n := u64 (nPages s + 1) in Ok (mkPending n (<[n := node]> (pPages s)), n);
  page_del s _ := Ok s
|}.
Definition pending_pages (k : nat) (s : Pending) (M : gmap Z bytes) : Prop :=
  M ⊆ pPages s /\ 0 <= nPages s /\ nPages s + Z.of_nat k < 18446744073709551616 /\
  forall p, is_Some (pPages s !! p) -> 0 < p <= nPages s.
#[export] Instance pending_laws : PageLaws Pending pending_pages.
Proof.
  split.
  - intros k s M p b (HM & _) Hp. cbn. by rewrite (lookup_weaken _ _ _ _ Hp HM).
  - intros k s M b (HM & Hn & Hk & HP) _. cbn. rewrite u64_small by (unfold in_u64; lia). eexists _, _. split; [done|].
    assert (HN : pPages s !! (nPages s + 1) = None).
    { destruct (pPages s !! (nPages s + 1)) eqn:E; [|done]. specialize (HP (nPages s + 1) ltac:(by eexists)). lia. }
    split; [by eapply lookup_weaken_None|]. split; [lia|]. split; [unfold in_u64; lia|]. cbn.
    split; [by apply insert_mono|]. split; [cbn; lia|]. split; [cbn; lia|]. cbn. intros p Hp.
    destruct (decide (p = nPages s + 1)) as [->|Hd]; [lia|]. rewrite lookup_insert_ne in Hp by done. specialize (HP p Hp). lia.
  - intros k s M p (HM & Hn & Hk & HP) _. exists s. split; [done|]. split; [|split; [done|split; [lia|done]]].
    etransitivity; [apply delete_subseteq|done].
  - intros k s M (HM & Hn & Hk & HP). split; [done|]. split; [done|]. split; [lia|done].
  - intros k s M (HM & _ & _ & HP). destruct (M !! 0) eqn:E; [|done]. eapply lookup_weaken in E; [|exact HM].
    specialize (HP 0 ltac:(by eexists)). lia.
Qed.

(** ** The transaction *)

Record KVTX := mkTX {
  tMeta : bytes;
  tSnapshot : Z;          (* snapshot.Root *)
  tPending : Z;           (* pending.Root *)
  tPages : Pending;
  delSet : KeySet; writeSet : KeySet; readSet : KeySet;
  writes : gset bytes; deletes : gset bytes
}.
Definition NewKVTX : KVTX := mkTX [] 0 0 (mkPending 0 ∅) NewSet NewSet NewSet ∅ ∅.

(** [Begin] leaves the root of the pending tree as it is. *)
Definition Begin (db : KV) (tx : KVTX) : res KVTX :=
  meta ← saveMeta db;
  Ok (mkTX meta (kRoot db) (tPending tx) (mkPending 0 ∅) NewSet NewSet NewSet ∅ ∅).

(** [None] is an error. *)
Definition TXGet (fuel : nat) (db : KV) (tx : KVTX) (key : bytes) : res (KVTX * option bytes) :=
  if Set_Has (delSet tx) key then Ok (tx, None) else
  let tx := mkTX (tMeta tx) (tSnapshot tx) (tPending tx) (tPages tx) (delSet tx) (writeSet tx)
    (Set_Set (readSet tx) key).1 (writes tx) (deletes tx) in
  val ← GetVal fuel (tPages tx) (tPending tx) key;
  match val with
  | Some val => Ok (tx, Some val)
  | None => val ← GetVal fuel db (tSnapshot tx) key; Ok (tx, val)
  end.

Definition TXSet (fuel : nat) (tx : KVTX) (key val : bytes) : res KVTX :=
  let '(dels, deletes) :=
    if Set_Has (delSet tx) key then ((Set_Del (delSet tx) key).1, deletes tx ∖ {[key]}) else (delSet tx, deletes tx) in
  let wset := (Set_Set (writeSet tx) key).1 in
  let writes := {[key]} ∪ writes tx in
  '(pages, root) ← Insert fuel (tPages tx) (tPending tx) key val;
  Ok (mkTX (tMeta tx) (tSnapshot tx) root pages dels wset (readSet tx) writes deletes).

Definition TXDel (fuel : nat) (tx : KVTX) (key : bytes) : res (KVTX * bool) :=
  if Set_Has (delSet tx) key then Ok (tx, false) else
  let dels := (Set_Set (delSet tx) key).1 in
  let deletes := {[key]} ∪ deletes tx in
  if Set_Has (writeSet tx) key then
    let wset := (Set_Del (writeSet tx) key).1 in
    '(pages, root, ok) ← Delete fuel (tPages tx) (tPending tx) key;
    Ok (mkTX (tMeta tx) (tSnapshot tx) root pages dels wset (readSet tx) (writes tx) deletes, ok)
  else
    Ok (mkTX (tMeta tx) (tSnapshot tx) (tPending tx) (tPages tx) dels (writeSet tx) (readSet tx) (writes tx) deletes, true).

(** An iterator over the snapshot. *)
Definition Seek (fuel : nat) (db : KV) (tx : KVTX) (key : bytes) : res BIter := SeekLE fuel db (tSnapshot tx) key.

(** The loops of [Commit], over the keys in the order the map gives them. *)
Definition commit_write (fuel : nat) (tx : KVTX) (db : KV) (key : bytes) : res KV :=
  val ← GetVal fuel (tPages tx) (tPending tx) key;
  KVSet fuel db key (default [] val).
Definition commit_delete (fuel : nat) (db : KV) (key : bytes) : res KV :=
  '(db, _) ← KVDel fuel db key; Ok db.
(** The boolean is false when the error of [updateFile] is returned. *)
Definition TXCommit (fuel : nat) (wkeys dkeys : list bytes) (faults : list bool) (ws : KV -> list (Z * bytes))
    (db : KV) (tx : KVTX) : res (KV * bool) :=
  db ← foldM (commit_write fuel tx) db wkeys;
  db ← foldM (commit_delete fuel) db dkeys;
  '(db, ok) ← updateFile faults (ws db) db;
  if (ok : bool) then Ok (db, true) else db ← Abort db (tMeta tx); Ok (db, false).

(** ** What a transaction stands for *)

Abbreviation pend_tree R n h tx p := (map_tree (pages := pending_pages) R n h (tPages tx) (tPending tx) p).

(** The pending tree holds the map [p]: the entries set and not deleted since. *)
Record tx_rep (R : gmap Z bytes -> Z -> nat -> kvl -> Prop) (n h : nat) (tx : KVTX) (p : gmap bytes bytes) : Prop := {
  tr_pending : pend_tree R n h tx p;
  tr_wset : writeSet tx = dom p;
  tr_dset : delSet tx = deletes tx;
  tr_writes : dom p ⊆ writes tx /\ writes tx ⊆ dom p ∪ deletes tx;
  tr_apart : dom p ## deletes tx;
  tr_keys k : k ∈ writes tx ∪ deletes tx -> user_kv (k, [])
}.
(** The database as the transaction sees it, on the map [m] of the snapshot. *)
Definition tx_view (tx : KVTX) (p m : gmap bytes bytes) (key : bytes) : option bytes :=
  if decide (key ∈ deletes tx) then None else match p !! key with Some v => Some v | None => m !! key end.
Definition tx_map (tx : KVTX) (p m : gmap bytes bytes) : gmap bytes bytes := filter (fun kv => kv.1 ∉ deletes tx) (p ∪ m).
Lemma tx_map_lookup tx p m key : tx_map tx p m !! key = tx_view tx p m key.
Proof.
  unfold tx_map, tx_view. case_decide as Hd.
  - apply map_lookup_filter_None_2. right. intros x _ Hn. by apply Hn.
  - transitivity ((p ∪ m) !! key); [|rewrite lookup_union; by destruct (p !! key), (m !! key)].
    destruct ((p ∪ m) !! key) eqn:E; [by apply map_lookup_filter_Some_2|apply map_lookup_filter_None_2; by left].
Qed.

Lemma user_key k v : user_kv (k, v) -> user_kv (k, []).
Proof. intros [[H1 H2] H3]. cbn in *. pose proof (blen_nonneg v). split; [split; cbn; [done|change (blen []) with 0; lia]|done]. Qed.

Lemma TXGet_spec R n h hs fuel db Ms ls tx p m key : tx_rep R n h tx p -> (forall M r h l, R M r h l -> tree_any M r h l) ->
  tree_any Ms (tSnapshot tx) hs ls -> readable 0 db Ms -> user_kvs ls -> kv_map ls = m -> key <> [] -> (h < fuel)%nat -> (hs < fuel)%nat ->
  exists tx', TXGet fuel db tx key = Ok (tx', tx_view tx p m key) /\ tx_rep R n h tx' p /\
    deletes tx' = deletes tx /\ tSnapshot tx' = tSnapshot tx /\ tMeta tx' = tMeta tx /\ writes tx' = writes tx.
Proof.
  intros Htx HR Hs Hr Hu <- Hk Hf Hfs. pose proof Htx as [HP Hw Hd Hws Ha Hks]. unfold TXGet, tx_view, Set_Has. rewrite Hd.
  case_bool_decide as Hin; [rewrite decide_True by done; by exists tx|]. rewrite decide_False by done.
  assert (HP' : pend_tree tree_any n h tx p).
  { destruct HP as (M & l & HRl & H). exists M, l. split; [by apply HR|done]. }
  eexists. cbn [tPages tPending tSnapshot]. rstep (map_get n h fuel (tPages tx) (tPending tx) p key HP' Hk Hf).
  pose proof (@readable_laws KV _) as HL. destruct (p !! key) as [v|].
  - split; [done|]. split; [by split|done].
  - assert (Hm : map_tree (pages := readable) tree_any 0 hs db (tSnapshot tx) (kv_map ls)) by by exists Ms, ls.
    rstep (map_get 0 hs fuel db (tSnapshot tx) (kv_map ls) key Hm Hk Hfs). split; [done|]. split; [by split|done].
Qed.
Lemma TXSet_spec n h fuel tx p key val : tx_rep tree_rep (3 * h + (5 + n)) h tx p -> user_kv (key, val) -> (h < fuel)%nat ->
  exists tx' h', TXSet fuel tx key val = Ok tx' /\ tx_rep tree_rep n h' tx' (<[key := val]> p) /\
    deletes tx' = deletes tx ∖ {[key]} /\ tSnapshot tx' = tSnapshot tx /\ tMeta tx' = tMeta tx /\
    writes tx' = {[key]} ∪ writes tx /\ (h' <= S h)%nat.
Proof.
  intros [HP Hw Hd [Hw1 Hw2] Ha Hks] Hk Hf.
  destruct (map_insert n h fuel (tPages tx) (tPending tx) p key val HP Hk Hf) as (s' & root & h' & E & HP' & Hh).
  assert (HD : (if Set_Has (delSet tx) key then ((Set_Del (delSet tx) key).1, deletes tx ∖ {[key]}) else (delSet tx, deletes tx)) =
    (deletes tx ∖ {[key]}, deletes tx ∖ {[key]})).
  { unfold Set_Has. rewrite Set_Del_eq, Hd. case_bool_decide; [done|]. f_equal; set_solver. }
  eexists _, h'. unfold TXSet. rewrite HD. rstep E. split; [done|]. cbn. split; [|done]. split; cbn.
  - exact HP'.
  - by rewrite Set_Set_eq, Hw, dom_insert_L.
  - done.
  - rewrite dom_insert_L. clear -Hw1 Hw2. split; [set_solver|]. intros k. specialize (Hw2 k). set_unfold. destruct (decide (k = key)); naive_solver.
  - rewrite dom_insert_L. set_solver.
  - intros k. rewrite elem_of_union, elem_of_union, elem_of_singleton. intros [[->|Hin]|Hin]; [by eapply user_key|apply Hks..]; set_solver.
Qed.
(** Deleting a key the transaction has not set only notes it. *)
Lemma TXDel_unset R n h fuel tx p key : tx_rep R n h tx p -> user_kv (key, []) -> key ∉ dom p ->
  exists tx' ok, TXDel fuel tx key = Ok (tx', ok) /\ tx_rep R n h tx' p /\ ok = bool_decide (key ∉ deletes tx) /\
    deletes tx' = {[key]} ∪ deletes tx /\ tSnapshot tx' = tSnapshot tx /\ tMeta tx' = tMeta tx /\ writes tx' = writes tx.
Proof.
  intros Htx Hk Hkp. pose proof Htx as [HP Hw Hd [Hw1 Hw2] Ha Hks]. unfold TXDel, Set_Has. rewrite Hd, Hw.
  case_bool_decide as Hin.
  - exists tx, false. split; [done|]. split; [done|]. rewrite bool_decide_false by set_solver. split; [done|]. split; [set_solver|done].
  - rewrite bool_decide_false by done. rewrite bool_decide_true by done. eexists _, true. split; [done|]. cbn. split; [|done]. split; cbn.
    + exact HP.
    + done.
    + by rewrite Set_Set_eq.
    + set_solver.
    + set_solver.
    + intros k. rewrite !elem_of_union, elem_of_singleton. intros [Hin'|[->|Hin']]; [apply Hks; set_solver|done|apply Hks; set_solver].
Qed.
(** Deleting one it has set takes it out of the pending tree. *)
Lemma TXDel_set n h fuel tx p key : tx_rep tree_any (2 * h + (2 + n)) h tx p -> user_kv (key, []) -> key ∈ dom p ->
  run_fits key (stored p) (stored p) -> delete key p <> ∅ -> (h < fuel)%nat ->
  exists tx' h' ok, TXDel fuel tx key = Ok (tx', ok) /\ tx_rep tree_any n h' tx' (delete key p) /\
    deletes tx' = {[key]} ∪ deletes tx /\ tSnapshot tx' = tSnapshot tx /\ tMeta tx' = tMeta tx /\ writes tx' = writes tx.
Proof.
  intros Htx Hk Hkp Hlen Hne Hf. pose proof Htx as [HP Hw Hd [Hw1 Hw2] Ha Hks].
  destruct (map_delete n h fuel (tPages tx) (tPending tx) p key HP (proj2 Hk) Hlen Hne Hf) as (s' & root & h' & ok & E & HP' & Hh).
  unfold TXDel, Set_Has. rewrite Hd, Hw, bool_decide_false, bool_decide_true by set_solver. rstep E.
  eexists _, h', ok. split; [done|]. cbn. split; [|done]. split; cbn.
  - exact HP'.
  - by rewrite Set_Del_eq, dom_delete_L.
  - by rewrite Set_Set_eq.
  - rewrite dom_delete_L. clear -Hw1 Hw2. split; [set_solver|]. intros k. specialize (Hw2 k). set_unfold. destruct (decide (k = key)); naive_solver.
  - rewrite dom_delete_L. set_solver.
  - intros k. rewrite !elem_of_union, elem_of_singleton. intros [Hin'|[->|Hin']]; [apply Hks; set_solver|done|apply Hks; set_solver].
Qed.
Lemma Begin_spec db : exists meta, saveMeta db = Ok meta /\
  forall tx, tPending tx = 0 -> exists tx', Begin db tx = Ok tx' /\ tMeta tx' = meta /\ tSnapshot tx' = kRoot db /\ deletes tx' = ∅ /\
    writes tx' = ∅ /\ forall n, Z.of_nat n < 18446744073709551616 -> tx_rep tree_rep n 0 tx' ∅.
Proof.
  destruct (saveMeta_holds db) as (meta & E & _). exists meta. split; [done|]. intros tx Htx.
  eexists. unfold Begin. rstep E. split; [done|]. repeat (split; [done|]). intros n Hn. split; cbn; try done.
  rewrite Htx. apply (map_tree_empty n _ ∅). split; [apply map_empty_subseteq|]. split; [done|]. split; [cbn; lia|].
  intros p [x Hp]. cbn in Hp. by rewrite lookup_empty in Hp.
Qed.

(** ** Sequences of operations *)

Inductive tx_op := OSet (key val : bytes) | ODel (key : bytes).
Definition run_op (fuel : nat) (tx : KVTX) (op : tx_op) : res KVTX :=
  match op with OSet key val => TXSet fuel tx key val | ODel key => '(tx, _) ← TXDel fuel tx key; Ok tx end.
Definition apply_op (m : gmap bytes bytes) (op : tx_op) : gmap bytes bytes :=
  match op with OSet key val => <[key := val]> m | ODel key => delete key m end.
Definition op_key (op : tx_op) : bytes := match op with OSet key _ => key | ODel key => key end.
(** Entries of the size a tree takes, and no key deleted after it was set;
    [W] are the keys set before. *)
Fixpoint plain (W : gset bytes) (ops : list tx_op) : Prop :=
  match ops with
  | [] => True
  | OSet key val :: ops => user_kv (key, val) /\ plain ({[key]} ∪ W) ops
  | ODel key :: ops => user_kv (key, []) /\ key ∉ W /\ plain W ops
  end.

Lemma tx_map_set tx tx' p m key val : deletes tx' = deletes tx ∖ {[key]} ->
  tx_map tx' (<[key := val]> p) m = <[key := val]> (tx_map tx p m).
Proof.
  intros Hd. apply map_eq. intros k. rewrite tx_map_lookup. unfold tx_view. rewrite Hd. destruct (decide (k = key)) as [->|Hk].
  - rewrite !lookup_insert_eq, decide_False by set_solver. done.
  - rewrite !lookup_insert_ne by done. rewrite tx_map_lookup. unfold tx_view.
    destruct (decide (k ∈ deletes tx)); [rewrite decide_True by set_solver|rewrite decide_False by set_solver]; done.
Qed.
Lemma tx_map_del tx tx' p m key : deletes tx' = {[key]} ∪ deletes tx -> tx_map tx' p m = delete key (tx_map tx p m).
Proof.
  intros Hd. apply map_eq. intros k. rewrite tx_map_lookup. unfold tx_view. rewrite Hd. destruct (decide (k = key)) as [->|Hk].
  - rewrite lookup_delete_eq, decide_True by set_solver. done.
  - rewrite lookup_delete_ne by done. rewrite tx_map_lookup. unfold tx_view.
    destruct (decide (k ∈ deletes tx)); [rewrite decide_True by set_solver|rewrite decide_False by set_solver]; done.
Qed.

Lemma run_ops_spec fuel m ops : forall W n h tx p, tx_rep tree_rep (length ops * (3 * (h + length ops) + 5) + n) h tx p ->
  dom p ⊆ W -> plain W ops -> (h + length ops < fuel)%nat ->
  exists tx' p' h', foldM (run_op fuel) tx ops = Ok tx' /\ tx_rep tree_rep n h' tx' p' /\
    tx_map tx' p' m = foldl apply_op (tx_map tx p m) ops /\ tSnapshot tx' = tSnapshot tx /\ tMeta tx' = tMeta tx /\
    (forall k, k ∈ writes tx' ∪ deletes tx' -> k ∈ writes tx ∪ deletes tx \/ k ∈ map op_key ops) /\
    (forall k, k ∈ deletes tx' -> k ∈ deletes tx \/ ODel k ∈ ops) /\ (h' <= h + length ops)%nat.
Proof.
  induction ops as [|op ops IH]; intros W n h tx p Htx HW Hpl Hf.
  { exists tx, p, h. split; [done|]. split; [exact Htx|]. do 3 (split; [done|]). split; [by left|]. split; [by left|lia]. }
  assert (Hmono : forall j R h0 tx0 p0, (j <= length (op :: ops) * (3 * (h + length (op :: ops)) + 5) + n)%nat ->
    tx_rep R (length (op :: ops) * (3 * (h + length (op :: ops)) + 5) + n) h0 tx0 p0 -> tx_rep R j h0 tx0 p0).
  { intros j R h0 tx0 p0 Hj [T1 T2 T3 T4 T5 T6]. split; try done. by eapply map_tree_mono. }
  cbn [length] in *. cbn [foldM foldl]. destruct op as [key val|key]; cbn [plain run_op apply_op] in *.
  - destruct Hpl as [Hk Hpl].
    destruct (TXSet_spec (length ops * (3 * (S h + length ops) + 5) + n) h fuel tx p key val)
      as (tx1 & h1 & E & Htx1 & D1 & S1 & M1 & W1 & Hh1); [eapply Hmono; [|exact Htx]; nia|done|lia|].
    destruct (IH ({[key]} ∪ W) n h1 tx1 (<[key := val]> p)) as (tx2 & p2 & h2 & E2 & Htx2 & Hm & S2 & M2 & K2 & D2 & Hh2);
      [|by rewrite dom_insert_L; set_solver|done|lia|].
    { destruct Htx1 as [T1 T2 T3 T4 T5 T6]. split; try done. eapply map_tree_mono; [|exact T1]. nia. }
    exists tx2, p2, h2. rstep E. split; [done|]. split; [done|]. rewrite Hm, (tx_map_set tx tx1 p m key val) by done.
    split; [done|]. split; [congruence|]. split; [congruence|]. split; [|split; [|lia]].
    { intros k [Hk2|Hk2]%K2; [rewrite W1, D1 in Hk2|right; by apply elem_of_cons; right].
      cbn [map op_key]. rewrite elem_of_cons. clear -Hk2. set_solver. }
    intros k [Hk2|Hk2]%D2; [rewrite D1 in Hk2|right; by apply elem_of_cons; right]. rewrite elem_of_cons. clear -Hk2. set_solver.
  - destruct Hpl as (Hk & HkW & Hpl).
    destruct (TXDel_unset tree_rep (length ops * (3 * (h + length ops) + 5) + n) h fuel tx p key)
      as (tx1 & ok & E & Htx1 & _ & D1 & S1 & M1 & W1); [eapply Hmono; [|exact Htx]; nia|done|set_solver|].
    destruct (IH W n h tx1 p) as (tx2 & p2 & h2 & E2 & Htx2 & Hm & S2 & M2 & K2 & D2 & Hh2); [done|done|done|lia|].
    exists tx2, p2, h2. rstep E. split; [done|]. split; [done|]. rewrite Hm, (tx_map_del tx tx1 p m key) by done.
    split; [done|]. split; [congruence|]. split; [congruence|]. split; [|split; [|lia]].
    { intros k [Hk2|Hk2]%K2; [rewrite W1, D1 in Hk2|right; by apply elem_of_cons; right].
      cbn [map op_key]. rewrite elem_of_cons. clear -Hk2. set_solver. }
    intros k [Hk2|Hk2]%D2; [rewrite D1 in Hk2|right; by apply elem_of_cons; right]. rewrite elem_of_cons. clear -Hk2. set_solver.
Qed.

(** ** Commit *)

Abbreviation db_tree R n h db m := (map_tree (pages := kv_pages) R n h db (kRoot db) m).

Lemma commit_writes_spec fuel np hp tx p keys : pend_tree tree_any np hp tx p -> (hp < fuel)%nat ->
  forall n h db m, kv_holds (length keys * (3 * (h + length keys) + 5) + n) h db m -> (forall k, k ∈ keys -> user_kv (k, [])) ->
  (h + length keys < fuel)%nat ->
  exists db' h' m', foldM (commit_write fuel tx) db keys = Ok db' /\ kv_holds n h' db' m' /\
    (forall k, m' !! k = if decide (k ∈ keys) then Some (default [] (p !! k)) else m !! k) /\ (h' <= h + length keys)%nat.
Proof.
  intros HP Hfp. induction keys as [|key keys IH]; intros n h db m Hdb Hks Hf.
  { exists db, h, m. split; [done|]. split; [exact Hdb|]. split; [|cbn; lia]. intros k. by rewrite decide_False by apply not_elem_of_nil. }
  cbn [length] in *. cbn [foldM].
  assert (Hk : user_kv (key, default [] (p !! key))).
  { destruct (p !! key) as [v|] eqn:Ep; cbn; [eapply map_tree_user; [exact HP|exact Ep]|apply Hks, elem_of_cons; by left]. }
  destruct (KVSet_spec (length keys * (3 * (S h + length keys) + 5) + n) h fuel db m key (default [] (p !! key))) as (db1 & h1 & E1 & Hdb1 & Hh1);
    [eapply kv_holds_mono; [|exact Hdb]; nia|done|lia|].
  destruct (IH n h1 db1 (<[key := default [] (p !! key)]> m)) as (db2 & h2 & m2 & E2 & Hdb2 & Hm2 & Hh2);
    [eapply kv_holds_mono; [|exact Hdb1]; nia|intros k Hk'; apply Hks, elem_of_cons; by right|lia|].
  assert (Ec : commit_write fuel tx db key = Ok db1).
  { unfold commit_write. by rstep (map_get np hp fuel (tPages tx) (tPending tx) p key HP (proj2 Hk) Hfp). }
  exists db2, h2, m2. rstep Ec. split; [done|]. split; [done|]. split; [|lia]. intros k. rewrite Hm2. destruct (decide (k = key)) as [->|Hd].
  - rewrite (decide_True (P := key ∈ key :: keys)) by (apply elem_of_cons; by left). rewrite lookup_insert_eq. by case_decide.
  - rewrite lookup_insert_ne by done. destruct (decide (k ∈ keys)); [rewrite decide_True by (apply elem_of_cons; by right)|rewrite decide_False by (rewrite elem_of_cons; tauto)]; done.
Qed.
Lemma run_fits_deleted (k key : bytes) (keys : list bytes) (m : gmap bytes bytes) : k <> [] /\ run_fits k (stored m) (fun q => is_Some (m !! q) /\ q ∉ key :: keys) ->
  k <> [] /\ run_fits k (stored (delete key m)) (fun q => is_Some (delete key m !! q) /\ q ∉ keys).
Proof.
  intros [Hk HR]. split; [done|]. eapply run_fits_mono; [| |exact HR].
  - intros q [x [_ Hx]%lookup_delete_Some]. by exists x.
  - intros q [Hq [Hn1 Hn2]%not_elem_of_cons]. by rewrite lookup_delete_ne.
Qed.
Lemma commit_deletes_spec fuel k0 keys : k0 ∉ keys -> forall n h db m, db_tree tree_any (length keys * (2 * h + 2) + n) h db m ->
  (forall k, k ∈ keys -> k <> [] /\ run_fits k (stored m) (fun q => is_Some (m !! q) /\ q ∉ keys)) -> is_Some (m !! k0) -> (h < fuel)%nat ->
  exists db' h' m', foldM (commit_delete fuel) db keys = Ok db' /\ db_tree tree_any n h' db' m' /\
    (forall k, m' !! k = if decide (k ∈ keys) then None else m !! k) /\ (h' <= h)%nat.
Proof.
  induction keys as [|key keys IH]; intros Hk0 n h db m Hdb Hks Hm0 Hf.
  { exists db, h, m. split; [done|]. split; [exact Hdb|]. split; [|lia]. intros k. by rewrite decide_False by apply not_elem_of_nil. }
  cbn [length] in *. cbn [foldM]. apply not_elem_of_cons in Hk0 as [Hk0 Hk0']. destruct (Hks key) as [Hkn Hkt]; [apply elem_of_cons; by left|].
  assert (Hm0' : is_Some (delete key m !! k0)) by by rewrite lookup_delete_ne.
  destruct (map_delete (length keys * (2 * h + 2) + n) h fuel db (kRoot db) m key) as (db1 & root & h1 & ok & E1 & Hdb1 & Hh1);
    [eapply map_tree_mono; [|exact Hdb]; lia|done|by eapply run_fits_mono, Hkt; [|by intros ? []]|by intros Hn; rewrite Hn in Hm0'; destruct Hm0'|done|].
  destruct (IH Hk0' n h1 (set_root root db1) (delete key m)) as (db2 & h2 & m2 & E2 & Hdb2 & Hm2 & Hh2);
    [apply map_tree_root; eapply map_tree_mono; [|exact Hdb1]; nia|intros k Hk; apply run_fits_deleted, Hks, elem_of_cons; by right|done|lia|].
  assert (Ec : commit_delete fuel db key = Ok (set_root root db1)) by (unfold commit_delete, KVDel; by rstep E1).
  exists db2, h2, m2. rstep Ec. split; [done|]. split; [done|]. split; [|lia].
  intros k. rewrite Hm2. destruct (decide (k = key)) as [->|Hd].
  - rewrite (decide_True (P := key ∈ key :: keys)) by (apply elem_of_cons; by left). rewrite lookup_delete_eq. by case_decide.
  - rewrite lookup_delete_ne by done. destruct (decide (k ∈ keys)); [rewrite decide_True by (apply elem_of_cons; by right)|rewrite decide_False by (rewrite elem_of_cons; tauto)]; done.
Qed.

(** Equal keys up to the order of iteration: the final map is the view. *)
Lemma commit_map (R : gmap Z bytes -> Z -> nat -> kvl -> Prop) (n h : nat) (tx : KVTX) (p m m1 m2 : gmap bytes bytes) (wkeys dkeys : list bytes) : tx_rep R n h tx p ->
  wkeys ≡ₚ elements (writes tx) -> dkeys ≡ₚ elements (deletes tx) ->
  (forall k, m1 !! k = if decide (k ∈ wkeys) then Some (default [] (p !! k)) else m !! k) ->
  (forall k, m2 !! k = if decide (k ∈ dkeys) then None else m1 !! k) -> m2 = tx_map tx p m.
Proof.
  intros [_ _ _ [Hw1 Hw2] _ _] Hw Hd H1 H2. apply map_eq. intros k. rewrite tx_map_lookup, H2, H1. unfold tx_view.
  assert (HW : k ∈ wkeys <-> k ∈ writes tx) by (by rewrite Hw, elem_of_elements).
  assert (HD : k ∈ dkeys <-> k ∈ deletes tx) by (by rewrite Hd, elem_of_elements).
  destruct (decide (k ∈ deletes tx)) as [Hkd|Hkd]; [by rewrite decide_True by by apply HD|].
  rewrite decide_False by by rewrite HD. destruct (p !! k) as [v|] eqn:Ep.
  - rewrite decide_True; [done|]. apply HW, Hw1, elem_of_dom. by eexists.
  - rewrite decide_False; [done|]. rewrite HW. intros Hk%Hw2. apply elem_of_union in Hk as [[x Hx]%elem_of_dom|Hk]; [congruence|done].
Qed.

(** The database before the file is written. *)
Lemma commit_tree_spec (fuel : nat) (R : gmap Z bytes -> Z -> nat -> kvl -> Prop) (n h np hp : nat) (db : KV) (m : gmap bytes bytes) (tx : KVTX) (p : gmap bytes bytes) (wkeys dkeys : list bytes) : tx_rep R np hp tx p -> pend_tree tree_any np hp tx p -> (hp < fuel)%nat ->
  kv_holds (length wkeys * (3 * (h + length wkeys) + 5) + (length dkeys * (2 * (h + length wkeys) + 2) + n)) h db m ->
  (h + length wkeys < fuel)%nat -> wkeys ≡ₚ elements (writes tx) -> dkeys ≡ₚ elements (deletes tx) ->
  (forall d, d ∈ deletes tx -> run_fits d (fun k => is_Some (m !! k) \/ k ∈ writes tx) (stored (tx_map tx p m))) ->
  deletes tx = ∅ \/ tx_map tx p m <> ∅ ->
  exists db1 db2 h', foldM (commit_write fuel tx) db wkeys = Ok db1 /\ foldM (commit_delete fuel) db1 dkeys = Ok db2 /\
    db_tree tree_any n h' db2 (tx_map tx p m) /\ (h' <= h + length wkeys)%nat.
Proof.
  intros Htx HP Hfp Hdb Hf Hw Hd Hkl Hne. pose proof Htx as [_ _ _ _ _ Hks].
  assert (HW : forall k, k ∈ wkeys -> k ∈ writes tx) by (intros k; by rewrite Hw, elem_of_elements).
  assert (HD : forall k, k ∈ dkeys -> k ∈ deletes tx) by (intros k; by rewrite Hd, elem_of_elements).
  destruct (commit_writes_spec fuel np hp tx p wkeys HP Hfp (length dkeys * (2 * (h + length wkeys) + 2) + n) h db m Hdb)
    as (db1 & h1 & m1 & E1 & Hdb1 & Hm1 & Hh1); [intros k Hk; apply Hks, elem_of_union; left; by apply HW|done|].
  pose proof (commit_map R np hp tx p m m1) as HM.
  destruct (decide (deletes tx = ∅)) as [He|He].
  { rewrite He, elements_empty in Hd. apply Permutation_nil_r in Hd as ->. exists db1, db1, h1. split; [done|]. split; [done|].
    rewrite <- (HM m1 wkeys [] Htx Hw); [|by rewrite He, elements_empty|done|]; cycle 1.
    { intros k. by rewrite decide_False by apply not_elem_of_nil. }
    split; [apply map_tree_any; eapply map_tree_mono; [|exact Hdb1]; cbn; lia|lia]. }
  assert (Hst : forall k, stored (tx_map tx p m) k -> is_Some (m1 !! k) /\ k ∉ deletes tx).
  { intros k Hk. rewrite tx_map_lookup in Hk. unfold tx_view in Hk. case_decide as Hkd; [by destruct Hk|]. split; [|done].
    rewrite Hm1. case_decide as Hkw; [by eexists|]. destruct (p !! k) as [v|] eqn:Ep; [|exact Hk].
    destruct Hkw. rewrite Hw, elem_of_elements. destruct Htx as [_ _ _ [Hw1 _] _ _]. apply Hw1, elem_of_dom. by eexists. }
  destruct Hne as [|Hne]; [done|]. apply map_choose in Hne as (k0 & x0 & Hk0).
  destruct (commit_deletes_spec fuel k0 dkeys) with (n := n) (h := h1) (db := db1) (m := m1) as (db2 & h2 & m2 & E2 & Hdb2 & Hm2 & Hh2).
  - intros Hin%HD. apply (Hst k0); [by exists x0|done].
  - apply map_tree_any. eapply map_tree_mono; [|exact Hdb1]. nia.
  - intros d Hdk%HD. split; [apply Hks; set_solver|]. eapply run_fits_mono; [| |by apply Hkl].
    + intros k Hk. rewrite Hm1 in Hk. case_decide as Hkw; [right; by apply HW|by left].
    + intros k [Hkm Hkd]%Hst. split; [done|]. by intros Hin%HD.
  - apply (Hst k0). by exists x0.
  - lia.
  - exists db1, db2, h2. rewrite <- (HM m2 wkeys dkeys) by done. split; [done|]. split; [done|]. split; [done|lia].
Qed.

(** ** The properties *)

Lemma session_spec fuel ops nt n h db m : plain ∅ ops ->
  kv_holds n h db m -> Z.of_nat (length ops * (3 * length ops + 5) + nt) < 18446744073709551616 -> (length ops < fuel)%nat ->
  exists tx0 tx p hp meta, Begin db NewKVTX = Ok tx0 /\ foldM (run_op fuel) tx0 ops = Ok tx /\ tx_rep tree_rep nt hp tx p /\
    tx_map tx p m = foldl apply_op m ops /\ tSnapshot tx = kRoot db /\ saveMeta db = Ok meta /\ tMeta tx = meta /\
    (forall k, k ∈ writes tx ∪ deletes tx -> k ∈ map op_key ops) /\ (forall k, k ∈ deletes tx -> ODel k ∈ ops) /\ (hp < fuel)%nat.
Proof.
  intros Hpl Hdb Hnt Hf. destruct (Begin_spec db) as (meta & Em & HB).
  destruct (HB NewKVTX eq_refl) as (tx0 & E0 & M0 & S0 & D0 & W0 & Htx0).
  destruct (run_ops_spec fuel m ops ∅ nt 0 tx0 ∅) as (tx & p & hp & E & Htx & Hm & Hs & Hmeta & Hk & Hdk & Hh);
    [apply Htx0; cbn; lia|set_solver|done|cbn; lia|].
  exists tx0, tx, p, hp, meta. split; [done|]. split; [done|]. split; [done|]. split; [|].
  { rewrite Hm. f_equal. apply map_eq. intros k. rewrite tx_map_lookup. unfold tx_view.
    rewrite D0, decide_False by set_solver. by rewrite lookup_empty. }
  split; [congruence|]. split; [done|]. split; [congruence|].
  split; [intros k [Hk'|Hk']%Hk; [|done]; rewrite W0, D0 in Hk'; set_solver|].
  split; [intros k [Hk'|Hk']%Hdk; [|done]; rewrite D0 in Hk'; set_solver|lia].
Qed.

(** C10: a transaction reads its own writes.  After [Begin] on a database that
    holds the map [m] and any sequence of [Set]s and [Del]s that deletes no key
    it has set itself, [Get] returns what the map has after these operations:
    the snapshot under the pending tree under the deletions. *)
Theorem transaction_reads fuel ops n h db m : plain ∅ ops -> kv_holds n h db m ->
  Z.of_nat (length ops * (3 * length ops + 5)) < 18446744073709551616 -> (length ops < fuel)%nat -> (h < fuel)%nat ->
  exists tx0 tx, Begin db NewKVTX = Ok tx0 /\ foldM (run_op fuel) tx0 ops = Ok tx /\
    forall key, key <> [] -> exists tx', TXGet fuel db tx key = Ok (tx', foldl apply_op m ops !! key).
Proof.
  intros Hpl Hdb Hnt Hf Hh.
  destruct (session_spec fuel ops 0 n h db m) as (tx0 & tx & p & hp & meta & E0 & E & Htx & Hm & Hs & _ & _ & _ & _ & Hhp); try done; [lia|].
  exists tx0, tx. split; [done|]. split; [done|]. intros key Hk. destruct Hdb as (M & l & Ht & Hp & Hu & El).
  assert (Hr : readable 0 db M).
  { split; [done|]. split; [exact (pages_zero n db M Hp)|]. intros q b Hq. exact (pages_get n db M q b Hp Hq). }
  destruct (TXGet_spec tree_rep 0 hp h fuel db M l tx p m key Htx) as (tx' & Eg & _); try done.
  - intros M' r h' l' Hrep. by apply any_rep.
  - rewrite Hs. by apply any_rep.
  - exists tx'. rewrite Eg, <- Hm, tx_map_lookup. done.
Qed.

(** C2: a commit.  For a transaction of entries that fit a third of a page ([user_kv]) that
    deletes no key it has set itself, on a database with room for its pages, where no key that is
    stored or touched after a deleted one, up to the next key that stays, is longer than it,
    and that leaves some key or deletes nothing ([delete_in_empty_panics] shows a commit that
    panics otherwise), [Commit] inserts and deletes in
    whatever order the maps yield their keys and does not panic; when it reports success the database holds the map of the transaction, in
    the running process and after reopening; when it reports an error, root,
    counters and free list are those from before. *)
Theorem commit_correct fuel ops n h db m tx0 tx wkeys dkeys faults ws : plain ∅ ops ->
  kv_holds (length wkeys * (3 * (h + length wkeys) + 5) + (length dkeys * (2 * (h + length wkeys) + 2) + n)) h db m ->
  Z.of_nat (length ops * (3 * length ops + 5)) < 18446744073709551616 -> (length ops < fuel)%nat -> (h + length wkeys < fuel)%nat ->
  (forall d, ODel d ∈ ops -> run_fits d (fun k => is_Some (m !! k) \/ k ∈ map op_key ops) (stored (foldl apply_op m ops))) ->
  Begin db NewKVTX = Ok tx0 -> foldM (run_op fuel) tx0 ops = Ok tx -> deletes tx = ∅ \/ foldl apply_op m ops <> ∅ ->
  wkeys ≡ₚ elements (writes tx) -> dkeys ≡ₚ elements (deletes tx) -> (forall d, ws d ≡ₚ map_to_list (kUpdates d)) ->
  exists db' ok, TXCommit fuel wkeys dkeys faults ws db tx = Ok (db', ok) /\
    (ok = true -> blen (kFile db') <= 2305843009213693952 ->
      (forall key, key <> [] -> KVGet fuel db' key = Ok (foldl apply_op m ops !! key)) /\
      exists db'', Open [] (kFile db') = Ok (db'', true) /\
        forall key, key <> [] -> KVGet fuel db'' key = Ok (foldl apply_op m ops !! key)) /\
    (ok = false -> kRoot db' = kRoot db /\ kFlushed db' = kFlushed db /\ kNappend db' = 0 /\ kUpdates db' = ∅ /\ kFree db' = kFree db).
Proof.
  intros Hpl Hdb Hnt Hf Hfw Htap E0 E Hne Hw Hd Hws.
  destruct (session_spec fuel ops 0 _ h db m Hpl Hdb) as (tx0' & tx' & p & hp & meta & E0' & E' & Htx & Hm & Hs & Em & Hmeta & Hk & Hdk & Hhp);
    [lia|done|]. rewrite E0 in E0'. injection E0' as <-. rewrite E in E'. injection E' as <-. rewrite <- Hm in *.
  destruct (commit_tree_spec fuel tree_rep n h 0 hp db m tx p wkeys dkeys Htx) as (db1 & db2 & h' & E1 & E2 & Hdb2 & Hh');
    [apply map_tree_any, Htx|done|done|done|done|done| |done|].
  { intros d Hdd. eapply run_fits_mono; [|intros k Hkk; exact Hkk|by apply Htap, Hdk].
    intros k [|Hkk]; [by left|right]. apply Hk. set_solver. }
  destruct (kv_holds_meta _ _ _ _ Hdb2) as [_ Hsize]. destruct (kv_holds_meta n h db m) as [Hmeta0 _].
  { apply map_tree_any. eapply map_tree_mono; [|exact Hdb]. lia. }
  pose proof Hdb2 as (M2 & l2 & _ & [Hks2 _] & _).
  destruct (updateFile_spec faults (ws db2) db2 (ks_mmap _ _ Hks2) (ks_updates _ _ Hks2) Hsize (Hws db2)) as (t & c & f' & ok & Eu & _).
  unfold TXCommit. rstep E1. rstep E2. rstep Eu. destruct ok.
  - eexists _, true. split; [done|]. split; [|done]. intros _ Hlen.
    by eapply (committed_reads n h' fuel db2); [exact Hdb2|lia|apply (Hws db2)|exact Eu|].
  - rewrite Hmeta. eexists _, false. rewrite (Abort_spec db _ meta Hmeta0 Em). split; [done|]. by split.
Qed.

(** ** Instances: two entries set and a key deleted in a new database *)

Definition demo_ops : list tx_op := [OSet [Byte.x61] [Byte.x31]; OSet [Byte.x62] [Byte.x32]; ODel [Byte.x63]].
Definition demo_begin : KVTX := ok_or NewKVTX (Begin new_db NewKVTX).
Definition demo_tx : KVTX := ok_or NewKVTX (foldM (run_op 4) demo_begin demo_ops).

Lemma demo_plain : plain ∅ demo_ops.
Proof.
  repeat split; cbn; try done; try (vm_compute; discriminate).
  all: rewrite !not_elem_of_union, !not_elem_of_singleton; repeat split; try done; apply not_elem_of_empty.
Qed.
Lemma transaction_reads_witness : exists tx0 tx tx', Begin new_db NewKVTX = Ok tx0 /\ foldM (run_op 4) tx0 demo_ops = Ok tx /\
  TXGet 4 new_db tx [Byte.x62] = Ok (tx', foldl apply_op ∅ demo_ops !! [Byte.x62]).
Proof.
  destruct (transaction_reads 4 demo_ops 0 0 new_db ∅ demo_plain (new_db_holds 0 ltac:(lia))) as (tx0 & tx & E0 & E & HG);
    [reflexivity|repeat constructor|repeat constructor|].
  destruct (HG [Byte.x62]) as [tx' E']; [discriminate|]. by exists tx0, tx, tx'.
Defined.

Definition demo_wkeys : list bytes := elements (writes demo_tx).
Definition demo_dkeys : list bytes := elements (deletes demo_tx).
Lemma demo_begins : Begin new_db NewKVTX = Ok demo_begin /\ foldM (run_op 4) demo_begin demo_ops = Ok demo_tx.
Proof. split; vm_compute; reflexivity. Qed.
Lemma demo_lengths : length demo_wkeys = 2%nat /\ length demo_dkeys = 1%nat.
Proof. split; vm_compute; reflexivity. Qed.
Lemma commit_correct_witness : exists db' ok,
  TXCommit 4 demo_wkeys demo_dkeys [] (fun d => map_to_list (kUpdates d)) new_db demo_tx = Ok (db', ok) /\
  (ok = true -> blen (kFile db') <= 2305843009213693952 -> KVGet 4 db' [Byte.x62] = Ok (foldl apply_op ∅ demo_ops !! [Byte.x62])).
Proof.
  destruct demo_begins as [E0 E]. destruct demo_lengths as [L1 L2].
  assert (Hdb : kv_holds (length demo_wkeys * (3 * (0 + length demo_wkeys) + 5) +
    (length demo_dkeys * (2 * (0 + length demo_wkeys) + 2) + 0)) 0 new_db ∅) by (apply new_db_holds; rewrite L1, L2; lia).
  assert (Hf : (0 + length demo_wkeys < 4)%nat) by (rewrite L1; repeat constructor).
  assert (Htap : forall d, ODel d ∈ demo_ops ->
    run_fits d (fun k => is_Some ((∅ : gmap bytes bytes) !! k) \/ k ∈ map op_key demo_ops) (stored (foldl apply_op ∅ demo_ops))).
  { intros d Hd k [[x Hx]|Hk] _ _; [by rewrite lookup_empty in Hx|]. assert (Hb : forall op, op ∈ demo_ops -> blen (op_key op) = 1).
    { intros op. unfold demo_ops. rewrite !elem_of_cons. intros [->|[->|[->|Hn%not_elem_of_nil]]]; [reflexivity..|destruct Hn]. }
    apply list_elem_of_fmap in Hk as (op & -> & Hop). pose proof (Hb _ Hop). pose proof (Hb _ Hd) as Hd1. cbn [op_key] in Hd1. lia. }
  assert (Hne : foldl apply_op ∅ demo_ops <> ∅).
  { intros Hn. apply (f_equal (.!! [Byte.x61])) in Hn. cbn [foldl apply_op demo_ops] in Hn.
    rewrite lookup_delete_ne, lookup_insert_ne, lookup_insert_eq in Hn by discriminate. discriminate. }
  destruct (commit_correct 4 demo_ops 0 0 new_db ∅ demo_begin demo_tx demo_wkeys demo_dkeys [] (fun d => map_to_list (kUpdates d)) demo_plain
    Hdb ltac:(reflexivity) ltac:(repeat constructor) Hf Htap E0 E (or_intror Hne) (Permutation_refl _) (Permutation_refl _)
    (fun d => Permutation_refl _)) as (db' & ok & Ec & Hok & _).
  exists db', ok. split; [exact Ec|]. intros H1 H2. apply (proj1 (Hok H1 H2)). discriminate.
Defined.

(** Deleting a key in an empty database is accepted and panics at the commit:
    [Delete] on an empty tree is a [log.Panicln]. *)
Lemma delete_in_empty_panics :
  (tx ← Begin new_db NewKVTX;
   '(tx, ok) ← TXDel 4 tx [Byte.x61];
   if (ok : bool) then TXCommit 4 [] (elements (deletes tx)) [] (fun d => map_to_list (kUpdates d)) new_db tx else Ok (new_db, false))
  = Crash Panicked.
Proof. vm_compute. reflexivity. Qed.
