(* ===== verification/Db.v ===== *)
(** * db/db.go: tables

    The operations of [DBTX] over an interface of the transaction it holds: the
    field [kv], of type [KVTX], with the methods [Get], [Set] and [Del].  The
    boolean of a result is false where Go returns an error or false; the record
    that an operation changes through a pointer or through the values it shares
    is part of the result.  ([dbDel] reads the row into its copy of the record,
    which may share the values of the caller; no caller looks at them again.) *)
From Stdlib Require Import ZArith Lia.
From stdpp Require Import base gmap list strings countable.
From coqutil Require Import Byte Word.LittleEndianList.
From S2P Require Import Prelude Schema SecIndex.

(** ** Interfaces *)

Class TxOps (T : Type) := {
  kv_get : T -> bytes -> res (T * option bytes);
  kv_set : T -> bytes -> bytes -> res T;
  kv_del : T -> bytes -> res (T * bool)
}.

(** What the code uses of [encoding/json] on [TableDef]: a text for every
    definition, and the definition back from that text when its names are
    ASCII (other bytes may be replaced) and its numbers within their width. *)
Definition ascii_name (s : bytes) : Prop := Forall (fun b => byte.unsigned b < 128) s.
Record def_wf (tdef : TableDef) : Prop := {
  dw_name : ascii_name (tName tdef);
  dw_cols : Forall ascii_name (tCols tdef);
  dw_indexes : Forall (Forall ascii_name) (tIndexes tdef);
  dw_types : Forall (fun t => 0 <= t < 4294967296) (tTypes tdef);
  dw_prefixes : Forall (fun t => 0 <= t < 4294967296) (tPrefixes tdef);
  dw_pkeys : in_i64 (tPkeys tdef)
}.
Class JsonTable := {
  marshal_def : TableDef -> bytes;
  unmarshal_def : bytes -> option TableDef;
  unmarshal_marshal_def tdef : def_wf tdef -> unmarshal_def (marshal_def tdef) = Some tdef
}.

Section Ops.
Context {T : Type} `{TxOps T} `{JsonVals} `{JsonTable}.

Definition row_key (tdef : TableDef) (values : list Value) : res bytes :=
  prefix ← index (tPrefixes tdef) 0;
  pks ← slice_to values (tPkeys tdef);
  EncodeKey prefix pks.

Definition dbGet (tx : T) (tdef : TableDef) (rec : Rec) : res (T * Rec * bool) :=
  match GetRecordVals tdef rec (tPkeys tdef) with
  | None => Ok (tx, rec, false)
  | Some values =>
      key ← row_key tdef values;
      '(tx, val) ← kv_get tx key;
      match val with
      | None => Ok (tx, rec, false)
      | Some val => '(rec, ok) ← DecodeVal tdef rec val; Ok (tx, rec, ok)
      end
  end.

Definition set_index (tx : T) (k : bytes) : res T := kv_set tx k [].
Definition dbSet (tx : T) (tdef : TableDef) (rec : Rec) : res (T * Rec * bool) :=
  match GetRecordVals tdef rec (tPkeys tdef) with
  | None => Ok (tx, rec, false)
  | Some values =>
      key ← row_key tdef values;
      rest ← slice_after values (tPkeys tdef);
      let val := EncodeVal rest in
      tx ← kv_set tx key val;
      if bool_decide (1 < length (tIndexes tdef))%nat then
        '(rec, keys) ← GetSecondaryIndexesKeys tdef rec;
        tx ← foldM set_index tx keys;
        Ok (tx, rec, true)
      else Ok (tx, rec, true)
  end.

(** The loop over the keys of the indexes, which stops at the first failure. *)
Fixpoint del_keys (tx : T) (keys : list bytes) : res (T * bool) :=
  match keys with
  | [] => Ok (tx, true)
  | k :: keys => '(tx, ok) ← kv_del tx k; if (ok : bool) then del_keys tx keys else Ok (tx, false)
  end.
Definition dbDel (tx : T) (tdef : TableDef) (rec : Rec) : res (T * bool) :=
  match GetRecordVals tdef rec (tPkeys tdef) with
  | None => Ok (tx, false)
  | Some values =>
      key ← row_key tdef values;
      '(tx, rec, ok) ← dbGet tx tdef rec;
      if negb ok then Ok (tx, false) else
      '(tx, ok) ← (if bool_decide (1 < length (tIndexes tdef))%nat then
                     '(_, keys) ← GetSecondaryIndexesKeys tdef rec; del_keys tx keys
                   else Ok (tx, true));
      if negb ok then Ok (tx, false) else kv_del tx key
  end.

(** ** The catalogue *)

(** [None] is an error. *)
Definition GetTableDef (tx : T) (table : bytes) : res (T * option TableDef) :=
  if decide (table = gostr "@table") then Ok (tx, Some TDEF_TABLE)
  else if decide (table = gostr "@meta") then Ok (tx, Some TDEF_META)
  else
    '(tx, rec, ok) ← dbGet tx TDEF_TABLE (AddStr emptyRec (gostr "name") table);
    if negb ok then Ok (tx, None) else
    def ← Get rec (gostr "def");
    match def with
    | None => Crash NilDereference
    | Some v => Ok (tx, unmarshal_def (vStr v))
    end.

(** The loop that numbers the indexes. *)
Definition next_prefix (st : list Z * Z) (idx : list bytes) : list Z * Z :=
  let '(prefixes, cur) := st in (prefixes ++ [u32 cur], i64 (cur + 1)).
Definition TableNew (tx : T) (tdef : TableDef) : res (T * TableDef * bool) :=
  let rec := AddStr emptyRec (gostr "name") (tName tdef) in
  recpks ← GetPKs rec (tPkeys tdef);
  '(tx, _, ok) ← dbGet tx TDEF_TABLE recpks;
  if (ok : bool) then Ok (tx, tdef, false) else
  let prefixrec := AddStr emptyRec (gostr "key") (gostr "prefix") in
  '(tx, prefixrec, ok) ← dbGet tx TDEF_META prefixrec;
  curPrefix ← (if negb ok then Ok 3 else
    v ← Get prefixrec (gostr "value");
    match v with None => Crash NilDereference | Some v => Ok (vI64 v) end);
  let '(prefixes, curPrefix) := foldl next_prefix ([], curPrefix) (tIndexes tdef) in
  let tdef := mkTableDef (tName tdef) (tCols tdef) (tTypes tdef) (tPkeys tdef) prefixes (tIndexes tdef) in
  let prefixrec := AddI64 prefixrec (gostr "data") curPrefix in
  '(tx, _, _) ← dbSet tx TDEF_META prefixrec;
  let rec := AddStr rec (gostr "def") (marshal_def tdef) in
  '(tx, _, _) ← dbSet tx TDEF_TABLE rec;
  Ok (tx, tdef, true).

(** ** The operations on rows *)

Definition DBGet (tx : T) (table : bytes) (rec : Rec) : res (T * Rec * bool) :=
  '(tx, tdef) ← GetTableDef tx table;
  match tdef with
  | None => Ok (tx, rec, false)
  | Some tdef => dbGet tx tdef rec
  end.

(** [spare] is what the capacity of [rec.Vals] has beyond its length: the slice
    of the key columns may reach into it, and finds zero values there. *)
Definition DBInsert (spare : nat) (tx : T) (table : bytes) (rec : Rec) : res (T * Rec * bool) :=
  '(tx, tdef) ← GetTableDef tx table;
  match tdef with
  | None => Ok (tx, rec, false)
  | Some tdef =>
      vals ← slice_to (rVals rec ++ replicate spare zeroValue) (tPkeys tdef);
      tempRec ← foldM (get_pk1 (mkRec (rCols rec) vals)) emptyRec (seq 0 (length vals));
      '(tx, _, ok) ← dbGet tx tdef tempRec;
      if negb ok then dbSet tx tdef rec else Ok (tx, rec, false)
  end.

Definition DBUpdate (tx : T) (table : bytes) (rec : Rec) : res (T * Rec * bool) :=
  '(tx, tdef) ← GetTableDef tx table;
  match tdef with
  | None => Ok (tx, rec, false)
  | Some tdef =>
      getRec ← GetPKs rec (tPkeys tdef);
      '(tx, getRec, ok) ← dbGet tx tdef getRec;
      if negb ok then Ok (tx, rec, false) else
      '(tx, ok) ← dbDel tx tdef getRec;
      if negb ok then Ok (tx, rec, false) else
      dbSet tx tdef rec
  end.

Definition DBUpsert (spare : nat) (tx : T) (table : bytes) (rec : Rec) : res (T * Rec * bool) :=
  '(tx, tdef) ← GetTableDef tx table;
  match tdef with
  | None => Ok (tx, rec, false)
  | Some tdef =>
      getRec ← GetPKs rec (tPkeys tdef);
      '(tx, _, ok) ← dbGet tx tdef getRec;
      if (ok : bool) then DBUpdate tx table rec else DBInsert spare tx table rec
  end.

Definition DBDelete (tx : T) (table : bytes) (rec : Rec) : res (T * bool) :=
  '(tx, tdef) ← GetTableDef tx table;
  match tdef with
  | None => Ok (tx, false)
  | Some tdef => dbDel tx tdef rec
  end.
End Ops.
