(* ===== verification/Scanner.v ===== *)
(** * db/db.go: scanners

    A [Scanner] is an iterator over the snapshot of the transaction with two
    bounds.  The snapshot is a page store [s] and a root, which stay as they are
    while the transaction runs; rows of a secondary index are read through the
    transaction. *)
From Stdlib Require Import ZArith Lia.
From stdpp Require Import base gmap list strings countable.
From coqutil Require Import Byte Word.LittleEndianList.
From S2P Require Import Prelude Schema SecIndex BNode BTree Iter Db.

(** [Key1] and [Key2], the records of the bounds, are kept and not used; the
    transaction [db] is an argument of the operation that reads it. *)
Record Scanner := mkScanner {
  scIter : BIter;
  scKey1 : Rec; scKey2 : Rec;
  scTdef : TableDef;
  key1Include : bool; key2Include : bool;
  scIndex : Z;
  key1 : bytes; key2 : bytes
}.
Definition set_iter (sc : Scanner) (it : BIter) : Scanner :=
  mkScanner it (scKey1 sc) (scKey2 sc) (scTdef sc) (key1Include sc) (key2Include sc) (scIndex sc) (key1 sc) (key2 sc).

(** The errors of [Deref]: the callers tell the first from the others by its
    text. *)
Inductive scan_error := OutOfRange | BadRow.

(** The key of a dereferenced iterator; nil compares as the empty string. *)
Definition key_of (kv : option (bytes * bytes)) : bytes := match kv with Some (key, _) => key | None => [] end.

Section Scanner.
Context {S : Type} `{PageStore S} (fuel : nat) (s : S) (root : Z).

Definition scNext (sc : Scanner) : res Scanner := it ← Next s (scIter sc); Ok (set_iter sc it).
Definition scPrev (sc : Scanner) : res Scanner := it ← Prev s (scIter sc); Ok (set_iter sc it).
Definition scValid (sc : Scanner) : res bool :=
  ok ← Valid root (scIter sc);
  if negb ok then Ok false else
  kv ← Deref root (scIter sc);
  let key := key_of kv in
  let cmp := Compare key (key1 sc) in
  if (cmp =? 0) && negb (key1Include sc) then Ok false else
  if cmp <? 0 then Ok false else
  let cmp := Compare key (key2 sc) in
  if (cmp =? 0) && negb (key2Include sc) then Ok false else
  if 0 <? cmp then Ok false else Ok true.

Context {T : Type} `{TxOps T} `{JsonVals}.

Definition add_key (tdef : TableDef) (rec : Rec) (ik : nat * Value) : res Rec :=
  let '(i, k) := ik in
  if decide (vType k = TYPE_BYTES) then c ← index (tCols tdef) (Z.of_nat i); Ok (AddStr rec c (vStr k))
  else if decide (vType k = TYPE_INT64) then c ← index (tCols tdef) (Z.of_nat i); Ok (AddI64 rec c (vI64 k))
  else Crash Panicked.
(** [None] is an error. *)
Definition kvToRecord (tx : T) (tdef : TableDef) (key val : bytes) (idx : Z) : res (T * option Rec) :=
  if negb (idx =? 0) then
    rec ← GetPKFromSecKey tdef key idx;
    '(tx, rec, ok) ← dbGet tx tdef rec;
    Ok (tx, if (ok : bool) then Some rec else None)
  else
    keys ← DecodeKey key tdef;
    rec ← foldM (add_key tdef) emptyRec (imap pair keys);
    '(rec, ok) ← DecodeVal tdef rec val;
    Ok (tx, if (ok : bool) then Some rec else None).
Definition scDeref (tx : T) (sc : Scanner) : res (T * (Rec + scan_error)) :=
  ok ← scValid sc;
  if negb ok then Ok (tx, inr OutOfRange) else
  kv ← Deref root (scIter sc);
  let '(key, val) := default ([], []) kv in
  '(tx, rec) ← kvToRecord tx (scTdef sc) key val (scIndex sc);
  Ok (tx, match rec with Some rec => inl rec | None => inr BadRow end).

(** The values of the columns of an index in a record. *)
Definition bound_col (key : Rec) (vals : list Value) (col : bytes) : res (list Value) :=
  v ← Get key col;
  match v with Some v => Ok (vals ++ [v]) | None => Crash NilDereference end.
Definition bound_key (tdef : TableDef) (key : Rec) (idx : Z) : res bytes :=
  if idx =? 0 then
    prefix ← index (tPrefixes tdef) 0; pks ← GetPKs key (tPkeys tdef); EncodeKey prefix (rVals pks)
  else
    cols ← index (tIndexes tdef) idx; vals ← foldM (bound_col key) [] cols;
    prefix ← index (tPrefixes tdef) idx; EncodeKey prefix vals.
(** The loop that leaves out the keys up to an excluded first bound. *)
Fixpoint skip_loop (fuel : nat) (sc : Scanner) (cmp : Z) : res Scanner :=
  if (cmp <=? 0) && negb (key1Include sc) then
    match fuel with
    | O => Crash OutOfFuel
    | Datatypes.S fuel =>
        sc ← scNext sc;
        kv ← Deref root (scIter sc);
        match kv with
        | None => Ok sc
        | Some (key, _) => skip_loop fuel sc (Compare key (key1 sc))
        end
    end
  else Ok sc.
(** The bounds in order, made longer for a secondary index, and the scanner at
    the first key between them. *)
Definition scan_bounds (tdef : TableDef) (rec1 rec2 : Rec) (key1inc key2inc : bool) (idx : Z) : res (bytes * bytes * Rec * Rec * bool * bool) :=
  k1 ← bound_key tdef rec1 idx;
  k2 ← bound_key tdef rec2 idx;
  let '(k1, k2, rec1, rec2, key1inc, key2inc) :=
    if 0 <? Compare k1 k2 then (k2, k1, rec2, rec1, key2inc, key1inc) else (k1, k2, rec1, rec2, key1inc, key2inc) in
  if negb (idx =? 0) then
    Ok (k1 ++ [if (key1inc : bool) then Byte.x00 else Byte.xff], k2 ++ [if (key2inc : bool) then Byte.xff else Byte.x00],
        rec1, rec2, key1inc, key2inc)
  else Ok (k1, k2, rec1, rec2, key1inc, key2inc).
Definition open_scanner (tdef : TableDef) (rec1 rec2 : Rec) (key1inc key2inc : bool) (idx : Z) (k1 k2 : bytes) : res Scanner :=
  it ← SeekLE fuel s root k1;
  let sc := mkScanner it rec1 rec2 tdef key1inc key2inc idx k1 k2 in
  kv ← Deref root (scIter sc);
  sc ← (if (Compare (key_of kv) (key1 sc) <? 0) && negb (idx =? 0) then scNext sc else Ok sc);
  kv ← Deref root (scIter sc);
  match kv with
  | None => Ok sc
  | Some (key, _) => skip_loop fuel sc (Compare key (key1 sc))
  end.
Definition NewScanner (tdef : TableDef) (rec1 rec2 : Rec) (key1inc key2inc : bool) (idx : Z) : res Scanner :=
  '(k1, k2, rec1, rec2, key1inc, key2inc) ← scan_bounds tdef rec1 rec2 key1inc key2inc idx;
  open_scanner tdef rec1 rec2 key1inc key2inc idx k1 k2.
End Scanner.
