(* ===== verification/Range.v ===== *)
(** * What a scanner finds

    A scanner over the tree of a snapshot lists the keys between its bounds, in
    order; and when it does not. *)
From Stdlib Require Import ZArith Lia Sorted.
From stdpp Require Import base gmap list strings countable sorting.
From coqutil Require Import Byte Word.LittleEndianList.
From S2P Require Import Prelude KVList Schema SecIndex BNode NodeLayout NodeOps BTree TreeRep TreeGet TreeRoot TreeSpec TreeMap Iter Cursor Db Scanner.

(** The keys a scanner accepts. *)
Definition above (sc : Scanner) (key : bytes) : Prop := if key1Include sc then ble (key1 sc) key else blt (key1 sc) key.
Definition below (sc : Scanner) (key : bytes) : Prop := if key2Include sc then ble key (key2 sc) else blt key (key2 sc).
#[export] Instance above_dec sc key : Decision (above sc key).
Proof. unfold above. destruct (key1Include sc); apply _. Defined.
#[export] Instance below_dec sc key : Decision (below sc key).
Proof. unfold below. destruct (key2Include sc); apply _. Defined.
Definition in_bounds (sc : Scanner) (key : bytes) : Prop := above sc key /\ below sc key.
#[export] Instance in_range_dec sc key : Decision (in_bounds sc key) := _.

(** The loop of a client over a scanner. *)
Fixpoint collect {S} `{PageStore S} (fuel : nat) (s : S) (root : Z) (sc : Scanner) : res (list (option (bytes * bytes))) :=
  match fuel with
  | O => Crash OutOfFuel
  | Datatypes.S fuel =>
      ok ← scValid root sc;
      if (ok : bool) then
        kv ← Iter.Deref root (scIter sc); sc ← scNext s sc; l ← collect fuel s root sc; Ok (kv :: l)
      else Ok []
  end.

Lemma Compare_gt a b : 0 < Compare a b <-> blt b a.
Proof. unfold Compare, blt. rewrite (bcmp_antisym a b). destruct (bcmp a b); cbn; split; intros; try done; lia. Qed.
Lemma Compare_le a b : Compare a b <= 0 <-> ble a b.
Proof. unfold Compare, ble. destruct (bcmp a b); split; intros; try done; lia. Qed.


(** The tests of [Valid] on a key. *)
Definition accepts (sc : Scanner) (key : bytes) : bool :=
  let c1 := Compare key (key1 sc) in let c2 := Compare key (key2 sc) in
  negb ((c1 =? 0) && negb (key1Include sc)) && negb (c1 <? 0) && negb ((c2 =? 0) && negb (key2Include sc)) && negb (0 <? c2).
Lemma accepts_bounds sc key : accepts sc key = bool_decide (in_bounds sc key).
Proof.
  apply eq_bool_prop_intro. rewrite bool_decide_spec. unfold accepts, in_bounds, above, below.
  assert (H1 : Compare key (key1 sc) = 0 \/ Compare key (key1 sc) < 0 \/ 0 < Compare key (key1 sc)) by lia.
  assert (H2 : Compare key (key2 sc) = 0 \/ Compare key (key2 sc) < 0 \/ 0 < Compare key (key2 sc)) by lia.
  pose proof (Compare_eq key (key1 sc)) as E1. pose proof (Compare_lt key (key1 sc)) as L1. pose proof (Compare_gt key (key1 sc)) as G1.
  pose proof (Compare_eq key (key2 sc)) as E2. pose proof (Compare_lt key (key2 sc)) as L2. pose proof (Compare_gt key (key2 sc)) as G2.
  assert (HA : ble (key1 sc) key <-> 0 <= Compare key (key1 sc)).
  { rewrite ble_lt_eq, <- G1. assert (E1' : key1 sc = key <-> Compare key (key1 sc) = 0) by (rewrite E1; split; congruence). rewrite E1'. lia. }
  assert (HB : ble key (key2 sc) <-> Compare key (key2 sc) <= 0) by (rewrite ble_lt_eq, <- L2, <- E2; lia).
  destruct (key1Include sc), (key2Include sc); cbn [negb]; rewrite ?andb_false_r, ?andb_true_r, ?HA, ?HB, <- ?G1, <- ?L2;
    cbn [negb andb]; rewrite Is_true_true, ?andb_true_iff, ?negb_true_iff, ?Z.ltb_ge, ?Z.eqb_neq; lia.
Qed.
Lemma above_mono sc a b : above sc a -> blt a b -> above sc b.
Proof. unfold above. destruct (key1Include sc); eauto with key_order. Qed.
Lemma below_mono sc a b : below sc b -> blt a b -> below sc a.
Proof. unfold below. destruct (key2Include sc); eauto with key_order. Qed.

(** The skipping stops at a key above the bound. *)
Lemma skip_stop {S} `{PageStore S} (s : S) root fl sc (k v : bytes) : (key1Include sc = true \/ blt (key1 sc) k) ->
  match Some (k, v) with None => Ok sc | Some (key, _) => skip_loop s root fl sc (Compare key (key1 sc)) end = Ok sc.
Proof.
  intros Hc. destruct fl; cbn [skip_loop]; (destruct Hc as [->|Hc]; [by rewrite andb_false_r|]);
    by rewrite (proj2 (Z.leb_gt _ _)) by by apply Compare_gt.
Qed.

Section Range.
Context {St pages} `{PageLaws St pages}.
Context (n : nat) (s : St) (M : gmap Z bytes) (Hpages : pages n s M) (root : Z) (L : kvl) (HL : kv_sorted L).

Lemma scValid_spec sc i : at_entry M root L (scIter sc) i ->
  exists kv, L !! i = Some kv /\ Iter.Deref root (scIter sc) = Ok (Some kv) /\
    scValid root sc = Ok (iValid (scIter sc) && bool_decide (in_bounds sc kv.1)).
Proof.
  intros Hat. destruct (at_entry_read M root L _ _ Hat) as ([k v] & Hkv & ED & EV). exists (k, v). split; [done|]. split; [done|].
  rewrite <- accepts_bounds. unfold scValid. rstep EV. destruct (iValid (scIter sc)); [|done]. cbn [negb andb]. rstep ED. cbn [key_of fst].
  unfold accepts. repeat (case_match; cbn [negb andb]; try done).
Qed.

Lemma sorted_lookup i j kv kv' : L !! i = Some kv -> L !! j = Some kv' -> (i < j)%nat -> blt kv.1 kv'.1.
Proof.
  intros Hi Hj Hij. rewrite <- (take_drop_middle _ _ _ Hi) in HL. apply kv_sorted_app in HL as (_ & Hs & _).
  destruct kv as [k v]. apply kv_sorted_cons in Hs as [Hg _]. unfold keys_gt in Hg. rewrite list.Forall_lookup in Hg.
  apply (Hg (j - S i)%nat). rewrite lookup_drop. by replace (S i + (j - S i))%nat with j by lia.
Qed.
(** The scanner has the entries [es] before it. *)
Definition stands (sc : Scanner) (es : kvl) : Prop := exists i, at_entry M root L (scIter sc) i /\
  (iValid (scIter sc) = true /\ (forall j kv, (i <= j)%nat -> L !! j = Some kv -> above sc kv.1) /\
     es = filter (fun kv => in_bounds sc kv.1) (drop i L) \/
   iValid (scIter sc) = false /\ es = []).
Lemma above_in_bounds sc i kv : (forall j kv, (i <= j)%nat -> L !! j = Some kv -> above sc kv.1) -> L !! i = Some kv ->
  filter (fun kv => in_bounds sc kv.1) (drop i L) = if decide (in_bounds sc kv.1) then kv :: filter (fun kv => in_bounds sc kv.1) (drop (S i) L) else [].
Proof.
  intros Hab Hkv. rewrite (drop_S _ _ _ Hkv). case_decide as Hr; [by rewrite filter_cons_True|].
  rewrite filter_cons_False by done. apply list_filter_none. apply list.Forall_lookup. intros j kv' Hj. rewrite lookup_drop in Hj.
  intros [_ Hb]. apply Hr. split; [by eapply (Hab i)|]. eapply below_mono; [exact Hb|]. exact (sorted_lookup i (S i + j) kv kv' Hkv Hj ltac:(lia)).
Qed.
Lemma stands_valid sc es : stands sc es -> scValid root sc = Ok (bool_decide (es <> [])).
Proof.
  intros (i & Hat & [(Hv & Hab & ->)|[Hv ->]]); destruct (scValid_spec sc i Hat) as (kv & Hkv & ED & ->); rewrite Hv; [|done].
  rewrite (above_in_bounds sc i kv Hab Hkv). by repeat case_decide; repeat case_bool_decide.
Qed.
Lemma stands_deref sc kv es : stands sc (kv :: es) -> Iter.Deref root (scIter sc) = Ok (Some kv).
Proof.
  intros (i & Hat & [(Hv & Hab & E)|[Hv E]]); [|done]. destruct (scValid_spec sc i Hat) as (kv' & Hkv & ED & _).
  rewrite (above_in_bounds sc i kv' Hab Hkv) in E. case_decide; [|done]. injection E as -> _. exact ED.
Qed.
Lemma stands_next sc kv es : stands sc (kv :: es) -> exists it, Next s (scIter sc) = Ok it /\ stands (set_iter sc it) es.
Proof.
  intros (i & Hat & [(Hv & Hab & E)|[Hv E]]); [|done]. destruct (scValid_spec sc i Hat) as (kv' & Hkv & ED & _).
  rewrite (above_in_bounds sc i kv' Hab Hkv) in E. case_decide; [|done]. injection E as _ ->.
  destruct (Next_at n s M Hpages root L _ _ Hat Hv) as [(Hlt & it' & EN & Hv' & Hat')|(Hend & EN)]; eexists; (split; [exact EN|]).
  - exists (S i). split; [done|]. left. split; [done|]. split; [intros j kv2 Hj; apply (Hab j); lia|done].
  - exists i. split; [done|]. right. split; [done|]. by rewrite Hend, drop_all.
Qed.
Lemma stands_collect es : forall sc fuel, stands sc es -> (length es < fuel)%nat -> collect fuel s root sc = Ok (map Some es).
Proof.
  induction es as [|kv es IH]; intros sc [|fuel] Hst Hf; try (cbn in Hf; lia); cbn [collect]; rstep (stands_valid sc _ Hst); [done|].
  rewrite bool_decide_eq_true_2 by done. rstep (stands_deref _ _ _ Hst). destruct (stands_next _ _ _ Hst) as (it & EN & Hst').
  unfold scNext. rstep EN. by rewrite (IH _ fuel Hst' ltac:(cbn in Hf; lia)).
Qed.

(** ** Endless skipping *)

Lemma skip_loop_endless fuel : forall sc i cmp, at_entry M root L (scIter sc) i -> key1Include sc = false ->
  Forall (fun kv => ble kv.1 (key1 sc)) L -> cmp <= 0 -> skip_loop s root fuel sc cmp = Crash OutOfFuel.
Proof.
  induction fuel as [|fuel IH]; intros sc i cmp Hat Hinc HF Hcmp; cbn [skip_loop]; rewrite Hinc, (proj2 (Z.leb_le _ _) Hcmp); [done|].
  cbn [negb andb]. unfold scNext. destruct (Next_any n s M Hpages root L _ _ Hat) as (it' & i' & E & Hat'). rstep E.
  destruct (at_entry_read M root L it' i' Hat') as ([k v] & Hkv & ED & _). cbn [scIter set_iter]. rstep ED.
  apply (IH (set_iter sc it') i'); [done|done|done|]. apply Compare_le. rewrite list.Forall_lookup in HF. by apply (HF i' (k, v)).
Qed.

(** ** The start of a scanner *)

(** The scanner stands at the first key above its first bound, or past the end
    when there is none. *)
Definition started (sc : Scanner) : Prop :=
  (exists i, at_entry M root L (scIter sc) i /\ iValid (scIter sc) = true /\
    (forall j kv, (i <= j)%nat -> L !! j = Some kv -> above sc kv.1) /\ (forall j kv, (j < i)%nat -> L !! j = Some kv -> ~ above sc kv.1)) \/
  (exists i, at_entry M root L (scIter sc) i /\ iValid (scIter sc) = false /\ Forall (fun kv => ~ above sc kv.1) L).
Lemma started_stands sc : started sc -> stands sc (filter (fun kv => in_bounds sc kv.1) L).
Proof.
  intros [(i & Hat & Hv & Hab & Hbe)|(i & Hat & Hv & HF)]; exists i; (split; [done|]); [left|right]; (split; [done|]).
  - split; [done|]. rewrite <- (take_drop i L) at 1. rewrite filter_app.
    rewrite (list_filter_none _ (take i L)); [done|]. apply list.Forall_lookup. intros j kv Hj [Ha _].
    apply lookup_take_Some in Hj as [Hj Hlt]. by eapply Hbe.
  - rewrite list_filter_none; [done|]. eapply list.Forall_impl; [exact HF|]. by intros kv' Hn [Ha _].
Qed.

(** [open_scanner] after the search: the entry found and its neighbours. *)
Section Open.
Context (fuel h : nat) (B : bytes) (F : gset Z) (Hfuel : (h < fuel)%nat).
Context (Hroot : root <> 0) (HM : M !! root = Some B) (HT : tree M h F B L) (Hne : L <> []).
Context (tdef : TableDef) (rec1 rec2 : Rec) (inc1 inc2 : bool) (idx : Z) (k1 k2 : bytes).
Abbreviation sc_at it := (mkScanner it rec1 rec2 tdef inc1 inc2 idx k1 k2).

Lemma open_seek : exists it a kv c, SeekLE fuel s root k1 = Ok it /\ iValid it = true /\ at_entry M root L it (length a) /\
  L = a ++ kv :: c /\ keys_lt a k1 /\ keys_gt k1 c /\ (a = [] \/ ble kv.1 k1).
Proof.
  destruct (SeekLE_spec n s M Hpages h fuel root B F L k1 Hroot HM HT HL Hne Hfuel) as (it & a & kv & c & E & Hv & Hc & H').
  exists it, a, kv, c. split; [done|]. split; [done|]. split; [by exists h, B, F, a, kv, c|]. split; [|done].
  by apply chain_list in Hc as [-> _].
Qed.
(** The keys of the list around the bound. *)
Lemma above_split it a kv c : L = a ++ kv :: c -> keys_lt a k1 -> keys_gt k1 c ->
  (forall j kv', (j < length a)%nat -> L !! j = Some kv' -> ~ above (sc_at it) kv'.1) /\
  (forall j kv', (length a < j)%nat -> L !! j = Some kv' -> above (sc_at it) kv'.1).
Proof.
  intros -> Ha Hc. unfold above. cbn [key1Include key1]. split; intros j kv' Hj Hl.
  - rewrite lookup_app_l in Hl by done. unfold keys_lt in Ha. rewrite list.Forall_lookup in Ha. pose proof (Ha j kv' Hl) as Hlt.
    destruct inc1; intros Hk; eapply blt_irrefl; eauto with key_order.
  - rewrite lookup_app_r in Hl by lia. destruct (j - length a)%nat as [|j'] eqn:Ej; [lia|]. cbn in Hl.
    unfold keys_gt in Hc. rewrite list.Forall_lookup in Hc. pose proof (Hc j' kv' Hl) as Hgt. destruct inc1; eauto with key_order.
Qed.

(** The step to the entry after the one found. *)
Lemma open_next it a kv c : iValid it = true -> at_entry M root L it (length a) -> L = a ++ kv :: c -> keys_gt k1 c ->
  match c with
  | [] => Next s it = Ok (set_valid false it)
  | kv' :: _ => exists it', Next s it = Ok it' /\ iValid it' = true /\ at_entry M root L it' (S (length a)) /\
      Iter.Deref root it' = Ok (Some kv') /\ blt k1 kv'.1
  end.
Proof.
  intros Hv Hat EL Hc. destruct (Next_at n s M Hpages root L it _ Hat Hv) as [(Hlt & it' & EN & Hv' & Hat')|(Hend & EN)].
  - destruct c as [|kv' c]; [rewrite EL, length_app in Hlt; cbn in Hlt; lia|]. exists it'. split; [done|]. split; [done|]. split; [done|].
    destruct (at_entry_read M root L it' _ Hat') as (kv2 & Hkv2 & ED & _). apply list.Forall_cons in Hc as [Hk _]. split; [|exact Hk]. rewrite ED. do 2 f_equal.
    rewrite EL, lookup_app_r in Hkv2 by lia. replace (S (length a) - length a)%nat with 1%nat in Hkv2 by lia. by injection Hkv2.
  - destruct c as [|kv' c]; [done|]. rewrite EL, length_app in Hend. cbn in Hend. lia.
Qed.

(** What follows once the search has ended at the entry [(k, v)]. *)
Section Found.
Context (it : BIter) (a : kvl) (k v : bytes) (c : kvl) (Eseek : SeekLE fuel s root k1 = Ok it) (Hv : iValid it = true).
Context (Hat : at_entry M root L it (length a)) (EL : L = a ++ (k, v) :: c) (Ha : keys_lt a k1) (Hc : keys_gt k1 c).
Abbreviation opens it' := (open_scanner fuel s root tdef rec1 rec2 inc1 inc2 idx k1 k2 = Ok (sc_at it') /\ started (sc_at it')).
(** On the rows themselves a start that is included is a key of the table, or below all. *)
Abbreviation included_starts := (idx = 0 -> inc1 = true -> Exists (fun kv => kv.1 = k1) L \/ Forall (fun kv => blt k1 kv.1) L).

Lemma found_at kv : L !! length a = Some kv -> kv = (k, v).
Proof. rewrite EL, list_lookup_middle by done. by intros [= <-]. Qed.
Lemma found_deref : Iter.Deref root it = Ok (Some (k, v)).
Proof. destruct (at_entry_read M root L it _ Hat) as (kv & Hkv & ED & _). by rewrite ED, (found_at kv Hkv). Qed.
Lemma found_not_below : Exists (fun kv => kv.1 = k1) L \/ Forall (fun kv => blt k1 kv.1) L -> ~ blt k k1.
Proof.
  rewrite EL. intros [Hx|Hx] Hlt.
  - apply list.Exists_exists in Hx as ([k2' v2'] & Hin & Hkk). cbn in Hkk. subst k2'.
    apply elem_of_app in Hin as [Hin|[[= -> _]|Hin]%elem_of_cons]; [|by apply blt_irrefl in Hlt|].
    + unfold keys_lt in Ha. rewrite list.Forall_forall in Ha. by apply Ha, blt_irrefl in Hin.
    + unfold keys_gt in Hc. rewrite list.Forall_forall in Hc. by apply Hc, blt_irrefl in Hin.
  - apply list.Forall_app in Hx as [_ Hx]. apply list.Forall_cons in Hx as [Hx _]. by destruct (blt_asym _ _ Hlt).
Qed.
Lemma not_above_ble : ~ above (sc_at it) k -> ble k k1.
Proof.
  unfold above. cbn. destruct inc1; intros Hab; [apply blt_ble; by apply not_ble_lt|].
  destruct (blt_total k k1) as [?|[->|?]]; [by apply blt_ble|done|done].
Qed.

Lemma opens_here : above (sc_at it) k -> opens it.
Proof.
  intros Hab. destruct (above_split it a (k, v) c EL Ha Hc) as [Hlo Hhi]. split.
  - assert (Hge : ble k1 k) by (unfold above in Hab; cbn in Hab; destruct inc1; eauto with key_order).
    unfold open_scanner. rstep Eseek. cbn [scIter key1]. rstep found_deref. cbn [key_of].
    rewrite (proj2 (Z.ltb_ge _ _)) by (apply Z.le_ngt; rewrite Compare_lt; intros Hlt; eapply blt_irrefl; eauto with key_order).
    cbn [andb mbind res_bind scIter]. rstep found_deref.
    apply (skip_stop s root fuel (sc_at it) k v). unfold above in Hab. cbn in Hab. destruct inc1; [by left|by right].
  - left. exists (length a). split; [done|]. split; [done|]. split; [|done]. intros j kv' Hj Hl.
    destruct (decide (j = length a)) as [->|]; [by rewrite (found_at kv' Hl)|apply (Hhi j kv'); [lia|done]].
Qed.

(** The entry found is not above the bound, and is the last. *)
Lemma opens_end : c = [] -> ~ above (sc_at it) k -> (inc1 = true \/ Exists (fun kv => blt k1 kv.1) L) -> included_starts -> opens (set_valid false it).
Proof.
  intros Hcn Hab Hex Hinc. destruct (above_split it a (k, v) c EL Ha Hc) as [Hlo _]. pose proof (open_next it a (k, v) c Hv Hat EL Hc) as HN. rewrite Hcn in HN.
  assert (Hall : Forall (fun kv => ~ above (sc_at it) kv.1) L).
  { apply list.Forall_lookup. intros j kv' Hl. destruct (decide (j = length a)) as [->|]; [by rewrite (found_at kv' Hl)|].
    apply (Hlo j kv'); [|done]. apply lookup_lt_Some in Hl. rewrite EL, Hcn, length_app in Hl. cbn in Hl. lia. }
  destruct inc1 eqn:Ei; cycle 1.
  { destruct Hex as [|Hex]; [done|]. apply list.Exists_exists in Hex as (kv' & Hin & Hlt). rewrite list.Forall_forall in Hall. by destruct (Hall kv' Hin). }
  assert (Hlt : blt k k1) by (unfold above in Hab; cbn in Hab; by apply not_ble_lt). split; [|right; exists (length a); done].
  unfold open_scanner. rstep Eseek. cbn [scIter key1]. rstep found_deref. cbn [key_of]. rewrite (proj2 (Z.ltb_lt _ _)) by by apply Compare_lt.
  destruct (Z.eqb_spec idx 0) as [Hidx|Hidx]; [by destruct (found_not_below (Hinc Hidx eq_refl))|].
  cbn [negb andb]. unfold scNext. cbn [scIter]. rstep HN. cbn [set_iter scIter key1 key2 scKey1 scKey2 scTdef key1Include key2Include scIndex].
  change (Iter.Deref root (set_valid false it)) with (Iter.Deref root it). rstep found_deref.
  apply (skip_stop s root fuel (mkScanner (set_valid false it) rec1 rec2 tdef true inc2 idx k1 k2) k v). by left.
Qed.

(** It is not, and the next entry is. *)
Lemma opens_next kv' c' : (0 < fuel)%nat -> c = kv' :: c' -> ~ above (sc_at it) k -> included_starts -> exists it', opens it'.
Proof.
  intros Hf0 Hcn Hab Hinc. destruct (above_split it a (k, v) c EL Ha Hc) as [Hlo Hhi].
  pose proof (open_next it a (k, v) c Hv Hat EL Hc) as HN. rewrite Hcn in HN. destruct HN as (it' & EN & Hv' & Hat' & ED' & Hlt'). destruct kv' as [k' v']. cbn [fst] in Hlt'.
  exists it'. split; cycle 1.
  { left. exists (S (length a)). split; [done|]. split; [done|]. split; [intros j kv2 Hj; apply (Hhi j kv2); lia|].
    intros j kv2 Hj Hl. destruct (decide (j = length a)) as [->|]; [by rewrite (found_at kv2 Hl)|apply (Hlo j kv2); [lia|done]]. }
  pose proof (fun fl => skip_stop s root fl (sc_at it') k' v' (or_intror Hlt')) as Hstop. pose proof (not_above_ble Hab) as Hle.
  unfold open_scanner. rstep Eseek. cbn [scIter key1]. rstep found_deref. cbn [key_of].
  destruct ((Compare k k1 <? 0) && negb (idx =? 0)) eqn:Ec.
  - unfold scNext. cbn [scIter]. rstep EN. cbn [set_iter scIter key1 key2 scKey1 scKey2 scTdef key1Include key2Include scIndex]. rstep ED'. apply Hstop.
  - cbn [mbind res_bind scIter]. rstep found_deref. destruct inc1 eqn:Ei.
    { exfalso. assert (Hlt : blt k k1) by (unfold above in Hab; cbn in Hab; by apply not_ble_lt).
      rewrite (proj2 (Z.ltb_lt _ _)) in Ec by by apply Compare_lt. destruct (Z.eqb_spec idx 0) as [Hidx|]; [|done].
      by destruct (found_not_below (Hinc Hidx eq_refl)). }
    destruct fuel as [|fl]; [lia|]. cbn [skip_loop key1Include key1]. rewrite (proj2 (Z.leb_le _ _)) by by apply Compare_le.
    cbn [andb negb]. unfold scNext. cbn [scIter]. rstep EN. cbn [set_iter scIter key1 key2 scKey1 scKey2 scTdef key1Include key2Include scIndex].
    rstep ED'. apply Hstop.
Qed.
End Found.

Lemma open_started : (0 < fuel)%nat -> (inc1 = true \/ Exists (fun kv => blt k1 kv.1) L) ->
  (idx = 0 -> inc1 = true -> Exists (fun kv => kv.1 = k1) L \/ Forall (fun kv => blt k1 kv.1) L) ->
  exists it, open_scanner fuel s root tdef rec1 rec2 inc1 inc2 idx k1 k2 = Ok (sc_at it) /\ started (sc_at it).
Proof.
  intros Hf0 Hex Hinc. destruct open_seek as (it & a & [k v] & c & E & Hv & Hat & EL & Ha & Hc & _).
  destruct (decide (above (sc_at it) k)) as [Hab|Hab]; [exists it; by eapply opens_here|].
  destruct c as [|kv' c]; [eexists; by eapply opens_end|by eapply opens_next].
Qed.
End Open.
End Range.

(** ** From the root *)

Lemma EncodeVal1_nonempty key v r : EncodeVal1 key v = Ok r -> key <> [] -> r <> [].
Proof.
  intros E Hk. assert (Hx : exists x, r = key ++ x); [|by destruct Hx as [x ->]; destruct key].
  unfold EncodeVal1 in E. destruct (decide (vType v = TYPE_BYTES)); [injection E as <-; by eexists|].
  destruct (decide (vType v = TYPE_INT64)); [|done]. rinv E. injection E as <-. by eexists.
Qed.
Lemma EncodeKey_nonempty prefix vs r : EncodeKey prefix vs = Ok r -> r <> [].
Proof.
  unfold EncodeKey. assert (Hk : be_split 4 prefix <> []) by (intros E%(f_equal length); by rewrite length_be_split in E).
  revert Hk. generalize (be_split 4 prefix). induction vs as [|v vs IH]; intros key Hk E; [by injection E as <-|].
  cbn in E. rinv E. eapply IH; [|exact E]. by eapply EncodeVal1_nonempty.
Qed.
Lemma bound_key_nonempty tdef rec idx k : bound_key tdef rec idx = Ok k -> k <> [].
Proof. unfold bound_key. destruct (idx =? 0); intros E; rinv E; by eapply EncodeKey_nonempty. Qed.
Lemma scan_bounds_nonempty tdef rec1 rec2 inc1 inc2 idx k1 k2 r1 r2 i1 i2 : scan_bounds tdef rec1 rec2 inc1 inc2 idx = Ok (k1, k2, r1, r2, i1, i2) -> k1 <> [].
Proof.
  unfold scan_bounds. intros E. rinv E. apply bound_key_nonempty in E0, E1.
  destruct (0 <? Compare a a0), (negb (idx =? 0)); injection E as <- _ _ _ _ _; try done; by intros [_ ?]%app_nil.
Qed.

Section Root.
Context {St pages} `{PageLaws St pages}.
Context (h fuel n : nat) (s : St) (M : gmap Z bytes) (root : Z) (l : kvl).
Context (Ht : tree_any M root h l) (Hp : pages n s M) (Hu : user_kvs l) (Hroot : root <> 0) (Hfuel : (h < fuel)%nat).
Context (tdef : TableDef) (rec1 rec2 : Rec) (i1 i2 : bool) (idx : Z) (k1 k2 : bytes) (r1 r2 : Rec) (inc1 inc2 : bool).
Context (Hb : scan_bounds tdef rec1 rec2 i1 i2 idx = Ok (k1, k2, r1, r2, inc1, inc2)).
Abbreviation sc_at it := (mkScanner it r1 r2 tdef inc1 inc2 idx k1 k2).

Lemma new_scanner : NewScanner fuel s root tdef rec1 rec2 i1 i2 idx = open_scanner fuel s root tdef r1 r2 inc1 inc2 idx k1 k2.
Proof. unfold NewScanner. by rstep Hb. Qed.
Lemma shown_range it L : L = l \/ L = sentinel :: l -> filter (fun kv => in_bounds (sc_at it) kv.1) L = filter (fun kv => in_bounds (sc_at it) kv.1) l.
Proof.
  intros [->| ->]; [done|]. rewrite filter_cons_False; [done|]. pose proof (scan_bounds_nonempty _ _ _ _ _ _ _ _ _ _ _ _ Hb) as Hk.
  intros [Ha _]. unfold above in Ha. cbn in Ha. pose proof (nil_blt k1 Hk) as Hlt.
  destruct inc1; eapply blt_irrefl; eauto with key_order.
Qed.
Lemma shown_exists (P : bytes * bytes -> Prop) L : L = l \/ L = sentinel :: l -> Exists P l -> Exists P L.
Proof. intros [->| ->]; [done|]. by right. Qed.
Lemma new_stands : (inc1 = true \/ Exists (fun kv => blt k1 kv.1) l) -> (idx = 0 -> inc1 = true -> Exists (fun kv => kv.1 = k1) l) ->
  exists L it, kv_sorted L /\ (length L <= S (length l))%nat /\ NewScanner fuel s root tdef rec1 rec2 i1 i2 idx = Ok (sc_at it) /\
    stands M root L (sc_at it) (filter (fun kv => in_bounds (sc_at it) kv.1) l).
Proof.
  intros Hex Hinc. destruct (tree_any_shown M root h l Ht Hroot Hu) as (B & F & L & HM & HT & HsL & HLne & HL).
  destruct (open_started n s M Hp root L HsL fuel h B F Hfuel Hroot HM HT HLne tdef r1 r2 inc1 inc2 idx k1 k2 ltac:(lia)) as (it & E & Hst).
  { destruct Hex as [|Hex]; [by left|right; by apply (shown_exists _ L)]. }
  { intros H1 H2. left. apply (shown_exists _ L); auto. }
  exists L, it. split; [done|]. split; [destruct HL as [->| ->]; cbn; lia|]. split; [by rewrite new_scanner|].
  rewrite <- (shown_range it L HL). by apply started_stands.
Qed.
Lemma lists_range fuel' : (2 + length l < fuel')%nat -> (inc1 = true \/ Exists (fun kv => blt k1 kv.1) l) ->
  (idx = 0 -> inc1 = true -> Exists (fun kv => kv.1 = k1) l) ->
  exists it, NewScanner fuel s root tdef rec1 rec2 i1 i2 idx = Ok (sc_at it) /\
    collect fuel' s root (sc_at it) = Ok (map Some (filter (fun kv => in_bounds (sc_at it) kv.1) l)).
Proof.
  intros Hf' Hex Hinc. destruct (new_stands Hex Hinc) as (L & it & HsL & HlL & E & Hst). exists it. split; [done|].
  apply (stands_collect n s M Hp root L HsL _ _ _ Hst). pose proof (length_filter (fun kv => in_bounds (sc_at it) kv.1) l). lia.
Qed.

(** ** The gaps *)

Lemma gap_endless : inc1 = false -> Forall (fun kv => ble kv.1 k1) l -> NewScanner fuel s root tdef rec1 rec2 i1 i2 idx = Crash OutOfFuel.
Proof.
  intros Hinc HF. destruct (tree_any_shown M root h l Ht Hroot Hu) as (B & F & L & HM & HT & HsL & HLne & HL).
  assert (HFL : Forall (fun kv => ble kv.1 k1) L).
  { pose proof (scan_bounds_nonempty _ _ _ _ _ _ _ _ _ _ _ _ Hb). destruct HL as [->| ->]; [done|]. constructor; [|done]. by apply blt_ble, nil_blt. }
  destruct (open_seek n s M Hp root L HsL fuel h B F Hfuel Hroot HM HT HLne k1) as (it & a & [k v] & c & E & Hv & Hat & EL & _).
  assert (Hend : forall it' i, at_entry M root L it' i -> (kv ← Iter.Deref root it'; match kv with
    | None => Ok (sc_at it') | Some (key, _) => skip_loop s root fuel (sc_at it') (Compare key k1) end) = Crash OutOfFuel).
  { intros it' i Hat'. destruct (at_entry_read M root L it' i Hat') as ([k' v'] & Hkv' & ED' & _). rstep ED'.
    apply (skip_loop_endless n s M Hp root L fuel _ i); [done|done|exact HFL|]. apply Compare_le.
    rewrite list.Forall_lookup in HFL. exact (HFL i (k', v') Hkv'). }
  rewrite new_scanner. destruct (at_entry_read M root L it _ Hat) as ([k' v'] & _ & ED & _). unfold open_scanner. rstep E. cbn [scIter key1]. rstep ED. cbn [key_of].
  destruct ((Compare k' k1 <? 0) && negb (idx =? 0)); [|exact (Hend it _ Hat)].
  destruct (Next_any n s M Hp root L it _ Hat) as (it' & i' & EN & Hat'). unfold scNext. cbn [scIter]. rstep EN. exact (Hend it' i' Hat').
Qed.
Lemma gap_empty : inc1 = true -> idx = 0 -> Exists (fun kv => blt kv.1 k1) l -> Forall (fun kv => kv.1 <> k1) l ->
  exists sc, NewScanner fuel s root tdef rec1 rec2 i1 i2 idx = Ok sc /\ scValid root sc = Ok false.
Proof.
  intros Hinc Hidx Hex HF. destruct (tree_any_shown M root h l Ht Hroot Hu) as (B & F & L & HM & HT & HsL & HLne & HL).
  pose proof (scan_bounds_nonempty _ _ _ _ _ _ _ _ _ _ _ _ Hb) as Hk.
  destruct (open_seek n s M Hp root L HsL fuel h B F Hfuel Hroot HM HT HLne k1) as (it & a & [k v] & c & E & Hv & Hat & EL & Ha & Hc & Hka).
  exists (sc_at it). rewrite new_scanner. destruct (scValid_spec M root L (sc_at it) _ Hat) as (kv & Hkv & ED & EV).
  rewrite EL, list_lookup_middle in Hkv by done. injection Hkv as <-. cbn [scIter] in ED. split.
  - unfold open_scanner. rstep E. cbn [scIter key1]. rstep ED. rewrite Hidx, andb_false_r. cbn [mbind res_bind scIter]. rstep ED. cbn [key_of].
    apply (skip_stop s root fuel (mkScanner it r1 r2 tdef inc1 inc2 0 k1 k2) k v). by left.
  - rewrite EV, (bool_decide_eq_false_2 (in_bounds _ _)), andb_false_r; [done|]. intros [Hab _]. unfold above in Hab. cbn in Hab. rewrite Hinc in Hab.
    assert (Hlt : blt k k1); [|exact (blt_irrefl k (blt_le_trans k k1 k Hlt Hab))].
    destruct Hka as [->|Hka].
    + apply list.Exists_exists in Hex as (kv & Hin' & Hlt). assert (HinL : kv ∈ L) by (destruct HL as [->| ->]; [done|by right]).
      rewrite EL in HinL. apply elem_of_cons in HinL as [->|HinL]; [done|].
      unfold keys_gt in Hc. rewrite list.Forall_forall in Hc. by destruct (blt_asym _ _ Hlt (Hc kv HinL)).
    + cbn [fst] in Hka. apply ble_lt_eq in Hka as [Hlt| ->]; [done|]. exfalso. rewrite list.Forall_forall in HF. apply (HF (k1, v)); [|done].
      assert (HinL : (k1, v) ∈ L) by (rewrite EL; apply elem_of_app; right; by left).
      destruct HL as [->| ->]; [done|]. by apply elem_of_cons in HinL as [[=]|?].
Qed.
End Root.

Section Claims.
Context {St pages} `{PageLaws St pages}.

(** C19: What a scan between two bounds finds.  NewScanner orders the bounds and
    stands at the first key between them, and the loop of Valid, Deref and Next
    then lists in order exactly the entries of the snapshot with keys between the
    bounds, each bound included or not as asked; provided that there is an entry
    above an excluded first bound and that, on the primary index, an included
    first bound is a key. *)
Theorem scanner_lists_range h fuel n (s : St) M root l tdef rec1 rec2 i1 i2 idx k1 k2 r1 r2 inc1 inc2 fuel' :
  tree_any M root h l -> pages n s M -> user_kvs l -> root <> 0 -> (h < fuel)%nat -> (2 + length l < fuel')%nat ->
  scan_bounds tdef rec1 rec2 i1 i2 idx = Ok (k1, k2, r1, r2, inc1, inc2) ->
  (inc1 = true \/ Exists (fun kv => blt k1 kv.1) l) -> (idx = 0 -> inc1 = true -> Exists (fun kv => kv.1 = k1) l) ->
  exists sc, NewScanner fuel s root tdef rec1 rec2 i1 i2 idx = Ok sc /\
    (key1 sc, key1Include sc, key2 sc, key2Include sc) = (k1, inc1, k2, inc2) /\
    collect fuel' s root sc = Ok (map Some (filter (fun kv => in_bounds sc kv.1) l)).
Proof.
  intros Ht Hp Hu Hr Hf Hf' Hb Hex Hinc.
  destruct (lists_range h fuel n s M root l Ht Hp Hu Hr Hf tdef rec1 rec2 i1 i2 idx k1 k2 r1 r2 inc1 inc2 Hb fuel' Hf' Hex Hinc) as (it & E & EC).
  by eexists.
Qed.

(** C36: The two cases left out.  With an excluded first bound that no key of the
    snapshot exceeds, NewScanner never returns: it asks the exhausted iterator for
    the next key for ever.  And on the primary index, a scan from an included first
    bound that is not a key finds nothing when there is a smaller key, whatever
    lies between the bounds. *)
Theorem scanner_gaps h fuel n (s : St) M root l tdef rec1 rec2 i1 i2 idx k1 k2 r1 r2 inc1 inc2 :
  tree_any M root h l -> pages n s M -> user_kvs l -> root <> 0 -> (h < fuel)%nat ->
  scan_bounds tdef rec1 rec2 i1 i2 idx = Ok (k1, k2, r1, r2, inc1, inc2) ->
  (inc1 = false -> Forall (fun kv => ble kv.1 k1) l -> NewScanner fuel s root tdef rec1 rec2 i1 i2 idx = Crash OutOfFuel) /\
  (inc1 = true -> idx = 0 -> Exists (fun kv => blt kv.1 k1) l -> Forall (fun kv => kv.1 <> k1) l ->
    exists sc, NewScanner fuel s root tdef rec1 rec2 i1 i2 idx = Ok sc /\ scValid root sc = Ok false).
Proof.
  intros Ht Hp Hu Hr Hf Hb. split.
  - intros -> HF. by apply (gap_endless h fuel n s M root l Ht Hp Hu Hr Hf tdef rec1 rec2 i1 i2 idx k1 k2 r1 r2 false inc2 Hb).
  - intros -> -> Hex HF. by apply (gap_empty h fuel n s M root l Ht Hp Hu Hr Hf tdef rec1 rec2 i1 i2 0 k1 k2 r1 r2 true inc2 Hb).
Qed.
End Claims.

(** ** Instances: a page with three rows of the table of people *)

(** The rows 3, 7 and 9, with an empty name and no other column. *)
Definition id_rec (i : Z) : Rec := AddI64 emptyRec (gostr "id") i.
Definition id_key (i : Z) : bytes := match EncodeKey 100 [IntVal i] with Ok k => k | Crash _ => [] end.
Definition three_rows : kvl := [(id_key 3, [Byte.x61]); (id_key 7, [Byte.x62]); (id_key 9, [Byte.x63])].
Lemma three_rows_ok : tree_any {[1 := leaf_page (sentinel :: three_rows)]} 1 0 three_rows /\
  mem_pages 1000 (leaf_store (sentinel :: three_rows)) {[1 := leaf_page (sentinel :: three_rows)]} /\ user_kvs three_rows.
Proof.
  assert (Hfit : node_size (map kv_entry (sentinel :: three_rows)) <= PAGE_SIZE) by (vm_compute; discriminate).
  destruct (leaf_store_ok _ Hfit) as (Hp & _). split; [by apply any_rep, leaf_store_rep|]. split; [done|]. apply user_dec. by vm_compute.
Qed.

Lemma scanner_lists_range_witness : exists sc, NewScanner 5 (leaf_store (sentinel :: three_rows)) 1 people_def (id_rec 8) (id_rec 3) false true 0 = Ok sc /\
  collect 6 (leaf_store (sentinel :: three_rows)) 1 sc = Ok [Some (id_key 3, [Byte.x61]); Some (id_key 7, [Byte.x62])].
Proof.
  destruct three_rows_ok as (Ht & Hp & Hu).
  destruct (scanner_lists_range 0 5 1000 _ _ 1 three_rows people_def (id_rec 8) (id_rec 3) false true 0 (id_key 3) (id_key 8) (id_rec 3) (id_rec 8) true false 6
    Ht Hp Hu ltac:(done) ltac:(lia) ltac:(cbn; lia) ltac:(vm_compute; reflexivity) ltac:(by left) ltac:(by left)) as (sc & E & Hk & EC).
  exists sc. split; [exact E|]. rewrite EC. injection Hk as E1 E2 E3 E4.
  assert (Hr : forall key : bytes, in_bounds sc key <-> ble (id_key 3) key /\ blt key (id_key 8)) by (intros key; unfold in_bounds, above, below; by rewrite E1, E2, E3, E4).
  unfold three_rows. rewrite (filter_cons_True _ (id_key 3, _)), (filter_cons_True _ (id_key 7, _)), (filter_cons_False _ (id_key 9, _)).
  - reflexivity.
  - rewrite Hr. vm_compute. intros [_ Hlt]. discriminate Hlt.
  - apply Hr. vm_compute. split; [discriminate|reflexivity].
  - apply Hr. vm_compute. split; [discriminate|reflexivity].
Defined.
Lemma scanner_gaps_witness :
  NewScanner 5 (leaf_store (sentinel :: three_rows)) 1 people_def (id_rec 9) (id_rec 12) false true 0 = Crash OutOfFuel /\
  (exists sc, NewScanner 5 (leaf_store (sentinel :: three_rows)) 1 people_def (id_rec 5) (id_rec 12) true true 0 = Ok sc /\
    scValid 1 sc = Ok false).
Proof.
  destruct three_rows_ok as (Ht & Hp & Hu). split.
  - refine (proj1 (scanner_gaps 0 5 1000 _ _ 1 three_rows people_def (id_rec 9) (id_rec 12) false true 0 (id_key 9) (id_key 12) (id_rec 9) (id_rec 12) false true
      Ht Hp Hu _ _ _) eq_refl _); [done|lia|by vm_compute|]. apply (bool_decide_eq_true (Forall _ three_rows)). by vm_compute.
  - refine (proj2 (scanner_gaps 0 5 1000 _ _ 1 three_rows people_def (id_rec 5) (id_rec 12) true true 0 (id_key 5) (id_key 12) (id_rec 5) (id_rec 12) true true
      Ht Hp Hu _ _ _) eq_refl eq_refl _ _); [done|lia|by vm_compute| |].
    + by left; vm_compute.
    + repeat constructor; by vm_compute.
Defined.
