(* ===== verification/Tables.v ===== *)
(** * Tables as finite maps of rows

    What the operations of db/db.go do to a table: its rows are a finite map
    from key columns to the other columns, stored under the prefix of its first
    index, and each other index has one key for each row. *)
From Stdlib Require Import ZArith Lia.
From stdpp Require Import base gmap list strings countable.
From coqutil Require Import Byte Word.LittleEndianList.
From S2P Require Import Prelude Schema KVList TreeRoot SecIndex Db.

(** ** What a transaction promises

    [holds n tx m W]: the transaction reads as the map [m], has set the keys [W]
    and has room for [n] more operations.  Nothing is promised of the deletion
    of a key the transaction has set. *)
Class TxLaws (T : Type) `{TxOps T} (holds : nat -> T -> gmap bytes bytes -> gset bytes -> Prop) := {
  tx_get n tx m W key : holds n tx m W -> key <> [] ->
    exists tx', kv_get tx key = Ok (tx', m !! key) /\ holds n tx' m W;
  tx_set n tx m W key val : holds (S n) tx m W -> user_kv (key, val) ->
    exists tx', kv_set tx key val = Ok tx' /\ holds n tx' (<[key := val]> m) ({[key]} ∪ W);
  tx_le n tx m W : holds (S n) tx m W -> holds n tx m W
}.
Class TxDelLaws (T : Type) `{TxOps T} (holds : nat -> T -> gmap bytes bytes -> gset bytes -> Prop) := {
  tx_del n tx m W key : holds (S n) tx m W -> key ∉ W -> is_Some (m !! key) ->
    exists tx', kv_del tx key = Ok (tx', true) /\ holds n tx' (delete key m) W
}.

(** ** Entries of a row *)

Section Rows.
Context `{JsonVals}.
Context (tdef : TableDef) (p : nat) (Htd : tdef_ok tdef p).

Definition prefix0 : Z := default 0 (head (tPrefixes tdef)).
Definition pkey (row : list Value) : bytes := enc_key prefix0 (take p row).
Definition row_keys (row : list Value) : list bytes := pkey row :: sec_keys tdef p row.
Definition row_entries (row : list Value) : list (bytes * bytes) :=
  (pkey row, EncodeVal (drop p row)) :: map (fun k => (k, [])) (sec_keys tdef p row).
(** The keys of the table: those with one of its prefixes. *)
Definition owned (key : bytes) : Prop := exists q rest, q ∈ tPrefixes tdef /\ key = be_split 4 q ++ rest.

Lemma prefixes_shape : exists q0 qs ix0 idxs, tPrefixes tdef = q0 :: qs /\ tIndexes tdef = ix0 :: idxs /\ prefix0 = q0 /\ length qs = length idxs.
Proof.
  pose proof (td_primary _ _ Htd) as Hne. pose proof (td_prefixes _ _ Htd) as Hlen. unfold prefix0.
  destruct (tIndexes tdef) as [|ix0 idxs]; [done|]. destruct (tPrefixes tdef) as [|q0 qs]; [done|].
  exists q0, qs, ix0, idxs. split; [done|]. split; [done|]. split; [done|]. by injection Hlen.
Qed.
Lemma row_entries_keys row : (row_entries row).*1 = row_keys row.
Proof. unfold row_entries, row_keys. cbn. f_equal. induction (sec_keys tdef p row) as [|k ks IH]; [done|]. cbn. by f_equal. Qed.
Lemma row_entries_length row : length (row_entries row) = length (tIndexes tdef).
Proof.
  destruct prefixes_shape as (q0 & qs & ix0 & idxs & Eq & Ei & _ & Hl). unfold row_entries, sec_keys. rewrite Eq, Ei. cbn.
  rewrite length_map, length_zip_with. lia.
Qed.

(** A key of a row: the primary one, or that of an index. *)
Lemma row_keys_cases row key : key ∈ row_keys row -> exists i q, tPrefixes tdef !! i = Some q /\
  match i with
  | O => key = enc_key q (take p row)
  | S i => exists idx, tIndexes tdef !! S i = Some idx /\ key = sec_key tdef p row q idx
  end.
Proof.
  destruct prefixes_shape as (q0 & qs & ix0 & idxs & Eq & Ei & E0 & Hl). unfold row_keys, pkey, sec_keys. rewrite E0, Eq, Ei.
  rewrite elem_of_cons. intros [-> |Hk]; [by exists 0%nat, q0|]. cbn [tail] in Hk. apply list_elem_of_lookup in Hk as [i Hk].
  apply lookup_zip_with_Some in Hk as (q & idx & -> & Hq & Hi). exists (S i), q. split; [done|]. by exists idx.
Qed.
Lemma sec_key_enc row q idx : exists vs, sec_key tdef p row q idx = enc_key q vs.
Proof. by eexists. Qed.
Lemma key_prefix row key : key ∈ row_keys row -> exists i q vs, tPrefixes tdef !! i = Some q /\ key = enc_key q vs.
Proof.
  intros (i & q & Hq & Hk)%row_keys_cases. destruct i as [|i]; [by exists 0%nat, q, (take p row)|].
  destruct Hk as (idx & _ & ->). destruct (sec_key_enc row q idx) as [vs E]. by exists (S i), q, vs.
Qed.
Lemma row_keys_owned row key : key ∈ row_keys row -> owned key.
Proof. intros (i & q & vs & Hq & ->)%key_prefix. exists q, (concat (map enc_val vs)). split; [by eapply list_elem_of_lookup_2|done]. Qed.
Lemma prefix_u32 i q : tPrefixes tdef !! i = Some q -> 0 <= q < 4294967296.
Proof. intros Hq. pose proof (td_u32 _ _ Htd) as HF. rewrite list.Forall_lookup in HF. by eapply HF. Qed.
Lemma row_keys_nonempty row key : key ∈ row_keys row -> key <> [].
Proof. intros (i & q & vs & _ & ->)%key_prefix. apply enc_key_nonempty. Qed.

(** Rows with a key in common have the same key columns. *)
Lemma row_keys_pk row1 row2 key : row_ok tdef p row1 -> row_ok tdef p row2 -> key ∈ row_keys row1 -> key ∈ row_keys row2 ->
  take p row1 = take p row2.
Proof.
  intros Hr1 Hr2 H1 H2. apply row_keys_cases in H1 as (i & q & Hq & H1). apply row_keys_cases in H2 as (j & q' & Hq' & H2).
  assert (E : q = q').
  { destruct i as [|i], j as [|j]; [rewrite H1 in H2|destruct H2 as (? & _ & H2); rewrite H1 in H2|destruct H1 as (? & _ & H1); rewrite H1 in H2|
      destruct H1 as (? & _ & H1), H2 as (? & _ & H2); rewrite H1 in H2];
      unfold sec_key in H2; eapply enc_key_inj; try exact H2; by eapply prefix_u32. }
  subst q'. assert (i = j) by (eapply NoDup_lookup; [apply (td_nodup _ _ Htd)|done..]). subst j.
  pose proof (prefix_u32 i q Hq) as Hu. destruct i as [|i].
  - rewrite H1 in H2. apply enc_key_inj in H2 as [_ E]; [|done..]. by apply (enc_vals_eq (take p (tTypes tdef))); [apply pk_wf..|].
  - destruct H1 as (idx & Hi & ->), H2 as (idx' & Hi' & H2). rewrite Hi in Hi'. injection Hi' as <-.
    unfold sec_key in H2. apply enc_key_inj in H2 as [_ E]; [|done..].
    assert (Hin : Forall (fun col => col ∈ tCols tdef) idx).
    { apply list.Forall_forall. intros col Hcol. apply (td_index _ _ Htd idx); [|done].
      apply (list_elem_of_lookup_2 _ i). by rewrite lookup_tail. }
    apply (enc_vals_eq (sec_types tdef p idx)) in E; [|by apply sec_wf..].
    apply app_inj_1 in E as [_ E]; [done|by rewrite !length_map].
Qed.
Lemma row_keys_nodup row : NoDup (row_keys row).
Proof.
  destruct prefixes_shape as (q0 & qs & ix0 & idxs & Eq & Ei & E0 & Hl). pose proof (td_nodup _ _ Htd) as Hnd.
  unfold row_keys, pkey, sec_keys. rewrite E0, Eq, Ei in *. cbn [tail]. pose proof prefix_u32 as Hu. rewrite Eq in Hu.
  assert (HX : forall i k, zip_with (sec_key tdef p row) qs idxs !! i = Some k -> exists q vs, qs !! i = Some q /\ k = enc_key q vs).
  { intros i k (q & idx & -> & Hq & _)%lookup_zip_with_Some. destruct (sec_key_enc row q idx) as [vs E]. by exists q, vs. }
  apply list.NoDup_cons. split.
  - intros [i Hi]%list_elem_of_lookup. destruct (HX i _ Hi) as (q & vs & Hq & E). apply enc_key_inj in E as [-> _];
      [|by apply (Hu 0%nat)|by apply (Hu (S i))]. apply list.NoDup_cons in Hnd as [Hnd _]. apply Hnd. by eapply list_elem_of_lookup_2.
  - apply list.NoDup_alt. intros i j k Hi Hj. destruct (HX i k Hi) as (q & vs & Hq & ->). destruct (HX j _ Hj) as (q' & vs' & Hq' & E).
    apply enc_key_inj in E as [-> _]; [|by apply (Hu (S i))|by apply (Hu (S j))]. apply list.NoDup_cons in Hnd as [_ Hnd].
    by eapply NoDup_lookup.
Qed.
End Rows.

(** ** Maps *)

Definition set_entries (es : list (bytes * bytes)) (m : gmap bytes bytes) : gmap bytes bytes :=
  foldl (fun m kv => <[kv.1 := kv.2]> m) m es.
Definition del_entries (ks : list bytes) (m : gmap bytes bytes) : gmap bytes bytes := foldl (fun m k => delete k m) m ks.
Lemma lookup_set_entries (es : list (bytes * bytes)) : forall (m : gmap bytes bytes) (k v : bytes), NoDup es.*1 ->
  set_entries es m !! k = Some v <-> (k, v) ∈ es \/ k ∉ es.*1 /\ m !! k = Some v.
Proof.
  induction es as [|[k0 v0] es IH]; intros m k v Hnd; cbn [set_entries foldl fmap list_fmap fst snd].
  { rewrite elem_of_nil. split; [right; split; [apply not_elem_of_nil|done]|by intros [[]|[_ ?]]]. }
  apply list.NoDup_cons in Hnd as [Hk0 Hnd]. change (foldl _ _ es) with (set_entries es (<[k0 := v0]> m)).
  rewrite (IH _ k v Hnd), !elem_of_cons. destruct (decide (k = k0)) as [-> |Hne].
  - rewrite lookup_insert_eq. split; [intros [Hin|[_ [= <-]]]; [by left; right|by left; left]|].
    intros [[[= ->]|Hin]|[Hn _]]; [by right|by left|]. exfalso. apply Hn. by left.
  - rewrite lookup_insert_ne by done. split; intros [Hin|[Hn Hm]]; [by left; right|right; split; [intros [?|?]; done|done]| |].
    + destruct Hin as [[= -> _]|Hin]; [done|by left].
    + right. split; [|done]. intros Hin. apply Hn. by right.
Qed.
Lemma lookup_del_entries (ks : list bytes) : forall (m : gmap bytes bytes) (k v : bytes), del_entries ks m !! k = Some v <-> k ∉ ks /\ m !! k = Some v.
Proof.
  induction ks as [|k0 ks IH]; intros m k v; [split; [intros; split; [apply not_elem_of_nil|done]|by intros [_ ?]]|].
  cbn [del_entries foldl]. change (foldl _ _ ks) with (del_entries ks (delete k0 m)). rewrite IH, elem_of_cons, lookup_delete_Some. naive_solver.
Qed.
Lemma set_entries_other (es : list (bytes * bytes)) (m : gmap bytes bytes) (k : bytes) : k ∉ es.*1 -> set_entries es m !! k = m !! k.
Proof.
  revert m. induction es as [|[k0 v0] es IH]; intros m Hk; [done|]. cbn in Hk. apply not_elem_of_cons in Hk as [Hne Hk].
  change (set_entries _ m) with (set_entries es (<[k0 := v0]> m)). rewrite IH by done. by rewrite lookup_insert_ne.
Qed.
Lemma del_entries_other (ks : list bytes) (m : gmap bytes bytes) (k : bytes) : k ∉ ks -> del_entries ks m !! k = m !! k.
Proof.
  intros Hk. destruct (m !! k) as [v|] eqn:E; [by apply lookup_del_entries|].
  destruct (del_entries ks m !! k) as [v|] eqn:E'; [|done]. apply lookup_del_entries in E' as [_ E']. congruence.
Qed.

(** ** Tables *)

Section TableRep.
Context `{JsonVals}.

(** The rows [rows], from key columns to the others, are what the map [m] has
    under the prefixes of the table. *)
Record table_rep (tdef : TableDef) (p : nat) (rows : gmap (list Value) (list Value)) (m : gmap bytes bytes) : Prop := {
  tb_rows pk rest : rows !! pk = Some rest -> length pk = p /\ row_ok tdef p (pk ++ rest);
  tb_map key v : owned tdef key ->
    (m !! key = Some v <-> exists pk rest, rows !! pk = Some rest /\ (key, v) ∈ row_entries tdef p (pk ++ rest))
}.

Lemma entry_key tdef p row k v : (k, v) ∈ row_entries tdef p row -> k ∈ row_keys tdef p row.
Proof. intros Hin. rewrite <- row_entries_keys. apply list_elem_of_fmap. by exists (k, v). Qed.
Context (tdef : TableDef) (p : nat) (Htd : tdef_ok tdef p).

Lemma table_rep_insert rows m pk rest : table_rep tdef p rows m -> rows !! pk = None -> length pk = p -> row_ok tdef p (pk ++ rest) ->
  table_rep tdef p (<[pk := rest]> rows) (set_entries (row_entries tdef p (pk ++ rest)) m).
Proof.
  intros [HR HM] Hpk Hl Hrow. split.
  - intros pk' rest' [[<- <-]|[_ Hr]]%lookup_insert_Some; [done|by apply HR].
  - intros key v Ho. rewrite lookup_set_entries by (rewrite row_entries_keys; by apply row_keys_nodup). rewrite (HM key v Ho), row_entries_keys.
    split.
    + intros [Hin|(Hn & pk' & rest' & Hr & Hin)]; [exists pk, rest; by rewrite lookup_insert_eq|].
      exists pk', rest'. split; [|done]. rewrite lookup_insert_ne; [done|]. intros ->. by rewrite Hpk in Hr.
    + intros (pk' & rest' & [[<- <-]|[Hne Hr]]%lookup_insert_Some & Hin); [by left|right].
      split; [|by exists pk', rest']. intros Hk. apply entry_key in Hin. destruct (HR _ _ Hr) as [Hl' Hrow'].
      apply Hne. rewrite <- (take_app_length' pk rest p (eq_sym Hl)), <- (take_app_length' pk' rest' p (eq_sym Hl')).
      by eapply row_keys_pk.
Qed.
Lemma table_rep_delete rows m pk rest : table_rep tdef p rows m -> rows !! pk = Some rest ->
  table_rep tdef p (delete pk rows) (del_entries (row_keys tdef p (pk ++ rest)) m).
Proof.
  intros [HR HM] Hpk. destruct (HR _ _ Hpk) as [Hl Hrow]. split; [by intros pk' rest' [_ Hr]%lookup_delete_Some; apply HR|].
  intros key v Ho. rewrite lookup_del_entries, (HM key v Ho). split.
  - intros (Hn & pk' & rest' & Hr & Hin). exists pk', rest'. split; [|done]. rewrite lookup_delete_ne; [done|].
    intros ->. rewrite Hpk in Hr. injection Hr as ->. apply Hn. by eapply entry_key.
  - intros (pk' & rest' & [Hne Hr]%lookup_delete_Some & Hin). split; [|by exists pk', rest'].
    intros Hk. apply entry_key in Hin. destruct (HR _ _ Hr) as [Hl' Hrow'].
    apply Hne. rewrite <- (take_app_length' pk rest p (eq_sym Hl)), <- (take_app_length' pk' rest' p (eq_sym Hl')). by eapply row_keys_pk.
Qed.
(** Keys of other tables do not matter. *)
Lemma table_rep_other rows m m' : table_rep tdef p rows m -> (forall key, owned tdef key -> m' !! key = m !! key) -> table_rep tdef p rows m'.
Proof. intros [HR HM] Hm. split; [done|]. intros key v Ho. rewrite Hm by done. by apply HM. Qed.
Lemma table_rep_get rows m pk : table_rep tdef p rows m -> length pk = p ->
  Forall2 wf_key_val (take p (tTypes tdef)) pk -> m !! enc_key (prefix0 tdef) pk = option_map EncodeVal (rows !! pk).
Proof.
  intros [HR HM] Hl Hw.
  assert (Ho : owned tdef (enc_key (prefix0 tdef) pk)).
  { destruct (prefixes_shape tdef p Htd) as (q0 & qs & ix0 & idxs & Eq & _ & E0 & _). exists q0, (concat (map enc_val pk)).
    rewrite Eq, E0. split; [by left|done]. }
  assert (HE : forall rest, pkey tdef p (pk ++ rest) = enc_key (prefix0 tdef) pk) by (intros rest; unfold pkey; by rewrite take_app_length').
  destruct (rows !! pk) as [rest|] eqn:E.
  - apply HM; [done|]. exists pk, rest. split; [done|]. unfold row_entries. rewrite HE, drop_app_length' by done. by left.
  - destruct (m !! enc_key (prefix0 tdef) pk) as [v|] eqn:Em; [|done]. apply HM in Em as (pk' & rest' & Hr & Hin); [|done].
    destruct (HR _ _ Hr) as [Hl' Hrow']. exfalso. apply entry_key, (row_keys_cases tdef p Htd) in Hin as (i & q & Hq & Hk).
    destruct (prefixes_shape tdef p Htd) as (q0 & qs & ix0 & idxs & Eq & _ & E0 & _). rewrite E0 in Hk.
    assert (Hq0 : tPrefixes tdef !! 0%nat = Some q0) by by rewrite Eq.
    destruct i as [|i].
    + rewrite Hq0 in Hq. injection Hq as <-. rewrite take_app_length' in Hk by done.
      apply enc_key_inj in Hk as [_ Hk]; [|by apply (prefix_u32 tdef p Htd 0)..]. apply (enc_vals_eq (take p (tTypes tdef))) in Hk; [|done|].
      * subst pk'. congruence.
      * rewrite <- (take_app_length' pk' rest' p (eq_sym Hl')). by eapply pk_wf.
    + destruct Hk as (idx & _ & Hk). unfold sec_key in Hk. apply enc_key_inj in Hk as [-> _];
        [|by apply (prefix_u32 tdef p Htd 0)|by apply (prefix_u32 tdef p Htd (S i))].
      pose proof (td_nodup _ _ Htd) as Hnd. by pose proof (NoDup_lookup _ _ _ _ Hnd Hq0 Hq).
Qed.
End TableRep.

Lemma del_entries_perm (ks1 ks2 : list bytes) (m : gmap bytes bytes) : (forall k, k ∈ ks1 <-> k ∈ ks2) -> del_entries ks1 m = del_entries ks2 m.
Proof.
  intros Hk. apply map_eq. intros k. apply option_eq. intros v. rewrite !lookup_del_entries. by rewrite Hk.
Qed.
Lemma wf_key_value t v : wf_key_val t v -> value_wf v.
Proof. intros [s|n Hn _]; [apply value_wf_str|by apply value_wf_int]. Qed.
Lemma row_values tdef p row : row_ok tdef p row -> Forall value_wf row.
Proof. intros [Hf _]. induction Hf as [|t v ts row Hv _ IH]; constructor; [by eapply wf_key_value|done]. Qed.

(** ** Operations on the entries of a row *)

Section Ops.
Context {T : Type} {holds : nat -> T -> gmap bytes bytes -> gset bytes -> Prop} `{TxLaws T holds} `{JsonVals} `{JsonTable}.

Lemma holds_mono j n tx m W : (n <= j)%nat -> holds j tx m W -> holds n tx m W.
Proof. induction 1 as [|j _ IH]; [done|]. intros Hh. by apply IH, tx_le. Qed.

Lemma set_indexes ks : forall n tx m W, holds (length ks + n) tx m W -> Forall (fun k => user_kv (k, [])) ks ->
  exists tx', foldM set_index tx ks = Ok tx' /\ holds n tx' (set_entries (map (fun k => (k, [])) ks) m) (list_to_set ks ∪ W).
Proof.
  induction ks as [|k ks IH]; intros n tx m W Hh Hu; [exists tx; split; [done|cbn [list_to_set]; by rewrite (left_id_L ∅ (∪))]|].
  apply list.Forall_cons in Hu as [Hk Hu]. cbn [length] in Hh. cbn [foldM].
  destruct (tx_set _ tx m W k [] Hh Hk) as (tx1 & E1 & Hh1). change (set_index tx k) with (kv_set tx k []). rstep E1.
  destruct (IH n tx1 _ _ Hh1 Hu) as (tx2 & E2 & Hh2). exists tx2. split; [done|]. cbn [list_to_set]. 
  by replace ({[k]} ∪ list_to_set ks ∪ W) with (list_to_set ks ∪ ({[k]} ∪ W)) by set_solver.
Qed.
Section OneTable.
Context (tdef : TableDef) (p : nat) (Htd : tdef_ok tdef p).

Lemma row_key_spec values : (p <= length values)%nat -> Forall2 wf_key_val (take p (tTypes tdef)) (take p values) ->
  row_key tdef values = Ok (enc_key (prefix0 tdef) (take p values)).
Proof.
  intros Hl Hw. destruct (prefixes_shape tdef p Htd) as (q0 & qs & ix0 & idxs & Eq & _ & E0 & _). unfold row_key.
  rewrite (index_Ok _ 0 q0) by by rewrite Eq. cbn [mbind res_bind]. rewrite (td_pkeys _ _ Htd), slice_to_Ok by done. cbn [mbind res_bind].
  rewrite E0. by eapply EncodeKey_enc.
Qed.
Lemma record_vals rec : (p <= length (rCols rec))%nat -> GetRecordVals tdef rec (tPkeys tdef) = Some (rVals rec).
Proof. intros Hl. unfold GetRecordVals. rewrite (td_pkeys _ _ Htd), Z.eqb_refl, (proj2 (Z.ltb_ge _ _)) by lia. done. Qed.

(** [stored] are the other columns of the row with the key columns of the
    record, if there is one. *)
Lemma dbGet_spec n tx m W rec pk stored : holds n tx m W -> (p <= length (rCols rec))%nat -> take p (rVals rec) = pk -> length pk = p ->
  Forall2 wf_key_val (take p (tTypes tdef)) pk -> m !! enc_key (prefix0 tdef) pk = option_map EncodeVal stored ->
  (forall rest, stored = Some rest -> Forall value_wf rest /\ (p + length rest <= length (tCols tdef))%nat) ->
  exists tx', dbGet tx tdef rec = Ok (tx', match stored with
      | Some rest => mkRec (rCols rec ++ take (length rest) (drop p (tCols tdef))) (rVals rec ++ rest)
      | None => rec end, bool_decide (is_Some stored)) /\ holds n tx' m W.
Proof.
  intros Hh Hc Hv Hl Hw Hm Hst. unfold dbGet. rewrite record_vals by done.
  assert (Hlv : (p <= length (rVals rec))%nat) by (rewrite <- Hv, length_take in Hl; lia).
  rewrite row_key_spec, Hv by (done || by rewrite Hv). cbn [mbind res_bind].
  destruct (tx_get _ tx m W (enc_key (prefix0 tdef) pk) Hh (enc_key_nonempty _ _)) as (tx' & E & Hh'). exists tx'. split; [|done].
  rstep E. rewrite Hm. destruct stored as [rest|]; cbn [option_map]; [|done]. destruct (Hst rest eq_refl) as [Hwf Hlen].
  rewrite DecodeVal_EncodeVal by (done || rewrite (td_pkeys _ _ Htd); lia).
  rewrite decide_True by (right; rewrite (td_pkeys _ _ Htd); lia). cbn [mbind res_bind]. by rewrite (td_pkeys _ _ Htd), Nat2Z.id.
Qed.
Lemma dbSet_spec n tx m W row : holds (length (tIndexes tdef) + n) tx m W -> row_ok tdef p row -> Forall user_kv (row_entries tdef p row) ->
  exists tx' rec', dbSet tx tdef (row_rec tdef row) = Ok (tx', rec', true) /\
    holds n tx' (set_entries (row_entries tdef p row) m) (list_to_set (row_keys tdef p row) ∪ W).
Proof.
  intros Hh Hrow Hu. pose proof (row_length tdef p Htd row Hrow) as Hrl. pose proof (td_p _ _ Htd) as Hp.
  pose proof (row_entries_length tdef p Htd row) as Hlen. rewrite <- Hlen in Hh.
  unfold row_entries in Hh, Hlen, Hu. cbn [length Nat.add] in Hh, Hlen. rewrite length_map in Hh, Hlen.
  apply list.Forall_cons in Hu as [Hk Hu]. unfold dbSet. rewrite record_vals by done. cbn [rVals row_rec].
  rewrite row_key_spec by (lia || by eapply pk_wf). cbn [mbind res_bind]. rewrite (td_pkeys _ _ Htd), slice_after_Ok by lia. cbn [mbind res_bind].
  destruct (tx_set _ tx m W _ _ Hh Hk) as (tx1 & E1 & Hh1). unfold pkey in E1. rstep E1.
  destruct (bool_decide_reflect (1 < length (tIndexes tdef))%nat) as [Hi|Hi].
  - destruct (GetSecondaryIndexesKeys_spec tdef p Htd row Hrow [] []) as (row' & _ & E). rewrite !app_nil_r in E. unfold row_rec. rstep E.
    destruct (set_indexes _ _ tx1 _ _ Hh1) as (tx2 & E2 & Hh2); [exact (proj1 (list.Forall_fmap _ _ _) Hu)|]. rstep E2.
    eexists tx2, _. split; [done|]. unfold row_keys, row_entries. cbn [list_to_set set_entries foldl fst snd].
    by replace ({[pkey tdef p row]} ∪ list_to_set (sec_keys tdef p row) ∪ W) with (list_to_set (sec_keys tdef p row) ∪ ({[pkey tdef p row]} ∪ W)) by set_solver.
  - exists tx1, (row_rec tdef row). split; [done|]. unfold row_keys, row_entries in *. destruct (sec_keys tdef p row); [|cbn in Hlen; lia].
    cbn [map list_to_set set_entries foldl fst snd]. by rewrite (right_id_L ∅ (∪)).
Qed.

Context (rows : gmap (list Value) (list Value)) (m : gmap bytes bytes) (Hrep : table_rep tdef p rows m).

Lemma rows_stored pk : forall rest, rows !! pk = Some rest -> length pk = p /\ Forall2 wf_key_val (take p (tTypes tdef)) pk /\
  Forall value_wf rest /\ (p + length rest = length (tCols tdef))%nat /\ take (length rest) (drop p (tCols tdef)) = drop p (tCols tdef).
Proof.
  intros rest Hr. destruct (tb_rows _ _ _ _ Hrep _ _ Hr) as [Hl Hrow]. pose proof (row_length tdef p Htd _ Hrow) as Hrl. rewrite length_app in Hrl.
  pose proof (pk_wf tdef p _ Hrow) as Hw. rewrite take_app_length' in Hw by done.
  pose proof (row_values _ _ _ Hrow) as Hv. apply list.Forall_app in Hv as [_ Hv].
  split; [done|]. split; [done|]. split; [done|]. split; [lia|]. apply take_ge. rewrite length_drop. lia.
Qed.
Lemma row_keys_stored pk rest k : rows !! pk = Some rest -> k ∈ row_keys tdef p (pk ++ rest) -> is_Some (m !! k).
Proof.
  intros Hr Hk. pose proof (row_keys_owned tdef p Htd _ _ Hk) as Ho. rewrite <- row_entries_keys in Hk.
  apply list_elem_of_fmap in Hk as ([k' v] & -> & Hin). exists v. apply (tb_map _ _ _ _ Hrep); [done|]. by exists pk, rest.
Qed.
(** Reading a row by its key columns. *)
Lemma dbGet_row n tx W rec pk : holds n tx m W -> (p <= length (rCols rec))%nat -> take p (rVals rec) = pk -> length pk = p ->
  Forall2 wf_key_val (take p (tTypes tdef)) pk ->
  exists tx', dbGet tx tdef rec = Ok (tx', match rows !! pk with
      | Some rest => mkRec (rCols rec ++ drop p (tCols tdef)) (rVals rec ++ rest)
      | None => rec end, bool_decide (is_Some (rows !! pk))) /\ holds n tx' m W.
Proof.
  intros Hh Hc Hv Hl Hw. pose proof (table_rep_get tdef p Htd rows m pk Hrep Hl Hw) as Hm.
  destruct (dbGet_spec n tx m W rec pk _ Hh Hc Hv Hl Hw Hm) as (tx' & E & Hh').
  { intros rest Hr. destruct (rows_stored pk rest Hr) as (_ & _ & ? & ? & _). split; [done|lia]. }
  exists tx'. split; [|done]. rewrite E. destruct (rows !! pk) as [rest|] eqn:Hr; [|done].
  by destruct (rows_stored pk rest Hr) as (_ & _ & _ & _ & ->).
Qed.

Context `{!TxDelLaws T holds}.
Lemma del_keys_spec ks : forall n tx m0 W, holds (length ks + n) tx m0 W -> NoDup ks -> (forall k, k ∈ ks -> k ∉ W /\ is_Some (m0 !! k)) ->
  exists tx', del_keys tx ks = Ok (tx', true) /\ holds n tx' (del_entries ks m0) W.
Proof.
  induction ks as [|k ks IH]; intros n tx m0 W Hh Hnd Hin; [by exists tx|].
  apply list.NoDup_cons in Hnd as [Hk Hnd]. cbn [length] in Hh. cbn [del_keys].
  destruct (Hin k) as [HW Hm]; [by left|]. destruct (tx_del _ tx m0 W k Hh HW Hm) as (tx1 & E1 & Hh1). rstep E1.
  destruct (IH n tx1 _ _ Hh1 Hnd) as (tx2 & E2 & Hh2); [|by exists tx2].
  intros k' Hk'. split; [by apply Hin; right|]. rewrite lookup_delete_ne; [by apply Hin; right|]. by intros ->.
Qed.
Lemma dbDel_row n tx W rec pk rest cs vs : holds (length (tIndexes tdef) + n) tx m W -> rows !! pk = Some rest ->
  (p <= length (rCols rec))%nat -> take p (rVals rec) = pk -> rCols rec ++ drop p (tCols tdef) = tCols tdef ++ cs ->
  rVals rec ++ rest = (pk ++ rest) ++ vs -> (forall k, k ∈ row_keys tdef p (pk ++ rest) -> k ∉ W) ->
  exists tx', dbDel tx tdef rec = Ok (tx', true) /\ holds n tx' (del_entries (row_keys tdef p (pk ++ rest)) m) W.
Proof.
  intros Hh Hr Hc Hv Hcols Hvals HW. destruct (rows_stored pk rest Hr) as (Hl & Hw & _). destruct (tb_rows _ _ _ _ Hrep _ _ Hr) as [_ Hrow].
  pose proof (row_entries_length tdef p Htd (pk ++ rest)) as Hlen. unfold row_entries in Hlen. cbn [length] in Hlen. rewrite length_map in Hlen.
  assert (Hlv : (p <= length (rVals rec))%nat) by (rewrite <- Hv, length_take in Hl; lia).
  unfold dbDel. rewrite record_vals, row_key_spec by (done || by rewrite Hv). cbn [mbind res_bind]. rewrite Hv.
  destruct (dbGet_row _ tx W rec pk Hh Hc Hv Hl Hw) as (tx1 & E1 & Hh1). rstep E1. rewrite Hr, bool_decide_true by done. cbn [negb].
  rewrite Hcols, Hvals. pose proof (row_keys_nodup tdef p Htd (pk ++ rest)) as Hnd. unfold row_keys in Hnd. apply list.NoDup_cons in Hnd as [Hn Hnd].
  assert (Hpk : enc_key (prefix0 tdef) pk = pkey tdef p (pk ++ rest)) by (unfold pkey; by rewrite take_app_length'). rewrite Hpk.
  assert (Hdel : exists tx2, (if bool_decide (1 < length (tIndexes tdef))%nat then
      '(_, keys) ← GetSecondaryIndexesKeys tdef (mkRec (tCols tdef ++ cs) ((pk ++ rest) ++ vs)); del_keys tx1 keys
      else Ok (tx1, true)) = Ok (tx2, true) /\ holds (S n) tx2 (del_entries (sec_keys tdef p (pk ++ rest)) m) W).
  { destruct (bool_decide_reflect (1 < length (tIndexes tdef))%nat) as [Hi|Hi].
    - destruct (GetSecondaryIndexesKeys_spec tdef p Htd (pk ++ rest) Hrow cs vs) as (row' & _ & E). rstep E.
      apply del_keys_spec; [by rewrite <- Hlen, <- plus_n_Sm in Hh1 || (eapply holds_mono; [|exact Hh1]; lia)|done|].
      intros k Hk. split; [apply HW; by right|]. eapply row_keys_stored; [exact Hr|by right].
    - exists tx1. destruct (sec_keys tdef p (pk ++ rest)); [|cbn in Hlen; lia]. split; [done|]. eapply holds_mono; [|exact Hh1]. cbn in Hlen. lia. }
  destruct Hdel as (tx2 & E2 & Hh2). rstep E2. cbn [negb].
  destruct (tx_del n tx2 _ W (pkey tdef p (pk ++ rest)) Hh2) as (tx3 & E3 & Hh3).
  - apply HW. by left.
  - destruct (row_keys_stored pk rest _ Hr ltac:(by left)) as [v Hm]. exists v. by apply lookup_del_entries.
  - exists tx3. split; [done|]. rewrite (del_entries_perm (row_keys tdef p (pk ++ rest)) (sec_keys tdef p (pk ++ rest) ++ [pkey tdef p (pk ++ rest)])).
    + unfold del_entries at 1. rewrite foldl_app. exact Hh3.
    + intros k. unfold row_keys. rewrite elem_of_app, elem_of_cons, list_elem_of_singleton. tauto.
Qed.
Lemma dbDel_missing n tx W rec pk : holds n tx m W -> rows !! pk = None -> (p <= length (rCols rec))%nat -> take p (rVals rec) = pk -> length pk = p ->
  Forall2 wf_key_val (take p (tTypes tdef)) pk -> exists tx', dbDel tx tdef rec = Ok (tx', false) /\ holds n tx' m W.
Proof.
  intros Hh Hr Hc Hv Hl Hw. assert (Hlv : (p <= length (rVals rec))%nat) by (rewrite <- Hv, length_take in Hl; lia).
  unfold dbDel. rewrite record_vals, row_key_spec by (done || by rewrite Hv). cbn [mbind res_bind].
  destruct (dbGet_row _ tx W rec pk Hh Hc Hv Hl Hw) as (tx1 & E1 & Hh1). rstep E1. rewrite Hr. exists tx1. done.
Qed.
End OneTable.

(** ** The catalogue *)

Lemma TDEF_TABLE_ok : tdef_ok TDEF_TABLE 1.
Proof.
  split; try done; try (cbn; lia).
  - apply (bool_decide_eq_true (NoDup (tCols TDEF_TABLE))). reflexivity.
  - apply (bool_decide_eq_true (NoDup (tPrefixes TDEF_TABLE))). reflexivity.
  - repeat constructor; done.
  - intros idx col. cbn. by intros ?%not_elem_of_nil.
Qed.
(** The key of a definition, and the value stored there. *)
Definition def_key (name : bytes) : bytes := enc_key 2 [BytesVal name].
Definition def_val (tdef : TableDef) : bytes := EncodeVal [BytesVal (marshal_def tdef)].

(** The database [m] has the table [tdef] with the rows [rows]. *)
Record table_in (name : bytes) (tdef : TableDef) (p : nat) (rows : gmap (list Value) (list Value)) (m : gmap bytes bytes) : Prop := {
  ti_ok : tdef_ok tdef p;
  ti_wf : def_wf tdef;
  ti_name : name <> gostr "@table" /\ name <> gostr "@meta";
  ti_cat : m !! def_key name = Some (def_val tdef);
  ti_apart : 2 ∉ tPrefixes tdef;
  ti_rep : table_rep tdef p rows m
}.

Lemma GetTableDef_spec n tx m W name tdef p rows : holds n tx m W -> table_in name tdef p rows m ->
  exists tx', GetTableDef tx name = Ok (tx', Some tdef) /\ holds n tx' m W.
Proof.
  intros Hh [Htd Hwf [Hn1 Hn2] Hcat _ _]. unfold GetTableDef. rewrite !decide_False by done.
  destruct (dbGet_spec TDEF_TABLE 1 TDEF_TABLE_ok n tx m W (AddStr emptyRec (gostr "name") name) [BytesVal name]
    (Some [BytesVal (marshal_def tdef)]) Hh) as (tx' & E & Hh'); try done.
  - constructor; [apply wf_bytes|constructor].
  - intros rest [= <-]. split; [apply list.Forall_singleton, value_wf_str|cbn; lia].
  - exists tx'. split; [|done]. rstep E. by rewrite <- (unmarshal_marshal_def tdef Hwf).
Qed.
Lemma def_key_free name tdef p row : tdef_ok tdef p -> 2 ∉ tPrefixes tdef -> def_key name ∉ row_keys tdef p row.
Proof.
  intros Htd Hap (i & q & vs & Hq & E)%(key_prefix tdef p Htd). apply enc_key_inj in E as [<- _]; [|done|by eapply prefix_u32].
  apply Hap. by eapply list_elem_of_lookup_2.
Qed.

(** ** The operations on rows *)

Lemma get_pks_ok rec (i k : nat) : forall r, (i + k <= length (rCols rec))%nat -> (i + k <= length (rVals rec))%nat -> Forall built (rVals rec) ->
  foldM (get_pk1 rec) r (seq i k) = Ok (mkRec (rCols r ++ take k (drop i (rCols rec))) (rVals r ++ take k (drop i (rVals rec)))).
Proof.
  revert i. induction k as [|k IH]; intros i r Hc Hv Hb; [cbn; rewrite !app_nil_r; by destruct r|].
  destruct (lookup_lt_is_Some_2 (rCols rec) i) as [c Ec]; [lia|]. destruct (lookup_lt_is_Some_2 (rVals rec) i) as [v Ev]; [lia|].
  cbn [seq foldM]. rewrite list.Forall_lookup in Hb. rstep (get_pk1_built rec r i c v Ev Ec (Hb i v Ev)).
  rewrite IH by (lia || by apply list.Forall_lookup). cbn [rCols rVals]. rewrite (drop_S _ _ _ Ec), (drop_S _ _ _ Ev). cbn [take].
  by rewrite <- !(assoc_L app).
Qed.
Lemma wf_built ts vs : Forall2 wf_key_val ts vs -> Forall built vs.
Proof. induction 1 as [|t v ts vs [s|n _ _] _ IH]; constructor; try done; [by left; exists s|by right; exists n]. Qed.

Section OneTable.
Context (name : bytes) (tdef : TableDef) (p : nat).
Definition pk_rec (pk : list Value) : Rec := mkRec (take p (tCols tdef)) pk.

Lemma row_pks row : tdef_ok tdef p -> row_ok tdef p row -> length (take p row) = p /\ Forall2 wf_key_val (take p (tTypes tdef)) (take p row) /\
  GetPKs (row_rec tdef row) (tPkeys tdef) = Ok (pk_rec (take p row)) /\
  foldM (get_pk1 (mkRec (tCols tdef) (take p row))) emptyRec (seq 0 p) = Ok (pk_rec (take p row)).
Proof.
  intros Htd Hrow. pose proof (row_length tdef p Htd row Hrow) as Hrl. pose proof (td_p _ _ Htd) as Hp.
  pose proof (wf_built _ _ (proj1 Hrow)) as Hb.
  split; [rewrite length_take; lia|]. split; [by apply pk_wf|]. split.
  - unfold GetPKs. rewrite (td_pkeys _ _ Htd), Nat2Z.id, get_pks_ok by (cbn; lia || done). cbn. by rewrite !drop_0.
  - rewrite get_pks_ok by (cbn; rewrite ?length_take; lia || by apply list.Forall_take). cbn [rCols rVals emptyRec app]. rewrite !drop_0, take_take.
    by rewrite Nat.min_id.
Qed.

(** The outcome of an operation that changes the row [row] of the database
    [m]. *)
Definition changed (n : nat) (tx : T) (rows : gmap (list Value) (list Value)) (m : gmap bytes bytes) (W : gset bytes) : Prop :=
  exists m', holds n tx m' W /\ table_in name tdef p rows m' /\ forall key, ~ owned tdef key -> m' !! key = m !! key.
Lemma changed_trans (n : nat) (tx2 : T) (rows2 : gmap (list Value) (list Value)) (m m1 : gmap bytes bytes) (W2 : gset bytes) : (forall key, ~ owned tdef key -> m1 !! key = m !! key) ->
  changed n tx2 rows2 m1 W2 -> changed n tx2 rows2 m W2.
Proof. intros Hm1 (m2 & Hh & Ht & Hm2). exists m2. split; [done|]. split; [done|]. intros key Ho. by rewrite Hm2, Hm1. Qed.

Lemma insert_row n tx m W rows row : holds (length (tIndexes tdef) + n) tx m W -> table_in name tdef p rows m ->
  row_ok tdef p row -> Forall user_kv (row_entries tdef p row) -> rows !! take p row = None ->
  exists tx' rec', dbSet tx tdef (row_rec tdef row) = Ok (tx', rec', true) /\
    changed n tx' (<[take p row := drop p row]> rows) m (list_to_set (row_keys tdef p row) ∪ W).
Proof.
  intros Hh [Htd Hwf Hn Hcat Hap Hrep] Hrow Hu Hr. destruct (dbSet_spec tdef p Htd n tx m W row Hh Hrow Hu) as (tx' & rec' & E & Hh').
  exists tx', rec'. split; [done|]. eexists. split; [exact Hh'|]. split; [split; try done|].
  - rewrite set_entries_other; [done|]. rewrite row_entries_keys. by apply def_key_free.
  - destruct (row_pks row Htd Hrow) as (Hl & _).
    pose proof (table_rep_insert tdef p Htd rows m (take p row) (drop p row) Hrep Hr Hl) as HT. rewrite take_drop in HT. by apply HT.
  - intros key Ho. apply set_entries_other. rewrite row_entries_keys. intros Hk. apply Ho. by eapply row_keys_owned.
Qed.
Context `{!TxDelLaws T holds}.
Lemma delete_row n tx m W rows pk rest rec cs vs : holds (length (tIndexes tdef) + n) tx m W -> table_in name tdef p rows m ->
  rows !! pk = Some rest -> (p <= length (rCols rec))%nat -> take p (rVals rec) = pk -> rCols rec ++ drop p (tCols tdef) = tCols tdef ++ cs ->
  rVals rec ++ rest = (pk ++ rest) ++ vs -> (forall k, k ∈ row_keys tdef p (pk ++ rest) -> k ∉ W) ->
  exists tx', dbDel tx tdef rec = Ok (tx', true) /\ changed n tx' (delete pk rows) m W.
Proof.
  intros Hh [Htd Hwf Hn Hcat Hap Hrep] Hr Hc Hv Hcols Hvals HW.
  destruct (dbDel_row tdef p Htd rows m Hrep n tx W rec pk rest cs vs Hh Hr Hc Hv Hcols Hvals HW) as (tx' & E & Hh').
  exists tx'. split; [done|]. eexists. split; [exact Hh'|]. split; [split; try done|].
  - rewrite del_entries_other; [done|]. by apply def_key_free.
  - by apply table_rep_delete.
  - intros key Ho. apply del_entries_other. intros Hk. apply Ho. by eapply row_keys_owned.
Qed.

(** Operations, and what they do to the rows. *)
Inductive row_op := RInsert (row : list Value) | RUpdate (row : list Value) | RUpsert (row : list Value) | RDelete (pk : list Value).
Definition op_pk (op : row_op) : list Value := match op with RInsert row | RUpdate row | RUpsert row => take p row | RDelete pk => pk end.
Definition run_row (spare : nat) (tx : T) (op : row_op) : res (T * bool) :=
  match op with
  | RInsert row => '(tx, _, ok) ← DBInsert spare tx name (row_rec tdef row); Ok (tx, ok)
  | RUpdate row => '(tx, _, ok) ← DBUpdate tx name (row_rec tdef row); Ok (tx, ok)
  | RUpsert row => '(tx, _, ok) ← DBUpsert spare tx name (row_rec tdef row); Ok (tx, ok)
  | RDelete pk => DBDelete tx name (pk_rec pk)
  end.
Definition apply_row (rows : gmap (list Value) (list Value)) (op : row_op) : gmap (list Value) (list Value) * bool :=
  let found := bool_decide (is_Some (rows !! op_pk op)) in
  match op with
  | RInsert row => if found then (rows, false) else (<[take p row := drop p row]> rows, true)
  | RUpdate row => if found then (<[take p row := drop p row]> rows, true) else (rows, false)
  | RUpsert row => (<[take p row := drop p row]> rows, true)
  | RDelete pk => (delete pk rows, found)
  end.
Definition op_ok (op : row_op) : Prop :=
  match op with
  | RInsert row | RUpdate row | RUpsert row => row_ok tdef p row /\ Forall user_kv (row_entries tdef p row)
  | RDelete pk => length pk = p /\ Forall2 wf_key_val (take p (tTypes tdef)) pk
  end.
(** No row with the key columns [pk] has a key in [W]. *)
Definition untouched (W : gset bytes) (pk : list Value) : Prop :=
  forall row k, row_ok tdef p row -> take p row = pk -> k ∈ row_keys tdef p row -> k ∉ W.

Lemma pk_rec_pks pk : tdef_ok tdef p -> length pk = p -> (p <= length (rCols (pk_rec pk)))%nat /\ take p (rVals (pk_rec pk)) = pk.
Proof. intros Htd Hl. pose proof (td_p _ _ Htd). cbn. split; [rewrite length_take; lia|by apply take_ge; lia]. Qed.
Lemma get_pk_row n tx m W rows pk : holds n tx m W -> table_in name tdef p rows m -> length pk = p -> Forall2 wf_key_val (take p (tTypes tdef)) pk ->
  exists tx', dbGet tx tdef (pk_rec pk) = Ok (tx', match rows !! pk with Some rest => row_rec tdef (pk ++ rest) | None => pk_rec pk end,
    bool_decide (is_Some (rows !! pk))) /\ holds n tx' m W.
Proof.
  intros Hh [Htd _ _ _ _ Hrep] Hl Hw. destruct (pk_rec_pks pk Htd Hl) as [Hc Hv].
  destruct (dbGet_row tdef p Htd rows m Hrep n tx W (pk_rec pk) pk Hh Hc Hv Hl Hw) as (tx' & E & Hh'). exists tx'. split; [|done].
  rewrite E. destruct (rows !! pk); [|done]. cbn [pk_rec rCols rVals]. by rewrite take_drop.
Qed.

Lemma DBGet_spec n tx m W rows pk : holds n tx m W -> table_in name tdef p rows m -> length pk = p -> Forall2 wf_key_val (take p (tTypes tdef)) pk ->
  exists tx', DBGet tx name (pk_rec pk) = Ok (tx', match rows !! pk with Some rest => row_rec tdef (pk ++ rest) | None => pk_rec pk end,
    bool_decide (is_Some (rows !! pk))).
Proof.
  intros Hh Ht Hl Hw. unfold DBGet. destruct (GetTableDef_spec n tx m W name tdef p _ Hh Ht) as (tx1 & E1 & Hh1). rstep E1.
  destruct (get_pk_row n tx1 m W _ pk Hh1 Ht Hl Hw) as (tx2 & E2 & _). by exists tx2.
Qed.
Lemma DBInsert_spec spare n tx m W rows row : holds (length (tIndexes tdef) + n) tx m W -> table_in name tdef p rows m -> op_ok (RInsert row) ->
  exists tx' rec', DBInsert spare tx name (row_rec tdef row) = Ok (tx', rec', bool_decide (rows !! take p row = None)) /\
    if decide (rows !! take p row = None) then changed n tx' (<[take p row := drop p row]> rows) m (list_to_set (row_keys tdef p row) ∪ W)
    else holds (length (tIndexes tdef) + n) tx' m W.
Proof.
  intros Hh Ht [Hrow Hu]. pose proof (ti_ok _ _ _ _ _ Ht) as Htd. pose proof (row_length tdef p Htd row Hrow) as Hrl. pose proof (td_p _ _ Htd) as Hp.
  destruct (row_pks row Htd Hrow) as (Hl & Hw & _ & Hpk). unfold DBInsert.
  destruct (GetTableDef_spec _ tx m W name tdef p rows Hh Ht) as (tx1 & E1 & Hh1). rstep E1.
  rewrite (td_pkeys _ _ Htd), slice_to_Ok by (cbn [rVals row_rec]; rewrite length_app; lia). cbn [mbind res_bind rVals rCols row_rec].
  rewrite take_app_le, Hl, Hpk by lia. cbn [mbind res_bind].
  destruct (get_pk_row _ tx1 m W rows _ Hh1 Ht Hl Hw) as (tx2 & E2 & Hh2). rstep E2.
  destruct (rows !! take p row) as [rest|] eqn:Hr.
  - exists tx2, (row_rec tdef row). done.
  - destruct (insert_row n tx2 m W rows row Hh2 Ht Hrow Hu Hr) as (tx3 & rec' & E3 & HC). exists tx3, rec'. done.
Qed.
Lemma DBUpdate_spec n tx m W rows row : holds (2 * length (tIndexes tdef) + n) tx m W -> table_in name tdef p rows m -> op_ok (RUpdate row) ->
  untouched W (take p row) ->
  exists tx' rec', DBUpdate tx name (row_rec tdef row) = Ok (tx', rec', bool_decide (is_Some (rows !! take p row))) /\
    if decide (is_Some (rows !! take p row)) then changed n tx' (<[take p row := drop p row]> rows) m (list_to_set (row_keys tdef p row) ∪ W)
    else holds (2 * length (tIndexes tdef) + n) tx' m W.
Proof.
  intros Hh Ht [Hrow Hu] HW. pose proof (ti_ok _ _ _ _ _ Ht) as Htd.
  destruct (row_pks row Htd Hrow) as (Hl & Hw & Hpk & _). unfold DBUpdate.
  destruct (GetTableDef_spec _ tx m W name tdef p rows Hh Ht) as (tx1 & E1 & Hh1). rstep E1. rstep Hpk.
  destruct (get_pk_row _ tx1 m W rows _ Hh1 Ht Hl Hw) as (tx2 & E2 & Hh2). rstep E2.
  destruct (rows !! take p row) as [rest|] eqn:Hr; cbn [negb]; [|by exists tx2, (row_rec tdef row)].
  destruct (tb_rows _ _ _ _ (ti_rep _ _ _ _ _ Ht) _ _ Hr) as [_ Hrow0].
  destruct (delete_row (length (tIndexes tdef) + n) tx2 m W rows (take p row) rest (row_rec tdef (take p row ++ rest)) (drop p (tCols tdef)) rest)
    as (tx3 & E3 & m3 & Hh3 & Ht3 & Hm3); try done.
  - eapply holds_mono; [|exact Hh2]. lia.
  - apply Htd.
  - cbn. by rewrite take_app_length'.
  - intros k Hk. apply (HW (take p row ++ rest) k Hrow0); [by rewrite take_app_length'|done].
  - rstep E3. cbn [negb].
    destruct (insert_row n tx3 m3 W _ row Hh3 Ht3 Hrow Hu (lookup_delete_eq _ _)) as (tx4 & rec' & E4 & HC).
    exists tx4, rec'. split; [exact E4|]. rewrite decide_True by done. rewrite insert_delete_eq in HC. by eapply changed_trans.
Qed.
Lemma DBUpsert_spec spare n tx m W rows row : holds (2 * length (tIndexes tdef) + n) tx m W -> table_in name tdef p rows m ->
  op_ok (RUpsert row) -> untouched W (take p row) ->
  exists tx' rec', DBUpsert spare tx name (row_rec tdef row) = Ok (tx', rec', true) /\
    changed n tx' (<[take p row := drop p row]> rows) m (list_to_set (row_keys tdef p row) ∪ W).
Proof.
  intros Hh Ht Hop HW. pose proof (ti_ok _ _ _ _ _ Ht) as Htd.
  destruct (row_pks row Htd (proj1 Hop)) as (Hl & Hw & Hpk & _). unfold DBUpsert.
  destruct (GetTableDef_spec _ tx m W name tdef p rows Hh Ht) as (tx1 & E1 & Hh1). rstep E1. rstep Hpk.
  destruct (get_pk_row _ tx1 m W rows _ Hh1 Ht Hl Hw) as (tx2 & E2 & Hh2). rstep E2.
  destruct (rows !! take p row) as [rest|] eqn:Hr; cbn.
  - destruct (DBUpdate_spec n tx2 m W rows row Hh2 Ht Hop HW) as (tx3 & rec' & E3 & HC). rewrite Hr in E3, HC. by exists tx3, rec'.
  - destruct (DBInsert_spec spare n tx2 m W rows row) as (tx3 & rec' & E3 & HC); [eapply holds_mono; [|exact Hh2]; lia|done|done|].
    rewrite Hr in E3, HC. rewrite decide_True in HC by done. by exists tx3, rec'.
Qed.
Lemma DBDelete_spec n tx m W rows pk : holds (length (tIndexes tdef) + n) tx m W -> table_in name tdef p rows m -> op_ok (RDelete pk) ->
  untouched W pk -> exists tx', DBDelete tx name (pk_rec pk) = Ok (tx', bool_decide (is_Some (rows !! pk))) /\
    changed n tx' (delete pk rows) m W.
Proof.
  intros Hh Ht [Hl Hw] HW. pose proof (ti_ok _ _ _ _ _ Ht) as Htd. destruct (pk_rec_pks pk Htd Hl) as [Hc Hv]. unfold DBDelete.
  destruct (GetTableDef_spec _ tx m W name tdef p rows Hh Ht) as (tx1 & E1 & Hh1). rstep E1.
  destruct (rows !! pk) as [rest|] eqn:Hr.
  - destruct (tb_rows _ _ _ _ (ti_rep _ _ _ _ _ Ht) _ _ Hr) as [_ Hrow].
    apply (delete_row n tx1 m W rows pk rest (pk_rec pk) [] []); try done; [by cbn; rewrite take_drop, app_nil_r|by rewrite app_nil_r|].
    intros k Hk. apply (HW (pk ++ rest) k Hrow); [by rewrite take_app_length'|done].
  - destruct (dbDel_missing tdef p Htd rows m (ti_rep _ _ _ _ _ Ht) _ tx1 W (pk_rec pk) pk Hh1 Hr Hc Hv Hl Hw) as (tx2 & E2 & Hh2).
    exists tx2. split; [exact E2|]. exists m. split; [eapply holds_mono; [|exact Hh2]; lia|]. by rewrite delete_id.
Qed.

Lemma untouched_set W row pk : tdef_ok tdef p -> row_ok tdef p row -> pk <> take p row -> untouched W pk ->
  untouched (list_to_set (row_keys tdef p row) ∪ W) pk.
Proof.
  intros Htd Hrow Hne HWpk row' k Hrow' Hpk Hk. rewrite elem_of_union, elem_of_list_to_set. intros [Hk'|Hk']; [|by eapply HWpk].
  apply Hne. rewrite <- Hpk. by eapply row_keys_pk.
Qed.
Lemma run_row_spec spare n tx m W rows op : holds (2 * length (tIndexes tdef) + n) tx m W -> table_in name tdef p rows m -> op_ok op ->
  untouched W (op_pk op) ->
  exists tx' W', run_row spare tx op = Ok (tx', (apply_row rows op).2) /\ changed n tx' (apply_row rows op).1 m W' /\
    forall pk, pk <> op_pk op -> untouched W pk -> untouched W' pk.
Proof.
  intros Hh Ht Hop HW. pose proof (ti_ok _ _ _ _ _ Ht) as Htd.
  assert (Hsame : forall tx', holds n tx' m W -> changed n tx' rows m W) by (intros tx' Hh'; by exists m).
  assert (Hle : forall k tx', (n <= k)%nat -> holds k tx' m W -> changed n tx' rows m W).
  { intros k tx' Hk Hh'. apply Hsame. by eapply holds_mono. }
  destruct op as [row|row|row|pk]; cbn [run_row apply_row op_pk] in *.
  - destruct (DBInsert_spec spare n tx m W rows row) as (tx' & rec' & E & HC); [eapply holds_mono; [|exact Hh]; lia|done|done|].
    rstep E. exists tx'. destruct (rows !! take p row) as [rest|] eqn:Hr; cbn.
    + exists W. split; [done|]. split; [eapply Hle; [|exact HC]; lia|done].
    + eexists. split; [done|]. split; [exact HC|]. intros pk. by apply untouched_set, Hop.
  - destruct (DBUpdate_spec n tx m W rows row Hh Ht Hop HW) as (tx' & rec' & E & HC).
    rstep E. exists tx'. destruct (rows !! take p row) as [rest|] eqn:Hr; cbn.
    + eexists. split; [done|]. split; [exact HC|]. intros pk. by apply untouched_set, Hop.
    + exists W. split; [done|]. split; [eapply Hle; [|exact HC]; lia|done].
  - destruct (DBUpsert_spec spare n tx m W rows row Hh Ht Hop HW) as (tx' & rec' & E & HC).
    rstep E. eexists tx', _. split; [done|]. split; [exact HC|]. intros pk. by apply untouched_set, Hop.
  - destruct (DBDelete_spec n tx m W rows pk) as (tx' & E & HC); [eapply holds_mono; [|exact Hh]; lia|done|done|done|].
    exists tx', W. split; [exact E|done].
Qed.

Definition run_rows (spare : nat) (tx : T) (ops : list row_op) : res (T * list bool) :=
  foldM (fun '(tx, oks) op => '(tx, ok) ← run_row spare tx op; Ok (tx, oks ++ [ok])) (tx, []) ops.
Definition apply_rows (rows : gmap (list Value) (list Value)) (ops : list row_op) : gmap (list Value) (list Value) * list bool :=
  foldl (fun '(rows, oks) op => let '(rows, ok) := apply_row rows op in (rows, oks ++ [ok])) (rows, []) ops.

Lemma run_rows_spec spare ops : forall n tx m W rows oks, holds (length ops * (2 * length (tIndexes tdef)) + n) tx m W ->
  table_in name tdef p rows m -> Forall op_ok ops -> NoDup (map op_pk ops) -> Forall (untouched W) (map op_pk ops) ->
  let out := foldl (fun '(rows, oks) op => let '(rows, ok) := apply_row rows op in (rows, oks ++ [ok])) (rows, oks) ops in
  exists tx' W', foldM (fun '(tx, oks) op => '(tx, ok) ← run_row spare tx op; Ok (tx, oks ++ [ok])) (tx, oks) ops = Ok (tx', out.2) /\
    changed n tx' out.1 m W'.
Proof.
  induction ops as [|op ops IH]; intros n tx m W rows oks Hh Ht Hops Hnd HW; [exists tx, W; split; [done|by exists m]|].
  cbn [map] in *. apply list.Forall_cons in Hops as [Hop Hops]. apply list.NoDup_cons in Hnd as [Hni Hnd]. apply list.Forall_cons in HW as [HWop HW].
  destruct (run_row_spec spare (length ops * (2 * length (tIndexes tdef)) + n) tx m W rows op) as (tx1 & W1 & E1 & (m1 & Hh1 & Ht1 & Hm1) & HW1);
    [eapply holds_mono; [|exact Hh]; cbn [length]; lia|done|done|done|].
  cbn [foldM foldl]. destruct (apply_row rows op) as [rows1 ok1]. cbn [fst snd] in *.
  destruct (IH n tx1 m1 W1 rows1 (oks ++ [ok1]) Hh1 Ht1 Hops Hnd) as (tx2 & W2 & E2 & HC2).
  { apply list.Forall_forall. intros pk Hpk. rewrite list.Forall_forall in HW. apply HW1; [|by apply HW]. by intros ->. }
  exists tx2, W2. split; [rewrite E1; exact E2|by eapply changed_trans].
Qed.

(** C11: A table in a transaction.  Insert, Update, Upsert and Delete on rows of
    different keys, which the transaction has not written before, succeed or are refused exactly as on the finite map from the key
    columns to the other columns that the table stands for; afterwards the table
    stands for the resulting map, its secondary indexes included (each index has
    exactly one key for each row), no key of another table has changed, and Get
    finds exactly the rows of the map, with all their columns. *)
Theorem table_refines_map spare ops n tx m W rows : holds (length ops * (2 * length (tIndexes tdef)) + n) tx m W ->
  table_in name tdef p rows m -> Forall op_ok ops -> NoDup (map op_pk ops) -> Forall (untouched W) (map op_pk ops) ->
  exists tx' m' W', run_rows spare tx ops = Ok (tx', (apply_rows rows ops).2) /\ holds n tx' m' W' /\
    table_in name tdef p (apply_rows rows ops).1 m' /\ (forall key, ~ owned tdef key -> m' !! key = m !! key) /\
    forall pk, length pk = p -> Forall2 wf_key_val (take p (tTypes tdef)) pk ->
      exists tx'', DBGet tx' name (pk_rec pk) = Ok (tx'', match (apply_rows rows ops).1 !! pk with
        | Some rest => row_rec tdef (pk ++ rest) | None => pk_rec pk end, bool_decide (is_Some ((apply_rows rows ops).1 !! pk))).
Proof.
  intros Hh Ht Hops Hnd HW.
  destruct (run_rows_spec spare ops n tx m W rows [] Hh Ht Hops Hnd HW) as (tx' & W' & E & m' & Hh' & Ht' & Hm').
  exists tx', m', W'. split; [exact E|]. split; [done|]. split; [done|]. split; [done|]. intros pk. by apply (DBGet_spec n tx' m' W').
Qed.
End OneTable.
End Ops.
