(* ===== verification/Catalog.v ===== *)
(** * Creating tables

    [TableNew] of db/db.go keeps the next free prefix in the row ["prefix"] of
    the table [@meta], whose definition has one column beside the key.  The
    first creation writes one value there, the second one reads it, adds
    another and writes both, and the third one cannot read the row. *)
From Stdlib Require Import ZArith Lia.
From stdpp Require Import base gmap list strings countable.
From coqutil Require Import Byte Word.LittleEndianList.
From S2P Require Import Prelude Schema KVList TreeRoot SecIndex Db Tables.

Lemma TDEF_META_ok : tdef_ok TDEF_META 1.
Proof.
  split; try done; try (cbn; lia).
  - apply (bool_decide_eq_true (NoDup (tCols TDEF_META))). reflexivity.
  - apply (bool_decide_eq_true (NoDup (tPrefixes TDEF_META))). reflexivity.
  - repeat constructor; done.
  - intros idx col. cbn. by intros ?%not_elem_of_nil.
Qed.

(** The indexes get consecutive prefixes. *)
Lemma number_indexes idxs : forall ps c, 0 <= c -> c + Z.of_nat (length idxs) < 4294967296 ->
  foldl next_prefix (ps, c) idxs = (ps ++ seqZ c (Z.of_nat (length idxs)), c + Z.of_nat (length idxs)).
Proof.
  induction idxs as [|idx idxs IH]; intros ps c Hc Hl; [cbn; by rewrite app_nil_r, Z.add_0_r|].
  cbn [length] in *. cbn [foldl next_prefix]. rewrite u32_small by lia. rewrite i64_small by (unfold in_i64; lia).
  rewrite IH by lia. rewrite (seqZ_cons c) by lia. rewrite <- (assoc_L app). cbn [app].
  f_equal; [|lia]. by replace (Z.pred (Z.of_nat (S (length idxs)))) with (Z.of_nat (length idxs)) by lia.
Qed.

Section Create.
Context {T : Type} {holds : nat -> T -> gmap bytes bytes -> gset bytes -> Prop} `{TxLaws T holds} `{JsonVals} `{JsonTable}.

Definition meta_key : bytes := enc_key 1 [BytesVal (gostr "prefix")].
(** The values in the row, the last of which is meant to be the next prefix. *)
Definition counter (m : gmap bytes bytes) (cs : list Z) : Prop :=
  Forall in_i64 cs /\ m !! meta_key = (if bool_decide (cs = []) then None else Some (EncodeVal (map IntVal cs))).
Definition with_prefixes (tdef : TableDef) (c : Z) : TableDef :=
  mkTableDef (tName tdef) (tCols tdef) (tTypes tdef) (tPkeys tdef) (seqZ c (Z.of_nat (length (tIndexes tdef)))) (tIndexes tdef).

(** [dbSet] for a definition without secondary indexes, of a record with any
    number of values. *)
Lemma dbSet_plain tdef p n tx m W rec : tdef_ok tdef p -> holds (S n) tx m W -> (length (tIndexes tdef) <= 1)%nat ->
  (p <= length (rCols rec))%nat -> (p <= length (rVals rec))%nat -> Forall2 wf_key_val (take p (tTypes tdef)) (take p (rVals rec)) ->
  user_kv (enc_key (prefix0 tdef) (take p (rVals rec)), EncodeVal (drop p (rVals rec))) ->
  exists tx', dbSet tx tdef rec = Ok (tx', rec, true) /\
    holds n tx' (<[enc_key (prefix0 tdef) (take p (rVals rec)) := EncodeVal (drop p (rVals rec))]> m)
      ({[enc_key (prefix0 tdef) (take p (rVals rec))]} ∪ W).
Proof.
  intros Htd Hh Hi Hc Hv Hw Hu. unfold dbSet. rewrite (record_vals tdef p Htd), (row_key_spec tdef p Htd) by done. cbn [mbind res_bind].
  rewrite (td_pkeys _ _ Htd), slice_after_Ok by done. cbn [mbind res_bind].
  destruct (tx_set _ tx m W _ _ Hh Hu) as (tx' & E & Hh'). rstep E. rewrite bool_decide_false by lia. by exists tx'.
Qed.

Definition name_rec (name : bytes) : Rec := AddStr emptyRec (gostr "name") name.
Lemma one_string s : Forall2 wf_key_val [TYPE_BYTES] [BytesVal s].
Proof. constructor; [apply wf_bytes|constructor]. Qed.

Lemma get_def n tx m W name stored : holds n tx m W -> m !! def_key name = option_map (fun d => EncodeVal [BytesVal d]) stored ->
  exists tx' rec, dbGet tx TDEF_TABLE (name_rec name) = Ok (tx', rec, bool_decide (is_Some stored)) /\ holds n tx' m W.
Proof.
  intros Hh Hm. destruct (dbGet_spec TDEF_TABLE 1 TDEF_TABLE_ok n tx m W (name_rec name) [BytesVal name] (option_map (fun d => [BytesVal d]) stored) Hh)
    as (tx' & E & Hh'); try done; [by apply one_string|by destruct stored| |].
  - destruct stored as [d|]; [|done]. intros rest [= <-]. split; [apply list.Forall_singleton, value_wf_str|cbn; lia].
  - eexists tx', _. split; [rewrite E; by destruct stored|done].
Qed.
Definition prefix_rec (cs : list Z) : Rec :=
  mkRec (gostr "key" :: take (length cs) [gostr "value"]) (BytesVal (gostr "prefix") :: map IntVal cs).
Lemma ints_wf cs : Forall in_i64 cs -> Forall value_wf (map IntVal cs).
Proof. induction 1; constructor; [by apply value_wf_int|done]. Qed.
Lemma get_counter n tx m W cs : holds n tx m W -> counter m cs -> (length cs <= 1)%nat ->
  exists tx', dbGet tx TDEF_META (prefix_rec []) = Ok (tx', prefix_rec cs, bool_decide (cs <> [])) /\ holds n tx' m W.
Proof.
  intros Hh [Hcs Hm] Hl. destruct (dbGet_spec TDEF_META 1 TDEF_META_ok n tx m W (prefix_rec []) [BytesVal (gostr "prefix")]
    (if bool_decide (cs = []) then None else Some (map IntVal cs)) Hh) as (tx' & E & Hh'); try done.
  - by apply one_string.
  - etransitivity; [exact Hm|]. by case_bool_decide.
  - case_bool_decide; [done|]. intros rest [= <-]. split; [by apply ints_wf|cbn; rewrite length_map; lia].
  - exists tx'. split; [|done]. rewrite E. destruct cs as [|c [|]]; [done|done|cbn in Hl; lia].
Qed.
Lemma get_counter_crash n tx m W cs : holds n tx m W -> counter m cs -> (1 < length cs)%nat ->
  dbGet tx TDEF_META (prefix_rec []) = Crash IndexOutOfRange.
Proof.
  intros Hh [Hcs Hm] Hl. unfold dbGet. rewrite (record_vals TDEF_META 1 TDEF_META_ok) by (cbn; lia).
  change (rVals (prefix_rec [])) with [BytesVal (gostr "prefix")].
  rewrite (row_key_spec TDEF_META 1 TDEF_META_ok) by (cbn; lia || by apply one_string). cbn [mbind res_bind].
  destruct (tx_get n tx m W _ Hh (enc_key_nonempty (prefix0 TDEF_META) (take 1 [BytesVal (gostr "prefix")]))) as (tx' & E & Hh'). rstep E.
  change (enc_key (prefix0 TDEF_META) (take 1 [BytesVal (gostr "prefix")])) with meta_key. rewrite Hm.
  rewrite bool_decide_false by (intros ->; cbn in Hl; lia). rewrite DecodeVal_EncodeVal by (done || by apply ints_wf).
  rewrite decide_False; [done|]. rewrite length_map. intros [Hn|Hn]; [destruct cs; [cbn in Hl; lia|done]|cbn in Hn; lia].
Qed.

(** The first free prefix, by the row. *)
Definition next_free (cs : list Z) : Z := hd 3 cs.
Definition meta_entry (cs : list Z) : bytes * bytes := (meta_key, EncodeVal (map IntVal cs)).
Definition def_entry (tdef : TableDef) : bytes * bytes := (def_key (tName tdef), def_val tdef).

Lemma TableNew_new n tx m W tdef cs : holds (2 + n) tx m W -> counter m cs -> (length cs <= 1)%nat -> tPkeys tdef = 1 ->
  m !! def_key (tName tdef) = None -> 0 <= next_free cs -> next_free cs + Z.of_nat (length (tIndexes tdef)) < 4294967296 ->
  let tdef' := with_prefixes tdef (next_free cs) in
  let cs' := cs ++ [next_free cs + Z.of_nat (length (tIndexes tdef))] in
  user_kv (meta_entry cs') -> user_kv (def_entry tdef') ->
  exists tx', TableNew tx tdef = Ok (tx', tdef', true) /\
    holds n tx' (<[def_key (tName tdef) := def_val tdef']> (<[meta_key := EncodeVal (map IntVal cs')]> m))
      ({[def_key (tName tdef)]} ∪ ({[meta_key]} ∪ W)).
Proof.
  intros Hh Hcs Hl Hpk Hdef Hc HL tdef' cs' Hu1 Hu2. unfold TableNew. rewrite Hpk.
  change (GetPKs (AddStr emptyRec (gostr "name") (tName tdef)) 1) with (Ok (name_rec (tName tdef))). cbn [mbind res_bind].
  destruct (get_def (2 + n) tx m W (tName tdef) None Hh Hdef) as (tx1 & rec1 & E1 & Hh1). rstep E1.
  change (AddStr emptyRec (gostr "key") (gostr "prefix")) with (prefix_rec []).
  destruct (get_counter (2 + n) tx1 m W cs Hh1 Hcs Hl) as (tx2 & E2 & Hh2). rstep E2.
  assert (E3 : (if negb (bool_decide (cs <> [])) then Ok 3 else
    v ← Get (prefix_rec cs) (gostr "value"); match v with None => Crash NilDereference | Some v => Ok (vI64 v) end) = Ok (next_free cs)).
  { destruct cs as [|c [|]]; [done|done|cbn in Hl; lia]. }
  rstep E3. rewrite number_indexes by done. cbn [app]. fold tdef'.
  assert (Ed : mkTableDef (tName tdef) (tCols tdef) (tTypes tdef) 1 (seqZ (next_free cs) (Z.of_nat (length (tIndexes tdef)))) (tIndexes tdef) = tdef').
  { unfold tdef', with_prefixes. by rewrite Hpk. }
  rewrite Ed. set (rec3 := AddI64 (prefix_rec cs) (gostr "data") (next_free cs + Z.of_nat (length (tIndexes tdef)))).
  assert (Hv : rVals rec3 = BytesVal (gostr "prefix") :: map IntVal cs') by (cbn; unfold cs'; by rewrite map_app).
  destruct (dbSet_plain TDEF_META 1 (1 + n) tx2 m W rec3 TDEF_META_ok Hh2) as (tx3 & E4 & Hh3).
  { cbn. lia. }
  { unfold rec3. cbn. lia. }
  { rewrite Hv. cbn. lia. }
  { rewrite Hv. apply one_string. }
  { rewrite Hv. exact Hu1. }
  rewrite Hv in Hh3. rstep E4.
  destruct (dbSet_plain TDEF_TABLE 1 n tx3 _ _ (AddStr (name_rec (tName tdef)) (gostr "def") (marshal_def tdef')) TDEF_TABLE_ok Hh3) as (tx4 & E5 & Hh4);
    [cbn; lia|cbn; lia|cbn; lia|apply one_string|exact Hu2|].
  unfold name_rec in E5. rstep E5. by exists tx4.
Qed.
Lemma TableNew_known n tx m W tdef d : holds n tx m W -> tPkeys tdef = 1 -> m !! def_key (tName tdef) = Some (EncodeVal [BytesVal d]) ->
  exists tx', TableNew tx tdef = Ok (tx', tdef, false) /\ holds n tx' m W.
Proof.
  intros Hh Hpk Hdef. unfold TableNew. rewrite Hpk.
  change (GetPKs (AddStr emptyRec (gostr "name") (tName tdef)) 1) with (Ok (name_rec (tName tdef))). cbn [mbind res_bind].
  destruct (get_def n tx m W (tName tdef) (Some d) Hh Hdef) as (tx1 & rec1 & E1 & Hh1). rstep E1. by exists tx1.
Qed.
Lemma TableNew_third n tx m W tdef cs : holds n tx m W -> counter m cs -> (1 < length cs)%nat -> tPkeys tdef = 1 ->
  m !! def_key (tName tdef) = None -> TableNew tx tdef = Crash IndexOutOfRange.
Proof.
  intros Hh Hcs Hl Hpk Hdef. unfold TableNew. rewrite Hpk.
  change (GetPKs (AddStr emptyRec (gostr "name") (tName tdef)) 1) with (Ok (name_rec (tName tdef))). cbn [mbind res_bind].
  destruct (get_def n tx m W (tName tdef) None Hh Hdef) as (tx1 & rec1 & E1 & Hh1). rstep E1.
  change (AddStr emptyRec (gostr "key") (gostr "prefix")) with (prefix_rec []). by rewrite (get_counter_crash n tx1 m W cs).
Qed.

(** The new table has no rows. *)
Lemma new_table_in m tdef c v : tdef_ok (with_prefixes tdef c) 1 -> def_wf (with_prefixes tdef c) ->
  tName tdef <> gostr "@table" /\ tName tdef <> gostr "@meta" -> 3 <= c ->
  (forall key, owned (with_prefixes tdef c) key -> m !! key = None) ->
  table_in (tName tdef) (with_prefixes tdef c) 1 ∅
    (<[def_key (tName tdef) := def_val (with_prefixes tdef c)]> (<[meta_key := v]> m)).
Proof.
  intros Htd Hwf Hn Hc Hm.
  assert (Hap : forall q, q < 3 -> q ∉ tPrefixes (with_prefixes tdef c)).
  { intros q Hq Hin. cbn in Hin. apply elem_of_seqZ in Hin. lia. }
  assert (Hno : forall q vs, 0 <= q < 3 -> ~ owned (with_prefixes tdef c) (enc_key q vs)).
  { intros q vs Hq (q' & rest & Hin & E). apply app_inj_1 in E as [E _]; [|by rewrite !length_be_split].
    apply (be_split_inj 4) in E; [|lia|]; [subst q'; by apply (Hap q); [lia|]|].
    pose proof (td_u32 _ _ Htd) as HF. rewrite list.Forall_forall in HF. by apply HF. }
  split; [done|done|done|by rewrite lookup_insert_eq|by apply Hap|].
  split; [intros pk rest Hr; by rewrite lookup_empty in Hr|]. intros key v' Ho. split.
  - rewrite !lookup_insert_ne; [by rewrite Hm| |]; intros <-; by eapply Hno; [|exact Ho].
  - intros (pk & rest & Hr & _). by rewrite lookup_empty in Hr.
Qed.

Lemma create_table_spec n tx m W tdef cs : holds (2 + n) tx m W -> counter m cs -> tPkeys tdef = 1 ->
  (forall d, m !! def_key (tName tdef) = Some (EncodeVal [BytesVal d]) ->
    exists tx', TableNew tx tdef = Ok (tx', tdef, false) /\ holds (2 + n) tx' m W) /\
  (m !! def_key (tName tdef) = None -> (1 < length cs)%nat -> TableNew tx tdef = Crash IndexOutOfRange) /\
  (m !! def_key (tName tdef) = None -> (length cs <= 1)%nat -> 3 <= next_free cs ->
    next_free cs + Z.of_nat (length (tIndexes tdef)) < 4294967296 ->
    let tdef' := with_prefixes tdef (next_free cs) in
    let cs' := cs ++ [next_free cs + Z.of_nat (length (tIndexes tdef))] in
    user_kv (meta_entry cs') -> user_kv (def_entry tdef') -> tdef_ok tdef' 1 -> def_wf tdef' ->
    tName tdef <> gostr "@table" /\ tName tdef <> gostr "@meta" -> (forall key, owned tdef' key -> m !! key = None) ->
    exists tx' m', TableNew tx tdef = Ok (tx', tdef', true) /\ holds n tx' m' ({[def_key (tName tdef)]} ∪ ({[meta_key]} ∪ W)) /\
      table_in (tName tdef) tdef' 1 ∅ m' /\ counter m' cs').
Proof.
  intros Hh Hcs Hpk. split; [intros d Hd; by apply (TableNew_known (2 + n) tx m W tdef d)|].
  split; [intros Hd Hl; by apply (TableNew_third (2 + n) tx m W tdef cs)|]. intros Hd Hl Hc HL tdef' cs' Hu1 Hu2 Htd Hwf Hn Hm.
  destruct (TableNew_new n tx m W tdef cs Hh Hcs Hl Hpk Hd ltac:(lia) HL Hu1 Hu2) as (tx' & E & Hh').
  eexists tx', _. split; [exact E|]. split; [exact Hh'|]. split; [by apply new_table_in|]. split.
  - apply list.Forall_app. split; [apply Hcs|]. apply list.Forall_singleton. unfold in_i64. lia.
  - rewrite bool_decide_false by (unfold cs'; by destruct cs). rewrite lookup_insert_ne; [apply lookup_insert_eq|].
    intros E'. apply enc_key_inj in E' as [E' _]; [done|lia..].
Qed.
(** A key of several columns is more than the one-column record it is taken
    from has. *)
Lemma composite_key_panics tx tdef : 1 < tPkeys tdef -> TableNew tx tdef = Crash IndexOutOfRange.
Proof.
  intros Hp. unfold TableNew, GetPKs. replace (Z.to_nat (tPkeys tdef)) with (S (S (Z.to_nat (tPkeys tdef) - 2))) by lia. reflexivity.
Qed.
(** C33: Creating a table with a key of one column.  A name that is taken is refused
    and nothing changes.  The first two tables of a database get the prefixes the
    counter row names, are empty and in the catalogue afterwards.  Every further
    one ends the process: the counter row then has more values than the table
    [@meta] has columns. *)
Theorem create_table n tx m W tdef cs : holds (2 + n) tx m W -> counter m cs -> tPkeys tdef = 1 ->
  (forall d, m !! def_key (tName tdef) = Some (EncodeVal [BytesVal d]) ->
    exists tx', TableNew tx tdef = Ok (tx', tdef, false) /\ holds (2 + n) tx' m W) /\
  (m !! def_key (tName tdef) = None -> (1 < length cs)%nat -> TableNew tx tdef = Crash IndexOutOfRange) /\
  (m !! def_key (tName tdef) = None -> (length cs <= 1)%nat -> 3 <= next_free cs ->
    next_free cs + Z.of_nat (length (tIndexes tdef)) < 4294967296 ->
    let tdef' := with_prefixes tdef (next_free cs) in
    let cs' := cs ++ [next_free cs + Z.of_nat (length (tIndexes tdef))] in
    user_kv (meta_entry cs') -> user_kv (def_entry tdef') -> tdef_ok tdef' 1 -> def_wf tdef' ->
    tName tdef <> gostr "@table" /\ tName tdef <> gostr "@meta" -> (forall key, owned tdef' key -> m !! key = None) ->
    exists tx' m', TableNew tx tdef = Ok (tx', tdef', true) /\ holds n tx' m' ({[def_key (tName tdef)]} ∪ ({[meta_key]} ∪ W)) /\
      table_in (tName tdef) tdef' 1 ∅ m' /\ counter m' cs').
Proof. exact (create_table_spec n tx m W tdef cs). Qed.
End Create.
