(* ===== verification/TxTable.v ===== *)
(** * Tables in the database

    [KVTX] keeps the promises that the operations on tables need; so a session
    that creates a table and inserts rows, commits and opens the file again
    finds the rows.  Also what is left of two transactions that began on the same
    database and both commit. *)
From Stdlib Require Import ZArith Lia.
From stdpp Require Import base gmap list strings countable sorting.
From coqutil Require Import Byte Word.LittleEndianList.
From S2P Require Import Prelude Schema KVList BNode NodeLayout NodeOps Disk FreeList Commit BTree TreeRep TreeGet TreeInsert TreeDelete TreeRoot TreeSpec KVStore Util Tx SecIndex Db Tables Catalog.

Section Instance.
Context (fuel : nat) (db : KV).
#[local] Instance kvtx_ops : TxOps KVTX := {|
  kv_get := TXGet fuel db;
  kv_set := TXSet fuel;
  kv_del := TXDel fuel
|}.

(** The committed database reads as the map [ms]. *)
Context (hs : nat) (ms : gmap bytes bytes).
Context (Hsnap : map_tree (pages := readable) tree_any 0 hs db (kRoot db) ms) (Hhs : (hs < fuel)%nat).

(** Page operations enough for [n] insertions into a tree of height [h]. *)
Definition room (n h : nat) : nat := n * (3 * (h + n) + 5).
Definition kvtx_holds (n : nat) (tx : KVTX) (m : gmap bytes bytes) (W : gset bytes) : Prop :=
  exists h p, tx_rep tree_rep (room n h) h tx p /\ (h + n < fuel)%nat /\ tSnapshot tx = kRoot db /\
    saveMeta db = Ok (tMeta tx) /\ m = tx_map tx p ms /\ W = dom p.
(** The same, of a transaction that has deleted nothing. *)
Definition kvtx_sets (n : nat) (tx : KVTX) (m : gmap bytes bytes) (W : gset bytes) : Prop :=
  kvtx_holds n tx m W /\ deletes tx = ∅.

Lemma tx_rep_mono R j n h tx p : (n <= j)%nat -> tx_rep R j h tx p -> tx_rep R n h tx p.
Proof. intros Hn [T1 T2 T3 T4 T5 T6]. split; try done. by eapply map_tree_mono. Qed.
Lemma tx_map_same tx tx' p m : deletes tx' = deletes tx -> tx_map tx' p m = tx_map tx p m.
Proof. intros E. apply map_eq. intros k. rewrite !tx_map_lookup. unfold tx_view. by rewrite E. Qed.
Lemma get_step n tx m W key : kvtx_holds n tx m W -> key <> [] ->
  exists tx', TXGet fuel db tx key = Ok (tx', m !! key) /\ kvtx_holds n tx' m W /\ deletes tx' = deletes tx.
Proof.
  intros (h & p & Htx & Hf & Hroot & Hmeta & -> & ->) Hk. pose proof Hsnap as (Ms & ls & Ht & Hr & Hu & Hls). rewrite <- Hroot in Ht.
  destruct (TXGet_spec tree_rep (room n h) h hs fuel db Ms ls tx p ms key Htx) as (tx' & E & Htx' & D & S' & M' & _); try done;
    [intros M r h' l' HR; by apply any_rep|lia|].
  exists tx'. split; [rewrite tx_map_lookup; exact E|]. split; [|done]. exists h, p. rewrite S', M', (tx_map_same tx tx') by done. done.
Qed.
Lemma set_step n tx m W key val : kvtx_holds (S n) tx m W -> user_kv (key, val) ->
  exists tx', TXSet fuel tx key val = Ok tx' /\ kvtx_holds n tx' (<[key := val]> m) ({[key]} ∪ W) /\ deletes tx' = deletes tx ∖ {[key]}.
Proof.
  intros (h & p & Htx & Hf & Hroot & Hmeta & -> & ->) Hk.
  destruct (TXSet_spec (room n (S h)) h fuel tx p key val) as (tx' & h' & E & Htx' & D & S' & M' & _ & Hh);
    [eapply tx_rep_mono; [|exact Htx]; unfold room; nia|done|lia|].
  exists tx'. split; [exact E|]. split; [|done]. exists h', (<[key := val]> p). rewrite S', M', dom_insert_L.
  split; [eapply tx_rep_mono; [|exact Htx']; unfold room; nia|]. split; [lia|]. split; [done|]. split; [done|].
  split; [symmetry; by apply tx_map_set|done].
Qed.
Lemma le_step n tx m W : kvtx_holds (S n) tx m W -> kvtx_holds n tx m W.
Proof. intros (h & p & Htx & Hf & H'). exists h, p. split; [eapply tx_rep_mono; [|exact Htx]; unfold room; nia|]. split; [lia|done]. Qed.

#[local] Instance kvtx_laws : TxLaws KVTX kvtx_holds.
Proof.
  split; [|intros n tx m W key val Hh Hu|exact le_step].
  - intros n tx m W key Hh Hk. destruct (get_step n tx m W key Hh Hk) as (tx' & E & Hh' & _). by exists tx'.
  - destruct (set_step n tx m W key val Hh Hu) as (tx' & E & Hh' & _). by exists tx'.
Qed.
#[local] Instance kvtx_sets_laws : TxLaws KVTX kvtx_sets.
Proof.
  split; [intros n tx m W key [Hh Hd] Hk|intros n tx m W key val [Hh Hd] Hu|intros n tx m W [Hh Hd]; split; [by apply le_step|done]].
  - destruct (get_step n tx m W key Hh Hk) as (tx' & E & Hh' & D). exists tx'. split; [done|]. split; [done|congruence].
  - destruct (set_step n tx m W key val Hh Hu) as (tx' & E & Hh' & D). exists tx'. split; [done|]. split; [done|]. rewrite D, Hd. set_solver.
Qed.
(** The same, of a transaction that has deleted only keys of the database, which it
    has not set again, and no key it has set, [B] operations in all. *)
Record kvtx_dels (B n : nat) (tx : KVTX) (m : gmap bytes bytes) (W : gset bytes) : Prop := {
  kd_holds : kvtx_holds n tx m W;
  kd_deletes k : k ∈ deletes tx -> is_Some (ms !! k) /\ m !! k = None;
  kd_sets k : k ∈ W -> is_Some (m !! k);
  kd_size : (size W + size (deletes tx) + n <= B)%nat
}.
Lemma kvtx_begun_dels n tx m : kvtx_sets n tx m ∅ -> kvtx_dels n n tx m ∅.
Proof. intros [Hh Hd]. split; [done|rewrite Hd; by intros k ?%not_elem_of_empty|by intros k ?%not_elem_of_empty|by rewrite Hd, size_empty]. Qed.
Lemma size_add (key : bytes) (W : gset bytes) : (size ({[key]} ∪ W) <= S (size W))%nat.
Proof. rewrite size_union_alt, size_singleton. apply le_n_S, subseteq_size. set_solver. Qed.
#[local] Instance kvtx_dels_laws B : TxLaws KVTX (kvtx_dels B).
Proof.
  split; [intros n tx m W key [Hh Hd HW Hs] Hk|intros n tx m W key val [Hh Hd HW Hs] Hu|intros n tx m W [Hh Hd HW Hs]; split; [by apply le_step|done|done|lia]].
  - destruct (get_step n tx m W key Hh Hk) as (tx' & E & Hh' & D). exists tx'. split; [done|]. split; [done|by rewrite D|done|by rewrite D].
  - destruct (set_step n tx m W key val Hh Hu) as (tx' & E & Hh' & D). exists tx'. split; [done|]. split; [done|rewrite D| |rewrite D].
    + intros k [Hk Hne]%elem_of_difference. rewrite lookup_insert_ne by set_solver. by apply Hd.
    + intros k Hk. apply lookup_insert_is_Some'. apply elem_of_union in Hk as [->%elem_of_singleton|Hk]; [by left|right; by apply HW].
    + pose proof (size_add key W). pose proof (subseteq_size (deletes tx ∖ {[key]}) (deletes tx) ltac:(set_solver)). lia.
Qed.
Lemma del_step n tx m W key : kvtx_holds (S n) tx m W -> key ∉ W -> is_Some (m !! key) ->
  exists tx', TXDel fuel tx key = Ok (tx', true) /\ kvtx_holds n tx' (delete key m) W /\ deletes tx' = {[key]} ∪ deletes tx /\ is_Some (ms !! key).
Proof.
  intros (h & p & Htx & Hf & Hroot & Hmeta & -> & ->) HW [v Hm].
  rewrite tx_map_lookup in Hm. unfold tx_view in Hm. case_decide as Hd; [done|]. apply not_elem_of_dom in HW as Hp. rewrite Hp in Hm.
  pose proof (user_key key v) as Huk. destruct (TXDel_unset tree_rep (room (S n) h) h fuel tx p key Htx) as (tx' & ok & E & Htx' & -> & D & S' & M' & _);
    [apply Huk; eapply map_tree_user; [exact Hsnap|exact Hm]|done|].
  rewrite bool_decide_true in E by done. exists tx'. split; [exact E|]. split; [|split; [exact D|by eexists]]. exists h, p. rewrite S', M'.
  split; [eapply tx_rep_mono; [|exact Htx']; unfold room; nia|]. split; [lia|]. split; [done|]. split; [done|].
  split; [symmetry; by apply tx_map_del|done].
Qed.
#[local] Instance kvtx_del_laws : TxDelLaws KVTX kvtx_holds.
Proof. split. intros n tx m W key Hh HW Hm. destruct (del_step n tx m W key Hh HW Hm) as (tx' & E & Hh' & _). by exists tx'. Qed.
#[local] Instance kvtx_dels_del_laws B : TxDelLaws KVTX (kvtx_dels B).
Proof.
  split. intros n tx m W key [Hh Hd HWs Hs] HW Hm. destruct (del_step n tx m W key Hh HW Hm) as (tx' & E & Hh' & D & Hms). exists tx'. split; [done|].
  split; [done|rewrite D| |rewrite D; pose proof (size_add key (deletes tx)); lia].
  - intros k [->%elem_of_singleton|Hk]%elem_of_union; [split; [done|apply lookup_delete_eq]|]. destruct (Hd k Hk) as [H1 H2].
    split; [done|]. by apply lookup_delete_None; right.
  - intros k Hk. rewrite lookup_delete_ne by (by intros ->). by apply HWs.
Qed.

(** A transaction that has just begun. *)
Lemma Begin_holds n tx : (n < fuel)%nat -> Z.of_nat (room n 0) < 18446744073709551616 -> tPending tx = 0 ->
  exists tx', Begin db tx = Ok tx' /\ kvtx_sets n tx' ms ∅.
Proof.
  intros Hf Hn Htx. destruct (Begin_spec db) as (meta & Em & HB). destruct (HB tx Htx) as (tx' & E & M' & S' & D & _ & Hrep).
  exists tx'. split; [done|]. split; [|done]. exists 0%nat, ∅. split; [by apply Hrep|]. split; [lia|]. split; [done|]. split; [by rewrite M'|].
  split; [|by rewrite dom_empty_L]. apply map_eq. intros k. rewrite tx_map_lookup. unfold tx_view. rewrite D, decide_False by set_solver. by rewrite lookup_empty.
Qed.
End Instance.

(** ** Commit *)

(** What a successful commit leaves: a database with a tree for [m], as long as its
    free list has room for [N] operations, and a file that gives it again. *)
Definition leaves (R : gmap Z bytes -> Z -> nat -> kvl -> Prop) (N h : nat) (db : KV) (m : gmap bytes bytes) : Prop :=
  (free_room N db -> exists h', map_tree (pages := kv_pages) R N h' db (kRoot db) m /\ (h' <= h)%nat) /\
  (blen (kFile db) <= 2305843009213693952 -> exists db' h', Open [] (kFile db) = Ok (db', true) /\
    map_tree (pages := readable) tree_any 0 h' db' (kRoot db') m /\ (h' <= h)%nat).
Lemma leaves_mono R N h h' db m : (h <= h')%nat -> leaves R N h db m -> leaves R N h' db m.
Proof.
  intros Hh [H1 H2]. split; [intros Hr; destruct (H1 Hr) as (j & ? & ?)|intros Hl; destruct (H2 Hl) as (db' & j & ? & ? & ?)].
  - exists j. split; [done|lia].
  - exists db', j. split; [done|]. split; [done|lia].
Qed.

Section Commit.
Context (fuel : nat) (db : KV) (ms : gmap bytes bytes).
(** From the changed tree to the file. *)
Lemma commit_ends R N h tx m wkeys dkeys faults ws db1 db2 db3 :
  foldM (commit_write fuel tx) db1 wkeys = Ok db2 -> foldM (commit_delete fuel) db2 dkeys = Ok db3 ->
  map_tree (pages := kv_pages) R N h db3 (kRoot db3) m -> (forall M r h l, R M r h l -> tree_any M r h l) ->
  meta_ok db -> saveMeta db = Ok (tMeta tx) -> (forall d, ws d ≡ₚ map_to_list (kUpdates d)) ->
  exists db' ok, TXCommit fuel wkeys dkeys faults ws db1 tx = Ok (db', ok) /\ (ok = true -> leaves R N h db' m) /\
    (ok = false -> kRoot db' = kRoot db /\ kFlushed db' = kFlushed db /\ kFree db' = kFree db).
Proof.
  intros E1 E2 Hdb HR Hmeta0 Em Hws. assert (Hdb' : map_tree (pages := kv_pages) tree_any N h db3 (kRoot db3) m).
  { destruct Hdb as (M & l & Ht & H'). exists M, l. split; [by apply HR|done]. }
  destruct (kv_holds_meta _ _ _ _ Hdb') as [_ Hsize]. pose proof Hdb as (M2 & l2 & _ & [Hks2 _] & _).
  destruct (updateFile_spec faults (ws db3) db3 (ks_mmap _ _ Hks2) (ks_updates _ _ Hks2) Hsize (Hws db3)) as (t & c & f' & ok & Eu & _).
  unfold TXCommit. rstep E1. rstep E2. rstep Eu. destruct ok.
  - eexists _, true. split; [done|]. split; [|done]. intros _. split.
    { intros Hroom. exists h. split; [|done]. eapply (kv_holds_commit R); [exact Hdb|by intros; apply HR|apply (Hws db3)|exact Eu|exact Hroom]. }
    intros Hlen. destruct (committed_tree N h db3 _ faults (ws db3) _ Hdb' (Hws db3) Eu Hlen) as [_ (db'' & Eo & Hr)].
    exists db'', h. done.
  - eexists _, false. rewrite (Abort_spec db _ (tMeta tx) Hmeta0 Em). split; [done|]. by split.
Qed.
Abbreviation kvtx_sets := (kvtx_sets fuel db ms).

(** The keys [W] as in [m], the others as in [mt]. *)
Definition merged (W : gset bytes) (m mt : gmap bytes bytes) : gmap bytes bytes := filter (fun kv => kv.1 ∈ W) m ∪ mt.
Lemma merged_lookup n tx m W mt k : kvtx_sets n tx m W -> merged W m mt !! k = if decide (k ∈ W) then m !! k else mt !! k.
Proof.
  intros [(h & p & _ & _ & _ & _ & -> & ->) Hd]. unfold merged. rewrite lookup_union, map_lookup_filter, tx_map_lookup.
  unfold tx_view. rewrite Hd, decide_False by set_solver. destruct (decide (k ∈ dom p)) as [Hk|Hk].
  - apply elem_of_dom in Hk as [v Ev]. rewrite Ev. cbn. rewrite option_guard_True by (apply elem_of_dom; by eexists). by destruct (mt !! k).
  - destruct (match p !! k with Some v => Some v | None => ms !! k end); cbn; [rewrite option_guard_False by done|]; by destruct (mt !! k).
Qed.
Lemma merged_snapshot n tx m W : kvtx_sets n tx m W -> merged W m ms = m.
Proof.
  intros Hh. apply map_eq. intros k. rewrite (merged_lookup n tx m W ms k Hh). case_decide as Hk; [done|].
  destruct Hh as [(h & p & _ & _ & _ & _ & -> & ->) Hd]. rewrite tx_map_lookup. unfold tx_view. rewrite Hd, decide_False by set_solver.
  by apply not_elem_of_dom in Hk as ->.
Qed.

(** The commit of a transaction that has deleted nothing, on a database that
    need not be the one it began on. *)
Lemma commit_on n N h tx m W wkeys faults ws db1 mt : kvtx_sets n tx m W -> wkeys ≡ₚ elements (writes tx) -> meta_ok db ->
  kv_holds (length wkeys * (3 * (h + length wkeys) + 5) + N) h db1 mt -> (h + length wkeys < fuel)%nat ->
  (forall d, ws d ≡ₚ map_to_list (kUpdates d)) ->
  exists db' ok, TXCommit fuel wkeys [] faults ws db1 tx = Ok (db', ok) /\ (ok = true -> leaves tree_rep N (h + length wkeys) db' (merged W m mt)) /\
    (ok = false -> kRoot db' = kRoot db /\ kFlushed db' = kFlushed db /\ kFree db' = kFree db).
Proof.
  intros Hs Hw Hmeta0 Hdb Hfw Hws. pose proof Hs as [(hp & p & Htx & Hf & _ & Em & Hm & HWp) Hd]. pose proof Htx as [_ _ _ Hwr _ Hks].
  assert (HW : forall k, k ∈ wkeys -> user_kv (k, [])) by (intros k; rewrite Hw, elem_of_elements; intros Hk; apply Hks; set_solver).
  destruct (commit_writes_spec fuel (room n hp) hp tx p wkeys) with (n := N) (h := h) (db := db1) (m := mt) as (db2 & h1 & m1 & E1 & Hdb1 & Hm1 & Hh1);
    [apply map_tree_any, Htx|lia|done|done|done|].
  assert (HM : m1 = merged W m mt).
  { apply map_eq. intros k. rewrite (merged_lookup n tx m W mt k Hs), Hm1. rewrite Hd, (right_id_L ∅ (∪)) in Hwr. rewrite HWp.
    destruct (decide (k ∈ dom p)) as [Hk|Hk]; [|by rewrite decide_False by (rewrite Hw, elem_of_elements; set_solver)].
    rewrite decide_True by (rewrite Hw, elem_of_elements; set_solver). rewrite Hm, tx_map_lookup. unfold tx_view. rewrite Hd, decide_False by set_solver.
    by apply elem_of_dom in Hk as [v ->]. }
  rewrite HM in *. destruct (commit_ends tree_rep N h1 tx _ wkeys [] faults ws db1 db2 db2 E1 eq_refl Hdb1) as (db' & ok & E & HC & HA); [by intros; apply any_rep|done..|].
  exists db', ok. split; [exact E|]. split; [|done]. intros Hok. by eapply leaves_mono, HC.
Qed.
Lemma commit_sets n N h tx m W wkeys faults ws : kvtx_sets n tx m W -> wkeys ≡ₚ elements (writes tx) ->
  kv_holds (length wkeys * (3 * (h + length wkeys) + 5) + N) h db ms -> (h + length wkeys < fuel)%nat ->
  (forall d, ws d ≡ₚ map_to_list (kUpdates d)) ->
  exists db' ok, TXCommit fuel wkeys [] faults ws db tx = Ok (db', ok) /\ (ok = true -> leaves tree_rep N (h + length wkeys) db' m).
Proof.
  intros Hs Hw Hdb Hfw Hws. destruct (kv_holds_meta _ _ _ _ (map_tree_any _ _ _ _ _ Hdb)) as [Hmeta _].
  destruct (commit_on n N h tx m W wkeys faults ws db ms Hs Hw Hmeta Hdb Hfw Hws) as (db' & ok & E & HC & _).
  rewrite (merged_snapshot n tx m W Hs) in HC. by exists db', ok.
Qed.
(** The commit of a transaction that has deleted keys, when no key of the database or of
    the transaction that comes after a deleted one, up to the next that stays, is longer. *)
Lemma commit_dels B n N h tx m W wkeys dkeys faults ws : kvtx_dels fuel db ms B n tx m W ->
  wkeys ≡ₚ elements (writes tx) -> dkeys ≡ₚ elements (deletes tx) -> m <> ∅ ->
  (forall d, is_Some (ms !! d) -> m !! d = None -> run_fits d (fun k => is_Some (ms !! k) \/ is_Some (m !! k)) (stored m)) ->
  kv_holds (B * (3 * (h + B) + 5) + (B * (2 * (h + B) + 2) + N)) h db ms -> (h + B < fuel)%nat ->
  (forall d, ws d ≡ₚ map_to_list (kUpdates d)) ->
  exists db' ok, TXCommit fuel wkeys dkeys faults ws db tx = Ok (db', ok) /\ (ok = true -> leaves tree_any N (h + B) db' m).
Proof.
  intros [(hp & p & Htx & Hf & _ & Em & Hm & HWp) Hdel HWs Hsz] Hw Hd Hne Hfits Hdb Hfw Hws. pose proof Htx as [_ _ _ [_ Hwr] _ _].
  destruct (kv_holds_meta _ _ _ _ (map_tree_any _ _ _ _ _ Hdb)) as [Hmeta _]. rewrite Hm in Hne.
  assert (Hlw : (length wkeys <= B)%nat).
  { rewrite Hw. change (size (writes tx) <= B)%nat. pose proof (subseteq_size _ _ Hwr) as Hle. rewrite <- HWp in Hle.
    rewrite size_union_alt in Hle. pose proof (subseteq_size (deletes tx ∖ W) (deletes tx) ltac:(set_solver)). lia. }
  assert (Hld : (length dkeys <= B)%nat) by (rewrite Hd; change (size (deletes tx) <= B)%nat; lia).
  destruct (commit_tree_spec fuel tree_rep N h _ hp db ms tx p wkeys dkeys Htx) as (db1 & db2 & h' & E1 & E2 & Hdb2 & Hh');
    [apply map_tree_any, Htx|lia|eapply kv_holds_mono; [|exact Hdb]; nia|lia|done|done| |by right|].
  { intros d [Hms Hmd]%Hdel. rewrite <- Hm. eapply run_fits_mono; [|intros k Hk; exact Hk|by apply Hfits].
    intros k [|[Hk|Hk]%Hwr%elem_of_union]; [by left|right; apply HWs; by rewrite HWp|left; by apply Hdel]. }
  destruct (commit_ends tree_any N h' tx _ wkeys dkeys faults ws db db1 db2 E1 E2 Hdb2) as (db' & ok & E & HC & _); [done..|].
  exists db', ok. split; [exact E|]. intros Hok. rewrite Hm. eapply leaves_mono; [|by apply HC]. lia.
Qed.
End Commit.

(** Tables survive a restart.  For a transaction without deletions in which a table
    has certain rows, created there or before, [Commit] ends without a panic; when
    it reports success, a process that opens the file finds in a new transaction
    the table with exactly these rows. *)
Theorem tables_survive `{JsonVals} `{JsonTable} fuel db hs ms n N h tx m W name tdef p rows wkeys faults ws :
  map_tree (pages := readable) tree_any 0 hs db (kRoot db) ms -> (hs < fuel)%nat ->
  kv_holds (length wkeys * (3 * (h + length wkeys) + 5) + N) h db ms -> (h + length wkeys < fuel)%nat ->
  kvtx_sets fuel db ms n tx m W -> table_in name tdef p rows m ->
  wkeys ≡ₚ elements (writes tx) -> (forall d, ws d ≡ₚ map_to_list (kUpdates d)) ->
  exists db' ok, TXCommit fuel wkeys [] faults ws db tx = Ok (db', ok) /\
    (ok = true -> blen (kFile db') <= 2305843009213693952 ->
      exists db'' tx0, Open [] (kFile db') = Ok (db'', true) /\ Begin db'' NewKVTX = Ok tx0 /\
        forall pk, length pk = p -> Forall2 wf_key_val (take p (tTypes tdef)) pk ->
          exists tx', @DBGet KVTX (kvtx_ops fuel db'') _ _ tx0 name (pk_rec tdef p pk) =
            Ok (tx', match rows !! pk with Some rest => row_rec tdef (pk ++ rest) | None => pk_rec tdef p pk end, bool_decide (is_Some (rows !! pk)))).
Proof.
  intros Hsnap Hhs Hdb Hfw Htx Ht Hw Hws.
  destruct (commit_sets fuel db ms n N h tx m W wkeys faults ws Htx Hw Hdb Hfw Hws) as (db' & ok & E & HC).
  exists db', ok. split; [done|]. intros Hok Hlen. destruct (proj2 (HC Hok) Hlen) as (db'' & h' & Eo & Hsnap' & Hh').
  assert (Hf' : (h' < fuel)%nat) by lia.
  destruct (Begin_holds fuel db'' h' m Hsnap' Hf' 0 NewKVTX ltac:(lia) ltac:(done) eq_refl) as (tx0 & Eb & [Hh0 _]).
  exists db'', tx0. split; [done|]. split; [done|]. intros pk Hl Hwf. pose proof (kvtx_laws fuel db'' h' m Hsnap' Hf') as HL. unfold DBGet.
  destruct (@GetTableDef_spec _ _ _ HL _ _ 0 tx0 m ∅ name tdef p rows Hh0 Ht) as (tx1 & E1 & Hh1). rstep E1.
  destruct (@get_pk_row _ _ _ HL _ _ name tdef p 0 tx1 m ∅ rows pk Hh1 Ht Hl Hwf) as (tx2 & E2 & _). by exists tx2.
Qed.

(** C9: No conflict is found.  Two transactions that set keys begin on the same
    database and commit one after the other.  The second commit does not panic
    and, when it reports success, its keys have its values whatever the first
    has made of them or the second has read, and the other keys those of the
    first; when it reports an error, root, counter and free list are those from
    before the first commit. *)
Theorem conflicting_commits fuel db h ms n1 n2 N tx1 tx2 m1 m2 W1 W2 wkeys1 wkeys2 faults1 faults2 ws :
  let j1 := length wkeys1 in let j2 := length wkeys2 in let N1 := (j2 * (3 * (h + j1 + j2) + 5) + N)%nat in
  kv_holds (j1 * (3 * (h + j1) + 5) + N1) h db ms -> (h + j1 + j2 < fuel)%nat ->
  kvtx_sets fuel db ms n1 tx1 m1 W1 -> kvtx_sets fuel db ms n2 tx2 m2 W2 ->
  wkeys1 ≡ₚ elements (writes tx1) -> wkeys2 ≡ₚ elements (writes tx2) -> (forall d, ws d ≡ₚ map_to_list (kUpdates d)) ->
  exists db1 ok1, TXCommit fuel wkeys1 [] faults1 ws db tx1 = Ok (db1, ok1) /\ (ok1 = true -> free_room N1 db1 ->
    exists db2 ok2, TXCommit fuel wkeys2 [] faults2 ws db1 tx2 = Ok (db2, ok2) /\
      (ok2 = true -> free_room N db2 -> forall key, key <> [] ->
         KVGet fuel db2 key = Ok (if decide (key ∈ W2) then m2 !! key else m1 !! key)) /\
      (ok2 = false -> kRoot db2 = kRoot db /\ kFlushed db2 = kFlushed db /\ kFree db2 = kFree db)).
Proof.
  intros j1 j2 N1 Hdb Hf Hs1 Hs2 Hw1 Hw2 Hws. destruct (kv_holds_meta _ _ _ _ (map_tree_any _ _ _ _ _ Hdb)) as [Hmeta _].
  destruct (commit_sets fuel db ms n1 N1 h tx1 m1 W1 wkeys1 faults1 ws Hs1 Hw1 Hdb ltac:(fold j1; lia) Hws) as (db1 & ok1 & E1 & H1).
  exists db1, ok1. split; [done|]. intros Hok1 Hroom1. destruct (proj1 (H1 Hok1) Hroom1) as (h1 & Hdb1 & Hh1). fold j1 in Hh1.
  destruct (commit_on fuel db ms n2 N h1 tx2 m2 W2 wkeys2 faults2 ws db1 m1 Hs2 Hw2 Hmeta) as (db2 & ok2 & E2 & H2 & H2');
    [eapply kv_holds_mono; [|exact Hdb1]; fold j2; unfold N1; nia|fold j2; lia|done|].
  exists db2, ok2. split; [done|]. split; [|done]. intros Hok2 Hroom2 key Hk. destruct (proj1 (H2 Hok2) Hroom2) as (h2 & Hdb2 & Hh2). fold j2 in Hh2.
  rewrite <- (merged_lookup fuel db ms n2 tx2 m2 W2 m1 key Hs2). apply (map_get N h2); [by apply map_tree_any|done|lia].
Qed.

(** ** Instances: the table of people in a new database *)

#[export] Instance TableDef_eq_dec : EqDecision TableDef.
Proof. solve_decision. Defined.
#[export] Program Instance TableDef_countable : Countable TableDef :=
  inj_countable' (fun d => (tName d, tCols d, tTypes d, tPkeys d, tPrefixes d, tIndexes d))
    (fun '(n, c, t, p, q, i) => mkTableDef n c t p q i) _.
Next Obligation. by intros []. Qed.
Definition people : TableDef := with_prefixes people_def 3.
(** A text for definitions that has the law, short for this one. *)
Definition people_json : JsonTable.
Proof.
  refine {| marshal_def d := if decide (d = people) then [Byte.x01] else Byte.x00 :: pos_bits (encode d);
            unmarshal_def s := match s with Byte.x00 :: s => decode (bits_pos s) | _ => Some people end |}.
  intros d _. case_decide as Hd; [by rewrite Hd|]. by rewrite bits_pos_bits, decode_encode.
Defined.
#[local] Existing Instances bits_json people_json.

Lemma people_td : tdef_ok people 1.
Proof.
  split; try done; try (cbn; lia).
  - apply (bool_decide_eq_true (NoDup (tCols people))). reflexivity.
  - apply (bool_decide_eq_true (NoDup (tPrefixes people))). reflexivity.
  - repeat constructor; done.
  - apply people_ok.
Qed.
Lemma people_wf : def_wf people.
Proof. split; repeat constructor; done. Qed.
Lemma new_db_snapshot : map_tree (pages := readable) tree_any 0 0 new_db (kRoot new_db) ∅.
Proof.
  exists ∅, []. split; [apply any_rep, rep_empty|]. split; [|split; [by split; constructor|done]].
  split; [done|]. split; [done|]. by intros p b Hp.
Qed.
Lemma fits k v : bool_decide (user_kv (k, v)) = true -> user_kv (k, v).
Proof. apply bool_decide_eq_true. Qed.
Lemma ann_fits : Forall user_kv (row_entries people 1 ann).
Proof. apply (bool_decide_eq_true (Forall user_kv (row_entries people 1 ann))). vm_compute. reflexivity. Qed.
Lemma ann_row : row_ok people 1 ann.
Proof. exact ann_ok. Qed.

(** The session: [Begin] and [TableNew]. *)
Lemma people_created n : (10 + n < 60)%nat -> exists tx0 tx m W, Begin new_db NewKVTX = Ok tx0 /\
  @TableNew KVTX (kvtx_ops 60 new_db) _ _ tx0 people_def = Ok (tx, people, true) /\
  kvtx_sets 60 new_db ∅ (8 + n) tx m W /\ table_in (gostr "people") people 1 ∅ m /\ counter m [6] /\
  W = {[def_key (gostr "people")]} ∪ ({[meta_key]} ∪ ∅).
Proof.
  intros Hn. assert (Hroom : Z.of_nat (room (10 + n) 0) < 18446744073709551616) by (unfold room; nia).
  destruct (Begin_holds 60 new_db 0 ∅ new_db_snapshot ltac:(lia) (10 + n) NewKVTX Hn Hroom eq_refl) as (tx0 & Eb & Hh0).
  pose proof (kvtx_sets_laws 60 new_db 0 ∅ new_db_snapshot ltac:(lia)) as HL.
  assert (Hcnt : counter ∅ []) by (split; [constructor|by rewrite lookup_empty]).
  destruct (@create_table_spec _ _ _ HL _ _ (8 + n) tx0 ∅ ∅ people_def [] Hh0 Hcnt eq_refl) as (_ & _ & HC).
  destruct HC as (tx & m & E & Hh & Ht & Hc).
  - apply lookup_empty.
  - cbn. lia.
  - cbn. lia.
  - cbn. lia.
  - apply fits. vm_compute. reflexivity.
  - apply fits. vm_compute. reflexivity.
  - exact people_td.
  - exact people_wf.
  - split; discriminate.
  - intros key _. apply lookup_empty.
  - exists tx0, tx, m, ({[def_key (gostr "people")]} ∪ ({[meta_key]} ∪ ∅)). exact (conj Eb (conj E (conj Hh (conj Ht (conj Hc eq_refl))))).
Qed.

Lemma create_table_witness : exists tx0 tx, Begin new_db NewKVTX = Ok tx0 /\
  @TableNew KVTX (kvtx_ops 60 new_db) _ _ tx0 people_def = Ok (tx, people, true).
Proof.
  assert (Hroom : Z.of_nat (room 10 0) < 18446744073709551616) by (unfold room; nia).
  destruct (Begin_holds 60 new_db 0 ∅ new_db_snapshot ltac:(lia) 10 NewKVTX ltac:(lia) Hroom eq_refl) as (tx0 & Eb & Hh0).
  assert (Hcnt : counter ∅ []) by (split; [constructor|by rewrite lookup_empty]).
  pose proof (kvtx_sets_laws 60 new_db 0 ∅ new_db_snapshot ltac:(lia)) as HL.
  destruct (@create_table _ _ _ HL _ _ 8 tx0 ∅ ∅ people_def [] Hh0 Hcnt eq_refl)
    as (_ & _ & HC).
  destruct HC as (tx & m & E & _).
  - apply lookup_empty.
  - cbn. lia.
  - cbn. lia.
  - cbn. lia.
  - apply fits. vm_compute. reflexivity.
  - apply fits. vm_compute. reflexivity.
  - exact people_td.
  - exact people_wf.
  - split; discriminate.
  - intros key _. apply lookup_empty.
  - exists tx0, tx. exact (conj Eb E).
Defined.

(** The catalogue is apart from the rows. *)
Lemma people_untouched pk : untouched people 1 ({[def_key (gostr "people")]} ∪ ({[meta_key]} ∪ ∅)) pk.
Proof.
  intros row k _ _ (i & q & vs & Hq & ->)%(key_prefix people 1 people_td).
  assert (H3 : 3 <= q < 6) by (apply elem_of_list_lookup_2 in Hq || apply list_elem_of_lookup_2 in Hq; cbn in Hq; apply elem_of_seqZ in Hq; lia).
  rewrite !elem_of_union, !elem_of_singleton. intros [E|[E|E%not_elem_of_empty]]; [..|done];
    (apply enc_key_inj in E as [E _]; [lia..]).
Qed.
Lemma one_int n : in_i64 n -> n <> MinInt64 -> Forall2 wf_key_val [TYPE_INT64] [IntVal n].
Proof. intros H1 H2. constructor; [by apply wf_int|constructor]. Qed.
Definition people_ops : list row_op := [RInsert ann; RDelete [IntVal 8]].
Lemma table_refines_map_witness : exists tx0 tx tx' tx'', Begin new_db NewKVTX = Ok tx0 /\
  @TableNew KVTX (kvtx_ops 60 new_db) _ _ tx0 people_def = Ok (tx, people, true) /\
  @run_rows KVTX (kvtx_ops 60 new_db) _ _ (gostr "people") people 1 0 tx people_ops = Ok (tx', [true; false]) /\
  @DBGet KVTX (kvtx_ops 60 new_db) _ _ tx' (gostr "people") (pk_rec people 1 [IntVal 7]) = Ok (tx'', row_rec people ann, true).
Proof.
  destruct (people_created 20 ltac:(lia)) as (tx0 & tx & m & W & Eb & E & [Hh _] & Ht & _ & HW).
  pose proof (kvtx_laws 60 new_db 0 ∅ new_db_snapshot ltac:(lia)) as HL. pose proof (kvtx_del_laws 60 new_db 0 ∅ new_db_snapshot ltac:(lia)) as HD.
  assert (Hops : Forall (op_ok people 1) people_ops).
  { apply list.Forall_cons. split; [exact (conj ann_row ann_fits)|]. apply list.Forall_singleton. exact (conj eq_refl (one_int 8 ltac:(done) ltac:(done))). }
  assert (Hnd : NoDup (map (op_pk 1) people_ops)) by (apply (bool_decide_eq_true (NoDup (map (op_pk 1) people_ops))); reflexivity).
  assert (HWs : Forall (untouched people 1 W) (map (op_pk 1) people_ops)) by (rewrite HW; repeat constructor; apply people_untouched).
  destruct (@table_refines_map _ _ _ HL _ _ (gostr "people") people 1 HD 0 people_ops 16 tx m W ∅ Hh Ht Hops Hnd HWs)
    as (tx' & m' & W' & Er & _ & _ & _ & Hget).
  destruct (Hget [IntVal 7] eq_refl) as (tx'' & Eg); [exact (one_int 7 ltac:(done) ltac:(done))|].
  exists tx0, tx, tx', tx''. exact (conj Eb (conj E (conj Er Eg))).
Defined.
Lemma size_list_le (l : list bytes) : (size (list_to_set l : gset bytes) <= length l)%nat.
Proof.
  induction l as [|k l IH]; [apply (eq_sym (size_empty (C := gset bytes))) || (cbn [list_to_set]; rewrite size_empty; done)|]. cbn [list_to_set length]. rewrite size_union_alt, size_singleton.
  pose proof (subseteq_size ((list_to_set l : gset bytes) ∖ {[k]}) (list_to_set l)) as Hs. specialize (Hs ltac:(set_solver)). lia.
Qed.
(** The keys a transaction without deletions writes. *)
Lemma sets_writes fuel db ms n tx m W : kvtx_sets fuel db ms n tx m W -> writes tx = W.
Proof. intros [(h & p & [_ _ _ [H1 H2] _ _] & _ & _ & _ & _ & ->) Hd]. rewrite Hd, (right_id_L ∅ (∪)) in H2. by apply set_eq_subseteq. Qed.
Definition to_list (d : KV) : list (Z * bytes) := map_to_list (kUpdates d).
Lemma tables_survive_witness : exists tx0 tx tx' rec db' ok, Begin new_db NewKVTX = Ok tx0 /\
  @TableNew KVTX (kvtx_ops 60 new_db) _ _ tx0 people_def = Ok (tx, people, true) /\
  @DBInsert KVTX (kvtx_ops 60 new_db) _ _ 0 tx (gostr "people") (row_rec people ann) = Ok (tx', rec, true) /\
  TXCommit 60 (elements (writes tx')) [] [] to_list new_db tx' = Ok (db', ok) /\
  (ok = true -> blen (kFile db') <= 2305843009213693952 ->
    exists db'' tx1 tx2, Open [] (kFile db') = Ok (db'', true) /\ Begin db'' NewKVTX = Ok tx1 /\
      @DBGet KVTX (kvtx_ops 60 db'') _ _ tx1 (gostr "people") (pk_rec people 1 [IntVal 7]) = Ok (tx2, row_rec people ann, true)).
Proof.
  destruct (people_created 20 ltac:(lia)) as (tx0 & tx & m & W & Eb & E & Hh & Ht & _ & HW).
  pose proof (kvtx_sets_laws 60 new_db 0 ∅ new_db_snapshot ltac:(lia)) as HL.
  destruct (@DBInsert_spec _ _ _ HL _ _ (gostr "people") people 1 0 25 tx m W ∅ ann Hh Ht (conj ann_row ann_fits)) as (tx' & rec & Ei & HC).
  change (exists m', kvtx_sets 60 new_db ∅ 25 tx' m' (list_to_set (row_keys people 1 ann) ∪ W) /\
    table_in (gostr "people") people 1 (<[take 1 ann := drop 1 ann]> ∅) m' /\ forall key, ~ owned people key -> m' !! key = m !! key) in HC.
  destruct HC as (m' & Hh' & Ht' & _). pose proof (sets_writes _ _ _ _ _ _ _ Hh') as Hws.
  assert (Hlen : (length (elements (writes tx')) <= 5)%nat).
  { rewrite Hws, HW. change (size (list_to_set (row_keys people 1 ann) ∪ ({[def_key (gostr "people")]} ∪ ({[meta_key]} ∪ ∅)) : gset bytes) <= 5)%nat.
    etransitivity; [|exact (size_list_le (row_keys people 1 ann ++ [def_key (gostr "people"); meta_key]))].
    apply subseteq_size. rewrite list_to_set_app. reflexivity. }
  set (wk := elements (writes tx')) in *.
  assert (Hdb : kv_holds (length wk * (3 * (0 + length wk) + 5) + 0) 0 new_db ∅).
  { apply new_db_holds. clear -Hlen. nia. }
  destruct (tables_survive 60 new_db 0 ∅ 25 0 0 tx' m' _ (gostr "people") people 1 _ wk [] to_list
    new_db_snapshot ltac:(lia) Hdb ltac:(lia) Hh' Ht' (Permutation_refl _) (fun d => Permutation_refl _))
    as (db' & ok & Ec & Hok).
  exists tx0, tx, tx', rec, db', ok. split; [exact Eb|]. split; [exact E|]. split; [exact Ei|]. split; [exact Ec|].
  intros Ho Hl. destruct (Hok Ho Hl) as (db'' & tx1 & Eo & Eb' & Hget).
  destruct (Hget [IntVal 7] eq_refl (one_int 7 ltac:(done) ltac:(done))) as (tx2 & Eg).
  change (take 1 ann) with [IntVal 7] in Eg. rewrite lookup_insert_eq in Eg. exists db'', tx1, tx2. exact (conj Eo (conj Eb' Eg)).
Defined.

(** Two transactions that set the same key. *)
Lemma one_set v : user_kv ([Byte.x61], v) -> exists tx0 tx, Begin new_db NewKVTX = Ok tx0 /\ TXSet 60 tx0 [Byte.x61] v = Ok tx /\
  kvtx_sets 60 new_db ∅ 0 tx {[[Byte.x61] := v]} {[[Byte.x61]]}.
Proof.
  intros Hv. destruct (Begin_holds 60 new_db 0 ∅ new_db_snapshot ltac:(lia) 1 NewKVTX ltac:(lia) ltac:(done) eq_refl) as (tx0 & Eb & Hh).
  pose proof (kvtx_sets_laws 60 new_db 0 ∅ new_db_snapshot ltac:(lia)) as HL.
  destruct (@tx_set _ _ _ HL 0 tx0 ∅ ∅ [Byte.x61] v Hh Hv) as (tx & E & Hh'). rewrite (right_id_L ∅ (∪)) in Hh'. by exists tx0, tx.
Qed.
Lemma conflicting_commits_witness : exists tx1 tx2 db1 ok1, TXCommit 60 (elements (writes tx1)) [] [] to_list new_db tx1 = Ok (db1, ok1) /\
  (ok1 = true -> free_room 11 db1 -> exists db2 ok2, TXCommit 60 (elements (writes tx2)) [] [] to_list db1 tx2 = Ok (db2, ok2) /\
    (ok2 = true -> free_room 0 db2 -> KVGet 60 db2 [Byte.x61] = Ok (Some [Byte.x32]))).
Proof.
  destruct (one_set [Byte.x31] ltac:(apply fits; by vm_compute)) as (tx01 & tx1 & _ & _ & Hs1).
  destruct (one_set [Byte.x32] ltac:(apply fits; by vm_compute)) as (tx02 & tx2 & _ & _ & Hs2).
  assert (Hl : forall tx v, kvtx_sets 60 new_db ∅ 0 tx {[[Byte.x61] := v]} {[[Byte.x61]]} -> length (elements (writes tx)) = 1%nat).
  { intros tx v Hs. rewrite (sets_writes _ _ _ _ _ _ _ Hs). by rewrite elements_singleton. }
  pose proof (Hl _ _ Hs1) as L1. pose proof (Hl _ _ Hs2) as L2.
  destruct (conflicting_commits 60 new_db 0 ∅ 0 0 0 tx1 tx2 {[[Byte.x61] := [Byte.x31]]} {[[Byte.x61] := [Byte.x32]]} {[[Byte.x61]]} {[[Byte.x61]]} (elements (writes tx1)) (elements (writes tx2)) [] [] to_list) as (db1 & ok1 & E1 & H1);
    [rewrite L1, L2; apply new_db_holds; cbn; lia|rewrite L1, L2; lia|exact Hs1|exact Hs2|done|done|done|].
  exists tx1, tx2, db1, ok1. split; [exact E1|]. intros Hok Hroom. rewrite L1, L2 in H1. destruct (H1 Hok Hroom) as (db2 & ok2 & E2 & HG & _).
  exists db2, ok2. split; [exact E2|]. intros Hok2 Hroom2. rewrite (HG Hok2 Hroom2 [Byte.x61]) by done.
  rewrite decide_True by by apply elem_of_singleton. by rewrite lookup_singleton_eq.
Defined.
