(* ===== verification/Eval.v ===== *)
(** * engine/executor.go: evaluating expressions

    [qlEval] and its helpers on the nodes of the parser.  A context holds the
    record, the value so far and whether an error has been recorded; the text of
    the error, which formats whole nodes, is not modelled.  Dividing by zero and
    indexing missing kids panic, as in Go.

    [evals] is the intended semantics, as a big-step relation; the theorems show
    that the evaluator computes it, which expressions can panic, and what the
    filter and the output of a statement make of the result. *)
From Stdlib Require Import ZArith Lia.
From stdpp Require Import base gmap list strings countable.
From coqutil Require Import Byte Word.LittleEndianList.
From S2P Require Import Prelude Schema Lexer Parser ParserFacts.

Record QLEvalContext := mkCtx { cEnv : Rec; cOut : Value; cErr : bool }.
Definition new_ctx (env : Rec) : QLEvalContext := mkCtx env zeroValue false.
Definition qlErr (ctx : QLEvalContext) : QLEvalContext := mkCtx (cEnv ctx) (cOut ctx) true.
Definition set_out (v : Value) (ctx : QLEvalContext) : QLEvalContext := mkCtx (cEnv ctx) v (cErr ctx).

(** Dereferencing a pointer that may be [nil]. *)
Definition deref {A} (o : option A) : res A :=
  match o with Some a => Ok a | None => Crash NilDereference end.
Definition bool_val (b : bool) : Value := mkValue QL_BOOL (if b then 1 else 0) [].

Section Ops.
Context (eval : QLEvalContext -> QLNode -> res QLEvalContext).

(** The results are the two values and whether an error is returned. *)
Definition evalLeftRightKids (ctx : QLEvalContext) (kids : list QLNode) :
    res (QLEvalContext * (option Value * option Value * bool)) :=
  match kids with
  | [] => Crash IndexOutOfRange
  | k0 :: kids' =>
      ctxLeft ← eval (new_ctx (cEnv ctx)) k0;
      if cErr ctxLeft then Ok (qlErr ctx, (None, None, true)) else
      match kids' with
      | [] => Ok (ctx, (Some (cOut ctxLeft), None, false))
      | k1 :: _ =>
          ctxRight ← eval (new_ctx (cEnv ctx)) k1;
          if cErr ctxRight then Ok (qlErr ctx, (None, None, true)) else
          if negb (vType (cOut ctxLeft) =? vType (cOut ctxRight)) then Ok (qlErr ctx, (None, None, true))
          else Ok (ctx, (Some (cOut ctxLeft), Some (cOut ctxRight), false))
      end
  end.

(** [/] and [%] on [int64]: truncated, wrapping on the one overflow, and a
    panic for a zero divisor. *)
Definition arith (ntype a b : Z) : res (option Z) :=
  if decide (ntype = QL_ADD) then Ok (Some (i64 (a + b)))
  else if decide (ntype = QL_SUB) then Ok (Some (i64 (a - b)))
  else if decide (ntype = QL_MUL) then Ok (Some (i64 (a * b)))
  else if decide (ntype = QL_DIV) then
    if decide (b = 0) then Crash DivideByZero else Ok (Some (i64 (Z.quot a b)))
  else if decide (ntype = QL_MOD) then
    if decide (b = 0) then Crash DivideByZero else Ok (Some (i64 (Z.rem a b)))
  else if decide (ntype = QL_NEG) then Ok (Some (i64 (- a)))
  else Ok None.

Definition qlNumeric (ctx : QLEvalContext) (kids : list QLNode) (ntype : Z) : res QLEvalContext :=
  '(ctx, (left0, right0, err)) ← evalLeftRightKids ctx kids;
  let right0 := match right0 with None => Some zeroValue | r => r end in
  if (err : bool) then Ok ctx else
  l ← deref left0;
  if negb (vType l =? QL_I64) then Ok (qlErr ctx) else
  r ← deref right0;
  out ← arith ntype (vI64 l) (vI64 r);
  match out with
  | None => Ok (qlErr ctx)
  | Some i => Ok (set_out (mkValue QL_I64 i []) ctx)
  end.

Definition qlOrAnd (ctx : QLEvalContext) (kids : list QLNode) (cmp : Z) : res QLEvalContext :=
  '(ctx, (left0, right0, err)) ← evalLeftRightKids ctx kids;
  if (err : bool) then Ok ctx else
  l ← deref left0;
  if negb (vType l =? QL_BOOL) then Ok (qlErr ctx) else
  r ← deref right0;
  let a := vI64 l =? 1 in
  let b := vI64 r =? 1 in
  Ok (set_out (bool_val (if decide (cmp = QL_OR) then a || b
                         else if decide (cmp = QL_AND) then a && b else false)) ctx).

Definition cmp_int (cmp a b : Z) : bool :=
  if decide (cmp = QL_CMP_EQ) then a =? b
  else if decide (cmp = QL_CMP_GE) then (a =? b) || (b <? a)
  else if decide (cmp = QL_CMP_LE) then (a =? b) || (a <? b)
  else if decide (cmp = QL_CMP_GT) then b <? a
  else if decide (cmp = QL_CMP_LT) then a <? b else false.
Definition cmp_str (cmp : Z) (a b : bytes) : bool :=
  let c := Compare a b in
  if decide (cmp = QL_CMP_EQ) then c =? 0
  else if decide (cmp = QL_CMP_GE) then (c =? 0) || (c =? 1)
  else if decide (cmp = QL_CMP_LE) then (c =? 0) || (c =? -1)
  else if decide (cmp = QL_CMP_GT) then c =? 1
  else if decide (cmp = QL_CMP_LT) then c =? -1 else false.
Definition qlCmp (ctx : QLEvalContext) (kids : list QLNode) (cmp : Z) : res QLEvalContext :=
  '(ctx, (left0, right0, err)) ← evalLeftRightKids ctx kids;
  if (err : bool) then Ok ctx else
  l ← deref left0;
  if negb (vType l =? QL_I64) && negb (vType l =? QL_STR) then Ok (qlErr ctx) else
  r ← deref right0;
  if vType l =? QL_I64 then Ok (set_out (bool_val (cmp_int cmp (vI64 l) (vI64 r))) ctx)
  else Ok (set_out (bool_val (cmp_str cmp (vStr l) (vStr r))) ctx).
End Ops.

Definition is_cmp (t : Z) : bool := bool_decide (t ∈ cmp_types).
Definition is_log (t : Z) : bool := bool_decide (t ∈ log_types).
Definition is_num (t : Z) : bool := bool_decide (t ∈ num_types).

Fixpoint qlEval (ctx : QLEvalContext) (node : QLNode) {struct node} : res QLEvalContext :=
  match node with
  | mkNode v kids =>
      let t := vType v in
      if (t =? QL_STR) || (t =? QL_I64) then Ok (set_out v ctx)
      else if t =? QL_SYM then
        o ← Get (cEnv ctx) (vStr v);
        match o with Some v' => Ok (set_out v' ctx) | None => Ok (qlErr ctx) end
      else if is_cmp t then qlCmp qlEval ctx kids t
      else if is_log t then qlOrAnd qlEval ctx kids t
      else if is_num t then qlNumeric qlEval ctx kids t
      else if t =? QL_NEG then
        match kids with
        | [] => Crash IndexOutOfRange
        | k :: _ =>
            ctx ← qlEval ctx k;
            if vType (cOut ctx) =? QL_I64
            then Ok (set_out (mkValue (vType (cOut ctx)) (i64 (- vI64 (cOut ctx))) (vStr (cOut ctx))) ctx)
            else Ok (qlErr ctx)
        end
      else Ok ctx
  end.

(** The error, if any, is all that [QLEvalRecordBool] returns: [true] is
    [nil]. *)
Definition QLEvalRecordBool (rec : Rec) (expr : QLNode) : res bool :=
  ctx ← qlEval (new_ctx rec) expr;
  if negb (vType (cOut ctx) =? QL_BOOL) then Ok false
  else Ok (negb (vI64 (cOut ctx) =? 0)).

(** The loop of [QLEvalOutput] over the expressions from position [i]; [None]
    is an error. *)
Fixpoint eval_outputs (rec : Rec) (exprs : list QLNode) (names : list bytes) (i : nat) (out : Rec) : res (option Rec) :=
  match exprs with
  | [] => Ok (Some out)
  | expr :: exprs' =>
      ctx ← qlEval (new_ctx rec) expr;
      if cErr ctx then Ok None else
      let v := cOut ctx in
      if (vType v =? QL_BOOL) || (vType v =? QL_I64) then
        name ← index names (Z.of_nat i); eval_outputs rec exprs' names (S i) (AddI64 out name (vI64 v))
      else if vType v =? QL_STR then
        name ← index names (Z.of_nat i); eval_outputs rec exprs' names (S i) (AddStr out name (vStr v))
      else Ok None
  end.
Definition QLEvalOutput (rec : Rec) (exprs : list QLNode) (names : list bytes) : res (option Rec) :=
  match names with
  | n :: _ => if bool_decide (n = gostr "*") then Ok (Some rec) else eval_outputs rec exprs names 0 emptyRec
  | [] => eval_outputs rec exprs names 0 emptyRec
  end.

(** The record filled so far and whether [nil] is returned. *)
Fixpoint populate (rec : Rec) (vals : list QLNode) (names : list bytes) (i : nat) : res (Rec * bool) :=
  match vals with
  | [] => Ok (rec, true)
  | val :: vals' =>
      if nType val =? QL_STR then
        name ← index names (Z.of_nat i); populate (AddStr rec name (nStr val)) vals' names (S i)
      else if nType val =? QL_I64 then
        name ← index names (Z.of_nat i); populate (AddI64 rec name (vI64 (nVal val))) vals' names (S i)
      else Ok (rec, false)
  end.
Definition populateRecord (rec : Rec) (vals : list QLNode) (names : list bytes) : res (Rec * bool) :=
  populate rec vals names 0.

(** ** The intended semantics *)

Definition int_holds (t a b : Z) : Prop :=
  (t = QL_CMP_EQ /\ a = b) \/ (t = QL_CMP_GE /\ b <= a) \/ (t = QL_CMP_LE /\ a <= b) \/
  (t = QL_CMP_GT /\ b < a) \/ (t = QL_CMP_LT /\ a < b).
Definition str_holds (t : Z) (a b : bytes) : Prop :=
  (t = QL_CMP_EQ /\ a = b) \/ (t = QL_CMP_GE /\ ble b a) \/ (t = QL_CMP_LE /\ ble a b) \/
  (t = QL_CMP_GT /\ blt b a) \/ (t = QL_CMP_LT /\ blt a b).
#[export] Instance int_holds_dec t a b : Decision (int_holds t a b).
Proof. unfold int_holds. apply _. Defined.
#[export] Instance str_holds_dec t a b : Decision (str_holds t a b).
Proof. unfold str_holds. apply _. Defined.

(** [a op b] in 64-bit arithmetic. *)
Inductive int_op : Z -> Z -> Z -> Z -> Prop :=
  | op_add a b : int_op QL_ADD a b (i64 (a + b))
  | op_sub a b : int_op QL_SUB a b (i64 (a - b))
  | op_mul a b : int_op QL_MUL a b (i64 (a * b))
  | op_div a b : b <> 0 -> int_op QL_DIV a b (i64 (Z.quot a b))
  | op_mod a b : b <> 0 -> int_op QL_MOD a b (i64 (Z.rem a b)).
Definition log_op (t : Z) (a b : bool) : bool := if decide (t = QL_OR) then a || b else a && b.

Inductive evals (env : Rec) : QLNode -> Value -> Prop :=
  | ev_lit v kids : vType v ∈ [QL_STR; QL_I64] -> evals env (mkNode v kids) v
  | ev_sym v kids v' : vType v = QL_SYM -> Get env (vStr v) = Ok (Some v') -> evals env (mkNode v kids) v'
  | ev_cmp_int t l r x y : t ∈ cmp_types -> evals env l x -> evals env r y ->
      vType x = QL_I64 -> vType y = QL_I64 ->
      evals env (mkNode (valWithType t) [l; r]) (bool_val (bool_decide (int_holds t (vI64 x) (vI64 y))))
  | ev_cmp_str t l r x y : t ∈ cmp_types -> evals env l x -> evals env r y ->
      vType x = QL_STR -> vType y = QL_STR ->
      evals env (mkNode (valWithType t) [l; r]) (bool_val (bool_decide (str_holds t (vStr x) (vStr y))))
  | ev_log t l r x y : t ∈ log_types -> evals env l x -> evals env r y ->
      vType x = QL_BOOL -> vType y = QL_BOOL ->
      evals env (mkNode (valWithType t) [l; r]) (bool_val (log_op t (vI64 x =? 1) (vI64 y =? 1)))
  | ev_num t l r x y i : evals env l x -> evals env r y -> vType x = QL_I64 -> vType y = QL_I64 ->
      int_op t (vI64 x) (vI64 y) i -> evals env (mkNode (valWithType t) [l; r]) (mkValue QL_I64 i [])
  | ev_neg k x : evals env k x -> vType x = QL_I64 ->
      evals env (mkNode (valWithType QL_NEG) [k]) (mkValue QL_I64 (i64 (- vI64 x)) (vStr x))
  | ev_none v kids : vType v ∈ [QL_UINT; QL_TUP] -> evals env (mkNode v kids) zeroValue.

(** ** The helpers compute it *)

Lemma cmp_types_cases t : t ∈ cmp_types -> t = QL_CMP_EQ \/ t = QL_CMP_GE \/ t = QL_CMP_LE \/ t = QL_CMP_GT \/ t = QL_CMP_LT.
Proof. unfold cmp_types. set_solver. Qed.
Lemma cmp_int_spec t a b : t ∈ cmp_types -> cmp_int t a b = bool_decide (int_holds t a b).
Proof.
  intros H%cmp_types_cases. apply Bool.eq_iff_eq_true. rewrite bool_decide_eq_true.
  unfold int_holds, cmp_int, QL_CMP_EQ, QL_CMP_GE, QL_CMP_LE, QL_CMP_GT, QL_CMP_LT in *.
  repeat case_decide; bool_to_prop; lia.
Qed.
Lemma Compare_cases a b : (bcmp a b = Lt /\ Compare a b = -1) \/ (bcmp a b = Eq /\ Compare a b = 0) \/
  (bcmp a b = Gt /\ Compare a b = 1).
Proof. unfold Compare. destruct (bcmp a b); auto. Qed.
Lemma cmp_str_spec t a b : t ∈ cmp_types -> cmp_str t a b = bool_decide (str_holds t a b).
Proof.
  intros H. apply Bool.eq_iff_eq_true. rewrite bool_decide_eq_true.
  assert (E : a = b <-> bcmp a b = Eq) by (symmetry; apply bcmp_eq).
  assert (G : blt b a <-> bcmp a b = Gt) by (unfold blt; rewrite (bcmp_antisym a b); destruct (bcmp a b); by split).
  assert (G' : ble b a <-> bcmp a b <> Lt) by (unfold ble; rewrite (bcmp_antisym a b); destruct (bcmp a b); by split).
  apply cmp_types_cases in H. unfold str_holds. rewrite E, G, G'. unfold blt, ble, cmp_str.
  unfold QL_CMP_EQ, QL_CMP_GE, QL_CMP_LE, QL_CMP_GT, QL_CMP_LT in *.
  destruct (Compare_cases a b) as [[-> ->]|[[-> ->]|[-> ->]]]; repeat case_decide; subst; try lia; cbn;
    split; intros HH; try done; try naive_solver lia.
Qed.
Lemma num_types_cases t : t ∈ num_types -> t = QL_ADD \/ t = QL_SUB \/ t = QL_MOD \/ t = QL_MUL \/ t = QL_DIV.
Proof. unfold num_types. set_solver. Qed.
Lemma arith_spec t a b : t ∈ num_types ->
  match arith t a b with
  | Ok (Some i) => int_op t a b i
  | Ok None => False
  | Crash c => c = DivideByZero /\ b = 0 /\ t ∈ [QL_DIV; QL_MOD]
  end.
Proof.
  intros [-> | [-> | [-> | [-> | ->]]]]%num_types_cases; unfold arith;
    repeat case_decide; try done; try (by econstructor); (split; [done|split; [done|set_solver]]).
Qed.
Lemma int_op_arith t a b i : int_op t a b i -> arith t a b = Ok (Some i) /\ t ∈ num_types.
Proof.
  destruct 1; (split; [|unfold num_types; set_solver]); unfold arith;
    repeat case_decide; done.
Qed.

Lemma qlEval_env n ctx c : qlEval ctx n = Ok c -> cEnv c = cEnv ctx.
Proof.
  assert (HK : forall kids ctx c x, evalLeftRightKids qlEval ctx kids = Ok (c, x) -> cEnv c = cEnv ctx).
  { clear. intros [|k0 [|k1 kids]] ctx c x H; cbn in H; [done|..].
    - rinv H. case_match; by injection H as <- <-.
    - rinv H. case_match; [by injection H as <- <-|]. rinv H. repeat case_match; by injection H as <- <-. }
  revert n ctx c. fix IH 1. intros [v kids] ctx c. cbn [qlEval].
  case_match; [by intros [= <-]|]. case_match.
  { intros E. rinv E. case_match; by injection E as <-. }
  case_match.
  { intros E. unfold qlCmp in E. apply bind_inv in E as ([ctx' [[l r] err]] & E1 & E). apply HK in E1.
    destruct err; [by injection E as <-|]. rinv E. case_match; [by injection E as <-|]. rinv E.
    case_match; by injection E as <-. }
  case_match.
  { intros E. unfold qlOrAnd in E. apply bind_inv in E as ([ctx' [[l r] err]] & E1 & E). apply HK in E1.
    destruct err; [by injection E as <-|]. rinv E. case_match; [by injection E as <-|]. rinv E. by injection E as <-. }
  case_match.
  { intros E. unfold qlNumeric in E. apply bind_inv in E as ([ctx' [[l r] err]] & E1 & E). apply HK in E1.
    destruct err; [by injection E as <-|]. rinv E. case_match; [by injection E as <-|]. rinv E.
    case_match; by injection E as <-. }
  case_match; [|by intros [= <-]].
  destruct kids as [|k kids]; [done|]. intros E. apply bind_inv in E as (c' & E1 & E).
  apply IH in E1. case_match; by injection E as <-.
Qed.

(** Which helper a node type selects. *)
Lemma qlEval_cmp ctx t kids : t ∈ cmp_types -> qlEval ctx (mkNode (valWithType t) kids) = qlCmp qlEval ctx kids t.
Proof. intros [-> | [-> | [-> | [-> | ->]]]]%cmp_types_cases; reflexivity. Qed.
Lemma qlEval_log ctx t kids : t ∈ log_types -> qlEval ctx (mkNode (valWithType t) kids) = qlOrAnd qlEval ctx kids t.
Proof. unfold log_types. intros [->|[->|[]%not_elem_of_nil]%elem_of_cons]%elem_of_cons; reflexivity. Qed.
Lemma qlEval_num ctx t kids : t ∈ num_types -> qlEval ctx (mkNode (valWithType t) kids) = qlNumeric qlEval ctx kids t.
Proof. intros [-> | [-> | [-> | [-> | ->]]]]%num_types_cases; reflexivity. Qed.
Lemma qlEval_neg ctx k : qlEval ctx (mkNode (valWithType QL_NEG) [k]) =
  (ctx ← qlEval ctx k;
   if vType (cOut ctx) =? QL_I64
   then Ok (set_out (mkValue (vType (cOut ctx)) (i64 (- vI64 (cOut ctx))) (vStr (cOut ctx))) ctx)
   else Ok (qlErr ctx)).
Proof. reflexivity. Qed.

(** A context without an error. *)
Definition value_ctx (env : Rec) (v : Value) : QLEvalContext := mkCtx env v false.

(** The two kids, from their own evaluations: their values when both succeed
    with one type, an error when not. *)
Lemma kids_values ctx l r x y : cErr ctx = false ->
  qlEval (new_ctx (cEnv ctx)) l = Ok (value_ctx (cEnv ctx) x) ->
  qlEval (new_ctx (cEnv ctx)) r = Ok (value_ctx (cEnv ctx) y) -> vType x = vType y ->
  evalLeftRightKids qlEval ctx [l; r] = Ok (ctx, (Some x, Some y, false)).
Proof.
  intros He El Er Ht. unfold evalLeftRightKids. rstep El. cbn [cErr value_ctx]. rstep Er. cbn [cErr cOut value_ctx].
  rewrite Ht, Z.eqb_refl. done.
Qed.

Lemma evals_qlEval env n v : evals env n v -> qlEval (new_ctx env) n = Ok (value_ctx env v).
Proof.
  induction 1 as [v kids Hv|v kids v' Hv Hg|t l r x y Ht _ IHl _ IHr Hx Hy|t l r x y Ht _ IHl _ IHr Hx Hy
    |t l r x y Ht _ IHl _ IHr Hx Hy|t l r x y i _ IHl _ IHr Hx Hy Hi|k x _ IH Hx|v kids Hv].
  - cbn [qlEval]. apply elem_of_cons in Hv as [->|[->|[]%not_elem_of_nil]%elem_of_cons]; done.
  - cbn [qlEval]. rewrite Hv. cbn. by rewrite Hg.
  - rewrite qlEval_cmp by done. unfold qlCmp. rstep (kids_values (new_ctx env) l r x y eq_refl IHl IHr ltac:(congruence)).
    cbn [deref mbind res_bind]. rewrite Hx, cmp_int_spec by done. done.
  - rewrite qlEval_cmp by done. unfold qlCmp. rstep (kids_values (new_ctx env) l r x y eq_refl IHl IHr ltac:(congruence)).
    cbn [deref mbind res_bind]. rewrite Hx, cmp_str_spec by done. done.
  - rewrite qlEval_log by done. unfold qlOrAnd. rstep (kids_values (new_ctx env) l r x y eq_refl IHl IHr ltac:(congruence)).
    cbn [deref mbind res_bind]. rewrite Hx. unfold log_op. unfold log_types in Ht.
    apply elem_of_cons in Ht as [->|[->|[]%not_elem_of_nil]%elem_of_cons]; done.
  - apply int_op_arith in Hi as [Hi Ht]. rewrite qlEval_num by done. unfold qlNumeric.
    rstep (kids_values (new_ctx env) l r x y eq_refl IHl IHr ltac:(congruence)).
    cbn [deref mbind res_bind]. rewrite Hx. cbn [negb Z.eqb QL_I64 Pos.eqb]. rewrite Hi. done.
  - rewrite qlEval_neg. rstep IH. cbn [cOut value_ctx]. by rewrite Hx.
  - cbn [qlEval]. apply elem_of_cons in Hv as [->|[->|[]%not_elem_of_nil]%elem_of_cons]; done.
Qed.

(** Conversely: what a kid pair that evaluated without an error gave. *)
Lemma kids_inv ctx l r ctx' x y : evalLeftRightKids qlEval ctx [l; r] = Ok (ctx', (x, y, false)) ->
  ctx' = ctx /\ exists cl cr, qlEval (new_ctx (cEnv ctx)) l = Ok cl /\ cErr cl = false /\ x = Some (cOut cl) /\
    qlEval (new_ctx (cEnv ctx)) r = Ok cr /\ cErr cr = false /\ y = Some (cOut cr) /\
    vType (cOut cl) = vType (cOut cr).
Proof.
  unfold evalLeftRightKids. intros H. apply bind_inv in H as (cl & El & H).
  destruct (cErr cl) eqn:Hl; [done|]. apply bind_inv in H as (cr & Er & H).
  destruct (cErr cr) eqn:Hr; [done|]. destruct (Z.eqb_spec (vType (cOut cl)) (vType (cOut cr))) as [Ht|]; cbn in H; [|done].
  injection H as <- <- <-. split; [done|]. by exists cl, cr.
Qed.
Lemma kids_err ctx kids ctx' x y : evalLeftRightKids qlEval ctx kids = Ok (ctx', (x, y, true)) -> cErr ctx' = true.
Proof.
  unfold evalLeftRightKids. destruct kids as [|k0 kids]; [done|]. intros H. apply bind_inv in H as (cl & _ & H).
  destruct (cErr cl); [by injection H as <-|]. destruct kids as [|k1 kids]; [done|].
  apply bind_inv in H as (cr & _ & H). destruct (cErr cr); [by injection H as <-|].
  case_match; [by injection H as <-|done].
Qed.

Lemma bin_types_cases t : t ∈ bin_types -> t ∈ cmp_types \/ t ∈ log_types \/ t ∈ num_types.
Proof. unfold bin_types. rewrite !elem_of_app. tauto. Qed.

Lemma qlEval_evals n : expr_ok n -> forall env c, qlEval (new_ctx env) n = Ok c -> cErr c = false -> evals env n (cOut c).
Proof.
  induction 1 as [n [Hk Ht]|k Hk IH|t l r Ht Hl IHl Hr IHr|kids Hlen _]; intros env c E He.
  - destruct n as [v kids]. cbn in Hk, Ht. subst kids. unfold leaf_types, nType in Ht. cbn [nVal] in Ht. cbn [qlEval] in E.
    apply elem_of_cons in Ht as [Ht|[Ht|[Ht|[Ht|[]%not_elem_of_nil]%elem_of_cons]%elem_of_cons]%elem_of_cons];
      rewrite Ht in E; cbn in E.
    + injection E as <-. apply ev_none, elem_of_cons. by left.
    + injection E as <-. apply ev_lit, elem_of_cons. by left.
    + injection E as <-. apply ev_lit, elem_of_cons. right. apply elem_of_cons. by left.
    + apply bind_inv in E as ([v'|] & Eg & E); injection E as <-; [by apply ev_sym|done].
  - change (set_kids [k] (set_type QL_NEG zeroNode)) with (mkNode (valWithType QL_NEG) [k]) in *.
    rewrite qlEval_neg in E. apply bind_inv in E as (c' & E1 & E).
    destruct (Z.eqb_spec (vType (cOut c')) QL_I64) as [Ht|]; injection E as <-; [|done].
    cbn [set_out cOut cErr] in *. rewrite Ht. apply ev_neg; [by apply IH|done].
  - destruct (bin_types_cases t Ht) as [Hc|[Hc|Hc]].
    + rewrite qlEval_cmp in E by done. unfold qlCmp in E. apply bind_inv in E as ([ctx' [[x y] err]] & E1 & E).
      destruct err; [apply kids_err in E1; congruence|].
      apply kids_inv in E1 as (-> & cl & cr & El & Hel & -> & Er & Her & -> & Hty). cbn [deref mbind res_bind] in E.
      cbn [new_ctx cEnv] in El, Er. specialize (IHl _ _ El Hel). specialize (IHr _ _ Er Her).
      destruct (Z.eqb_spec (vType (cOut cl)) QL_I64) as [Hi|Hi]; cbn [negb andb] in E.
      * injection E as <-. cbn [set_out cOut]. rewrite cmp_int_spec by done. apply ev_cmp_int; congruence.
      * destruct (Z.eqb_spec (vType (cOut cl)) QL_STR) as [Hs|Hs]; cbn [negb] in E; [|by injection E as <-].
        injection E as <-. cbn [set_out cOut]. rewrite cmp_str_spec by done. apply ev_cmp_str; congruence.
    + rewrite qlEval_log in E by done. unfold qlOrAnd in E. apply bind_inv in E as ([ctx' [[x y] err]] & E1 & E).
      destruct err; [apply kids_err in E1; congruence|].
      apply kids_inv in E1 as (-> & cl & cr & El & Hel & -> & Er & Her & -> & Hty). cbn [deref mbind res_bind] in E.
      cbn [new_ctx cEnv] in El, Er. specialize (IHl _ _ El Hel). specialize (IHr _ _ Er Her).
      destruct (Z.eqb_spec (vType (cOut cl)) QL_BOOL) as [Hb|Hb]; cbn [negb] in E; [|by injection E as <-].
      injection E as <-. cbn [set_out cOut].
      assert (HE : (if decide (t = QL_OR) then (vI64 (cOut cl) =? 1) || (vI64 (cOut cr) =? 1)
        else if decide (t = QL_AND) then (vI64 (cOut cl) =? 1) && (vI64 (cOut cr) =? 1) else false)
        = log_op t (vI64 (cOut cl) =? 1) (vI64 (cOut cr) =? 1)).
      { unfold log_op. unfold log_types in Hc. by apply elem_of_cons in Hc as [->|[->|[]%not_elem_of_nil]%elem_of_cons]. }
      rewrite HE. apply ev_log; congruence.
    + rewrite qlEval_num in E by done. unfold qlNumeric in E. apply bind_inv in E as ([ctx' [[x y] err]] & E1 & E).
      destruct err; [apply kids_err in E1; injection E as <-; congruence|].
      apply kids_inv in E1 as (-> & cl & cr & El & Hel & -> & Er & Her & -> & Hty). cbn [deref mbind res_bind] in E.
      cbn [new_ctx cEnv] in El, Er. specialize (IHl _ _ El Hel). specialize (IHr _ _ Er Her).
      destruct (Z.eqb_spec (vType (cOut cl)) QL_I64) as [Hi|Hi]; cbn [negb] in E; [|by injection E as <-].
      apply bind_inv in E as (o & Ea & E). pose proof (arith_spec t (vI64 (cOut cl)) (vI64 (cOut cr)) Hc) as Hop.
      rewrite Ea in Hop. destruct o as [i|]; [|done]. injection E as <-. cbn [set_out cOut].
      apply (ev_num env t l r (cOut cl) (cOut cr)); congruence.
  - cbn in E. injection E as <-. apply ev_none. set_solver.
Qed.

(** ** Which expressions can panic *)

Definition rec_wf (r : Rec) : Prop := (length (rCols r) <= length (rVals r))%nat.
(** A division or remainder occurs in the expression. *)
Fixpoint divides (n : QLNode) : bool :=
  match n with
  | mkNode v kids => (vType v =? QL_DIV) || (vType v =? QL_MOD) || existsb divides kids
  end.

Lemma find_col_lt cols col i j : find_col cols col i = Some j -> (i <= j < i + length cols)%nat.
Proof.
  revert i. induction cols as [|c cols IH]; intros i H; cbn in H; [done|].
  case_decide; [injection H as <-; cbn; lia|]. apply IH in H. cbn. lia.
Qed.
Lemma Get_total r col : rec_wf r -> exists o, Get r col = Ok o.
Proof.
  intros Hr. unfold Get, GetIdx. destruct (find_col (rCols r) col 0) as [j|] eqn:E; [|by eexists].
  apply find_col_lt in E. unfold rec_wf in Hr. destruct (lookup_lt_is_Some_2 (rVals r) j) as [v Hv]; [lia|].
  unfold index. rguard. rewrite Nat2Z.id, Hv. by eexists.
Qed.

Lemma kids_crash ctx l r e : evalLeftRightKids qlEval ctx [l; r] = Crash e ->
  qlEval (new_ctx (cEnv ctx)) l = Crash e \/ qlEval (new_ctx (cEnv ctx)) r = Crash e.
Proof.
  unfold evalLeftRightKids. destruct (qlEval _ l) as [cl|]; cbn [mbind res_bind]; [|by left; congruence].
  destruct (cErr cl); [done|]. destruct (qlEval _ r) as [cr|]; cbn [mbind res_bind]; [|by right; congruence].
  repeat case_match; done.
Qed.
Lemma bin_crash ctx t l r e : t ∈ bin_types -> qlEval ctx (mkNode (valWithType t) [l; r]) = Crash e ->
  evalLeftRightKids qlEval ctx [l; r] = Crash e \/
  (e = DivideByZero /\ t ∈ [QL_DIV; QL_MOD]).
Proof.
  intros [Hc|[Hc|Hc]]%bin_types_cases.
  - rewrite qlEval_cmp by done. unfold qlCmp.
    destruct (evalLeftRightKids qlEval ctx [l; r]) as [[ctx' [[x y] err]]|e'] eqn:E; cbn [mbind res_bind]; [|intros [= ->]; by left].
    destruct err; [done|]. apply kids_inv in E as (-> & cl & cr & _ & _ & -> & _ & _ & -> & _).
    cbn [deref mbind res_bind]. repeat case_match; done.
  - rewrite qlEval_log by done. unfold qlOrAnd.
    destruct (evalLeftRightKids qlEval ctx [l; r]) as [[ctx' [[x y] err]]|e'] eqn:E; cbn [mbind res_bind]; [|intros [= ->]; by left].
    destruct err; [done|]. apply kids_inv in E as (-> & cl & cr & _ & _ & -> & _ & _ & -> & _).
    cbn [deref mbind res_bind]. repeat case_match; done.
  - rewrite qlEval_num by done. unfold qlNumeric.
    destruct (evalLeftRightKids qlEval ctx [l; r]) as [[ctx' [[x y] err]]|e'] eqn:E; cbn [mbind res_bind]; [|intros [= ->]; by left].
    destruct err; [done|]. apply kids_inv in E as (-> & cl & cr & _ & _ & -> & _ & _ & -> & _).
    cbn [deref mbind res_bind]. destruct (negb _); [done|].
    pose proof (arith_spec t (vI64 (cOut cl)) (vI64 (cOut cr)) Hc) as Hop.
    destruct (arith t _ _) as [[i|]|e'']; cbn [mbind res_bind]; [done..|]. intros [= <-]. right. naive_solver.
Qed.
Lemma qlEval_crash n : expr_ok n -> forall env e, rec_wf env -> qlEval (new_ctx env) n = Crash e ->
  e = DivideByZero /\ divides n = true.
Proof.
  induction 1 as [n [Hk Ht]|k Hk IH|t l r Ht Hl IHl Hr IHr|kids Hlen _]; intros env e Hr' E.
  - destruct n as [v kids]. cbn in Hk. subst kids. unfold nType in Ht. cbn [nVal] in Ht. cbn [qlEval] in E.
    destruct (Get_total env (vStr v) Hr') as [o Ho]. unfold leaf_types in Ht.
    apply elem_of_cons in Ht as [Ht|[Ht|[Ht|[Ht|[]%not_elem_of_nil]%elem_of_cons]%elem_of_cons]%elem_of_cons];
      rewrite Ht in E; cbn in E; try done. rewrite Ho in E. by destruct o.
  - change (set_kids [k] (set_type QL_NEG zeroNode)) with (mkNode (valWithType QL_NEG) [k]) in *.
    rewrite qlEval_neg in E. destruct (qlEval (new_ctx env) k) as [c|e'] eqn:Ek; cbn [mbind res_bind] in E.
    + case_match; done.
    + injection E as ->. destruct (IH env e Hr' Ek) as [-> Hd]. split; [done|]. cbn. by rewrite Hd.
  - apply bin_crash in E as [E|[-> E]]; [|split; [done|]|done].
    + apply kids_crash in E as [E|E]; cbn [new_ctx cEnv] in E.
      * destruct (IHl _ _ Hr' E) as [-> Hd]. split; [done|]. cbn. rewrite Hd. by rewrite orb_true_r.
      * destruct (IHr _ _ Hr' E) as [-> Hd]. split; [done|]. cbn. rewrite Hd. by rewrite !orb_true_r.
    + by apply elem_of_cons in E as [->|[->|[]%not_elem_of_nil]%elem_of_cons].
  - done.
Qed.

(** ** Filters *)

(** The expression under its leading minus signs. *)
Fixpoint strip_neg (n : QLNode) : QLNode :=
  match n with
  | mkNode v (k :: _) => if vType v =? QL_NEG then strip_neg k else n
  | _ => n
  end.
Definition holds (env : Rec) (n : QLNode) : Prop := exists v, evals env n v /\ vType v = QL_BOOL /\ vI64 v <> 0.

Lemma filter_neg env k : QLEvalRecordBool env (mkNode (valWithType QL_NEG) [k]) = QLEvalRecordBool env k.
Proof.
  unfold QLEvalRecordBool. rewrite qlEval_neg. destruct (qlEval (new_ctx env) k) as [c|]; [|done].
  cbn [mbind res_bind]. destruct (Z.eqb_spec (vType (cOut c)) QL_I64) as [H|H]; cbn [mbind res_bind set_out cOut qlErr vType]; [|done].
  by rewrite H.
Qed.

(** An error leaves the value of the context as it was. *)
Lemma kids_out ctx kids ctx' x : evalLeftRightKids qlEval ctx kids = Ok (ctx', x) -> cOut ctx' = cOut ctx.
Proof.
  destruct kids as [|k0 [|k1 kids]]; intros H; cbn in H; [done|..].
  - rinv H. case_match; by injection H as <- <-.
  - rinv H. case_match; [by injection H as <- <-|]. rinv H. repeat case_match; by injection H as <- <-.
Qed.
Lemma bin_err ctx t l r c : t ∈ bin_types -> cErr ctx = false -> qlEval ctx (mkNode (valWithType t) [l; r]) = Ok c ->
  cErr c = true -> cOut c = cOut ctx.
Proof.
  intros [Hc|[Hc|Hc]]%bin_types_cases He E Hcc.
  - rewrite qlEval_cmp in E by done. unfold qlCmp in E. apply bind_inv in E as ([ctx' [[x y] err]] & E1 & E).
    destruct err; [injection E as <-; by apply kids_out in E1|].
    apply kids_inv in E1 as (-> & cl & cr & _ & _ & -> & _ & _ & -> & _). cbn [deref mbind res_bind] in E.
    destruct (negb _ && _); [by injection E as <-|]. case_match; injection E as <-; cbn in Hcc; congruence.
  - rewrite qlEval_log in E by done. unfold qlOrAnd in E. apply bind_inv in E as ([ctx' [[x y] err]] & E1 & E).
    destruct err; [injection E as <-; by apply kids_out in E1|].
    apply kids_inv in E1 as (-> & cl & cr & _ & _ & -> & _ & _ & -> & _). cbn [deref mbind res_bind] in E.
    destruct (negb _); [by injection E as <-|]. injection E as <-; cbn in Hcc; congruence.
  - rewrite qlEval_num in E by done. unfold qlNumeric in E. apply bind_inv in E as ([ctx' [[x y] err]] & E1 & E).
    destruct err; [injection E as <-; by apply kids_out in E1|].
    apply kids_inv in E1 as (-> & cl & cr & _ & _ & -> & _ & _ & -> & _). cbn [deref mbind res_bind] in E.
    destruct (negb _); [by injection E as <-|]. apply bind_inv in E as ([i|] & _ & E); injection E as <-; [cbn in Hcc; congruence|done].
Qed.

Lemma filter_holds n : expr_ok n -> forall env b, QLEvalRecordBool env n = Ok b -> b = true <-> holds env (strip_neg n).
Proof.
  assert (Hgen : forall n, expr_ok n -> (forall env c, qlEval (new_ctx env) n = Ok c -> cErr c = true -> cOut c = zeroValue) ->
    forall env b, QLEvalRecordBool env n = Ok b -> b = true <-> holds env n).
  { intros m Hm Herr env b H. unfold QLEvalRecordBool in H. apply bind_inv in H as (c & E & H).
    destruct (cErr c) eqn:He.
    - rewrite (Herr _ _ E He) in H. injection H as <-. split; [done|]. intros (v & Hv & _).
      apply evals_qlEval in Hv. rewrite Hv in E. injection E as <-. done.
    - pose proof (qlEval_evals m Hm env c E He) as Hv.
      assert (Hu : forall v, evals env m v -> v = cOut c).
      { intros v Hv'. apply evals_qlEval in Hv'. rewrite Hv' in E. by injection E as <-. }
      destruct (Z.eqb_spec (vType (cOut c)) QL_BOOL) as [Ht|Ht]; cbn [negb] in H; injection H as <-.
      + rewrite negb_true_iff, Z.eqb_neq. split; [intros; by exists (cOut c)|].
        intros (v & ->%Hu & _ & ?). done.
      + split; [done|]. intros (v & ->%Hu & ? & _). done. }
  induction 1 as [n Hn|k Hk IH|t l r Ht Hl _ Hr _|kids Hlen Hk]; intros env b.
  - pose proof Hn as Hn'. destruct n as [v kids], Hn as [Hk Ht]. cbn in Hk. subst kids. cbn [strip_neg]. apply Hgen; [by apply ok_leaf|].
    clear env b. intros env c E He. cbn [qlEval] in E. unfold nType in Ht. cbn [nVal] in Ht. unfold leaf_types in Ht.
    apply elem_of_cons in Ht as [Ht|[Ht|[Ht|[Ht|[]%not_elem_of_nil]%elem_of_cons]%elem_of_cons]%elem_of_cons];
      rewrite Ht in E; cbn in E; try (injection E as <-; done).
    apply bind_inv in E as ([v'|] & _ & E); by injection E as <-.
  - change (set_kids [k] (set_type QL_NEG zeroNode)) with (mkNode (valWithType QL_NEG) [k]).
    rewrite filter_neg. apply IH.
  - assert (Hs : strip_neg (mkNode (valWithType t) [l; r]) = mkNode (valWithType t) [l; r]).
    { cbn [strip_neg]. destruct (Z.eqb_spec (vType (valWithType t)) QL_NEG) as [Hq|]; [|done]. cbn in Hq. subst t.
      apply bin_types_cases in Ht. unfold cmp_types, log_types, num_types in Ht. set_solver. }
    rewrite Hs. apply Hgen; [by apply ok_bin|]. intros env' c E He. by apply (bin_err (new_ctx env') t l r c).
  - destruct kids as [|k0 kids]; [cbn in Hlen; lia|]. apply (Hgen _ (ok_tup (k0 :: kids) Hlen Hk)).
    intros env' c E He. cbn in E. by injection E as <-.
Qed.

(** ** Outputs and records *)

(** A value as a column of the output: a boolean becomes an integer. *)
Definition out_value (v : Value) : option Value :=
  if (vType v =? QL_BOOL) || (vType v =? QL_I64) then Some (IntVal (vI64 v))
  else if vType v =? QL_STR then Some (BytesVal (vStr v)) else None.
Definition outputs (env : Rec) (e : QLNode) (w : Value) : Prop := exists v, evals env e v /\ out_value v = Some w.

Lemma outputs_or n env c : expr_ok n -> qlEval (new_ctx env) n = Ok c ->
  match (if cErr c then None else out_value (cOut c)) with
  | Some w => outputs env n w
  | None => forall w, ~ outputs env n w
  end.
Proof.
  intros Hn E. assert (Hu : forall v, evals env n v -> cErr c = false /\ v = cOut c).
  { intros v Hv. apply evals_qlEval in Hv. rewrite Hv in E. by injection E as <-. }
  destruct (cErr c) eqn:He; [intros w (v & [? _]%Hu & _); done|].
  destruct (out_value (cOut c)) as [w|] eqn:Ho; [exists (cOut c); split; [by apply qlEval_evals|done]|].
  intros w (v & [_ ->]%Hu & Hw). congruence.
Qed.

Lemma eval_outputs_spec rec names exprs : rec_wf rec -> Forall expr_ok exprs -> forall i out,
  (i + length exprs <= length names)%nat ->
  match eval_outputs rec exprs names i out with
  | Ok (Some o) => exists ws, Forall2 (outputs rec) exprs ws /\
      rCols o = rCols out ++ take (length exprs) (drop i names) /\ rVals o = rVals out ++ ws
  | Ok None => exists e, e ∈ exprs /\ forall w, ~ outputs rec e w
  | Crash c => c = DivideByZero /\ existsb divides exprs = true
  end.
Proof.
  intros Hr. induction 1 as [|e exprs He Hes IH]; intros i out Hi; cbn [eval_outputs length] in *.
  { exists []. rewrite !app_nil_r. by split. }
  destruct (qlEval (new_ctx rec) e) as [c|c] eqn:E; cbn [mbind res_bind].
  2:{ apply (qlEval_crash e He) in E as [-> Hd]; [|done]. cbn. by rewrite Hd. }
  pose proof (outputs_or e rec c He E) as Ho. unfold out_value in Ho.
  destruct (cErr c); [exists e; split; [by left|done]|].
  destruct (lookup_lt_is_Some_2 names i) as [x Hx]; [lia|].
  assert (Hgo : forall out' w, outputs rec e w -> rCols out' = rCols out ++ [x] -> rVals out' = rVals out ++ [w] ->
    match eval_outputs rec exprs names (S i) out' with
    | Ok (Some o) => exists ws, Forall2 (outputs rec) (e :: exprs) ws /\
        rCols o = rCols out ++ take (S (length exprs)) (drop i names) /\ rVals o = rVals out ++ ws
    | Ok None => exists e0, e0 ∈ e :: exprs /\ forall w, ~ outputs rec e0 w
    | Crash c => c = DivideByZero /\ existsb divides (e :: exprs) = true
    end).
  { intros out' w Hw Hc Hv. specialize (IH (S i) out' ltac:(lia)).
    destruct (eval_outputs rec exprs names (S i) out') as [[o|]|c'].
    - destruct IH as (ws & Hws & -> & ->). exists (w :: ws). split; [by constructor|].
      rewrite Hc, Hv, (drop_S _ _ _ Hx), <- !app_assoc. done.
    - destruct IH as (e0 & H0 & Hn). exists e0. split; [by right|done].
    - destruct IH as [-> Hd]. cbn. rewrite Hd. by rewrite orb_true_r. }
  destruct ((vType (cOut c) =? QL_BOOL) || (vType (cOut c) =? QL_I64)).
  { rstep (index_Ok names i x Hx). by apply (Hgo _ _ Ho). }
  destruct (vType (cOut c) =? QL_STR); [|exists e; split; [by left|done]].
  rstep (index_Ok names i x Hx). by apply (Hgo _ _ Ho).
Qed.

(** The literals at the front of a list of values, as values of a record. *)
Fixpoint literals (vals : list QLNode) : list Value :=
  match vals with
  | [] => []
  | v :: vals' => if nType v =? QL_STR then BytesVal (nStr v) :: literals vals'
                  else if nType v =? QL_I64 then IntVal (vI64 (nVal v)) :: literals vals' else []
  end.
Lemma literals_le vals : (length (literals vals) <= length vals)%nat.
Proof. induction vals as [|v vals IH]; cbn; [lia|]. repeat case_match; cbn; lia. Qed.
Lemma populate_spec names vals : forall rec i, (i <= length names)%nat ->
  populate rec vals names i =
  if decide (i + length (literals vals) <= length names)%nat
  then Ok (mkRec (rCols rec ++ take (length (literals vals)) (drop i names)) (rVals rec ++ literals vals),
           bool_decide (length (literals vals) = length vals))
  else Crash IndexOutOfRange.
Proof.
  induction vals as [|v vals IH]; intros rec i Hi; cbn [populate literals].
  { rewrite decide_True by (cbn; lia). destruct rec. cbn. by rewrite !app_nil_r. }
  assert (Hgo : forall rec' w, rCols rec' = rCols rec ++ take 1 (drop i names) -> rVals rec' = rVals rec ++ [w] ->
    (i < length names)%nat ->
    populate rec' vals names (S i) =
    if decide (i + length (w :: literals vals) <= length names)%nat
    then Ok (mkRec (rCols rec ++ take (length (w :: literals vals)) (drop i names)) (rVals rec ++ w :: literals vals),
             bool_decide (length (w :: literals vals) = length (v :: vals)))
    else Crash IndexOutOfRange).
  { intros rec' w Hc Hv Hlt. rewrite IH by lia. cbn [length].
    destruct (decide (S i + length (literals vals) <= length names)%nat).
    - rewrite decide_True by lia. destruct (lookup_lt_is_Some_2 names i Hlt) as [x Hx].
      rewrite Hc, Hv, (drop_S _ _ _ Hx), <- !app_assoc. cbn [take app]. do 2 f_equal.
      apply bool_decide_ext. lia.
    - by rewrite decide_False by lia. }
  destruct (decide (i < length names)%nat) as [Hlt|Hge].
  - destruct (lookup_lt_is_Some_2 names i Hlt) as [x Hx].
    destruct (nType v =? QL_STR); [|destruct (nType v =? QL_I64)].
    + rstep (index_Ok names i x Hx). apply Hgo; [by rewrite (drop_S _ _ _ Hx)|done..].
    + rstep (index_Ok names i x Hx). apply Hgo; [by rewrite (drop_S _ _ _ Hx)|done..].
    + rewrite decide_True by (cbn; lia). destruct rec. cbn. by rewrite !app_nil_r.
  - destruct (nType v =? QL_STR); [|destruct (nType v =? QL_I64)].
    + rewrite (index_out names i) by lia. by rewrite decide_False by (cbn; lia).
    + rewrite (index_out names i) by lia. by rewrite decide_False by (cbn; lia).
    + rewrite decide_True by (cbn; lia). destruct rec. cbn. by rewrite !app_nil_r.
Qed.

(** ** Types *)

Section Typing.
Context (Γ : bytes -> option Z).
Inductive has_type : QLNode -> Z -> Prop :=
  | ty_lit v kids : vType v ∈ [QL_STR; QL_I64] -> has_type (mkNode v kids) (vType v)
  | ty_sym v kids t : vType v = QL_SYM -> Γ (vStr v) = Some t -> has_type (mkNode v kids) t
  | ty_cmp t l r s : t ∈ cmp_types -> s ∈ [QL_STR; QL_I64] -> has_type l s -> has_type r s ->
      has_type (mkNode (valWithType t) [l; r]) QL_BOOL
  | ty_log t l r : t ∈ log_types -> has_type l QL_BOOL -> has_type r QL_BOOL ->
      has_type (mkNode (valWithType t) [l; r]) QL_BOOL
  | ty_num t l r : t ∈ num_types -> has_type l QL_I64 -> has_type r QL_I64 ->
      has_type (mkNode (valWithType t) [l; r]) QL_I64
  | ty_neg k : has_type k QL_I64 -> has_type (mkNode (valWithType QL_NEG) [k]) QL_I64.
(** The record has the columns of the typing, with values of their types. *)
Definition env_ok (env : Rec) : Prop :=
  forall x t, Γ x = Some t -> exists v, Get env x = Ok (Some v) /\ vType v = t.

(** A value of the type, or the panic of a division by zero. *)
Definition typed_result (env : Rec) (n : QLNode) (t : Z) : Prop :=
  (exists v, evals env n v /\ vType v = t) \/
  (qlEval (new_ctx env) n = Crash DivideByZero /\ divides n = true).

Lemma typed_kids env t l r s : t ∈ bin_types -> typed_result env l s -> typed_result env r s ->
  (forall x y, evals env l x -> evals env r y -> vType x = s -> vType y = s ->
     qlEval (new_ctx env) l = Ok (value_ctx env x) -> qlEval (new_ctx env) r = Ok (value_ctx env y) ->
     typed_result env (mkNode (valWithType t) [l; r]) (if bool_decide (t ∈ num_types) then QL_I64 else QL_BOOL)) ->
  typed_result env (mkNode (valWithType t) [l; r]) (if bool_decide (t ∈ num_types) then QL_I64 else QL_BOOL).
Proof.
  intros Ht Hl Hr Hgo.
  assert (Hcrash : evalLeftRightKids qlEval (new_ctx env) [l; r] = Crash DivideByZero ->
    divides l || divides r = true -> typed_result env (mkNode (valWithType t) [l; r])
      (if bool_decide (t ∈ num_types) then QL_I64 else QL_BOOL)).
  { intros Hk Hd. right. split.
    - apply bin_types_cases in Ht as [Hc|[Hc|Hc]];
        [rewrite qlEval_cmp by done; unfold qlCmp|rewrite qlEval_log by done; unfold qlOrAnd
        |rewrite qlEval_num by done; unfold qlNumeric]; by rstep Hk.
    - cbn. rewrite orb_false_r, Hd. by rewrite orb_true_r. }
  destruct Hl as [(x & Hx & Htx)|[El Hd]].
  2:{ apply Hcrash; [|by rewrite Hd]. unfold evalLeftRightKids. cbn [new_ctx cEnv]. by rstep El. }
  pose proof (evals_qlEval _ _ _ Hx) as Ex.
  destruct Hr as [(y & Hy & Hty)|[Er Hd]].
  2:{ apply Hcrash; [|rewrite Hd; by rewrite orb_true_r]. unfold evalLeftRightKids. cbn [new_ctx cEnv].
      rstep Ex. cbn [value_ctx cErr]. by rstep Er. }
  apply (Hgo x y); try done. by apply evals_qlEval.
Qed.
Lemma has_type_result env n t : env_ok env -> has_type n t -> typed_result env n t.
Proof.
  intros Henv. induction 1 as [v kids Hv|v kids t Hv Hg|t l r s Ht Hs _ IHl _ IHr|t l r Ht _ IHl _ IHr
    |t l r Ht _ IHl _ IHr|k _ IH].
  - left. exists v. split; [by apply ev_lit|done].
  - destruct (Henv _ _ Hg) as (v' & Hv' & Hty). left. exists v'. split; [by apply ev_sym|done].
  - assert (Hn : bool_decide (t ∈ num_types) = false).
    { apply bool_decide_eq_false. apply cmp_types_cases in Ht. unfold num_types. set_solver. }
    change QL_BOOL with (if false then QL_I64 else QL_BOOL). rewrite <- Hn.
    apply (typed_kids env t l r s); [unfold bin_types; set_solver|done..|]. intros x y Hx Hy Tx Ty _ _. rewrite Hn. left.
    apply elem_of_cons in Hs as [->|[->|[]%not_elem_of_nil]%elem_of_cons].
    + eexists. split; [by apply (ev_cmp_str env t l r x y)|done].
    + eexists. split; [by apply (ev_cmp_int env t l r x y)|done].
  - assert (Hn : bool_decide (t ∈ num_types) = false).
    { apply bool_decide_eq_false. unfold log_types in Ht. unfold num_types. set_solver. }
    change QL_BOOL with (if false then QL_I64 else QL_BOOL) at 1. rewrite <- Hn.
    apply (typed_kids env t l r QL_BOOL); [unfold bin_types; set_solver|done..|]. intros x y Hx Hy Tx Ty _ _. rewrite Hn. left.
    eexists. split; [by apply (ev_log env t l r x y)|done].
  - assert (Hn : bool_decide (t ∈ num_types) = true) by by apply bool_decide_eq_true.
    change QL_I64 with (if true then QL_I64 else QL_BOOL) at 1. rewrite <- Hn.
    apply (typed_kids env t l r QL_I64); [unfold bin_types; set_solver|done..|]. intros x y Hx Hy Tx Ty Ex Ey. rewrite Hn.
    pose proof (arith_spec t (vI64 x) (vI64 y) Ht) as Ha. destruct (arith t (vI64 x) (vI64 y)) as [[i|]|c] eqn:E; [|done|].
    + left. eexists. split; [by apply (ev_num env t l r x y i)|done].
    + destruct Ha as (-> & _ & Hd). right. split.
      * rewrite qlEval_num by done. unfold qlNumeric.
        rstep (kids_values (new_ctx env) l r x y eq_refl Ex Ey ltac:(congruence)). cbn [deref mbind res_bind].
        rewrite Tx. cbn [negb Z.eqb QL_I64 Pos.eqb]. by rewrite E.
      * by apply elem_of_cons in Hd as [->|[->|[]%not_elem_of_nil]%elem_of_cons].
  - destruct IH as [(x & Hx & Tx)|[E Hd]].
    + left. eexists. split; [by apply ev_neg|done].
    + right. split; [rewrite qlEval_neg; by rstep E|]. cbn. by rewrite Hd.
Qed.
End Typing.

(** ** Properties *)

(** C30: the evaluator computes the intended semantics of an expression, and
    nothing else: it returns a value without an error exactly when the
    expression has that value; and it panics only when a division or remainder
    occurs in the expression, never for a type error, an unknown column or a
    missing operand. *)
Theorem qlEval_correct n env : expr_ok n -> rec_wf env ->
  match qlEval (new_ctx env) n with
  | Ok c => forall v, evals env n v <-> cErr c = false /\ cOut c = v
  | Crash e => e = DivideByZero /\ divides n = true /\ forall v, ~ evals env n v
  end.
Proof.
  intros Hn Hr. destruct (qlEval (new_ctx env) n) as [c|e] eqn:E.
  - intros v. split.
    + intros Hv%evals_qlEval. rewrite Hv in E. by injection E as <-.
    + intros [He <-]. by apply qlEval_evals.
  - destruct (qlEval_crash n Hn env e Hr E) as [-> Hd]. split; [done|]. split; [done|].
    intros v Hv%evals_qlEval. congruence.
Qed.

Definition bin (t : Z) (l r : QLNode) : QLNode := mkNode (valWithType t) [l; r].
Definition col (s : string) : QLNode := mkNode (mkValue QL_SYM 0 (gostr s)) [].
Definition int_lit (i : Z) : QLNode := mkNode (IntVal i) [].
Definition row : Rec := AddStr (AddI64 emptyRec (gostr "id") 7) (gostr "name") (gostr "bob").
Lemma bin_ok t l r : expr_ok l -> expr_ok r -> t ∈ bin_types -> expr_ok (bin t l r).
Proof. intros. by apply ok_bin. Qed.
Lemma col_ok s : expr_ok (col s).
Proof. apply ok_leaf. split; [done|]. unfold leaf_types. set_solver. Qed.
Lemma int_lit_ok i : expr_ok (int_lit i).
Proof. apply ok_leaf. split; [done|]. unfold leaf_types. set_solver. Qed.

Lemma qlEval_correct_witness :
  (forall v, evals row (bin QL_ADD (col "id") (int_lit 1)) v <-> false = false /\ IntVal 8 = v) /\
  DivideByZero = DivideByZero /\ divides (bin QL_DIV (col "id") (int_lit 0)) = true /\
  forall v, ~ evals row (bin QL_DIV (col "id") (int_lit 0)) v.
Proof.
  split.
  - apply (qlEval_correct (bin QL_ADD (col "id") (int_lit 1)) row); [|unfold rec_wf; cbn; lia].
    apply bin_ok; [apply col_ok|apply int_lit_ok|]. vm_compute. set_solver.
  - apply (qlEval_correct (bin QL_DIV (col "id") (int_lit 0)) row); [|unfold rec_wf; cbn; lia].
    apply bin_ok; [apply col_ok|apply int_lit_ok|]. vm_compute. set_solver.
Defined.

(** C31: type soundness: an expression that is well typed for the columns of a
    record evaluates, without an error, to a value of its type, unless it
    divides by zero, which panics. *)
Theorem well_typed_evaluates Γ n t env : has_type Γ n t -> env_ok Γ env ->
  (exists c, qlEval (new_ctx env) n = Ok c /\ cErr c = false /\ vType (cOut c) = t) \/
  (qlEval (new_ctx env) n = Crash DivideByZero /\ divides n = true).
Proof.
  intros Hn Henv. destruct (has_type_result Γ env n t Henv Hn) as [(v & Hv & Ht)|H]; [left|by right].
  exists (value_ctx env v). split; [by apply evals_qlEval|done].
Qed.
Definition row_types (x : bytes) : option Z :=
  if bool_decide (x = gostr "id") then Some QL_I64 else if bool_decide (x = gostr "name") then Some QL_STR else None.
Lemma well_typed_evaluates_witness :
  (exists c, qlEval (new_ctx row) (bin QL_CMP_GE (col "id") (int_lit 1)) = Ok c /\ cErr c = false /\ vType (cOut c) = QL_BOOL) \/
  (qlEval (new_ctx row) (bin QL_CMP_GE (col "id") (int_lit 1)) = Crash DivideByZero /\
   divides (bin QL_CMP_GE (col "id") (int_lit 1)) = true).
Proof.
  apply (well_typed_evaluates row_types).
  - apply (ty_cmp _ QL_CMP_GE (col "id") (int_lit 1) QL_I64); [unfold cmp_types; set_solver|set_solver| |].
    + by apply ty_sym.
    + apply (ty_lit row_types (IntVal 1) []). set_solver.
  - intros x t H. unfold row_types in H. case_bool_decide; [subst x; injection H as <-; by eexists|].
    case_bool_decide; [|done]. subst x. injection H as <-. by eexists.
Defined.

(** A filter keeps a record exactly when the expression under its leading
    minus signs has a true value.  So an expression with an error keeps
    nothing and is reported to nobody, and [-(id >= 1)], which has no value,
    filters as [id >= 1] does: the error a minus records is not looked at. *)
Theorem filter_correct n env : expr_ok n -> rec_wf env ->
  match QLEvalRecordBool env n with
  | Ok b => b = true <-> holds env (strip_neg n)
  | Crash e => e = DivideByZero /\ divides n = true
  end.
Proof.
  intros Hn Hr. destruct (QLEvalRecordBool env n) as [b|e] eqn:E; [by apply filter_holds|].
  unfold QLEvalRecordBool in E. destruct (qlEval (new_ctx env) n) as [c|e'] eqn:Ec; cbn [mbind res_bind] in E.
  - by destruct (negb _).
  - injection E as ->. by apply (qlEval_crash n Hn env e).
Qed.
Lemma filter_correct_witness :
  true = true <-> holds row (strip_neg (mkNode (valWithType QL_NEG) [bin QL_CMP_GE (col "id") (int_lit 1)])).
Proof.
  apply (filter_correct (mkNode (valWithType QL_NEG) [bin QL_CMP_GE (col "id") (int_lit 1)]) row).
  - apply (ok_neg (bin QL_CMP_GE (col "id") (int_lit 1))). apply bin_ok; [apply col_ok|apply int_lit_ok|].
    vm_compute. set_solver.
  - unfold rec_wf. cbn. lia.
Defined.

Definition filter_of (s : QLStmt) : option QLNode :=
  match s with
  | SSelect (Some s) => sFilter (selScan s)
  | SUpdate (Some s) => sFilter (updScan s)
  | SDelete (Some s) => sFilter (delScan s)
  | _ => None
  end.
(** The filters of the statements in README.md compare the name of a
    column, without the [@] that would make it one, with a number; they parse
    and keep no record of any table. *)
Theorem readme_filters_keep_nothing :
  Forall (fun q => exists p' s f, PStmt 0 (new_parser (gostr q) []) = Ok (p', s) /\ pError p' = None /\
    filter_of s = Some f /\ forall rec, QLEvalRecordBool rec f = Ok false)
    ["select name, id from users filter id >= 1;"%string;
     "update users set @name = bob filter id == 1;"%string;
     "delete from users filter id == 1;"%string].
Proof.
  repeat (apply list.Forall_cons; split); [..|by apply list.Forall_nil];
    eexists _, _, _; (split; [by vm_compute|]); done.
Qed.

(** The output of a select, and the new record of an update, has the given
    column names and the values of the expressions, a boolean as an integer; no
    record is made exactly when some expression has no value, or a value that
    cannot be stored.  A leading [*] gives the record itself. *)
Theorem QLEvalOutput_correct rec exprs names : rec_wf rec -> Forall expr_ok exprs ->
  length exprs = length names ->
  match QLEvalOutput rec exprs names with
  | Ok (Some o) => (head names = Some (gostr "*") /\ o = rec) \/ (rCols o = names /\ Forall2 (outputs rec) exprs (rVals o))
  | Ok None => exists e, e ∈ exprs /\ forall w, ~ outputs rec e w
  | Crash c => c = DivideByZero /\ existsb divides exprs = true
  end.
Proof.
  intros Hr He Hl.
  assert (Hgo : match eval_outputs rec exprs names 0 emptyRec with
    | Ok (Some o) => (head names = Some (gostr "*") /\ o = rec) \/ (rCols o = names /\ Forall2 (outputs rec) exprs (rVals o))
    | Ok None => exists e, e ∈ exprs /\ forall w, ~ outputs rec e w
    | Crash c => c = DivideByZero /\ existsb divides exprs = true
    end).
  { pose proof (eval_outputs_spec rec names exprs Hr He 0 emptyRec ltac:(lia)) as H.
    destruct (eval_outputs rec exprs names 0 emptyRec) as [[o|]|c]; [|done..].
    destruct H as (ws & Hws & Hc & Hv). right. rewrite Hc, Hv. cbn [emptyRec rVals app]. split; [|done].
    cbn. rewrite Hl. by rewrite take_ge by (rewrite drop_0; lia). }
  unfold QLEvalOutput. destruct names as [|x names]; [done|]. case_bool_decide as Hx; [|done]. subst x. by left.
Qed.
Lemma QLEvalOutput_correct_witness :
  (head [gostr "x"] = Some (gostr "*") /\ AddI64 emptyRec (gostr "x") 8 = row) \/
  (rCols (AddI64 emptyRec (gostr "x") 8) = [gostr "x"] /\
   Forall2 (outputs row) [bin QL_ADD (col "id") (int_lit 1)] (rVals (AddI64 emptyRec (gostr "x") 8))).
Proof.
  apply (QLEvalOutput_correct row [bin QL_ADD (col "id") (int_lit 1)] [gostr "x"]); [unfold rec_wf; cbn; lia| |done].
  apply list.Forall_cons. split; [|by apply list.Forall_nil].
  apply bin_ok; [apply col_ok|apply int_lit_ok|]. vm_compute. set_solver.
Defined.

(** The record of an insert has the names and the values of the statement
    in their order, up to the first value that is not a literal, where [nil] is
    not returned; one literal more than there are names panics. *)
Theorem populateRecord_correct rec vals names :
  populateRecord rec vals names =
  if decide (length (literals vals) <= length names)%nat
  then Ok (mkRec (rCols rec ++ take (length (literals vals)) names) (rVals rec ++ literals vals),
           bool_decide (length (literals vals) = length vals))
  else Crash IndexOutOfRange.
Proof. unfold populateRecord. by rewrite populate_spec by lia. Qed.

(** An insert with one column in parentheses and two values parses, and
    building its record panics: the parser drops the single column, and the
    executor indexes the names by the position of the value. *)
Theorem more_values_than_names_panics :
  exists p' s, PStmt 0 (new_parser (gostr "insert into users (id) values (1, 2);") []) = Ok (p', SInsert (Some s)) /\
    pError p' = None /\ populateRecord emptyRec (insValues s) (insName s) = Crash IndexOutOfRange.
Proof. eexists _, _. split; [by vm_compute|]. split; reflexivity. Qed.
