(* ===== verification/Planner.v ===== *)
(** * engine/planner.go: scans of a statement

    Which index a scan uses and between which bounds, the iterator that applies
    the filter to the rows, and the one that counts them for offset and limit.
    The snapshot is a page store [s] with a root, rows of a secondary index are
    read through the transaction; what an operation changes through a pointer is
    part of its result. *)
From Stdlib Require Import ZArith Lia.
From stdpp Require Import base gmap list strings countable.
From coqutil Require Import Byte Word.LittleEndianList.
From S2P Require Import Prelude Schema SecIndex BNode BTree Iter Db Scanner Lexer Parser Eval.

(** ** Which index *)

Definition MaxValue : Value := mkValue 0 9223372036854775807 [Byte.xff; Byte.xff; Byte.xff; Byte.xff].
Definition MinValue : Value := mkValue 0 (-9223372036854775808 + 1) [Byte.x00; Byte.x00; Byte.x00; Byte.x00].

(** [None] is an error. *)
Definition addValToRecord (valType : Z) (rec : Rec) (col : bytes) (val : Value) : option Rec :=
  if valType =? QL_STR then Some (AddStr rec col (vStr val))
  else if valType =? QL_I64 then Some (AddI64 rec col (vI64 val))
  else None.

(** The loops of [getColsIndex]: over the first columns of the indexes; over the
    indexes as long as they have enough columns; over all indexes, counting the
    columns they have in common with the ones asked for. *)
Fixpoint first_col_index (col : bytes) (i : Z) (indexes : list (list bytes)) : res (option Z) :=
  match indexes with
  | [] => Ok None
  | idx :: indexes =>
      c ← index idx 0;
      if decide (col = c) then Ok (Some i) else first_col_index col (i + 1) indexes
  end.
Fixpoint cols_match (cols idx : list bytes) (j : Z) : res bool :=
  match cols with
  | [] => Ok true
  | col :: cols => c ← index idx j; if decide (col = c) then cols_match cols idx (j + 1) else Ok false
  end.
Fixpoint prefix_index (cols : list bytes) (i : Z) (indexes : list (list bytes)) : res (option Z) :=
  match indexes with
  | [] => Ok None
  | idx :: indexes =>
      if bool_decide (length idx < length cols)%nat then Ok None else
      found ← cols_match cols idx 0;
      if (found : bool) then Ok (Some i) else prefix_index cols (i + 1) indexes
  end.
Definition common_cols (cols idx : list bytes) : nat :=
  foldl (fun count col => foldl (fun count k => if decide (col = k) then S count else count) count idx) 0%nat cols.
Fixpoint count_index (cols : list bytes) (i : Z) (indexes : list (list bytes)) : option Z :=
  match indexes with
  | [] => None
  | idx :: indexes => if decide (common_cols cols idx = length cols) then Some i else count_index cols (i + 1) indexes
  end.
Definition getColsIndex (tdef : TableDef) (cols : list bytes) : res (option Z) :=
  match cols with
  | [] => Ok None
  | [col] => first_col_index col 0 (tIndexes tdef)
  | _ =>
      o ← prefix_index cols 0 (tIndexes tdef);
      match o with
      | Some i => Ok (Some i)
      | None => Ok (count_index cols 0 (tIndexes tdef))
      end
  end.

(** The type of a column: of the last one with this name, 0 for none. *)
Definition scan_col (tdef : TableDef) (col : bytes) (valType : Z) (ic : nat * bytes) : res Z :=
  let '(i, c) := ic in if decide (col = c) then index (tTypes tdef) (Z.of_nat i) else Ok valType.
Definition colType (tdef : TableDef) (col : bytes) : res Z := foldM (scan_col tdef col) 0 (imap pair (tCols tdef)).

(** The names of a tuple of columns; [None] is an error. *)
Fixpoint sym_cols (kids : list QLNode) : option (list bytes) :=
  match kids with
  | [] => Some []
  | kid :: kids =>
      if negb (nType kid =? QL_SYM) then None else
      match sym_cols kids with Some cols => Some (nStr kid :: cols) | None => None end
  end.

(** The smallest and the greatest record of an index; [None] is an error. *)
Definition full_col (tdef : TableDef) (recs : option (Rec * Rec)) (col : bytes) : res (option (Rec * Rec)) :=
  match recs with
  | None => Ok None
  | Some (startRec, endRec) =>
      t ← colType tdef col;
      match addValToRecord t startRec col MinValue, addValToRecord t endRec col MaxValue with
      | Some startRec, Some endRec => Ok (Some (startRec, endRec))
      | _, _ => Ok None
      end
  end.
Definition full_recs (tdef : TableDef) (idx : Z) : res (option (Rec * Rec)) :=
  cols ← index (tIndexes tdef) idx; foldM (full_col tdef) (Some (emptyRec, emptyRec)) cols.

(** The bounds of a scan with one condition, and of one with two conditions, on a column. *)
Definition is_ge (t : Z) : bool := (t =? QL_CMP_GE) || (t =? QL_CMP_GT).
Definition is_le (t : Z) : bool := (t =? QL_CMP_LE) || (t =? QL_CMP_LT).
Definition one_cond (valType : Z) (col : bytes) (key1 : QLNode) : res (option (Rec * Rec * bool * bool)) :=
  kid1 ← index (nKids key1) 1;
  match addValToRecord valType emptyRec col (nVal kid1) with
  | None => Ok None
  | Some startRec =>
      let t := nType key1 in
      let endRec :=
        if is_ge t then addValToRecord valType emptyRec col MaxValue
        else if is_le t then addValToRecord valType emptyRec col MinValue
        else if t =? QL_CMP_EQ then Some startRec else Some emptyRec in
      match endRec with
      | None => Ok None
      | Some endRec =>
          Ok (Some (startRec, endRec, (t =? QL_CMP_GE) || (t =? QL_CMP_LE) || (t =? QL_CMP_EQ), t =? QL_CMP_EQ))
      end
  end.
Definition two_conds (valType : Z) (col : bytes) (key1 key2 : QLNode) : res (option (Rec * Rec * bool * bool)) :=
  k2 ← index (nKids key2) 0;
  let t1 := nType key1 in
  let t2 := nType key2 in
  if is_ge t1 && negb (is_le t2) then Ok None else
  if is_ge t2 && negb (is_le t1) then Ok None else
  if negb (bool_decide (col = nStr k2)) then Ok None else
  if (valType =? QL_STR) || (valType =? QL_I64) then
    v1 ← index (nKids key1) 1;
    v2 ← index (nKids key2) 1;
    let recs :=
      if valType =? QL_STR then (AddStr emptyRec col (nStr v1), AddStr emptyRec (nStr k2) (nStr v2))
      else (AddI64 emptyRec col (vI64 (nVal v1)), AddI64 emptyRec (nStr k2) (vI64 (nVal v2))) in
    Ok (Some (recs, (t1 =? QL_CMP_GE) || (t1 =? QL_CMP_LE), (t2 =? QL_CMP_GE) || (t2 =? QL_CMP_LE)))
  else Ok None.

(** The errors of the iterators. *)
Inductive iter_error := ScanError (e : scan_error) | FilterError.
(** The errors the loops of the filter skip: all but the one whose text is
    [out of range]. *)
Definition skipped (d : Rec + iter_error) : bool :=
  match d with
  | inl _ => false
  | inr (ScanError OutOfRange) => false
  | inr _ => true
  end.
Definition is_error (d : Rec + iter_error) : bool := match d with inl _ => false | inr _ => true end.

Record qlScanIter := mkScanIter { siReq : QLScan; siSc : Scanner; siRec : Rec; siErr : option iter_error }.
Definition newQlScanIter (req : QLScan) (sc : Scanner) : qlScanIter := mkScanIter req sc emptyRec None.
Record qlScanFilter := mkFilter { fIter : qlScanIter; fLimit : Z; fOffset : Z; fIdx : Z }.
Record qlScanSelect := mkScanSelect { ssIter : qlScanFilter; ssSel : QLSelect }.

Section Planner.
Context {S : Type} `{PageStore S} (fuel : nat) (s : S) (root : Z).
Context {T : Type} `{TxOps T} `{JsonVals} `{JsonTable}.

(** ** The scanner of a statement *)

Definition fullRangeIndexScanner (tdef : TableDef) (idx : Z) : res (option Scanner) :=
  recs ← full_recs tdef idx;
  match recs with
  | None => Ok None
  | Some (startRec, endRec) => sc ← NewScanner fuel s root tdef startRec endRec false false idx; Ok (Some sc)
  end.
Definition cols_scanner (tdef : TableDef) (cols : list bytes) : res (option Scanner) :=
  o ← getColsIndex tdef cols;
  match o with None => Ok None | Some idx => fullRangeIndexScanner tdef idx end.
Definition cond_scanner (tdef : TableDef) (key1 : QLNode) (key2 : option QLNode) : res (option Scanner) :=
  kid0 ← index (nKids key1) 0;
  let col := nStr kid0 in
  valType ← colType tdef col;
  o ← getColsIndex tdef [col];
  match o with
  | None => Ok None
  | Some idx =>
      bounds ← match key2 with None => one_cond valType col key1 | Some key2 => two_conds valType col key1 key2 end;
      match bounds with
      | None => Ok None
      | Some (startRec, endRec, key1inc, key2inc) =>
          sc ← NewScanner fuel s root tdef startRec endRec key1inc key2inc idx; Ok (Some sc)
      end
  end.
Definition plan (tdef : TableDef) (req : QLScan) : res (option Scanner) :=
  match sKey1 req, sKey2 req with
  | None, None => fullRangeIndexScanner tdef 0
  | None, Some _ => Crash NilDereference
  | Some key1, key2 =>
      match nKids key1, key2 with
      | [], None => cols_scanner tdef [nStr key1]
      | kids, _ =>
          if nType key1 =? QL_TUP then
            match sym_cols kids with None => Ok None | Some cols => cols_scanner tdef cols end
          else cond_scanner tdef key1 key2
      end
  end.
Definition qlScanInit (tx : T) (req : QLScan) : res (T * option Scanner) :=
  '(tx, tdef) ← GetTableDef tx (sTable req);
  match tdef with
  | None => Ok (tx, None)
  | Some tdef => sc ← plan tdef req; Ok (tx, sc)
  end.

(** ** The rows of a scan *)

Definition siValid (it : qlScanIter) : res bool := scValid root (siSc it).
Definition siNext (it : qlScanIter) : res qlScanIter :=
  sc ← scNext s (siSc it); Ok (mkScanIter (siReq it) sc (siRec it) (siErr it)).
Definition siPrev (it : qlScanIter) : res qlScanIter :=
  sc ← scPrev s (siSc it); Ok (mkScanIter (siReq it) sc (siRec it) (siErr it)).
Definition siDeref (tx : T) (it : qlScanIter) : res (T * qlScanIter * (Rec + iter_error)) :=
  '(tx, d) ← scDeref root tx (siSc it);
  match d with
  | inr e => Ok (tx, mkScanIter (siReq it) (siSc it) (siRec it) (Some (ScanError e)), inr (ScanError e))
  | inl rec =>
      ok ← match sFilter (siReq it) with None => Ok true | Some f => QLEvalRecordBool rec f end;
      if (ok : bool) then Ok (tx, mkScanIter (siReq it) (siSc it) rec None, inl rec)
      else Ok (tx, mkScanIter (siReq it) (siSc it) rec (Some FilterError), inr FilterError)
  end.

(** ** The rows that pass the filter *)

(** The loop [for err != nil && err.Error() != "out of range"]. *)
Fixpoint skip_rows (fuel : nat) (tx : T) (it : qlScanIter) (d : Rec + iter_error) : res (T * qlScanIter) :=
  if skipped d then
    match fuel with
    | O => Crash OutOfFuel
    | Datatypes.S fuel => it ← siNext it; '(tx, it, d) ← siDeref tx it; skip_rows fuel tx it d
    end
  else Ok (tx, it).
Definition set_row (f : qlScanFilter) (it : qlScanIter) (idx : Z) : qlScanFilter := mkFilter it (fLimit f) (fOffset f) idx.
Definition fValid (f : qlScanFilter) : res bool := if fLimit f <=? fIdx f then Ok false else siValid (fIter f).
Definition fNext (tx : T) (f : qlScanFilter) : res (T * qlScanFilter) :=
  let f := set_row f (fIter f) (i64 (fIdx f + 1)) in
  it ← siNext (fIter f);
  '(tx, it, d) ← siDeref tx it;
  '(tx, it) ← skip_rows fuel tx it d;
  Ok (tx, set_row f it (fIdx f)).
Fixpoint fPrev (fuel : nat) (tx : T) (f : qlScanFilter) : res (T * qlScanFilter) :=
  match fuel with
  | O => Crash OutOfFuel
  | Datatypes.S fuel =>
      if 0 <=? fIdx f then
        let f := set_row f (fIter f) (i64 (fIdx f - 1)) in
        it ← siPrev (fIter f);
        '(tx, it, d) ← siDeref tx it;
        prev_rows fuel tx (set_row f it (fIdx f)) d
      else Ok (tx, f)
  end
with prev_rows (fuel : nat) (tx : T) (f : qlScanFilter) (d : Rec + iter_error) : res (T * qlScanFilter) :=
  match fuel with
  | O => Crash OutOfFuel
  | Datatypes.S fuel =>
      if is_error d then
        '(tx, f) ← fPrev fuel tx f;
        '(tx, it, d) ← siDeref tx (fIter f);
        prev_rows fuel tx (set_row f it (fIdx f)) d
      else Ok (tx, f)
  end.
(** The record and the error that the iterator keeps. *)
Definition fDeref (tx : T) (f : qlScanFilter) : res (T * qlScanFilter * (Rec + iter_error)) :=
  '(tx, it, _) ← siDeref tx (fIter f);
  Ok (tx, set_row f it (fIdx f), match siErr it with None => inl (siRec it) | Some e => inr e end).

(** The loop over the offset. *)
Fixpoint skip_offset (fuel : nat) (tx : T) (f : qlScanFilter) : res (T * qlScanFilter) :=
  if fIdx f =? fOffset f then Ok (tx, f) else
  match fuel with
  | O => Crash OutOfFuel
  | Datatypes.S fuel => '(tx, f) ← fNext tx f; skip_offset fuel tx f
  end.
(** [None] is an error. *)
Definition newQlScanFilter (tx : T) (req : QLScan) : res (T * option qlScanFilter) :=
  '(tx, sc) ← qlScanInit tx req;
  match sc with
  | None => Ok (tx, None)
  | Some sc =>
      let filter := mkFilter (newQlScanIter req sc) (sLimit req) (sOffset req) 0 in
      '(tx, filter) ← skip_offset fuel tx filter;
      '(tx, it, d) ← siDeref tx (fIter filter);
      '(tx, it) ← skip_rows fuel tx it d;
      Ok (tx, Some (set_row filter it (fIdx filter)))
  end.

(** ** Select *)

Definition qlSelect (tx : T) (sel : QLSelect) : res (T * option qlScanSelect) :=
  '(tx, f) ← newQlScanFilter tx (selScan sel);
  Ok (tx, match f with Some f => Some (mkScanSelect f sel) | None => None end).
Definition ssNext (tx : T) (sc : qlScanSelect) : res (T * qlScanSelect) :=
  '(tx, f) ← fNext tx (ssIter sc); Ok (tx, mkScanSelect f (ssSel sc)).
Definition ssPrev (tx : T) (sc : qlScanSelect) : res (T * qlScanSelect) :=
  '(tx, f) ← fPrev fuel tx (ssIter sc); Ok (tx, mkScanSelect f (ssSel sc)).
Definition ssValid (sc : qlScanSelect) : res bool := fValid (ssIter sc).
(** [None] is an error. *)
Definition ssDeref (tx : T) (sc : qlScanSelect) : res (T * qlScanSelect * option Rec) :=
  '(tx, f, d) ← fDeref tx (ssIter sc);
  let sc := mkScanSelect f (ssSel sc) in
  match d with
  | inr _ => Ok (tx, sc, None)
  | inl rec => out ← QLEvalOutput rec (selOutput (ssSel sc)) (selName (ssSel sc)); Ok (tx, sc, out)
  end.
End Planner.

(** ** Conditions on an index of several columns *)

Lemma one_cond_start valType col key1 rec1 rec2 inc1 inc2 : one_cond valType col key1 = Ok (Some (rec1, rec2, inc1, inc2)) -> exists v, rec1 = mkRec [col] [v].
Proof.
  unfold one_cond. destruct (index (nKids key1) 1) as [kid|]; [|done]. cbn [mbind res_bind]. unfold addValToRecord at 1.
  intros E. destruct (valType =? QL_STR); [|destruct (valType =? QL_I64); [|done]];
    (destruct (if is_ge _ then _ else _); [|done]); injection E as <- _ _ _; by eexists.
Qed.
(** A condition on the first column of an index that has a second one finds this
    index, and looks up the second column in a record that does not have it. *)
Lemma partial_index_panics {S} `{PageStore S} fuel (s : S) root tdef key1 kid0 idx c2 cs valType rec1 rec2 inc1 inc2 :
  index (nKids key1) 0 = Ok kid0 -> colType tdef (nStr kid0) = Ok valType -> getColsIndex tdef [nStr kid0] = Ok (Some idx) -> idx <> 0 ->
  index (tIndexes tdef) idx = Ok (nStr kid0 :: c2 :: cs) -> c2 <> nStr kid0 -> one_cond valType (nStr kid0) key1 = Ok (Some (rec1, rec2, inc1, inc2)) ->
  cond_scanner fuel s root tdef key1 None = Crash NilDereference.
Proof.
  intros Ek Ev Eg Hi Ex Hc E. destruct (one_cond_start _ _ _ _ _ _ _ E) as [v ->]. unfold cond_scanner. rstep Ek. rstep Ev. rstep Eg. rstep E.
  assert (Eb : bound_key tdef (mkRec [nStr kid0] [v]) idx = Crash NilDereference); [|by unfold NewScanner, scan_bounds; rewrite Eb].
  unfold bound_key. rewrite (proj2 (Z.eqb_neq _ _) Hi). rstep Ex. cbn [foldM bound_col]. unfold Get, GetIdx. cbn [rCols rVals find_col].
  unfold bound_col, Get, GetIdx. cbn [rCols rVals find_col]. rewrite (decide_True (P := nStr kid0 = nStr kid0)), (decide_False (P := nStr kid0 = c2)) by congruence.
  done.
Qed.
