(* ===== verification/Exec.v ===== *)
(** * engine/executor.go: statements

    The statements of the language over the tables of a transaction, and
    [ExecuteQuery], which parses a query and runs it in a transaction of its
    own.  Reads and writes go to the transaction, scans to the snapshot: the
    database when the transaction began. *)
From Stdlib Require Import ZArith Lia.
From stdpp Require Import base gmap list strings countable.
From coqutil Require Import Byte Word.LittleEndianList.
From S2P Require Import Prelude Schema SecIndex BNode Disk BTree Iter KVStore Tx Db TxTable Scanner Lexer Parser Eval Planner.

(** The result of a statement: [nil], the rows of a select, or a count. *)
Inductive StmtResult := RNil | RRecords (rs : list Rec) | RCount (count : Z).

Section Statements.
Context {S : Type} `{PageStore S} (fuel : nat) (s : S) (root : Z).
Context {T : Type} `{TxOps T} `{JsonVals} `{JsonTable}.
(** What the capacity of the values of a record built by [append] has beyond
    their number. *)
Context (spare : nat).

(** [false] is an error. *)
Definition qlCreateTable (tx : T) (req : QLCreateTable) : res (T * bool) :=
  '(tx, _, ok) ← TableNew tx (crDef req); Ok (tx, ok).
Definition qlInsert (tx : T) (req : QLInsert) : res (T * bool) :=
  '(rec, ok) ← populateRecord emptyRec (insValues req) (insName req);
  if negb ok then Ok (tx, false) else
  '(tx, _, ok) ← DBInsert spare tx (insTable req) rec; Ok (tx, ok).
Definition qlUpsert (tx : T) (req : QLInsert) : res (T * bool) :=
  '(rec, ok) ← populateRecord emptyRec (insValues req) (insName req);
  if negb ok then Ok (tx, false) else
  '(tx, _, ok) ← DBUpsert spare tx (insTable req) rec; Ok (tx, ok).

(** The loop of a select; [None] is an error. *)
Fixpoint select_rows (fuel' : nat) (tx : T) (sc : qlScanSelect) (resArr : list Rec) : res (T * option (list Rec)) :=
  ok ← ssValid root sc;
  if negb ok then Ok (tx, Some resArr) else
  match fuel' with
  | O => Crash OutOfFuel
  | Datatypes.S fuel' =>
      '(tx, sc, rec) ← ssDeref root tx sc;
      match rec with
      | None => Ok (tx, None)
      | Some rec => '(tx, sc) ← ssNext fuel s root tx sc; select_rows fuel' tx sc (resArr ++ [rec])
      end
  end.

(** The count so far, and whether there was no error. *)
Fixpoint delete_rows (fuel' : nat) (tx : T) (table : bytes) (f : qlScanFilter) (count : Z) : res (T * Z * bool) :=
  ok ← fValid root f;
  if negb ok then Ok (tx, count, true) else
  match fuel' with
  | O => Crash OutOfFuel
  | Datatypes.S fuel' =>
      '(tx, f, d) ← fDeref root tx f;
      match d with
      | inr _ => Ok (tx, count, false)
      | inl rec =>
          '(tx, ok) ← DBDelete tx table rec;
          if negb ok then Ok (tx, count, false) else
          '(tx, f) ← fNext fuel s root tx f;
          delete_rows fuel' tx table f (i64 (count + 1))
      end
  end.
Definition qlDelete (tx : T) (req : QLDelete) : res (T * Z * bool) :=
  '(tx, f) ← newQlScanFilter fuel s root tx (delScan req);
  match f with
  | None => Ok (tx, 0, false)
  | Some f => delete_rows fuel tx (sTable (delScan req)) f 0
  end.

(** The columns an update does not name keep their values. *)
Definition keep_col (req : list bytes * list QLNode) (col : bytes) : list bytes * list QLNode :=
  let '(name, values) := req in
  if decide (col ∈ name) then (name, values)
  else (name ++ [col], values ++ [mkNode (mkValue QL_SYM 0 col) []]).
(** The loop that puts the columns in the order of the table; [None] is an error. *)
Definition reorder_col (tdef : TableDef) (newrec : Rec) (out : option Rec) (ic : nat * bytes) : res (option Rec) :=
  match out with
  | None => Ok None
  | Some out =>
      let '(i, col) := ic in
      t ← index (tTypes tdef) (Z.of_nat i);
      if t =? TYPE_INT64 then v ← Get newrec col; v ← deref v; Ok (Some (AddI64 out col (vI64 v)))
      else if t =? TYPE_BYTES then v ← Get newrec col; v ← deref v; Ok (Some (AddStr out col (vStr v)))
      else Ok None
  end.
Definition reorder (tdef : TableDef) (newrec : Rec) : res (option Rec) :=
  foldM (reorder_col tdef newrec) (Some emptyRec) (imap pair (tCols tdef)).
Fixpoint update_rows (fuel' : nat) (tx : T) (table : bytes) (tdef : TableDef) (name : list bytes) (values : list QLNode)
    (f : qlScanFilter) : res (T * bool) :=
  ok ← fValid root f;
  if negb ok then Ok (tx, true) else
  match fuel' with
  | O => Crash OutOfFuel
  | Datatypes.S fuel' =>
      '(tx, f, d) ← fDeref root tx f;
      match d with
      | inr _ => Ok (tx, false)
      | inl rec =>
          newrec ← QLEvalOutput rec values name;
          match newrec with
          | None => Ok (tx, false)
          | Some newrec =>
              reorderedRec ← reorder tdef newrec;
              match reorderedRec with
              | None => Ok (tx, false)
              | Some reorderedRec =>
                  '(tx, _, ok) ← DBUpdate tx table reorderedRec;
                  if negb ok then Ok (tx, false) else
                  '(tx, f) ← fNext fuel s root tx f;
                  update_rows fuel' tx table tdef name values f
              end
          end
      end
  end.
Definition qlUpdate (tx : T) (req : QLUpdate) : res (T * bool) :=
  '(tx, f) ← newQlScanFilter fuel s root tx (updScan req);
  match f with
  | None => Ok (tx, false)
  | Some f =>
      '(tx, tdef) ← GetTableDef tx (sTable (updScan req));
      match tdef with
      | None => Ok (tx, false)
      | Some tdef =>
          let '(name, values) := foldl keep_col (updName req, updValues req) (tCols tdef) in
          update_rows fuel tx (sTable (updScan req)) tdef name values f
      end
  end.

(** [None] is an error, with which the result is [nil]; the methods of a [nil]
    statement panic. *)
Definition done_if (r : StmtResult) (st : T * bool) : T * option StmtResult :=
  let '(tx, ok) := st in (tx, if (ok : bool) then Some r else None).
Definition qlStmt (tx : T) (stmt : QLStmt) : res (T * option StmtResult) :=
  match stmt with
  | SCreateTable req => req ← deref req; st ← qlCreateTable tx req; Ok (done_if RNil st)
  | SSelect req =>
      req ← deref req;
      '(tx, sc) ← qlSelect fuel s root tx req;
      match sc with
      | None => Ok (tx, None)
      | Some sc =>
          '(tx, rs) ← select_rows fuel tx sc [];
          Ok (tx, match rs with Some rs => Some (RRecords rs) | None => None end)
      end
  | SUpdate req => req ← deref req; st ← qlUpdate tx req; Ok (done_if RNil st)
  | SInsert req =>
      req ← deref req;
      st ← (if insIsUpsert req then qlUpsert tx req else qlInsert tx req); Ok (done_if RNil st)
  | SDelete req =>
      req ← deref req; '(tx, count, ok) ← qlDelete tx req; Ok (done_if (RCount count) (tx, ok))
  | SNil => Ok (tx, None)
  end.
End Statements.

(** ** Queries *)

(** What the run time and the system choose: the orders of the maps a commit
    goes through, the results of the system calls, and the capacities of slices. *)
Record Env := mkEnv {
  eWrites : KVTX -> list bytes; eDeletes : KVTX -> list bytes; ePages : KV -> list (Z * bytes);
  eFaults : list bool; eSpare : nat; eInput : bytes
}.
Section Query.
Context `{JsonVals} `{JsonTable} (fuel : nat) (env : Env).

(** The database, the result and whether there was no error. *)
Definition ExecuteQuery (query : bytes) (db : KV) : res (KV * StmtResult * bool) :=
  let tx := NewKVTX in
  '(p, stmt) ← PStmt fuel (new_parser query (eInput env));
  match stmt with
  | SNil => Ok (db, RNil, false)
  | _ =>
      tx ← Begin db tx;
      '(tx, r) ← @qlStmt KV kv_store fuel db (tSnapshot tx) KVTX (kvtx_ops fuel db) _ _ (eSpare env) tx stmt;
      match r with
      | None => db ← Abort db (tMeta tx); Ok (db, RNil, false)
      | Some r =>
          '(db, ok) ← TXCommit fuel (eWrites env tx) (eDeletes env tx) (eFaults env) (ePages env) db tx;
          Ok (db, r, ok)
      end
  end.
End Query.
