(* ===== verification/Select.v ===== *)
(** * The iterators of a statement

    The iterator of a scan goes through the rows between the bounds of its
    scanner that pass the filter; an offset leaves out the first ones, and the
    limit is a position in the list. *)
From Stdlib Require Import ZArith Lia Sorted.
From stdpp Require Import base gmap list strings countable sorting.
From coqutil Require Import Byte Word.LittleEndianList.
From S2P Require Import Prelude KVList Schema SecIndex BNode BTree TreeRep TreeGet TreeRoot TreeSpec TreeMap Iter Cursor Db Scanner Range Lexer Parser Eval Planner.

Section Filter.
Context {St pages} `{PageLaws St pages}.
Context (n : nat) (s : St) (M : gmap Z bytes) (Hpages : pages n s M) (root : Z) (L : kvl) (HL : kv_sorted L).
Context {T : Type} `{TxOps T} `{JsonVals}.
(** The rows of the scan, each with its entry in the index and its record, and
    whether it passes the filter. *)
Context (fuel : nat) (req : QLScan) {E : Type} (ent : E -> bytes * bytes) (rec_of : E -> Rec) (pass : E -> bool).
(** The transactions in which a row can be read, which reading it changes. *)
Context (R : T -> T -> Prop) `{!PreOrder R} (has : T -> E -> Prop) (Hhas : forall tx tx' x, R tx tx' -> has tx x -> has tx' x).

(** An entry that leads to its row, on which the filter does not panic. *)
Record readable_row (tdef : TableDef) (idx : Z) (x : E) : Prop := {
  rr_row (tx : T) : has tx x -> exists tx', kvToRecord tx tdef (ent x).1 (ent x).2 idx = Ok (tx', Some (rec_of x)) /\ R tx tx';
  rr_filter : match sFilter req with None => Ok true | Some f => QLEvalRecordBool (rec_of x) f end = Ok (pass x)
}.
(** The iterator has the rows [es] before it. *)
Record si_at (it : qlScanIter) (es : list E) : Prop := {
  sa_req : siReq it = req;
  sa_stands : stands M root L (siSc it) (map ent es);
  sa_rows : Forall (readable_row (scTdef (siSc it)) (scIndex (siSc it))) es
}.
Definition row_result (es : list E) : Rec + iter_error :=
  match es with
  | [] => inr (ScanError OutOfRange)
  | x :: _ => if pass x then inl (rec_of x) else inr FilterError
  end.
Lemma has_all tx tx' es : R tx tx' -> Forall (has tx) es -> Forall (has tx') es.
Proof. intros HR HF. eapply list.Forall_impl; [exact HF|]. intros x. by apply Hhas. Qed.

Lemma si_deref tx it es : si_at it es -> Forall (has tx) es -> exists tx' it', siDeref root tx it = Ok (tx', it', row_result es) /\ R tx tx' /\ si_at it' es /\
  match es with x :: _ => if pass x then siErr it' = None /\ siRec it' = rec_of x else True | [] => True end.
Proof.
  intros [Hq Hst HF] HH. unfold siDeref, scDeref. pose proof (stands_valid M root L HL _ _ Hst) as EV. rstep EV. destruct es as [|x es]; cbn [row_result map].
  - cbn [negb mbind res_bind bool_decide decide]. rewrite bool_decide_eq_false_2 by (intros Hx; by apply Hx). by eexists _, _.
  - rewrite bool_decide_eq_true_2 by done. rstep (stands_deref M root L HL _ _ _ Hst). apply list.Forall_cons in HH as [Hx _].
    pose proof HF as [[Hr Hf] HF']%list.Forall_cons. destruct (Hr tx Hx) as (tx' & Er & HR). cbn [default from_option negb id].
    destruct (ent x) as [k v] eqn:Ex. cbn [fst snd] in Er. rstep Er. rewrite Hq, Hf. cbn [mbind res_bind].
    destruct (pass x); eexists _, _; (split; [reflexivity|]); (split; [exact HR|]); (split; [by split|done]).
Qed.
Lemma si_valid it es : si_at it es -> siValid root it = Ok (bool_decide (es <> [])).
Proof.
  intros [_ Hst _]. unfold siValid. rewrite (stands_valid M root L HL _ _ Hst). do 2 f_equal. apply bool_decide_ext. by destruct es.
Qed.
Lemma si_next it x es : si_at it (x :: es) -> exists it', siNext s it = Ok it' /\ si_at it' es.
Proof.
  intros [Hq Hst HF]. destruct (stands_next n s M Hpages root L HL _ _ _ Hst) as (it' & EN & Hst').
  unfold siNext, scNext. rstep EN. eexists. split; [reflexivity|]. apply list.Forall_cons in HF as [_ HF]. by split.
Qed.

(** ** The loop over the rows that do not pass *)

Fixpoint advance (es : list E) : list E :=
  match es with [] => [] | x :: es' => if pass x then es else advance es' end.
Lemma advance_filter es : filter (fun x => pass x = true) (advance es) = filter (fun x => pass x = true) es.
Proof.
  induction es as [|x es IH]; [done|]. cbn [advance]. destruct (pass x) eqn:Ex; [done|]. by rewrite filter_cons_False by (by rewrite Ex).
Qed.
Lemma advance_head es : advance es = [] \/ exists x es', advance es = x :: es' /\ pass x = true.
Proof. induction es as [|x es IH]; [by left|]. cbn [advance]. destruct (pass x) eqn:Ex; [right; by exists x, es|done]. Qed.
Lemma advance_cons es x es' : filter (fun x => pass x = true) es = x :: es' ->
  exists rest, advance es = x :: rest /\ filter (fun x => pass x = true) rest = es'.
Proof.
  rewrite <- advance_filter. destruct (advance_head es) as [->|(y & rest & -> & Hp)]; [done|]. rewrite filter_cons_True by done.
  intros [= -> <-]. by exists rest.
Qed.
Lemma advance_length es : (length (advance es) <= length es)%nat.
Proof. induction es as [|x es IH]; [done|]. cbn [advance]. destruct (pass x); cbn [length]; lia. Qed.

Lemma advance_all (P : E -> Prop) es : Forall P es -> Forall P (advance es).
Proof. induction 1 as [|x es Hx HF IH]; [constructor|]. cbn [advance]. destruct (pass x); [by constructor|done]. Qed.

Lemma skip_rows_spec : forall es tx it, si_at it es -> Forall (has tx) es -> (length es < fuel)%nat -> forall fl, (length es <= fl)%nat ->
  exists tx' it', skip_rows s root fl tx it (row_result es) = Ok (tx', it') /\ R tx tx' /\ si_at it' (advance es).
Proof.
  induction es as [|x es IH]; intros tx it Hat HH Hf fl Hfl; [destruct fl; by exists tx, it|]. cbn [advance row_result].
  destruct (pass x) eqn:Ep; [destruct fl; by exists tx, it|]. destruct fl as [|fl]; [cbn in Hfl; lia|]. cbn [skip_rows skipped].
  destruct (si_next it x es Hat) as (it1 & E1 & Hat1). rstep E1. apply list.Forall_cons in HH as [_ HH].
  destruct (si_deref tx it1 es Hat1 HH) as (tx2 & it2 & E2 & HR2 & Hat2 & _). rstep E2.
  destruct (IH tx2 it2 Hat2 (has_all _ _ _ HR2 HH)) with (fl := fl) as (tx3 & it3 & E3 & HR3 & Hat3); [cbn in *; lia..|].
  exists tx3, it3. split; [exact E3|]. split; [by etransitivity|done].
Qed.

(** ** The iterator of a statement *)

Abbreviation kept es := (filter (fun x => pass x = true) es).
(** It stands at the first of the rows [rs] that pass, and all rows before it
    can be read. *)
Definition f_at (tx : T) (f : qlScanFilter) (rs : list E) : Prop :=
  exists es, si_at (fIter f) es /\ advance es = es /\ kept es = rs /\ (length es <= fuel)%nat /\ Forall (has tx) es /\ NoDup es.
(** It stands at [x], which need not be readable any more. *)
Definition f_behind (tx : T) (f : qlScanFilter) (x : E) (rs : list E) : Prop :=
  exists es, si_at (fIter f) (x :: es) /\ pass x = true /\ kept es = rs /\ (length es < fuel)%nat /\ Forall (has tx) es /\ NoDup (x :: es).
Lemma f_behind_change tx tx' f x rs : f_behind tx f x rs -> (forall y, y <> x -> has tx y -> has tx' y) -> f_behind tx' f x rs.
Proof.
  intros (es & Hat & Hp & Hk & Hf & HH & Hnd) HC. exists es. do 4 (split; [done|]). split; [|done]. apply list.NoDup_cons in Hnd as [Hx _].
  rewrite list.Forall_forall in HH. apply list.Forall_forall. intros y Hy. apply HC; [by intros ->|by apply HH].
Qed.
Lemma f_at_change tx tx' f rs : f_at tx f rs -> (forall x, has tx x -> has tx' x) -> f_at tx' f rs.
Proof.
  intros (es & Hat & Ha & Hk & Hf & HH & Hnd) HC. exists es. do 4 (split; [done|]). split; [|done]. eapply list.Forall_impl; [exact HH|exact HC].
Qed.
Lemma advance_nodup es : NoDup es -> NoDup (advance es).
Proof. induction 1 as [|x es Hx HF IH]; [constructor|]. cbn [advance]. destruct (pass x); [by constructor|done]. Qed.
Lemma advance_idem es : advance (advance es) = advance es.
Proof. destruct (advance_head es) as [->|(x & es' & -> & Hp)]; [done|]. cbn [advance]. by rewrite Hp. Qed.
Lemma f_at_advance tx f es : si_at (fIter f) (advance es) -> (length es < fuel)%nat -> Forall (has tx) es -> NoDup es -> f_at tx f (kept es).
Proof.
  intros Hat Hf HH Hnd. exists (advance es). split; [done|]. split; [apply advance_idem|]. split; [apply advance_filter|].
  pose proof (advance_length es). split; [lia|]. split; [by apply advance_all|by apply advance_nodup].
Qed.
Lemma f_at_cons tx f x rs : f_at tx f (x :: rs) -> f_behind tx f x rs /\ has tx x.
Proof.
  intros (es & Hat & Ha & Hk & Hf & HH & Hnd). destruct (advance_cons es x rs Hk) as (rest & E1 & Er). rewrite Ha in E1. subst es.
  apply list.Forall_cons in HH as [Hx HH]. split; [|done]. exists rest. split; [done|].
  split; [|split; [done|split; [cbn in Hf; lia|done]]]. destruct (advance_head (x :: rest)) as [E1|(y & es' & E1 & Hp)]; rewrite Ha in E1; [done|].
  by injection E1 as <- _.
Qed.

Lemma f_valid tx f rs : f_at tx f rs -> fValid root f = Ok ((fIdx f <? fLimit f) && bool_decide (rs <> [])).
Proof.
  intros (es & Hat & Ha & Hk & _). unfold fValid. destruct (Z.leb_spec (fLimit f) (fIdx f)); [by rewrite (proj2 (Z.ltb_ge _ _))|].
  rewrite (proj2 (Z.ltb_lt _ _)), (si_valid _ _ Hat) by done. cbn [andb]. do 2 f_equal. apply bool_decide_ext. rewrite <- Hk.
  destruct (advance_head es) as [E1|(x & es' & E1 & Hp)]; rewrite Ha in E1; rewrite E1; [done|]. by rewrite filter_cons_True.
Qed.
Lemma f_deref tx f x rs : f_at tx f (x :: rs) -> exists tx' f', fDeref root tx f = Ok (tx', f', inl (rec_of x)) /\ R tx tx' /\ f_behind tx' f' x rs /\
  fIdx f' = fIdx f /\ fLimit f' = fLimit f.
Proof.
  intros [(es & Hat & Hp & Hk & Hf & HH & Hnd) Hx]%f_at_cons.
  destruct (si_deref tx _ _ Hat) as (tx' & it & E1 & HR & Hat' & Hrec); [by constructor|]. cbn [row_result] in *. rewrite Hp in *.
  destruct Hrec as [He Hr]. unfold fDeref. rstep E1. rewrite He, Hr. eexists _, _. split; [done|]. split; [exact HR|]. split; [|done].
  exists es. do 4 (split; [done|]). split; [by eapply has_all|done].
Qed.
Lemma f_move tx f x es : si_at (fIter f) (x :: es) -> Forall (has tx) es -> (length es < fuel)%nat -> in_i64 (fIdx f + 1) ->
  exists tx' f', fNext fuel s root tx f = Ok (tx', f') /\ R tx tx' /\ si_at (fIter f') (advance es) /\ fIdx f' = fIdx f + 1 /\ fLimit f' = fLimit f /\ fOffset f' = fOffset f.
Proof.
  intros Hat HH Hf Hi. destruct (si_next _ _ _ Hat) as (it1 & E1 & Hat1). unfold fNext. cbn [set_row fIter fIdx]. rstep E1.
  destruct (si_deref tx it1 es Hat1 HH) as (tx2 & it2 & E2 & HR2 & Hat2 & _). rstep E2.
  destruct (skip_rows_spec es tx2 it2 Hat2 (has_all _ _ _ HR2 HH) Hf fuel ltac:(lia)) as (tx3 & it3 & E3 & HR3 & Hat3). rstep E3. eexists _, _.
  split; [done|]. split; [by etransitivity|]. split; [done|]. by rewrite i64_small.
Qed.
Lemma f_next tx f x rs : f_behind tx f x rs -> in_i64 (fIdx f + 1) ->
  exists tx' f', fNext fuel s root tx f = Ok (tx', f') /\ R tx tx' /\ f_at tx' f' rs /\ fIdx f' = fIdx f + 1 /\ fLimit f' = fLimit f.
Proof.
  intros (es & Hat & Hp & <- & Hf & HH & Hnd) Hi. apply list.NoDup_cons in Hnd as [_ Hnd]. destruct (f_move tx f x es Hat HH Hf Hi) as (tx' & f' & E1 & HR & Hat' & H').
  exists tx', f'. split; [done|]. split; [done|]. split; [apply f_at_advance; [done| |by eapply has_all|]; done|]. tauto.
Qed.

(** What an offset of [k] leaves out: with a first row that does not pass, one
    row less. *)
Definition left_out (k : nat) (es : list E) : nat :=
  match k, es with S k, x :: _ => if pass x then S k else k | _, _ => k end.
Lemma offset_spec k : forall fl tx f es, si_at (fIter f) es -> Forall (has tx) es -> NoDup es -> (length es < fuel)%nat -> (k <= length (kept es))%nat -> (k <= fl)%nat ->
  fOffset f = fIdx f + Z.of_nat k -> 0 <= fIdx f -> in_i64 (fOffset f) ->
  exists tx' f' es', skip_offset fuel s root fl tx f = Ok (tx', f') /\ R tx tx' /\ si_at (fIter f') es' /\ Forall (has tx') es' /\ NoDup es' /\
    kept es' = drop (left_out k es) (kept es) /\ (length es' < fuel)%nat /\ fIdx f' = fOffset f /\ fLimit f' = fLimit f.
Proof.
  induction k as [|k IH]; intros fl tx f es Hat HH Hnd Hf Hk Hfl Ho Hi Hi64.
  { exists tx, f, es. rewrite Z.add_0_r in Ho. destruct fl; cbn [skip_offset]; rewrite (proj2 (Z.eqb_eq _ _)) by done; by rewrite Ho. }
  destruct fl as [|fl]; [lia|]. cbn [skip_offset]. rewrite (proj2 (Z.eqb_neq _ _)) by lia.
  destruct es as [|x es]; [cbn in Hk; lia|]. cbn [length] in Hf. apply list.Forall_cons in HH as [_ HH]. apply list.NoDup_cons in Hnd as [_ Hnd].
  destruct (f_move tx f x es Hat HH ltac:(lia)) as (tx1 & f1 & E1 & HR1 & Hat1 & Hi1 & Hl1 & Ho1); [unfold in_i64 in *; lia|]. rstep E1.
  assert (Hk' : (k <= length (kept (advance es)))%nat).
  { rewrite advance_filter. destruct (decide (pass x = true)); [rewrite filter_cons_True in Hk by done; cbn in Hk; lia|].
    rewrite filter_cons_False in Hk by done. lia. }
  pose proof (advance_length es) as Hal. pose proof (advance_all _ _ (has_all _ _ _ HR1 HH)) as HH1.
  destruct (IH fl tx1 f1 (advance es) Hat1 HH1 (advance_nodup es Hnd) ltac:(lia) Hk' ltac:(lia) ltac:(lia) ltac:(lia) ltac:(by rewrite Ho1))
    as (tx2 & f2 & es2 & E2 & HR2 & Hat2 & HH2 & Hnd2 & Hd2 & Hf2 & Hi2 & Hl2).
  exists tx2, f2, es2. split; [exact E2|]. split; [by etransitivity|]. do 3 (split; [done|]). split; [|by rewrite Hi2, Hl2].
  assert (Ek : left_out k (advance es) = k).
  { destruct k; [done|]. cbn [left_out]. destruct (advance_head es) as [->|(y & es' & -> & ->)]; done. }
  rewrite Hd2, advance_filter, Ek. cbn [left_out]. destruct (pass x) eqn:Ep; [by rewrite filter_cons_True|by rewrite filter_cons_False by by rewrite Ep].
Qed.

Context `{JsonTable}.
Lemma filter_started tx tx' sc es : qlScanInit fuel s root tx req = Ok (tx', Some sc) -> stands M root L sc (map ent es) ->
  Forall (readable_row (scTdef sc) (scIndex sc)) es -> Forall (has tx') es -> NoDup es -> (length es < fuel)%nat ->
  0 <= sOffset req <= Z.of_nat (length (kept es)) -> Z.of_nat fuel < 9223372036854775808 ->
  exists tx'' f, newQlScanFilter fuel s root tx req = Ok (tx'', Some f) /\ R tx' tx'' /\ f_at tx'' f (drop (left_out (Z.to_nat (sOffset req)) es) (kept es)) /\
    fIdx f = sOffset req /\ fLimit f = sLimit req.
Proof.
  intros E0 Hst HF HH Hnd Hf Ho Hf64. unfold newQlScanFilter. rstep E0. pose proof (length_filter (fun x => pass x = true) es) as Hlen.
  destruct (offset_spec (Z.to_nat (sOffset req)) fuel tx' (mkFilter (newQlScanIter req sc) (sLimit req) (sOffset req) 0) es)
    as (tx1 & f & es' & E1 & HR1 & Hat & HH1 & Hnd1 & Hk & Hf' & Hi' & Hl'); [by split|done|done|done|lia|lia|cbn; lia|done|cbn; unfold in_i64; lia|]. rstep E1.
  destruct (si_deref tx1 _ _ Hat HH1) as (tx2 & it1 & E2 & HR2 & Hat1 & _). rstep E2. pose proof (has_all _ _ _ HR2 HH1) as HH2.
  destruct (skip_rows_spec es' tx2 it1 Hat1 HH2 Hf' fuel ltac:(lia)) as (tx3 & it2 & E3 & HR3 & Hat2). rstep E3. pose proof (has_all _ _ _ HR3 HH2) as HH3.
  eexists _, _. split; [done|]. split; [etransitivity; [exact HR1|by etransitivity]|]. split; [|done]. rewrite <- Hk. by apply f_at_advance.
Qed.
End Filter.
