(* ===== verification/IndexKeys.v ===== *)
(** * Keys of an index, and bounds between them

    A scan on an index goes from one tuple of values of its columns to another,
    each included or excluded.  In the primary index these values are the key; in
    another one the primary key follows them, and the bounds get one more byte,
    which is to put them before or after all keys with the same values: it is the
    smallest or the greatest byte, and the primary keys that begin with the greatest
    byte come after it. *)
From Stdlib Require Import ZArith Lia Sorted.
From stdpp Require Import base gmap list strings countable sorting.
From coqutil Require Import Byte Word.LittleEndianList.
From S2P Require Import Prelude KVList Schema SecIndex TreeRoot Db Tables Scanner Range Lexer Parser Eval Planner.

(** ** Bounds *)

Definition key_type (t : Z) : Prop := t = TYPE_BYTES \/ t = TYPE_INT64.
Definition min_val (t : Z) : Value := if decide (t = TYPE_BYTES) then BytesVal (vStr MinValue) else IntVal (vI64 MinValue).
Definition max_val (t : Z) : Value := if decide (t = TYPE_BYTES) then BytesVal (vStr MaxValue) else IntVal (vI64 MaxValue).
Lemma min_val_wf t : key_type t -> wf_key_val t (min_val t).
Proof. intros [->| ->]; [apply wf_bytes|apply wf_int; [unfold in_i64; cbn; lia|done]]. Qed.
Lemma max_val_wf t : key_type t -> wf_key_val t (max_val t).
Proof. intros [->| ->]; [apply wf_bytes|apply wf_int; [unfold in_i64; cbn; lia|done]]. Qed.
Lemma Forall2_map_wf (f : Z -> Value) ts : (forall t, key_type t -> wf_key_val t (f t)) -> Forall key_type ts -> Forall2 wf_key_val ts (map f ts).
Proof. intros Hf. induction 1; constructor; auto. Qed.
Lemma addVal_min t rec col : key_type t -> addValToRecord t rec col MinValue = Some (mkRec (rCols rec ++ [col]) (rVals rec ++ [min_val t])).
Proof. by intros [->| ->]. Qed.
Lemma addVal_max t rec col : key_type t -> addValToRecord t rec col MaxValue = Some (mkRec (rCols rec ++ [col]) (rVals rec ++ [max_val t])).
Proof. by intros [->| ->]. Qed.

(** ** The type of a column *)

Lemma scan_col_none tdef col cols : forall k v, col ∉ cols -> foldM (scan_col tdef col) v (imap (fun i c => ((k + i)%nat, c)) cols) = Ok v.
Proof.
  induction cols as [|c cols IH]; intros k v Hn; [done|]. apply not_elem_of_cons in Hn as [Hc Hn]. rewrite imap_cons. cbn [foldM scan_col].
  rewrite decide_False by done. cbn [mbind res_bind]. rewrite <- (IH (S k) v Hn). f_equal. apply imap_ext. intros i x _. cbn. f_equal. lia.
Qed.
Lemma scan_col_at tdef col t cols : forall k v i, NoDup cols -> cols !! i = Some col -> tTypes tdef !! (k + i)%nat = Some t ->
  foldM (scan_col tdef col) v (imap (fun i c => ((k + i)%nat, c)) cols) = Ok t.
Proof.
  induction cols as [|c cols IH]; intros k v i Hnd Hi Ht; [done|]. apply list.NoDup_cons in Hnd as [Hc Hnd]. rewrite imap_cons. cbn [foldM scan_col].
  assert (Ei : imap ((fun (i : nat) (c : bytes) => ((k + i)%nat, c)) ∘ S) cols = imap (fun i c => ((S k + i)%nat, c)) cols).
  { apply imap_ext. intros j x _. cbn. f_equal. lia. }
  rewrite Ei. destruct i as [|i].
  - injection Hi as ->. rewrite decide_True by done. rstep (index_Ok _ _ _ Ht). by apply scan_col_none.
  - cbn in Hi. rewrite decide_False by (intros ->; apply Hc; by eapply list_elem_of_lookup_2). cbn [mbind res_bind].
    apply (IH (S k) v i Hnd Hi). by replace (S k + i)%nat with (k + S i)%nat by lia.
Qed.
Lemma colType_at tdef i col t : NoDup (tCols tdef) -> tCols tdef !! i = Some col -> tTypes tdef !! i = Some t -> colType tdef col = Ok t.
Proof. intros Hnd Hc Ht. by apply (scan_col_at tdef col t (tCols tdef) 0 0 i). Qed.

Lemma full_cols tdef cols ts : forall cs vs ws, Forall2 (fun col t => colType tdef col = Ok t /\ key_type t) cols ts ->
  foldM (full_col tdef) (Some (mkRec cs vs, mkRec cs ws)) cols =
    Ok (Some (mkRec (cs ++ cols) (vs ++ map min_val ts), mkRec (cs ++ cols) (ws ++ map max_val ts))).
Proof.
  intros cs vs ws HF. revert cs vs ws. induction HF as [|col t cols ts [Ht Hk] _ IH]; intros cs vs ws; [by rewrite !app_nil_r|].
  cbn [foldM full_col]. rstep Ht. rewrite addVal_min, addVal_max by done. cbn [rCols rVals mbind res_bind]. rewrite IH. cbn [map].
  by rewrite <- !(assoc_L app).
Qed.

(** Keys between two with a common start share it. *)
Lemma between_prefix q : forall a b k, ble (q ++ a) k -> ble k (q ++ b) -> exists r, k = q ++ r.
Proof.
  induction q as [|x q IH]; intros a b k Ha Hb; [by exists k|]. destruct k as [|y k]; [by destruct Ha|].
  unfold ble in Ha, Hb. cbn in Ha, Hb. destruct (Z.compare_spec (byte.unsigned x) (byte.unsigned y)) as [Hxy|Hxy|Hxy]; [|rewrite <- Z.compare_lt_iff in Hxy|done].
  - apply byte.unsigned_inj in Hxy as ->. rewrite Z.compare_refl in *. destruct (IH a b k Ha Hb) as [r ->]. by exists r.
  - apply Z.compare_lt_iff in Hxy. rewrite (proj2 (Z.compare_gt_iff _ _) Hxy) in Hb. done.
Qed.

(** Bounds: the index, the first and the last tuple of values of its columns, and
    whether they are included. *)
Record span := mkSpan { spIdx : nat; spLo : list Value; spHi : list Value; spLoInc : bool; spHiInc : bool }.
(** Two bounds in the order of their tuples. *)
Definition ordered (i : nat) (vs ws : list Value) (inc1 inc2 : bool) : span :=
  if bool_decide (vals_cmp vs ws = Gt) then mkSpan i ws vs inc2 inc1 else mkSpan i vs ws inc1 inc2.
Definition from (inc : bool) (c : comparison) : Prop := if inc then c <> Gt else c = Lt.
#[export] Instance from_dec inc c : Decision (from inc c).
Proof. unfold from. destruct inc; apply _. Defined.
Lemma from_le inc c : from inc c -> c <> Gt.
Proof. unfold from. destruct inc; [done|]. by intros ->. Qed.

(** The columns of an index, their types, and the prefix of its keys. *)
Definition idx_cols (tdef : TableDef) (i : nat) : list bytes := default [] (tIndexes tdef !! i).
Definition idx_types (tdef : TableDef) (i : nat) : list Z := map (SecIndex.col_type tdef) (idx_cols tdef i).
Definition idx_prefix (tdef : TableDef) (i : nat) : Z := default 0 (tPrefixes tdef !! i).
Definition full_span (tdef : TableDef) (i : nat) : span := mkSpan i (map min_val (idx_types tdef i)) (map max_val (idx_types tdef i)) false false.
(** What an index has of a row: the key columns for the first, the values of its
    columns and then the key for the others. *)
Definition idx_vals (tdef : TableDef) (p i : nat) (row : list Value) : list Value :=
  match i with O => take p row | S _ => map (fun col => index_val (col_val tdef row col)) (idx_cols tdef i) end.
Definition idx_rest (p i : nat) (row : list Value) : list Value := match i with O => [] | S _ => take p row end.
Definition idx_order (tdef : TableDef) (p i : nat) (row : list Value) : list Value := idx_vals tdef p i row ++ idx_rest p i row.
Definition idx_key (tdef : TableDef) (p i : nat) (row : list Value) : bytes := enc_key (idx_prefix tdef i) (idx_order tdef p i row).

(** The key of a row in the index comes after the greatest byte. *)
Definition late (p i : nat) (row : list Value) : bool :=
  match i, concat (map enc_val (take p row)) with S _, b :: _ => bool_decide (b = Byte.xff) | _, _ => false end.
(** The row is between the bounds.  One with the values of the bound is if the
    bound is included; but a late one is after the bound in either case. *)
Definition in_span (tdef : TableDef) (p : nat) (sp : span) (row : list Value) : Prop :=
  let late := late p (spIdx sp) row in
  let vs := idx_vals tdef p (spIdx sp) row in
  from (spLoInc sp || late) (vals_cmp (spLo sp) vs) /\ from (spHiInc sp && negb late) (vals_cmp vs (spHi sp)).
#[export] Instance in_span_dec tdef p sp row : Decision (in_span tdef p sp row) := _.
(** The keys of the bounds. *)
Definition mark (i : nat) (b : byte) : bytes := match i with O => [] | S _ => [b] end.
Definition lo_key (tdef : TableDef) (sp : span) : bytes :=
  enc_key (idx_prefix tdef (spIdx sp)) (spLo sp) ++ mark (spIdx sp) (if spLoInc sp then Byte.x00 else Byte.xff).
Definition hi_key (tdef : TableDef) (sp : span) : bytes :=
  enc_key (idx_prefix tdef (spIdx sp)) (spHi sp) ++ mark (spIdx sp) (if spHiInc sp then Byte.xff else Byte.x00).
Definition span_ok (tdef : TableDef) (sp : span) : Prop := (spIdx sp < length (tIndexes tdef))%nat /\
  Forall2 wf_key_val (idx_types tdef (spIdx sp)) (spLo sp) /\ Forall2 wf_key_val (idx_types tdef (spIdx sp)) (spHi sp).

Lemma find_col_nth cols : forall k j col, NoDup cols -> cols !! j = Some col -> find_col cols col k = Some (k + j)%nat.
Proof.
  induction cols as [|c cols IH]; intros k [|j] col Hnd Hj; [done..| |].
  - injection Hj as ->. cbn. by rewrite decide_True, Nat.add_0_r.
  - apply list.NoDup_cons in Hnd as [Hc Hnd]. cbn in *. rewrite decide_False by (intros ->; apply Hc; by eapply list_elem_of_lookup_2).
    rewrite (IH (S k) j col Hnd Hj). f_equal. lia.
Qed.

Section Index.
Context (tdef : TableDef) (p : nat) (Htd : tdef_ok tdef p).
(** The first index is that of the key columns; all columns have a type. *)
Context (Hp0 : (0 < p)%nat) (Hprimary : head (tIndexes tdef) = Some (take p (tCols tdef))) (Htypes : Forall key_type (tTypes tdef)).

Lemma idx_at i : (i < length (tIndexes tdef))%nat -> tIndexes tdef !! i = Some (idx_cols tdef i).
Proof. intros [x Hx]%lookup_lt_is_Some_2. unfold idx_cols. by rewrite Hx. Qed.
Lemma prefix_at i : (i < length (tIndexes tdef))%nat -> tPrefixes tdef !! i = Some (idx_prefix tdef i).
Proof. rewrite <- (td_prefixes _ _ Htd). intros [x Hx]%lookup_lt_is_Some_2. unfold idx_prefix. by rewrite Hx. Qed.
Lemma primary_cols : idx_cols tdef 0 = take p (tCols tdef).
Proof. unfold idx_cols. destruct (tIndexes tdef); [done|]. by injection Hprimary as ->. Qed.
Lemma primary_prefix : idx_prefix tdef 0 = prefix0 tdef.
Proof. unfold idx_prefix, prefix0. by destruct (tPrefixes tdef). Qed.
Lemma primary_key row : idx_key tdef p 0 row = pkey tdef p row.
Proof. unfold idx_key, pkey, idx_order. cbn. by rewrite primary_prefix, app_nil_r. Qed.
Lemma primary_lt : (0 < length (tIndexes tdef))%nat.
Proof. destruct (tIndexes tdef); [done|cbn; lia]. Qed.
Lemma cols_in i : Forall (fun col => col ∈ tCols tdef) (idx_cols tdef i).
Proof.
  destruct i as [|i]; [rewrite primary_cols; apply list.Forall_take, list.Forall_forall; auto|].
  unfold idx_cols. destruct (tIndexes tdef !! S i) as [cols|] eqn:Ei; [|constructor]. apply list.Forall_forall. intros col Hc.
  apply (td_index _ _ Htd cols); [|done]. apply (list_elem_of_lookup_2 _ i). by rewrite lookup_tail.
Qed.
Lemma col_type_nth j col t : tCols tdef !! j = Some col -> tTypes tdef !! j = Some t -> SecIndex.col_type tdef col = t.
Proof. intros Hc Ht. unfold SecIndex.col_type. rewrite (find_col_nth _ 0 j col (td_cols _ _ Htd) Hc). cbn. by rewrite Ht. Qed.
Lemma col_has_type col : col ∈ tCols tdef -> colType tdef col = Ok (SecIndex.col_type tdef col) /\ key_type (SecIndex.col_type tdef col).
Proof.
  intros [j Hj]%list_elem_of_lookup. assert (Ht : is_Some (tTypes tdef !! j)) by (apply lookup_lt_is_Some; rewrite (td_types _ _ Htd); by eapply lookup_lt_Some).
  destruct Ht as [t Ht]. rewrite (col_type_nth j col t Hj Ht). split; [apply (colType_at tdef j); [apply (td_cols _ _ Htd)|done..]|].
  rewrite list.Forall_lookup in Htypes. by eapply Htypes.
Qed.
Lemma primary_types : idx_types tdef 0 = take p (tTypes tdef).
Proof.
  unfold idx_types. rewrite primary_cols. apply list_eq. intros j. rewrite list_lookup_fmap. destruct (decide (j < p)%nat) as [Hj|Hj]; cycle 1.
  { rewrite !lookup_take_ge by lia. done. }
  rewrite !lookup_take_lt by done. pose proof (td_p _ _ Htd) as Hp. destruct (lookup_lt_is_Some_2 (tCols tdef) j) as [c Hc]; [lia|].
  destruct (lookup_lt_is_Some_2 (tTypes tdef) j) as [t Ht]; [rewrite (td_types _ _ Htd); lia|]. rewrite Hc, Ht. cbn. f_equal. by apply (col_type_nth j).
Qed.
Lemma idx_key_types i : Forall key_type (idx_types tdef i).
Proof. apply list.Forall_fmap. eapply list.Forall_impl; [apply cols_in|]. intros col Hc. by apply col_has_type. Qed.
Lemma idx_vals_wf i row : row_ok tdef p row -> Forall2 wf_key_val (idx_types tdef i) (idx_vals tdef p i row).
Proof.
  intros Hrow. destruct i as [|i]; [rewrite primary_types; by apply pk_wf|]. unfold idx_types, idx_vals.
  pose proof (cols_in (S i)) as HF. induction HF as [|col cols Hc _ IH]; [constructor|]. constructor; [by apply index_val_wf, (col_val_wf tdef p)|done].
Qed.
Definition order_types (i : nat) : list Z := idx_types tdef i ++ match i with O => [] | S _ => take p (tTypes tdef) end.
Lemma idx_order_wf i row : row_ok tdef p row -> Forall2 wf_key_val (order_types i) (idx_order tdef p i row).
Proof. intros Hrow. apply Forall2_app; [by apply idx_vals_wf|]. destruct i; [constructor|by apply pk_wf]. Qed.

(** ** The order of the keys *)

Lemma bcmp_enc_key q ts vs ws r1 r2 : Forall2 wf_key_val ts vs -> Forall2 wf_key_val ts ws ->
  bcmp (enc_key q vs ++ r1) (enc_key q ws ++ r2) = match vals_cmp vs ws with Eq => bcmp r1 r2 | c => c end.
Proof.
  intros Hv Hw. unfold enc_key. rewrite <- !(assoc_L app), bcmp_app, bcmp_refl by done. revert ws Hw.
  induction Hv as [|t v ts vs Hv _ IH]; intros ws Hw; inversion Hw as [|? w ? ws' Hw1 Hw2]; subst; [done|].
  cbn [map concat vals_cmp]. rewrite <- !(assoc_L app), (bcmp_enc_val t) by done. destruct (val_cmp v w); auto.
Qed.
Lemma enc_key_order q ts vs ws : Forall2 wf_key_val ts vs -> Forall2 wf_key_val ts ws -> bcmp (enc_key q vs) (enc_key q ws) = vals_cmp vs ws.
Proof. intros Hv Hw. pose proof (bcmp_enc_key q ts vs ws [] [] Hv Hw) as E. rewrite !app_nil_r in E. rewrite E. by destruct (vals_cmp vs ws). Qed.
Lemma idx_key_order i row1 row2 : row_ok tdef p row1 -> row_ok tdef p row2 ->
  bcmp (idx_key tdef p i row1) (idx_key tdef p i row2) = vals_cmp (idx_order tdef p i row1) (idx_order tdef p i row2).
Proof. intros H1 H2. by apply (enc_key_order _ (order_types i)); apply idx_order_wf. Qed.

(** The key of a row has at least two bytes. *)
Lemma SerializeByte_nonempty b : SerializeByte b <> [].
Proof. unfold SerializeByte. repeat case_match; done. Qed.
Lemma pk_bytes row : row_ok tdef p row -> exists b b' r, concat (map enc_val (take p row)) = b :: b' :: r.
Proof.
  intros Hrow. pose proof (pk_wf tdef p row Hrow) as Hw. pose proof (proj2 Hrow) as HF. assert (Hl := Hw). apply Forall2_length in Hl.
  rewrite length_take, (td_types _ _ Htd) in Hl. pose proof (td_p _ _ Htd).
  destruct (take p row) as [|v vs]; [cbn in Hl; lia|]. inversion Hw as [|t ? ts ? Hv _]; subst. apply list.Forall_cons in HF as [Hi _]. cbn [map concat].
  destruct Hv as [s|z Hz _].
  - rewrite enc_val_bytes. destruct s as [|c s]; [by apply (f_equal vStr) in Hi|]. cbn [SerializeBytes map concat].
    unfold SerializeBytes. cbn [map concat]. destruct (SerializeByte c) as [|b bs] eqn:Eb; [by destruct (SerializeByte_nonempty c)|].
    destruct bs as [|b' bs]; cbn [app]; [|by eexists _, _, _]. destruct (concat (map SerializeByte s)) as [|b' bs]; cbn [app]; by eexists _, _, _.
  - rewrite enc_val_int, (be_split_S 7), (be_split_S 6). by eexists _, _, _.
Qed.
Lemma rest_bytes i row : concat (map enc_val (idx_rest p (S i) row)) = concat (map enc_val (take p row)).
Proof. done. Qed.
(** The mark of a bound against what follows its values in the key of a row. *)
Lemma mark_lo i inc row : row_ok tdef p row ->
  from inc (bcmp (mark i (if inc then Byte.x00 else Byte.xff)) (concat (map enc_val (idx_rest p i row)))) <-> from (inc || late p i row) Eq.
Proof.
  intros Hrow. destruct i as [|i]; [by destruct inc|]. unfold late. cbn [mark idx_rest]. destruct (pk_bytes row Hrow) as (b & b' & r & ->).
  cbn [bcmp]. pose proof (byte.unsigned_range b) as Hb. destruct inc; cbn [orb].
  - change (byte.unsigned Byte.x00) with 0. unfold from. destruct (Z.compare_spec 0 (byte.unsigned b)); [done|done|lia].
  - change (byte.unsigned Byte.xff) with 255. destruct (Z.compare_spec 255 (byte.unsigned b)) as [Hc|Hc|Hc]; [|lia|].
    + rewrite bool_decide_eq_true_2; [done|]. apply byte.unsigned_inj. by rewrite <- Hc.
    + rewrite bool_decide_eq_false_2; [done|]. intros ->. change (byte.unsigned Byte.xff) with 255 in Hc. lia.
Qed.
Lemma mark_hi i inc row : row_ok tdef p row ->
  from inc (bcmp (concat (map enc_val (idx_rest p i row))) (mark i (if inc then Byte.xff else Byte.x00))) <-> from (inc && negb (late p i row)) Eq.
Proof.
  intros Hrow. destruct i as [|i]; [by destruct inc|]. unfold late. cbn [mark idx_rest]. destruct (pk_bytes row Hrow) as (b & b' & r & ->).
  cbn [bcmp]. pose proof (byte.unsigned_range b) as Hb. destruct inc; cbn [andb].
  - change (byte.unsigned Byte.xff) with 255. destruct (Z.compare_spec (byte.unsigned b) 255) as [Hc|Hc|Hc]; [| |lia].
    + rewrite bool_decide_eq_true_2; [done|]. by apply byte.unsigned_inj.
    + rewrite bool_decide_eq_false_2; [done|]. intros ->. change (byte.unsigned Byte.xff) with 255 in Hc. lia.
  - change (byte.unsigned Byte.x00) with 0. unfold from. destruct (Z.compare_spec (byte.unsigned b) 0); [done|lia|done].
Qed.

(** A key between the bounds. *)
Definition key_between (sp : span) (k : bytes) : Prop := from (spLoInc sp) (bcmp (lo_key tdef sp) k) /\ from (spHiInc sp) (bcmp k (hi_key tdef sp)).
Lemma idx_key_app i row : idx_key tdef p i row = enc_key (idx_prefix tdef i) (idx_vals tdef p i row) ++ concat (map enc_val (idx_rest p i row)).
Proof. unfold idx_key, idx_order, enc_key. by rewrite map_app, concat_app, (assoc_L app). Qed.
Lemma span_key sp row : span_ok tdef sp -> row_ok tdef p row -> in_span tdef p sp row <-> key_between sp (idx_key tdef p (spIdx sp) row).
Proof.
  intros (_ & Hlo & Hhi) Hrow. pose proof (idx_vals_wf (spIdx sp) row Hrow) as Hw. unfold in_span, key_between, lo_key, hi_key. rewrite idx_key_app.
  rewrite (bcmp_enc_key _ _ _ _ _ _ Hlo Hw), (bcmp_enc_key _ _ _ _ _ _ Hw Hhi).
  pose proof (mark_lo (spIdx sp) (spLoInc sp) row Hrow) as H1. pose proof (mark_hi (spIdx sp) (spHiInc sp) row Hrow) as H2.
  assert (H3 : forall a b (c : comparison), c <> Eq -> from a c <-> from b c) by (intros [] [] []; naive_solver).
  f_equiv; [destruct (vals_cmp (spLo sp) _); [by symmetry|by apply H3..]|destruct (vals_cmp _ (spHi sp)); [by symmetry|by apply H3..]].
Qed.

(** ** The bounds of a scanner *)

Definition bound_rec (i : nat) (vs : list Value) : Rec := mkRec (idx_cols tdef i) vs.
Lemma bound_cols cols : forall cs us vs, NoDup (cs ++ cols) -> length cs = length us -> length cols = length vs ->
  foldM (bound_col (mkRec (cs ++ cols) (us ++ vs))) us cols = Ok (us ++ vs).
Proof.
  induction cols as [|c cols IH]; intros cs us [|v vs] Hnd Hl Hl2; try done; cbn [foldM]; [by rewrite app_nil_r|].
  assert (E : bound_col (mkRec (cs ++ c :: cols) (us ++ v :: vs)) us c = Ok (us ++ [v])).
  { unfold bound_col, Get, GetIdx. cbn [rCols rVals]. rewrite (find_col_nth _ 0 (length cs) c Hnd) by by apply list_lookup_middle.
    rewrite (index_Ok _ (length cs) v) by by rewrite Hl, list_lookup_middle. done. }
  rstep E. specialize (IH (cs ++ [c]) (us ++ [v]) vs). rewrite <- !(assoc_L app) in IH. apply IH; [done| |by injection Hl2].
  rewrite !length_app. cbn. lia.
Qed.
Lemma bound_key_ok i vs : (i < length (tIndexes tdef))%nat -> NoDup (idx_cols tdef i) -> Forall2 wf_key_val (idx_types tdef i) vs ->
  bound_key tdef (bound_rec i vs) (Z.of_nat i) = Ok (enc_key (idx_prefix tdef i) vs).
Proof.
  intros Hi Hnd Hw. assert (Hl := Hw). apply Forall2_length in Hl. unfold idx_types in Hl. rewrite length_map in Hl. unfold bound_key, bound_rec.
  destruct i as [|i]; cbn [Z.eqb Z.of_nat].
  - rewrite primary_cols in *. rewrite (index_Ok (tPrefixes tdef) 0 _ (prefix_at 0 Hi) : index (tPrefixes tdef) 0 = _). cbn [mbind res_bind].
    rewrite length_take in Hl. pose proof (td_p _ _ Htd). unfold GetPKs. rewrite (td_pkeys _ _ Htd), Nat2Z.id.
    rewrite get_pks_ok; cycle 1; [cbn; rewrite length_take; lia|cbn; lia|by eapply wf_built|].
    cbn [mbind res_bind rVals emptyRec app]. rewrite drop_0, (take_ge vs) by lia. by eapply EncodeKey_enc.
  - change (Z.pos (Pos.of_succ_nat i)) with (Z.of_nat (S i)). rewrite (index_Ok _ _ _ (idx_at (S i) Hi)). cbn [mbind res_bind].
    pose proof (bound_cols (idx_cols tdef (S i)) [] [] vs Hnd eq_refl Hl) as E. cbn [app] in E. rewrite E. cbn [mbind res_bind].
    rewrite (index_Ok _ _ _ (prefix_at (S i) Hi)). cbn [mbind res_bind]. by eapply EncodeKey_enc.
Qed.
Lemma bounds_ok i vs ws inc1 inc2 : (i < length (tIndexes tdef))%nat -> NoDup (idx_cols tdef i) ->
  Forall2 wf_key_val (idx_types tdef i) vs -> Forall2 wf_key_val (idx_types tdef i) ws ->
  let sp := ordered i vs ws inc1 inc2 in span_ok tdef sp /\ spIdx sp = i /\ exists rec1 rec2,
  scan_bounds tdef (bound_rec i vs) (bound_rec i ws) inc1 inc2 (Z.of_nat i) = Ok (lo_key tdef sp, hi_key tdef sp, rec1, rec2, spLoInc sp, spHiInc sp).
Proof.
  intros Hi Hnd Hv Hw. cbn zeta. split; [unfold ordered; by case_bool_decide|]. split; [unfold ordered; by case_bool_decide|].
  unfold scan_bounds. rstep (bound_key_ok i vs Hi Hnd Hv). rstep (bound_key_ok i ws Hi Hnd Hw).
  pose proof (enc_key_order (idx_prefix tdef i) _ vs ws Hv Hw) as Eo.
  assert (Hg : 0 < Compare (enc_key (idx_prefix tdef i) vs) (enc_key (idx_prefix tdef i) ws) <-> vals_cmp vs ws = Gt).
  { rewrite Compare_gt, <- Eo. unfold blt. rewrite (bcmp_antisym (enc_key (idx_prefix tdef i) vs)). by destruct (bcmp _ _). }
  assert (Hm : forall a b c d, lo_key tdef (mkSpan i a b c d) = enc_key (idx_prefix tdef i) a ++ mark i (if c then Byte.x00 else Byte.xff) /\
    hi_key tdef (mkSpan i a b c d) = enc_key (idx_prefix tdef i) b ++ mark i (if d then Byte.xff else Byte.x00)) by done.
  unfold ordered. case_bool_decide as Hc; [rewrite (proj2 (Z.ltb_lt _ _)) by by apply Hg|rewrite (proj2 (Z.ltb_ge _ _)) by (apply Z.nlt_ge; by rewrite Hg)];
    destruct (Hm ws vs inc2 inc1) as [E1 E2]; destruct (Hm vs ws inc1 inc2) as [E3 E4]; rewrite ?E1, ?E2, ?E3, ?E4;
    destruct i as [|i]; cbn [Z.eqb Z.of_nat negb mark spLoInc spHiInc]; rewrite ?app_nil_r; by eexists _, _.
Qed.
Lemma ordered_full i : (i < length (tIndexes tdef))%nat -> idx_cols tdef i <> [] ->
  ordered i (map min_val (idx_types tdef i)) (map max_val (idx_types tdef i)) false false = full_span tdef i.
Proof.
  intros Hi Hne. unfold ordered, full_span. pose proof (idx_key_types i) as HF. unfold idx_types in *.
  destruct (idx_cols tdef i) as [|c cols]; [done|]. cbn [map] in *. by apply list.Forall_cons in HF as [[->| ->] _].
Qed.
Lemma full_recs_ok i : (i < length (tIndexes tdef))%nat ->
  full_recs tdef (Z.of_nat i) = Ok (Some (bound_rec i (map min_val (idx_types tdef i)), bound_rec i (map max_val (idx_types tdef i)))).
Proof.
  intros Hi. unfold full_recs. rewrite (index_Ok _ _ _ (idx_at i Hi)). cbn [mbind res_bind]. unfold emptyRec.
  rewrite (full_cols tdef _ (idx_types tdef i)); [done|]. unfold idx_types. pose proof (cols_in i) as HF.
  induction HF as [|col cols Hc _ IH]; constructor; [by apply col_has_type|done].
Qed.
Lemma full_wf i : Forall2 wf_key_val (idx_types tdef i) (map min_val (idx_types tdef i)) /\ Forall2 wf_key_val (idx_types tdef i) (map max_val (idx_types tdef i)).
Proof. split; apply Forall2_map_wf; (apply idx_key_types || apply min_val_wf || apply max_val_wf). Qed.
End Index.

(** ** Rows an index hides *)

(** The bounds of [name = ann], of which a row with this name and the greatest
    key is not found, and those of a condition on the empty string, in whose place the
    index has the byte 255. *)
Definition equal_name (s : bytes) : span := mkSpan 1 [BytesVal s] [BytesVal s] true true.
Lemma late_row_missed : ~ in_span people_def 1 (equal_name (gostr "ann")) [IntVal 9223372036854775807; BytesVal (gostr "ann"); IntVal 30].
Proof. intros [_ Hhi]. vm_compute in Hhi. discriminate Hhi. Qed.
Lemma empty_string_missed : ~ in_span people_def 1 (equal_name []) [IntVal 7; BytesVal []; IntVal 30].
Proof. intros [_ Hhi]. vm_compute in Hhi. by apply Hhi. Qed.
