(* ===== verification/TableScan.v ===== *)
(** * The rows between the bounds of a scan

    Which entries of the database are between the bounds of a scan on an index,
    which rows they are, and how the scanner gets the record of a row from its entry: in
    the primary index it is the entry itself, in another one the row is read from the
    transaction under the key at the end of the entry. *)
From Stdlib Require Import ZArith Lia Sorted.
From stdpp Require Import base gmap list strings countable sorting.
From coqutil Require Import Byte Word.LittleEndianList.
From S2P Require Import Prelude KVList Schema SecIndex TreeRoot Db Tables Scanner Range Lexer Parser Eval Planner IndexKeys.

Section Table.
Context `{JsonVals} (tdef : TableDef) (p : nat) (Htd : tdef_ok tdef p).
Context (Hp0 : (0 < p)%nat) (Hprimary : head (tIndexes tdef) = Some (take p (tCols tdef))) (Htypes : Forall key_type (tTypes tdef)).

(** The entry of a row in an index. *)
Definition idx_entry (i : nat) (row : list Value) : bytes * bytes :=
  (idx_key tdef p i row, match i with O => EncodeVal (drop p row) | S _ => [] end).
Definition has_row (rows : gmap (list Value) (list Value)) (row : list Value) : Prop := rows !! take p row = Some (drop p row).

Lemma DecodeKey_pkey row : row_ok tdef p row -> DecodeKey (pkey tdef p row) tdef = Ok (take p row).
Proof.
  intros Hrow. rewrite <- (app_nil_r (pkey tdef p row)). apply (DecodeKey_enc _ tdef (take p (tTypes tdef))); [|by apply pk_wf].
  rewrite (td_pkeys _ _ Htd). apply slice_to_Ok. rewrite (td_types _ _ Htd). apply (td_p _ _ Htd).
Qed.
Lemma add_keys vs : forall k rec, Forall built vs -> (k + length vs <= length (tCols tdef))%nat ->
  foldM (add_key tdef) rec (imap (fun i v => ((k + i)%nat, v)) vs) = Ok (mkRec (rCols rec ++ take (length vs) (drop k (tCols tdef))) (rVals rec ++ vs)).
Proof.
  induction vs as [|v vs IH]; intros k rec Hb Hk; [cbn; rewrite !app_nil_r; by destruct rec|].
  apply list.Forall_cons in Hb as [Hv Hb]. cbn [length] in Hk. destruct (lookup_lt_is_Some_2 (tCols tdef) k) as [c Hc]; [lia|].
  rewrite imap_cons. cbn [foldM]. rewrite Nat.add_0_r.
  assert (E : add_key tdef rec (k, v) = Ok (mkRec (rCols rec ++ [c]) (rVals rec ++ [v]))).
  { unfold add_key. destruct Hv as [[b ->]|[i ->]]; cbn [vType BytesVal IntVal].
    - rewrite decide_True by done. by rstep (index_Ok _ _ _ Hc).
    - rewrite decide_False, decide_True by done. by rstep (index_Ok _ _ _ Hc). }
  rstep E. rewrite (imap_ext _ (fun i v => ((S k + i)%nat, v))) by (intros i x _; cbn; f_equal; lia).
  rewrite IH by (done || lia). cbn [rCols rVals length]. rewrite (drop_S _ _ _ Hc), <- !(assoc_L app). done.
Qed.
Lemma entry_record {T} `{TxOps T} (tx : T) row : row_ok tdef p row ->
  kvToRecord tx tdef (idx_entry 0 row).1 (idx_entry 0 row).2 0 = Ok (tx, Some (row_rec tdef row)).
Proof.
  intros Hrow. unfold kvToRecord, idx_entry. cbn [fst snd Z.eqb negb]. rewrite (primary_key tdef p). rstep (DecodeKey_pkey row Hrow).
  pose proof (row_length tdef p Htd row Hrow) as Hrl. pose proof (td_p _ _ Htd) as Hp.
  pose proof (add_keys (take p row) 0 emptyRec (list.Forall_take _ _ _ (wf_built _ _ (proj1 Hrow)))) as E.
  rewrite length_take in E. specialize (E ltac:(lia)). cbn [Nat.add] in E. change (fun i v => (i, v)) with (@pair nat Value) in E. rstep E.
  rewrite DecodeVal_EncodeVal; [|rewrite (td_pkeys _ _ Htd); lia|apply list.Forall_drop; by eapply row_values].
  rewrite (td_pkeys _ _ Htd), Nat2Z.id, length_drop, decide_True by (right; lia). cbn [mbind res_bind rCols rVals emptyRec app].
  rewrite drop_0, Nat.min_l, (take_ge (drop p _)), !take_drop by (rewrite ?length_drop; lia). done.
Qed.


(** Transactions that read the table, and what reading leaves of them. *)
Section Reads.
Context {T : Type} {holds : nat -> T -> gmap bytes bytes -> gset bytes -> Prop} `{TxLaws T holds} `{JsonTable} (name : bytes).
Definition has_in (tx : T) (row : list Value) : Prop :=
  exists n m W rows, holds n tx m W /\ table_in name tdef p rows m /\ has_row rows row.
Definition reads (tx tx' : T) : Prop := forall n m W rows, table_in name tdef p rows m -> holds n tx m W -> holds n tx' m W.
#[export] Instance reads_preorder : PreOrder reads.
Proof. split; [by intros tx n m W rows _ Hh|]. intros tx1 tx2 tx3 HR1 HR2 n m W rows Ht Hh. eapply HR2; [done|]. by eapply HR1. Qed.
Lemma has_reads tx tx' row : reads tx tx' -> has_in tx row -> has_in tx' row.
Proof. intros HR (n & m & W & rows & Hh & Ht & Hr). exists n, m, W, rows. split; [by eapply HR|done]. Qed.

(** The record of a row through its entry in another index. *)
Lemma sec_record (tx : T) i row : (S i < length (tIndexes tdef))%nat -> row_ok tdef p row -> has_in tx row ->
  exists tx', kvToRecord tx tdef (idx_entry (S i) row).1 (idx_entry (S i) row).2 (Z.of_nat (S i)) = Ok (tx', Some (row_rec tdef row)) /\ reads tx tx'.
Proof.
  intros Hi Hrow (n & m & W & rows & Hh & Ht & Hr). destruct (row_pks tdef p row Htd Hrow) as (Hl & Hw & _).
  destruct (get_pk_row name tdef p n tx m W rows (take p row) Hh Ht Hl Hw) as (tx' & E & _). unfold has_row in Hr. rewrite Hr in E.
  exists tx'. split.
  - unfold kvToRecord, idx_entry. rewrite (proj2 (Z.eqb_neq _ _)) by lia. cbn [fst snd negb].
    pose proof (GetPKFromSecKey_spec tdef p Htd row Hrow i (idx_prefix tdef (S i)) _ [] (idx_at tdef (S i) Hi)) as EP. rewrite app_nil_r in EP.
    change (idx_key tdef p (S i) row) with (sec_key tdef p row (idx_prefix tdef (S i)) (idx_cols tdef (S i))). rstep EP.
    change (mkRec (take p (tCols tdef)) (take p row)) with (pk_rec tdef p (take p row)). rstep E. by rewrite take_drop.
  - intros n2 m2 W2 rows2 Ht2 Hh2. destruct (get_pk_row name tdef p n2 tx m2 W2 rows2 (take p row) Hh2 Ht2 Hl Hw) as (tx2 & E2 & Hh3).
    rewrite E in E2. injection E2 as <- _ _. exact Hh3.
Qed.
End Reads.

Context (rows : gmap (list Value) (list Value)) (m : gmap bytes bytes) (Hrep : table_rep tdef p rows m).

Lemma has_row_ok row : has_row rows row -> row_ok tdef p row.
Proof. intros Hr. destruct (tb_rows _ _ _ _ Hrep _ _ Hr) as [_ Hrow]. by rewrite take_drop in Hrow. Qed.
(** The entries of the rows are those under the prefix of the index. *)
Lemma entry_of_row i row : (i < length (tIndexes tdef))%nat -> idx_entry i row ∈ row_entries tdef p row.
Proof.
  intros Hi. unfold row_entries, idx_entry. destruct i as [|i]; [rewrite (primary_key tdef p row); by left|]. right. apply list_elem_of_fmap.
  exists (idx_key tdef p (S i) row). split; [done|]. apply (list_elem_of_lookup_2 _ i). unfold sec_keys. apply lookup_zip_with_Some.
  exists (idx_prefix tdef (S i)), (idx_cols tdef (S i)). rewrite !lookup_tail. split; [done|]. split; [by apply (prefix_at tdef p Htd)|by apply idx_at].
Qed.
Lemma row_of_entry i row k v : (i < length (tIndexes tdef))%nat -> (k, v) ∈ row_entries tdef p row -> (exists r, k = be_split 4 (idx_prefix tdef i) ++ r) ->
  (k, v) = idx_entry i row.
Proof.
  intros Hi Hin [r Hk]. pose proof (prefix_at tdef p Htd i Hi) as Hp.
  assert (Hq : forall j q vs, tPrefixes tdef !! j = Some q -> k = enc_key q vs -> j = i).
  { intros j q vs Hj Ek. unfold enc_key in Ek. rewrite Hk in Ek. apply app_inj_1 in Ek as [Eq _]; [|by rewrite !length_be_split].
    apply (be_split_inj 4) in Eq; [|exact (prefix_u32 tdef p Htd _ _ Hp)|exact (prefix_u32 tdef p Htd _ _ Hj)]. subst q.
    by apply (NoDup_lookup _ _ _ _ (td_nodup _ _ Htd) Hj Hp). }
  unfold row_entries in Hin. apply elem_of_cons in Hin as [[= Ek ->]|Hin].
  - unfold idx_entry. assert (0%nat = i) as <-; [|by rewrite Ek, (primary_key tdef p row)].
    apply (Hq 0%nat (idx_prefix tdef 0) (take p row)); [apply (prefix_at tdef p Htd), (primary_lt tdef p Hp0 Hprimary)|]. by rewrite Ek, (primary_prefix tdef).
  - apply list_elem_of_fmap in Hin as (k' & [= <- ->] & Hin). apply list_elem_of_lookup in Hin as [j Hj]. unfold sec_keys in Hj.
    apply lookup_zip_with_Some in Hj as (q & cols & Ek & Hjq & Hjc). rewrite lookup_tail in Hjq. rewrite lookup_tail in Hjc.
    assert (S j = i) as <- by (eapply Hq; [exact Hjq|exact Ek]). unfold idx_entry, idx_key, idx_prefix, idx_order, idx_vals, idx_cols. rewrite Hjq, Hjc, Ek. done.
Qed.
Lemma has_row_stored i row : (i < length (tIndexes tdef))%nat -> has_row rows row -> m !! (idx_entry i row).1 = Some (idx_entry i row).2.
Proof.
  intros Hi Hr. pose proof (entry_of_row i row Hi) as Hin. destruct (idx_entry i row) as [k v]. cbn [fst snd]. apply (tb_map _ _ _ _ Hrep).
  - apply (row_keys_owned tdef p Htd row). by eapply entry_key.
  - exists (take p row), (drop p row). by rewrite take_drop.
Qed.

Context (sp : span) (Hsp : span_ok tdef sp).
Lemma range_row k v : m !! k = Some v -> key_between tdef sp k ->
  exists row, has_row rows row /\ in_span tdef p sp row /\ idx_entry (spIdx sp) row = (k, v).
Proof.
  intros Hm Hk. pose proof Hk as [Hlo%from_le Hhi%from_le]. unfold lo_key, hi_key, enc_key in Hlo, Hhi. rewrite <- !(assoc_L app) in Hlo, Hhi.
  destruct (between_prefix _ _ _ _ Hlo Hhi) as [r Ek]. pose proof (proj1 Hsp) as Hi.
  assert (Ho : owned tdef k) by (exists (idx_prefix tdef (spIdx sp)), r; split; [by eapply list_elem_of_lookup_2, (prefix_at tdef p Htd)|done]).
  destruct (proj1 (tb_map _ _ _ _ Hrep k v Ho) Hm) as (pk & rest & Hr & Hin). destruct (tb_rows _ _ _ _ Hrep _ _ Hr) as [Hl Hrow].
  pose proof (row_of_entry (spIdx sp) (pk ++ rest) k v Hi Hin (ex_intro _ r Ek)) as E. exists (pk ++ rest).
  split; [unfold has_row; by rewrite take_app_length', drop_app_length'|]. split; [|done].
  apply (span_key tdef p Htd Hp0 Hprimary sp (pk ++ rest) Hsp Hrow). by injection E as <- _.
Qed.

(** The rows between the bounds, in the order of the index: of the values of its
    columns, and then of the key. *)
Definition rows_between (rs : list (list Value)) : Prop :=
  StronglySorted (fun r1 r2 => vals_cmp (idx_order tdef p (spIdx sp) r1) (idx_order tdef p (spIdx sp) r2) = Lt) rs /\
  forall row, row ∈ rs <-> has_row rows row /\ in_span tdef p sp row.
Abbreviation ent := (idx_entry (spIdx sp)).
Lemma entries_rows (es : kvl) : Forall (fun kv => exists row, has_row rows row /\ in_span tdef p sp row /\ ent row = kv) es ->
  exists rs, es = map ent rs /\ Forall (fun row => has_row rows row /\ in_span tdef p sp row) rs.
Proof.
  induction 1 as [|kv es (row & Hr & Hs & E) _ (rs & -> & HF)]; [by exists []|]. exists (row :: rs). cbn. split; [by rewrite E|by constructor].
Qed.
Lemma entries_sorted rs : Forall (fun row => has_row rows row /\ in_span tdef p sp row) rs -> kv_sorted (map ent rs) ->
  StronglySorted (fun r1 r2 => vals_cmp (idx_order tdef p (spIdx sp) r1) (idx_order tdef p (spIdx sp) r2) = Lt) rs.
Proof.
  induction 1 as [|row rs [Hr _] HF IH]; [constructor|]. change (map ent (row :: rs)) with (((ent row).1, (ent row).2) :: map ent rs).
  intros [Hg Hs]%kv_sorted_cons. constructor; [by apply IH|].
  apply list.Forall_forall. intros row' Hin. unfold keys_gt in Hg. rewrite list.Forall_forall in Hg. rewrite list.Forall_forall in HF.
  specialize (Hg (ent row') (list_elem_of_fmap_2 ent _ _ Hin)). destruct (HF row' Hin) as [Hr' _]. unfold blt in Hg.
  by rewrite <- (idx_key_order tdef p Htd Hp0 Hprimary (spIdx sp) row row' (has_row_ok row Hr) (has_row_ok row' Hr')).
Qed.
(** Rows with the same entry are the same row. *)
Lemma entry_inj row row' : has_row rows row -> has_row rows row' -> ent row = ent row' -> row = row'.
Proof.
  intros Hr Hr' E. pose proof (has_row_ok row Hr) as Hok. pose proof (has_row_ok row' Hr') as Hok'.
  assert (Ep : take p row = take p row').
  { apply (row_keys_pk tdef p Htd row row' (ent row).1); [done..| |]; apply (entry_key tdef p _ _ (ent row).2); rewrite <- surjective_pairing;
      [|rewrite E]; apply entry_of_row, Hsp. }
  rewrite <- (take_drop p row), <- (take_drop p row'), Ep. f_equal. unfold has_row in Hr, Hr'. rewrite Ep in Hr. congruence.
Qed.
Lemma scan_list (l : kvl) sc : kv_sorted l -> kv_map l = m ->
  (key1 sc, key1Include sc, key2 sc, key2Include sc) = (lo_key tdef sp, spLoInc sp, hi_key tdef sp, spHiInc sp) ->
  exists rs, filter (fun kv => in_bounds sc kv.1) l = map ent rs /\ rows_between rs.
Proof.
  intros Hs Hm Hsc. injection Hsc as E1 E2 E3 E4.
  assert (Hin : forall k v, (k, v) ∈ l <-> m !! k = Some v) by (intros k v; rewrite <- Hm; by apply elem_of_list_to_map, kv_sorted_nodup).
  assert (Hr : forall key : bytes, in_bounds sc key <-> key_between tdef sp key).
  { intros key. unfold in_bounds, above, below, key_between. rewrite E1, E2, E3, E4. by destruct (spLoInc sp), (spHiInc sp). }
  destruct (entries_rows (filter (fun kv => in_bounds sc kv.1) l)) as (rs & Ers & HF).
  { apply list.Forall_forall. intros [k v] [Hk%Hr Hkv]%list_elem_of_filter. apply range_row; [by apply Hin|done]. }
  exists rs. split; [done|]. split.
  - pose proof (kv_sorted_filter (fun kv => in_bounds sc kv.1) l Hs) as Hsf. rewrite Ers in Hsf. by apply entries_sorted.
  - intros row. split; [rewrite list.Forall_forall in HF; apply HF|]. intros [Hrow Hin2]. pose proof (has_row_ok row Hrow) as Hok.
    apply (span_key tdef p Htd Hp0 Hprimary sp row Hsp Hok) in Hin2.
    assert (Hel : ent row ∈ map ent rs).
    { rewrite <- Ers. apply list_elem_of_filter. split; [by apply Hr|]. rewrite (surjective_pairing (ent row)). apply Hin. by apply has_row_stored, Hrow; apply Hsp. }
    apply list_elem_of_fmap in Hel as (row' & E & Hel). rewrite list.Forall_forall in HF. destruct (HF row' Hel) as [Hrow' _].
    by rewrite (entry_inj row row' Hrow Hrow' E).
Qed.
End Table.
#[global] Arguments has_in {_} _ _ {_} _ {_} _ _ _.
#[global] Arguments reads {_} _ _ {_} _ {_} _ _ _.
