(* ===== verification/Spans.v ===== *)
(** * Which rows a statement asks for

    The index and the bounds that the planner of engine/planner.go gives a scan:
    for a scan without conditions, for one that names the first column of an
    index, and for one or two conditions on the column of an index of one column. *)
From Stdlib Require Import ZArith Lia Sorted.
From stdpp Require Import base gmap list strings countable sorting.
From coqutil Require Import Byte Word.LittleEndianList.
From S2P Require Import Prelude Schema SecIndex BTree Db Tables Scanner Lexer Parser ParserFacts Eval Planner IndexKeys.

(** A value as a column of the type [t] stores it: of a value of another type
    what its unused field has. *)
Definition as_col (t : Z) (v : Value) : Value := if t =? TYPE_INT64 then IntVal (vI64 v) else BytesVal (vStr v).
Lemma addVal_col t rec col v : key_type t -> addValToRecord t rec col v = Some (mkRec (rCols rec ++ [col]) (rVals rec ++ [as_col t v])).
Proof. by intros [->| ->]. Qed.
Lemma as_col_min t : key_type t -> as_col t MinValue = min_val t.
Proof. by intros [->| ->]. Qed.
Lemma as_col_max t : key_type t -> as_col t MaxValue = max_val t.
Proof. by intros [->| ->]. Qed.

(** The index of a column is the first one that begins with it. *)
Definition index_on (tdef : TableDef) (col : bytes) (i : nat) : Prop :=
  (exists cols, tIndexes tdef !! i = Some (col :: cols)) /\
  forall j cols, (j < i)%nat -> tIndexes tdef !! j = Some cols -> exists c cs, cols = c :: cs /\ c <> col.
(** The value at the other end of a scan with one condition on a column of the
    type [ct]. *)
Definition end_val (ct t : Z) (v : Value) : Value := if is_ge t then max_val ct else if is_le t then min_val ct else v.
Definition incl (t : Z) : bool := (t =? QL_CMP_GE) || (t =? QL_CMP_LE).

Inductive scans (tdef : TableDef) (req : QLScan) : span -> Prop :=
  | scans_all : sKey1 req = None -> sKey2 req = None -> scans tdef req (full_span tdef 0)
  | scans_index k1 i : sKey1 req = Some k1 -> sKey2 req = None -> nKids k1 = [] ->
      index_on tdef (nStr k1) i -> NoDup (idx_cols tdef i) -> scans tdef req (full_span tdef i)
  | scans_one k1 col lit kids i : sKey1 req = Some k1 -> sKey2 req = None -> nKids k1 = col :: lit :: kids ->
      index_on tdef (nStr col) i -> idx_cols tdef i = [nStr col] -> nType k1 ∈ cmp_types ->
      let ct := SecIndex.col_type tdef (nStr col) in let v := as_col ct (nVal lit) in wf_key_val ct v ->
      scans tdef req (ordered i [v] [end_val ct (nType k1) v] (incl (nType k1) || (nType k1 =? QL_CMP_EQ)) (nType k1 =? QL_CMP_EQ))
  | scans_two k1 k2 col1 lit1 kids1 col2 lit2 kids2 i : sKey1 req = Some k1 -> sKey2 req = Some k2 ->
      nKids k1 = col1 :: lit1 :: kids1 -> nKids k2 = col2 :: lit2 :: kids2 -> nStr col2 = nStr col1 ->
      index_on tdef (nStr col1) i -> idx_cols tdef i = [nStr col1] ->
      nType k1 <> QL_TUP -> (is_ge (nType k1) = true -> is_le (nType k2) = true) -> (is_ge (nType k2) = true -> is_le (nType k1) = true) ->
      let ct := SecIndex.col_type tdef (nStr col1) in
      let v := as_col ct (nVal lit1) in let w := as_col ct (nVal lit2) in wf_key_val ct v -> wf_key_val ct w ->
      scans tdef req (ordered i [v] [w] (incl (nType k1)) (incl (nType k2))).

Lemma first_col_index_on col : forall ixs k i, (exists cols, ixs !! i = Some (col :: cols)) ->
  (forall j cols, (j < i)%nat -> ixs !! j = Some cols -> exists c cs, cols = c :: cs /\ c <> col) ->
  first_col_index col k ixs = Ok (Some (k + Z.of_nat i)).
Proof.
  induction ixs as [|ix ixs IH]; intros k i [cols Hi] Hb; [done|]. cbn [first_col_index]. destruct i as [|i].
  - injection Hi as ->. change (index (col :: cols) 0) with (Ok col). cbn [mbind res_bind]. by rewrite decide_True, Z.add_0_r.
  - destruct (Hb 0%nat ix ltac:(lia) eq_refl) as (c & cs & -> & Hc). change (index (c :: cs) 0) with (Ok c). cbn [mbind res_bind].
    rewrite decide_False by congruence. rewrite (IH (k + 1) i); [do 2 f_equal; lia|by exists cols|]. intros j cols' Hj. apply (Hb (S j)). lia.
Qed.

Section Spans.
Context (tdef : TableDef) (p : nat) (Htd : tdef_ok tdef p) (Hp0 : (0 < p)%nat).
Context (Hprimary : head (tIndexes tdef) = Some (take p (tCols tdef))) (Htypes : Forall key_type (tTypes tdef)).

Lemma index_on_col col i : index_on tdef col i -> getColsIndex tdef [col] = Ok (Some (Z.of_nat i)) /\ (i < length (tIndexes tdef))%nat /\
  (exists cols, idx_cols tdef i = col :: cols) /\ col ∈ tCols tdef.
Proof.
  intros [Hi Hb]. split; [apply (first_col_index_on col _ 0 i Hi Hb)|]. destruct Hi as [cols Hi]. assert (Hl := Hi). apply lookup_lt_Some in Hl.
  assert (Ec : idx_cols tdef i = col :: cols) by (unfold idx_cols; by rewrite Hi). split; [done|]. split; [by eexists|].
  pose proof (cols_in tdef p Htd Hprimary i) as HF. rewrite Ec in HF. by apply list.Forall_cons in HF as [Hc _].
Qed.
Lemma end_val_wf ct t v : key_type ct -> wf_key_val ct v -> wf_key_val ct (end_val ct t v).
Proof. intros Hk. unfold end_val. destruct (is_ge t); [intros _; by apply max_val_wf|]. destruct (is_le t); [intros _; by apply min_val_wf|done]. Qed.
Lemma one_cond_recs ct colname k1 col lit kids : key_type ct -> nKids k1 = col :: lit :: kids -> nType k1 ∈ cmp_types ->
  let v := as_col ct (nVal lit) in let t := nType k1 in
  one_cond ct colname k1 = Ok (Some (mkRec [colname] [v], mkRec [colname] [end_val ct t v], incl t || (t =? QL_CMP_EQ), t =? QL_CMP_EQ)).
Proof.
  intros Hct Hk Ht v t. unfold one_cond. rewrite Hk. change (index (col :: lit :: kids) 1) with (Ok lit). cbn [mbind res_bind].
  rewrite !addVal_col by exact Hct. cbn [rCols rVals emptyRec app]. rewrite as_col_min, as_col_max by exact Hct.
  fold v. fold t. unfold end_val, incl. subst t.
  destruct (is_ge (nType k1)) eqn:Eg; [by rewrite <- ?(assoc_L orb)|]. destruct (is_le (nType k1)) eqn:El; [done|].
  assert (E : (nType k1 =? QL_CMP_EQ) = true).
  { unfold is_ge, is_le in *. unfold cmp_types in Ht. apply orb_false_iff in Eg as [Eg1 Eg2], El as [El1 El2].
    rewrite Z.eqb_neq in Eg1, Eg2, El1, El2. apply Z.eqb_eq. repeat (apply elem_of_cons in Ht as [Ht|Ht]; [congruence|]). by apply not_elem_of_nil in Ht. }
  by rewrite E.
Qed.
Lemma two_conds_recs ct colname k1 k2 col1 lit1 kids1 col2 lit2 kids2 : key_type ct ->
  nKids k1 = col1 :: lit1 :: kids1 -> nKids k2 = col2 :: lit2 :: kids2 -> nStr col2 = colname ->
  (is_ge (nType k1) = true -> is_le (nType k2) = true) -> (is_ge (nType k2) = true -> is_le (nType k1) = true) ->
  let v := as_col ct (nVal lit1) in let w := as_col ct (nVal lit2) in
  two_conds ct colname k1 k2 = Ok (Some (mkRec [colname] [v], mkRec [colname] [w], incl (nType k1), incl (nType k2))).
Proof.
  intros Hct E1 E2 Hc H1 H2 v w. unfold two_conds. rewrite E1, E2. change (index (col2 :: _) 0) with (Ok col2).
  change (index (col2 :: _) 1) with (Ok lit2). change (index (col1 :: _) 1) with (Ok lit1). cbn [mbind res_bind]. rewrite Hc, bool_decide_eq_true_2 by done.
  destruct (is_ge (nType k1)); [rewrite H1 by done|]; (destruct (is_ge (nType k2)); [rewrite H2 by done|]); cbn [negb andb];
    subst v w; by destruct Hct as [->| ->].
Qed.

(** The planner makes a scanner on the index with these bounds. *)
Definition planned {S} `{PageStore S} (fuel : nat) (s : S) (root : Z) (req : QLScan) (sp : span) : Prop :=
  span_ok tdef sp /\ exists rec1 rec2 inc1 inc2 r1 r2,
  plan fuel s root tdef req = (sc ← NewScanner fuel s root tdef rec1 rec2 inc1 inc2 (Z.of_nat (spIdx sp)); Ok (Some sc)) /\
  scan_bounds tdef rec1 rec2 inc1 inc2 (Z.of_nat (spIdx sp)) = Ok (lo_key tdef sp, hi_key tdef sp, r1, r2, spLoInc sp, spHiInc sp).
Section Planned.
Context {S} `{PageStore S} (fuel : nat) (s : S) (root : Z).
Lemma recs_planned req i vs ws inc1 inc2 : (i < length (tIndexes tdef))%nat -> NoDup (idx_cols tdef i) ->
  Forall2 wf_key_val (idx_types tdef i) vs -> Forall2 wf_key_val (idx_types tdef i) ws ->
  plan fuel s root tdef req = (sc ← NewScanner fuel s root tdef (bound_rec tdef i vs) (bound_rec tdef i ws) inc1 inc2 (Z.of_nat i); Ok (Some sc)) ->
  planned fuel s root req (ordered i vs ws inc1 inc2).
Proof.
  intros Hi Hnd Hv Hw E. destruct (bounds_ok tdef p Htd Hp0 Hprimary i vs ws inc1 inc2 Hi Hnd Hv Hw) as (Hok & Esp & r1 & r2 & Eb). split; [exact Hok|].
  exists (bound_rec tdef i vs), (bound_rec tdef i ws), inc1, inc2, r1, r2. by rewrite Esp.
Qed.
Lemma full_planned req i : (i < length (tIndexes tdef))%nat -> NoDup (idx_cols tdef i) -> idx_cols tdef i <> [] ->
  plan fuel s root tdef req = fullRangeIndexScanner fuel s root tdef (Z.of_nat i) -> planned fuel s root req (full_span tdef i).
Proof.
  intros Hi Hnd Hne E. rewrite <- (ordered_full tdef p Htd Hprimary Htypes i Hi Hne). destruct (full_wf tdef p Htd Hprimary Htypes i) as [H1 H2].
  apply recs_planned; try done. rewrite E. unfold fullRangeIndexScanner. by rstep (full_recs_ok tdef p Htd Hprimary Htypes i Hi).
Qed.
Lemma cond_planned req k1 col lit kids k2 i v w inc1 inc2 : sKey1 req = Some k1 -> sKey2 req = k2 -> nKids k1 = col :: lit :: kids ->
  index_on tdef (nStr col) i -> idx_cols tdef i = [nStr col] -> nType k1 <> QL_TUP ->
  let ct := SecIndex.col_type tdef (nStr col) in wf_key_val ct v -> wf_key_val ct w ->
  match k2 with None => one_cond ct (nStr col) k1 | Some k2 => two_conds ct (nStr col) k1 k2 end =
    Ok (Some (mkRec [nStr col] [v], mkRec [nStr col] [w], inc1, inc2)) -> planned fuel s root req (ordered i [v] [w] inc1 inc2).
Proof.
  intros Ek1 Ek2 Ekids Hon Ecol Ht ct Hv Hw E. destruct (index_on_col _ _ Hon) as (Eg & Hi & _ & Hc).
  destruct (col_has_type tdef p Htd Htypes (nStr col) Hc) as [Et _].
  assert (Hts : idx_types tdef i = [ct]) by (unfold idx_types; by rewrite Ecol).
  apply recs_planned; [done|rewrite Ecol; apply NoDup_singleton|rewrite Hts; by repeat constructor..|].
  assert (Ec : cond_scanner fuel s root tdef k1 k2 = (sc ← NewScanner fuel s root tdef (bound_rec tdef i [v]) (bound_rec tdef i [w]) inc1 inc2 (Z.of_nat i); Ok (Some sc))).
  { unfold cond_scanner, bound_rec. rewrite Ekids, Ecol. change (index (col :: _) 0) with (Ok col). cbn [mbind res_bind]. rstep Et. rstep Eg. fold ct. by rewrite E. }
  unfold plan. rewrite Ek1, Ek2, Ekids, (proj2 (Z.eqb_neq _ _) Ht). by destruct k2.
Qed.
Lemma scans_plan req sp : scans tdef req sp -> planned fuel s root req sp.
Proof.
  intros [Ek1 Ek2|k1 i Ek1 Ek2 Ekids Hon Hnd|k1 col lit kids i Ek1 Ek2 Ekids Hon Ecol Ht ct v Hv|k1 k2 col1 lit1 kids1 col2 lit2 kids2 i Ek1 Ek2 Ekids1 Ekids2 Ecol2 Hon Ecol Ht H1 H2 ct v w Hv Hw].
  - pose proof (primary_cols tdef p Hprimary) as Ec. pose proof (td_p _ _ Htd) as Hp.
    apply full_planned; [by apply (primary_lt tdef p Hp0)|rewrite Ec; eapply sublist_NoDup; [apply (td_cols _ _ Htd)|apply sublist_take]| |unfold plan; by rewrite Ek1, Ek2].
    rewrite Ec. intros E. apply (f_equal length) in E. rewrite length_take in E. cbn in E. lia.
  - destruct (index_on_col _ _ Hon) as (Eg & Hi & (cols & Ec) & _). apply full_planned; [done|done|by rewrite Ec|].
    unfold plan. rewrite Ek1, Ek2, Ekids. unfold cols_scanner. by rstep Eg.
  - destruct (index_on_col _ _ Hon) as (_ & _ & _ & Hc). destruct (col_has_type tdef p Htd Htypes (nStr col) Hc) as [_ Hct].
    apply (cond_planned req k1 col lit kids None); try done; [intros E; rewrite E in Ht; apply cmp_types_cases in Ht; naive_solver|by apply end_val_wf|].
    by apply (one_cond_recs ct (nStr col) k1 col lit kids).
  - destruct (index_on_col _ _ Hon) as (_ & _ & _ & Hc). destruct (col_has_type tdef p Htd Htypes (nStr col1) Hc) as [_ Hct].
    apply (cond_planned req k1 col1 lit1 kids1 (Some k2)); try done. by apply (two_conds_recs ct (nStr col1) k1 k2 col1 lit1 kids1 col2 lit2 kids2).
Qed.
End Planned.
End Spans.
