(* ===== verification/Listing.v ===== *)
(** * What a scan yields to a statement

    The iterator of a scan on an index stands in front of the rows of the snapshot
    between its bounds, in the order of the index, that pass the filter, less
    those an offset leaves out. *)
From Stdlib Require Import ZArith Lia Sorted.
From stdpp Require Import base gmap list strings countable sorting.
From coqutil Require Import Byte Word.LittleEndianList.
From S2P Require Import Prelude KVList Schema SecIndex BNode BTree TreeRep TreeGet TreeRoot TreeSpec TreeMap Iter Cursor Db Tables Scanner Range Lexer Parser Eval Planner Select IndexKeys TableScan Spans.

Lemma vals_cmp_refl vs : vals_cmp vs vs = Eq.
Proof. induction vs as [|v vs IH]; [done|]. cbn. unfold val_cmp. case_decide; [by rewrite Z.compare_refl|by rewrite bcmp_refl]. Qed.

Section Listing.
Context {St pages} `{PageLaws St pages}.
Context {T : Type} {holds : nat -> T -> gmap bytes bytes -> gset bytes -> Prop} `{TxLaws T holds} `{JsonVals} `{JsonTable}.
Context (tdef : TableDef) (p : nat) (Htd : tdef_ok tdef p) (Hp0 : (0 < p)%nat).
Context (Hprimary : head (tIndexes tdef) = Some (take p (tCols tdef))) (Htypes : Forall key_type (tTypes tdef)).
Context (req : QLScan) (sp : span) (Hsp : scans tdef req sp) (keep : list Value -> bool).

(** The rows an offset and a limit leave of those that pass: the offset counts
    the first row, whether it passes or not, and the limit is the position in
    the list at which it ends. *)
Definition after_offset (offset : Z) (rs : list (list Value)) : list (list Value) :=
  drop (left_out keep (Z.to_nat offset) rs) (filter (fun row => keep row = true) rs).
Definition listed (offset limit : Z) (rs : list (list Value)) : list (list Value) :=
  take (Z.to_nat (limit - offset)) (after_offset offset rs).
Lemma after_offset_sublist offset rs : after_offset offset rs `sublist_of` rs.
Proof. unfold after_offset. etransitivity; [apply sublist_drop|apply sublist_filter]. Qed.

(** The snapshot. *)
Context (h fuel n : nat) (s : St) (M : gmap Z bytes) (root : Z) (l : kvl) (rows : gmap (list Value) (list Value)).
Context (Ht : tree_any M root h l) (Hp : pages n s M) (Hu : user_kvs l) (Hroot : root <> 0) (Hfuel : (h < fuel)%nat).
Context (Hlen : (length l < fuel)%nat) (Hf64 : Z.of_nat fuel < 9223372036854775808) (Hrep : table_rep tdef p rows (kv_map l)).

(** The scan has a key to start at: one above a first bound that is not included;
    and in the first index a bound that is included, which the scan does not find otherwise. *)
Definition starts_in (l : kvl) : Prop :=
  if spLoInc sp then spIdx sp = 0%nat -> Exists (fun kv => kv.1 = lo_key tdef sp) l else Exists (fun kv => blt (lo_key tdef sp) kv.1) l.
Context (Hstart : starts_in l).

Abbreviation ent := (idx_entry tdef p (spIdx sp)).
Lemma span_scanner : exists sc L rs, plan fuel s root tdef req = Ok (Some sc) /\ scIndex sc = Z.of_nat (spIdx sp) /\ scTdef sc = tdef /\ kv_sorted L /\
  stands M root L sc (map ent rs) /\ rows_between tdef p rows sp rs /\ (length rs <= length l)%nat.
Proof.
  destruct (scans_plan tdef p Htd Hp0 Hprimary Htypes fuel s root req sp Hsp) as (Hok & rec1 & rec2 & inc1 & inc2 & r1 & r2 & Epl & Hb).
  unfold starts_in in Hstart.
  destruct (new_stands h fuel n s M root l Ht Hp Hu Hroot Hfuel tdef _ _ inc1 inc2 _ _ _ _ _ _ _ Hb) as (L & it & HsL & _ & E & Hst);
    [destruct (spLoInc sp); [by left|by right]|intros Hi0 Hi; rewrite Hi in Hstart; apply Hstart; lia|].
  set (sc := mkScanner it _ _ _ _ _ _ _ _) in *.
  destruct (scan_list tdef p Htd Hp0 Hprimary rows (kv_map l) Hrep sp Hok l sc (proj1 Hu) eq_refl eq_refl) as (rs & Ers & Hrs).
  exists sc, L, rs. rewrite Epl. rstep E. split; [done|]. rewrite Ers in Hst.
  split; [done|]. split; [done|]. split; [done|]. split; [exact Hst|]. split; [done|].
  apply (f_equal length) in Ers. rewrite length_map in Ers. rewrite <- Ers. apply length_filter.
Qed.
Lemma between_nodup rs : rows_between tdef p rows sp rs -> NoDup rs.
Proof.
  intros [Hs _]. induction Hs as [|row rs _ IH HF]; constructor; [|done]. intros Hin. rewrite list.Forall_forall in HF.
  specialize (HF row Hin). by rewrite vals_cmp_refl in HF.
Qed.
Lemma between_keys rs : rows_between tdef p rows sp rs -> NoDup (map (take p) rs).
Proof.
  intros Hrs. pose proof (between_nodup rs Hrs) as Hnd. assert (HF : Forall (has_row p rows) rs) by (apply list.Forall_forall; intros row Hr; by apply Hrs).
  clear Hrs. induction Hnd as [|row rs Hn _ IH]; [constructor|]. apply list.Forall_cons in HF as [Hr HF]. cbn. constructor; [|by apply IH].
  intros (row' & E & Hin)%list_elem_of_fmap. apply Hn. rewrite list.Forall_forall in HF. pose proof (HF row' Hin) as Hr'. unfold has_row in Hr, Hr'.
  rewrite <- (take_drop p row), E. rewrite E, Hr' in Hr. injection Hr as <-. by rewrite take_drop.
Qed.
(** The record of a row, read through its entry. *)
Abbreviation has := (has_in tdef p holds (sTable req)).
Abbreviation reads := (reads tdef p holds (sTable req)).
Lemma entry_reads i row (tx : T) : (i < length (tIndexes tdef))%nat -> row_ok tdef p row -> has tx row ->
  exists tx', kvToRecord tx tdef (idx_entry tdef p i row).1 (idx_entry tdef p i row).2 (Z.of_nat i) = Ok (tx', Some (row_rec tdef row)) /\ reads tx tx'.
Proof.
  intros Hi Hrow Hh. destruct i as [|i]; [|by apply sec_record]. exists tx. split; [by apply entry_record|reflexivity].
Qed.

(** How the filter evaluates on the rows. *)
Context (Hfilter : forall row, has_row p rows row ->
  match sFilter req with None => Ok true | Some f => QLEvalRecordBool (row_rec tdef row) f end = Ok (keep row)).
Abbreviation kept rs := (filter (fun row => keep row = true) rs).

(** What a statement does with the iterator. *)
Record span_iterator (L : kvl) (rs : list (list Value)) (tx : T) (f : qlScanFilter) : Prop := {
  fi_sorted : kv_sorted L;
  fi_at : f_at M root L fuel req ent (row_rec tdef) keep reads has tx f (after_offset (sOffset req) rs);
  fi_idx : fIdx f = sOffset req;
  fi_limit : fLimit f = sLimit req;
  fi_left : (Z.to_nat (sOffset req) + length (after_offset (sOffset req) rs) <= S (length rs))%nat
}.
Lemma span_filter : exists L rs, rows_between tdef p rows sp rs /\ (length rs <= length l)%nat /\
  forall (nn : nat) (tx : T) (m : gmap bytes bytes) (W : gset bytes), holds nn tx m W -> table_in (sTable req) tdef p rows m ->
    0 <= sOffset req <= Z.of_nat (length (kept rs)) ->
    exists tx' f, newQlScanFilter fuel s root tx req = Ok (tx', Some f) /\ holds nn tx' m W /\ span_iterator L rs tx' f.
Proof.
  destruct span_scanner as (sc & L & rs & Esc & Hix & Htdef & HsL & Hst & Hrs & Hrl). exists L, rs. split; [done|]. split; [done|].
  intros nn tx m W Hh Hin Ho. destruct (GetTableDef_spec nn tx m W _ tdef p rows Hh Hin) as (tx1 & E1 & Hh1).
  assert (HF : Forall (has_row p rows) rs) by (apply list.Forall_forall; intros row Hr; by apply Hrs).
  assert (E0 : qlScanInit fuel s root tx req = Ok (tx1, Some sc)) by (unfold qlScanInit; rstep E1; by rstep Esc).
  assert (Hread : Forall (readable_row req ent (row_rec tdef) keep reads has (scTdef sc) (scIndex sc)) rs).
  { eapply list.Forall_impl; [exact HF|]. intros row Hr. rewrite Htdef, Hix. split; [|by apply Hfilter]. intros tx0. apply entry_reads.
    - destruct (scans_plan tdef p Htd Hp0 Hprimary Htypes fuel s root req sp Hsp) as ((Hi & _) & _). exact Hi.
    - by eapply has_row_ok. }
  assert (Hhas : Forall (has tx1) rs) by (eapply list.Forall_impl; [exact HF|]; intros row Hr; by exists nn, m, W, rows).
  destruct (filter_started n s M Hp root L HsL fuel req ent (row_rec tdef) keep reads has (has_reads tdef p (sTable req)) tx tx1 sc rs E0 Hst Hread Hhas
    (between_nodup rs Hrs) ltac:(lia) Ho Hf64) as (tx2 & f & Ef & HR & Hat & Hi & Hl).
  exists tx2, f. split; [exact Ef|]. split; [by eapply HR|]. split; try done. unfold after_offset.
  rewrite length_drop. pose proof (length_filter (fun row => keep row = true) rs) as Hfl. unfold left_out.
  destruct (Z.to_nat (sOffset req)) as [|k] eqn:Eo, rs as [|row rs']; try (cbn in *; lia). destruct (keep row); lia.
Qed.
End Listing.
