(* ===== verification/Query.v ===== *)
(** * What a query does

    A select lists the rows of the snapshot between its bounds; a query runs in
    a transaction of its own, on the database as it was when the query came. *)
From Stdlib Require Import ZArith Lia Sorted.
From stdpp Require Import base gmap list strings countable sorting.
From coqutil Require Import Byte Word.LittleEndianList.
From S2P Require Import Prelude KVList Schema SecIndex BNode Disk Commit BTree TreeRep TreeGet TreeRoot TreeSpec TreeMap Iter Cursor KVStore Tx Db Tables Catalog TxTable Scanner Range Lexer Parser ParserFacts Eval Planner Exec Select IndexKeys TableScan Spans Listing.

(** ** The loop of a select *)

Section Rows.
Context {St pages} `{PageLaws St pages}.
Context (n : nat) (s : St) (M : gmap Z bytes) (Hpages : pages n s M) (root : Z) (L : kvl) (HL : kv_sorted L).
Context {T : Type} `{TxOps T} `{JsonVals} `{JsonTable}.
Context (fuel : nat) (req : QLScan) {E : Type} (ent : E -> bytes * bytes) (rec_of : E -> Rec) (pass : E -> bool).
Context (R : T -> T -> Prop) `{!PreOrder R} (has : T -> E -> Prop) (Hhas : forall tx tx' x, R tx tx' -> has tx x -> has tx' x).
Context (out : E -> option Rec).
Abbreviation f_at := (f_at M root L fuel req ent rec_of pass R has).

Lemma select_rows_spec rs : forall fl (tx : T) sc arr, f_at tx (ssIter sc) rs -> (length rs <= fl)%nat -> 0 <= fIdx (ssIter sc) ->
  fIdx (ssIter sc) + Z.of_nat (length rs) < 9223372036854775808 ->
  Forall (fun x => QLEvalOutput (rec_of x) (selOutput (ssSel sc)) (selName (ssSel sc)) = Ok (out x)) rs ->
  exists tx', select_rows fuel s root fl tx sc arr =
    Ok (tx', option_map (app arr) (mapM out (take (Z.to_nat (fLimit (ssIter sc) - fIdx (ssIter sc))) rs))) /\ R tx tx'.
Proof.
  induction rs as [|x rs IH]; intros fl tx sc arr Hat Hfl Hi Hmax HF; pose proof (f_valid M root L HL fuel req ent rec_of pass R has _ _ _ Hat) as EV.
  - exists tx. split; [|reflexivity]. destruct fl; cbn [select_rows]; unfold ssValid; rewrite EV, andb_false_r, take_nil; cbn; by rewrite app_nil_r.
  - cbn [length] in Hmax, Hfl. destruct fl as [|fl]; [lia|]. cbn [select_rows]. unfold ssValid. rewrite EV. cbn [mbind res_bind].
    rewrite bool_decide_eq_true_2, andb_true_r by done. destruct (Z.ltb_spec (fIdx (ssIter sc)) (fLimit (ssIter sc))) as [Hlt|Hge]; cbn [negb]; cycle 1.
    { exists tx. split; [|reflexivity]. replace (Z.to_nat _) with 0%nat by lia. cbn. by rewrite app_nil_r. }
    destruct (f_deref M root L HL fuel req ent rec_of pass R has Hhas tx _ x rs Hat) as (tx1 & f1 & E1 & HR1 & Hb1 & Ei1 & El1). unfold ssDeref. rstep E1. cbn [ssSel].
    apply list.Forall_cons in HF as [Ho HF]. rstep Ho.
    replace (Z.to_nat (fLimit (ssIter sc) - fIdx (ssIter sc))) with (S (Z.to_nat (fLimit (ssIter sc) - (fIdx (ssIter sc) + 1)))) by lia. cbn [take mapM].
    destruct (out x) as [rec|]; [|by exists tx1]. cbn [mbind option_bind].
    destruct (f_next n s M Hpages root L HL fuel req ent rec_of pass R has Hhas tx1 f1 x rs Hb1) as (tx2 & f2 & E2 & HR2 & Hat2 & Ei2 & El2); [rewrite Ei1; unfold in_i64; lia|].
    unfold ssNext. cbn [ssIter ssSel]. rstep E2.
    destruct (IH fl tx2 (mkScanSelect f2 (ssSel sc)) (arr ++ [rec]) Hat2) as (tx3 & E3 & HR3); cbn [ssIter ssSel]; [lia..|done|].
    exists tx3. split; [|etransitivity; [exact HR1|by etransitivity]]. rewrite E3. cbn [ssIter].
    rewrite El2, El1, Ei2, Ei1. f_equal. f_equal. match goal with |- option_map _ ?o = _ => destruct o as [recs|] end; cbn; [by rewrite <- (assoc_L app)|reflexivity].
Qed.
End Rows.

(** ** Select *)

Section Select.
Context {St pages} `{PageLaws St pages}.
Context {T : Type} {holds : nat -> T -> gmap bytes bytes -> gset bytes -> Prop} `{TxLaws T holds} `{JsonVals} `{JsonTable}.
Context (tdef : TableDef) (p : nat) (Htd : tdef_ok tdef p) (Hp0 : (0 < p)%nat).
Context (Hprimary : head (tIndexes tdef) = Some (take p (tCols tdef))) (Htypes : Forall key_type (tTypes tdef)).
Context (sel : QLSelect) (sp : span) (Hsp : scans tdef (selScan sel) sp) (keep : list Value -> bool) (out : list Value -> option Rec).

(** The snapshot, the scan, and how its filter and the output evaluate. *)
Context (h fuel n : nat) (s : St) (M : gmap Z bytes) (root : Z) (l : kvl) (rows : gmap (list Value) (list Value)).
Context (Ht : tree_any M root h l) (Hp : pages n s M) (Hu : user_kvs l) (Hroot : root <> 0) (Hfuel : (h < fuel)%nat).
Context (Hlen : (length l < fuel)%nat) (Hf64 : Z.of_nat fuel < 9223372036854775808) (Hrep : table_rep tdef p rows (kv_map l)).
Context (Hstart : starts_in tdef sp l).
Context (Hfilter : forall row, has_row p rows row ->
  match sFilter (selScan sel) with None => Ok true | Some f => QLEvalRecordBool (row_rec tdef row) f end = Ok (keep row)).
Context (Hout : forall row, has_row p rows row -> QLEvalOutput (row_rec tdef row) (selOutput sel) (selName sel) = Ok (out row)).
Abbreviation offset := (sOffset (selScan sel)).
Abbreviation limit := (sLimit (selScan sel)).

Lemma span_select : exists rs, rows_between tdef p rows sp rs /\
  forall spare (nn : nat) (tx : T) (m : gmap bytes bytes) (W : gset bytes), holds nn tx m W -> table_in (sTable (selScan sel)) tdef p rows m ->
    0 <= offset <= Z.of_nat (length (filter (fun row => keep row = true) rs)) ->
    exists tx', qlStmt fuel s root spare tx (SSelect (Some sel)) = Ok (tx', option_map RRecords (mapM out (listed keep offset limit rs))) /\ holds nn tx' m W.
Proof.
  destruct (span_filter tdef p Htd Hp0 Hprimary Htypes (selScan sel) sp Hsp keep h fuel n s M root l rows Ht Hp Hu Hroot Hfuel Hlen Hf64 Hrep Hstart Hfilter)
    as (L & rs & Hrs & Hrl & HS). exists rs. split; [done|]. intros spare nn tx m W Hh Hin Ho.
  destruct (HS nn tx m W Hh Hin Ho) as (tx1 & f & Ef & Hh1 & [HsL Hat Hi Hl Hle]).
  assert (HF : Forall (has_row p rows) (after_offset keep offset rs)).
  { apply list.Forall_forall. intros row Hr. apply Hrs. by eapply sublist_subseteq; [apply after_offset_sublist|]. }
  destruct (select_rows_spec n s M Hp root L HsL fuel (selScan sel) _ _ _ _ _ (has_reads tdef p (sTable (selScan sel))) out _ fuel tx1 (mkScanSelect f sel) [] Hat)
    as (tx2 & E2 & HR2); cbn [ssIter ssSel]; rewrite ?Hi; [lia..| |].
  - eapply list.Forall_impl; [exact HF|]. intros row Hr. by apply Hout.
  - exists tx2. split; [|by eapply HR2]. unfold qlStmt, deref, qlSelect. cbn [mbind res_bind]. rstep Ef. rstep E2. cbn [ssIter]. rewrite Hi, Hl.
    unfold listed. match goal with |- context [option_map _ ?o] => by destruct o end.
Qed.
End Select.

(** ** Queries *)

(** The orders of iteration go through all keys and pages. *)
Record env_ok (env : Env) : Prop := {
  eo_writes tx : eWrites env tx ≡ₚ elements (writes tx);
  eo_deletes tx : eDeletes env tx ≡ₚ elements (deletes tx);
  eo_pages db : ePages env db ≡ₚ map_to_list (kUpdates db)
}.
Lemma kv_holds_snapshot n h db m : kv_holds n h db m -> map_tree (pages := readable) tree_any 0 h db (kRoot db) m.
Proof.
  intros (M & l & Ht & Hp & H'). exists M, l. split; [by apply any_rep|]. split; [|done].
  split; [done|]. split; [exact (pages_zero n db M Hp)|]. intros p b Hpb. exact (pages_get n db M p b Hp Hpb).
Qed.

(** The database has the key at which a scan starts. *)
Definition starts (tdef : TableDef) (sp : span) (ms : gmap bytes bytes) : Prop :=
  if spLoInc sp then spIdx sp = 0%nat -> is_Some (ms !! lo_key tdef sp) else exists key, is_Some (ms !! key) /\ blt (lo_key tdef sp) key.
Lemma scan_parts N h db ms tdef sp name tdef' p rows `{JsonVals} `{JsonTable} : kv_holds N h db ms -> table_in name tdef' p rows ms -> starts tdef sp ms ->
  exists M l, tree_any M (kRoot db) h l /\ readable 0 db M /\ user_kvs l /\ kv_map l = ms /\ kRoot db <> 0 /\ length l = size ms /\ starts_in tdef sp l.
Proof.
  intros Hdb Hin Hst. pose proof (kv_holds_snapshot _ _ _ _ Hdb) as (M & l & Ht & Hp & Hu & Hm). exists M, l.
  do 4 (split; [done|]). split; [|split].
  - intros E. rewrite E in Ht. assert (El : l = []) by (inversion Ht; [by match goal with X : tree_rep _ 0 _ _ |- _ => inversion X end|done]).
    pose proof (ti_cat _ _ _ _ _ Hin) as Hc. by rewrite <- Hm, El in Hc.
  - rewrite <- Hm. unfold kv_map. rewrite map_size_list_to_map; [done|by apply kv_sorted_nodup, Hu].
  - unfold starts, starts_in in *. rewrite <- Hm in Hst. unfold kv_map in Hst.
    destruct (spLoInc sp); [intros Hi; destruct (Hst Hi) as [v Hv]|destruct Hst as (key & [v Hv] & Hlt)]; apply elem_of_list_to_map_2 in Hv; apply list.Exists_exists; by eexists.
Qed.

Section Query.
Context `{JsonVals} `{JsonTable} (fuel : nat) (env : Env) (Henv : env_ok env) (db : KV) (hs : nat) (ms : gmap bytes bytes).
Context (Hsnap : map_tree (pages := readable) tree_any 0 hs db (kRoot db) ms) (Hhs : (hs < fuel)%nat).
Abbreviation run := (@qlStmt KV kv_store fuel db (kRoot db) KVTX (kvtx_ops fuel db) _ _ (eSpare env)).

Lemma sets_of_tx n tx m W : kvtx_sets fuel db ms n tx m W -> writes tx = W /\ deletes tx = ∅ /\ tSnapshot tx = kRoot db.
Proof. intros Hh. split; [by eapply sets_writes|]. by destruct Hh as [(h & p & _ & _ & Hr & _) Hd]. Qed.
Lemma query_ends query p' stmt tx tx' r db' ok : PStmt fuel (new_parser query (eInput env)) = Ok (p', stmt) -> stmt <> SNil ->
  Begin db NewKVTX = Ok tx -> tSnapshot tx = kRoot db -> run tx stmt = Ok (tx', Some r) ->
  TXCommit fuel (eWrites env tx') (eDeletes env tx') (eFaults env) (ePages env) db tx' = Ok (db', ok) -> ExecuteQuery fuel env query db = Ok (db', r, ok).
Proof. intros Ep Hs Eb Hsn Er E. unfold ExecuteQuery. rstep Ep. rewrite <- Hsn in Er. destruct stmt; try done; rstep Eb; rstep Er; by rstep E. Qed.
Lemma run_query (query : bytes) (p' : Parser) (stmt : QLStmt) (n w h N : nat) (r : StmtResult) (Q : gmap bytes bytes -> Prop) : PStmt fuel (new_parser query (eInput env)) = Ok (p', stmt) -> stmt <> SNil ->
  (n < fuel)%nat -> Z.of_nat (room n 0) < 18446744073709551616 ->
  (forall tx, kvtx_sets fuel db ms n tx ms ∅ ->
    exists tx' (m : gmap bytes bytes) (W : gset bytes) (k : nat), run tx stmt = Ok (tx', Some r) /\ kvtx_sets fuel db ms k tx' m W /\ size W = w /\ Q m) ->
  kv_holds (w * (3 * (h + w) + 5) + N) h db ms -> (h + w < fuel)%nat ->
  exists db' ok m, ExecuteQuery fuel env query db = Ok (db', r, ok) /\ Q m /\ (ok = true -> leaves tree_rep N (h + w) db' m).
Proof.
  intros Ep Hs Hn Hr Hrun Hdb Hf. destruct (Begin_holds fuel db hs ms Hsnap Hhs n NewKVTX Hn Hr eq_refl) as (tx & Eb & Hh).
  destruct (sets_of_tx _ _ _ _ Hh) as (_ & _ & Hsn). destruct (Hrun tx Hh) as (tx' & m & W & k & Er & Hh' & <- & HQ).
  destruct (sets_of_tx _ _ _ _ Hh') as (Hw & Hd & _).
  pose proof (eo_writes env Henv tx') as Pw. pose proof (eo_deletes env Henv tx') as Pd. rewrite Hd, elements_empty in Pd. apply Permutation_nil_r in Pd.
  rewrite Hw in Pw. assert (Hsz : length (eWrites env tx') = size W) by (rewrite Pw; done). rewrite <- Hsz in *.
  destruct (commit_sets fuel db ms k N h tx' m W (eWrites env tx') (eFaults env) (ePages env) Hh') as (db' & ok & E & HC);
    [by rewrite Hw|done|done|apply (eo_pages env Henv)|].
  exists db', ok, m. split; [|by split]. eapply query_ends; [exact Ep|done|exact Eb|exact Hsn|exact Er|]. by rewrite Pd.
Qed.
(** A statement that deletes keys of the database, in [B] operations. *)
Lemma run_query_dels (query : bytes) (p' : Parser) (stmt : QLStmt) (B h N : nat) (r : StmtResult) (Q : gmap bytes bytes -> Prop) : PStmt fuel (new_parser query (eInput env)) = Ok (p', stmt) -> stmt <> SNil ->
  (B < fuel)%nat -> Z.of_nat (room B 0) < 18446744073709551616 ->
  (forall tx, kvtx_dels fuel db ms B B tx ms ∅ ->
    exists tx' (m : gmap bytes bytes) (W : gset bytes), run tx stmt = Ok (tx', Some r) /\ kvtx_dels fuel db ms B 0 tx' m W /\ Q m) ->
  (forall m, Q m -> m <> ∅ /\ forall d, is_Some (ms !! d) -> m !! d = None -> run_fits d (fun k => is_Some (ms !! k) \/ is_Some (m !! k)) (stored m)) ->
  kv_holds (B * (3 * (h + B) + 5) + (B * (2 * (h + B) + 2) + N)) h db ms -> (h + B < fuel)%nat ->
  exists db' ok m, ExecuteQuery fuel env query db = Ok (db', r, ok) /\ Q m /\ (ok = true -> leaves tree_any N (h + B) db' m).
Proof.
  intros Ep Hs Hn Hr Hrun HQm Hdb Hf. destruct (Begin_holds fuel db hs ms Hsnap Hhs B NewKVTX Hn Hr eq_refl) as (tx & Eb & Hh).
  destruct (sets_of_tx _ _ _ _ Hh) as (_ & _ & Hsn). apply kvtx_begun_dels in Hh. destruct (Hrun tx Hh) as (tx' & m & W & Er & Hh' & HQ).
  destruct (HQm m HQ) as [Hne Hfits].
  destruct (commit_dels fuel db ms B 0 N h tx' m W (eWrites env tx') (eDeletes env tx') (eFaults env) (ePages env) Hh') as (db' & ok & E & HC);
    [apply (eo_writes env Henv)|apply (eo_deletes env Henv)|done|done|done|done|apply (eo_pages env Henv)|].
  exists db', ok, m. split; [|by split]. by eapply query_ends.
Qed.

(** A statement that fails leaves root, counters and free list. *)
Definition undone : KV := set_free (kFree db) (set_pages (kFlushed db) 0 ∅ (set_root (kRoot db) db)).
Lemma run_query_error (query : bytes) (p' : Parser) (stmt : QLStmt) (n : nat) : PStmt fuel (new_parser query (eInput env)) = Ok (p', stmt) -> stmt <> SNil ->
  (n < fuel)%nat -> Z.of_nat (room n 0) < 18446744073709551616 -> meta_ok db ->
  (forall tx, kvtx_sets fuel db ms n tx ms ∅ -> exists tx' (m : gmap bytes bytes) (W : gset bytes) (k : nat), run tx stmt = Ok (tx', None) /\ kvtx_sets fuel db ms k tx' m W) ->
  ExecuteQuery fuel env query db = Ok (undone, RNil, false).
Proof.
  intros Ep Hs Hn Hr Hm Hrun. destruct (Begin_holds fuel db hs ms Hsnap Hhs n NewKVTX Hn Hr eq_refl) as (tx & Eb & Hh).
  destruct (sets_of_tx _ _ _ _ Hh) as (_ & _ & Hsn). destruct (Hrun tx Hh) as (tx' & m & W & k & Er & [(h & p & _ & _ & _ & Em & _) _]).
  pose proof (Abort_spec db db (tMeta tx') Hm Em) as EA. unfold ExecuteQuery. rstep Ep. rewrite <- Hsn in Er.
  destruct stmt; try done; rstep Eb; rstep Er; by rstep EA.
Qed.

Lemma size_row_keys tdef p row : tdef_ok tdef p -> size (list_to_set (row_keys tdef p row) ∪ ∅ : gset bytes) = length (tIndexes tdef).
Proof.
  intros Htd. rewrite (right_id_L ∅ (∪)), size_list_to_set by by apply row_keys_nodup.
  rewrite <- row_entries_keys, length_fmap. by apply row_entries_length.
Qed.
Lemma insert_stmt req tdef p rows row tx : insIsUpsert req = false -> populateRecord emptyRec (insValues req) (insName req) = Ok (row_rec tdef row, true) ->
  table_in (insTable req) tdef p rows ms -> row_ok tdef p row -> Forall user_kv (row_entries tdef p row) ->
  kvtx_sets fuel db ms (length (tIndexes tdef)) tx ms ∅ ->
  exists tx' m' W k, run tx (SInsert (Some req)) = Ok (tx', if decide (rows !! take p row = None) then Some RNil else None) /\ kvtx_sets fuel db ms k tx' m' W /\
    if decide (rows !! take p row = None) then W = list_to_set (row_keys tdef p row) ∪ ∅ /\
      table_in (insTable req) tdef p (<[take p row := drop p row]> rows) m' /\ forall key, ~ owned tdef key -> m' !! key = ms !! key
    else m' = ms.
Proof.
  intros Hup Epop Hin Hrow Hu Hh. pose proof (kvtx_sets_laws fuel db hs ms Hsnap Hhs) as HL.
  rewrite (plus_n_O (length (tIndexes tdef))) in Hh.
  destruct (@DBInsert_spec _ _ _ HL _ _ (insTable req) tdef p (eSpare env) 0 tx ms ∅ rows row Hh Hin) as (tx' & rec' & E & HC); [by split|].
  assert (Erun : run tx (SInsert (Some req)) = Ok (tx', if decide (rows !! take p row = None) then Some RNil else None)).
  { unfold qlStmt, deref. cbn [mbind res_bind]. rewrite Hup. unfold qlInsert. rstep Epop. cbn [negb]. rstep E. unfold done_if.
    by destruct (decide (rows !! take p row = None)) as [Hd|Hd]; [rewrite bool_decide_eq_true_2|rewrite bool_decide_eq_false_2]. }
  exists tx'. rewrite Erun. destruct (decide (rows !! take p row = None)).
  - destruct HC as (m' & Hh' & Ht' & Ho). exists m', (list_to_set (row_keys tdef p row) ∪ ∅), 0%nat. done.
  - exists ms, ∅, (length (tIndexes tdef) + 0)%nat. done.
Qed.
End Query.

Section Claims.
Context `{JsonVals} `{JsonTable}.

(** C3: An insert, from its text to the file.  On a database that has a table
    with certain rows, a query whose text parses to an insert of a row of the
    table runs through; when there is a row with the same key columns it returns
    an error and undoes the transaction, otherwise, when it reports success, the
    table has the new row as well, in the running process and in one that opens
    the file, and no other table has changed. *)
Theorem insert_query fuel env db ms query p' req tdef p rows row h N :
  env_ok env -> PStmt fuel (new_parser query (eInput env)) = Ok (p', SInsert (Some req)) -> insIsUpsert req = false ->
  populateRecord emptyRec (insValues req) (insName req) = Ok (row_rec tdef row, true) ->
  table_in (insTable req) tdef p rows ms -> row_ok tdef p row -> Forall user_kv (row_entries tdef p row) ->
  let k := length (tIndexes tdef) in
  Z.of_nat (room k 0) < 18446744073709551616 -> kv_holds (k * (3 * (h + k) + 5) + N) h db ms -> (h + k < fuel)%nat ->
  match rows !! take p row with
  | Some _ => ExecuteQuery fuel env query db = Ok (undone db, RNil, false)
  | None => exists db' ok m', ExecuteQuery fuel env query db = Ok (db', RNil, ok) /\
      (table_in (insTable req) tdef p (<[take p row := drop p row]> rows) m' /\ forall key, ~ owned tdef key -> m' !! key = ms !! key) /\
      (ok = true -> leaves tree_rep N (h + k) db' m')
  end.
Proof.
  intros Henv Ep Hup Epop Hin Hrow Hu k Hr Hdb Hf. pose proof (ti_ok _ _ _ _ _ Hin) as Htd. pose proof (kv_holds_snapshot _ _ _ _ Hdb) as Hsnap.
  assert (Hhs : (h < fuel)%nat) by lia. pose proof (insert_stmt fuel env db h ms Hsnap Hhs req tdef p rows row) as HS.
  destruct (rows !! take p row) as [rest|] eqn:Er.
  - apply (run_query_error fuel env db h ms Hsnap Hhs query p' _ k Ep); [done|lia|done| |].
    { destruct (kv_holds_meta (k * (3 * (h + k) + 5) + N) h db ms); [|done]. by apply map_tree_any. }
    intros tx Hh. destruct (HS tx Hup Epop Hin Hrow Hu Hh) as (tx' & m & W & j & E & Hh' & _). by exists tx', m, W, j.
  - apply (run_query fuel env Henv db h ms Hsnap Hhs query p' _ k k h N RNil _ Ep); [done|lia|done| |done|done].
    intros tx Hh. destruct (HS tx Hup Epop Hin Hrow Hu Hh) as (tx' & m & W & j & E & Hh' & -> & HQ). exists tx', m, (list_to_set (row_keys tdef p row) ∪ ∅), j.
    split; [done|]. split; [done|]. split; [by apply size_row_keys|done].
Qed.

(** C4: A select, from its text to its result.  A query whose text parses to a
    select returns, in the order of the index that the planner chooses, the outputs
    of the rows of the table that are between the bounds of its conditions and
    pass the filter, from the offset to the limit; it returns an error when an output does
    not evaluate, and leaves the data as it is.  Without conditions, or with the name of a
    column, the bounds are the smallest and the greatest values of the index,
    excluded.  In an index other than the first, rows whose key begins with the byte
    255 count as after a bound with their values, whether it is included or not.  This is
    provided that the database has a key at which the scan starts, and that the
    offset is within the rows. *)
Theorem select_query fuel env db ms query p' sel sp tdef p rows keep out h N :
  env_ok env -> PStmt fuel (new_parser query (eInput env)) = Ok (p', SSelect (Some sel)) -> scans tdef (selScan sel) sp ->
  table_in (sTable (selScan sel)) tdef p rows ms -> (0 < p)%nat -> head (tIndexes tdef) = Some (take p (tCols tdef)) -> Forall key_type (tTypes tdef) ->
  kv_holds N h db ms -> (h < fuel)%nat -> (size ms < fuel)%nat -> Z.of_nat fuel < 9223372036854775808 ->
  starts tdef sp ms ->
  (forall row, has_row p rows row ->
    match sFilter (selScan sel) with None => Ok true | Some f => QLEvalRecordBool (row_rec tdef row) f end = Ok (keep row)) ->
  (forall row, has_row p rows row -> QLEvalOutput (row_rec tdef row) (selOutput sel) (selName sel) = Ok (out row)) ->
  exists rs, rows_between tdef p rows sp rs /\
    (0 <= sOffset (selScan sel) <= Z.of_nat (length (filter (fun row => keep row = true) rs)) ->
     match mapM out (listed keep (sOffset (selScan sel)) (sLimit (selScan sel)) rs) with
     | Some recs => exists db' ok, ExecuteQuery fuel env query db = Ok (db', RRecords recs, ok) /\ (ok = true -> leaves tree_rep N h db' ms)
     | None => ExecuteQuery fuel env query db = Ok (undone db, RNil, false)
     end).
Proof.
  intros Henv Ep Hsp Hin Hp0 Hprim Hty Hdb Hhs Hsz Hf64 Hlast Hfil Hout. pose proof (ti_ok _ _ _ _ _ Hin) as Htd.
  pose proof (kv_holds_snapshot _ _ _ _ Hdb) as Hsnap. destruct (scan_parts _ _ _ _ _ _ _ _ _ _ Hdb Hin Hlast) as (M & l & Ht & Hp & Hu & Hm & Hr0 & Hln & Hl).
  pose proof (ti_rep _ _ _ _ _ Hin) as Hrep. rewrite <- Hm in Hrep. pose proof (kvtx_sets_laws fuel db h ms Hsnap Hhs) as HL.
  destruct (@span_select KV readable _ readable_laws _ _ _ HL _ _ tdef p Htd Hp0 Hprim Hty sel sp Hsp keep out h fuel 0 db M (kRoot db) l rows
    Ht Hp Hu Hr0 Hhs ltac:(lia) Hf64 Hrep Hl Hfil Hout) as (rs & Hrs & HS).
  exists rs. split; [done|]. intros Ho. pose proof (fun tx Hh => HS (eSpare env) 0%nat tx ms ∅ Hh Hin Ho) as HR.
  destruct (mapM out _) as [recs|].
  - destruct (run_query fuel env Henv db h ms Hsnap Hhs query p' (SSelect (Some sel)) 0 0 h N (RRecords recs) (eq ms) Ep) as (db' & ok & m & E & <- & HC);
      [done|lia|done| |done|lia|].
    + intros tx Hh. destruct (HR tx Hh) as (tx' & E & Hh'). exists tx', ms, ∅, 0%nat. done.
    + exists db', ok. split; [exact E|]. by rewrite Nat.add_0_r in HC.
  - apply (run_query_error fuel env db h ms Hsnap Hhs query p' (SSelect (Some sel)) 0 Ep); [done|lia|done| |].
    + by destruct (kv_holds_meta N h db ms) as [Hmeta _]; [apply map_tree_any|].
    + intros tx Hh. destruct (HR tx Hh) as (tx' & E & Hh'). by exists tx', ms, ∅, 0%nat.
Qed.

(** A query the parser rejects takes the process down.  The functions that
    parse a statement return a typed nil pointer on a syntax error before the
    last clause; [ExecuteQuery] compares an interface with nil, which such a
    pointer is not, and runs the statement: it panics.  So does every select
    whose [from] is missing. *)
Theorem syntax_error_panics fuel env query db p' stmt :
  PStmt fuel (new_parser query (eInput env)) = Ok (p', stmt) ->
  (stmt = SSelect None \/ stmt = SUpdate None \/ stmt = SDelete None \/ stmt = SInsert None \/ stmt = SCreateTable None) ->
  ExecuteQuery fuel env query db = Crash NilDereference.
Proof.
  intros Ep Hs. destruct (Begin_spec db) as (meta & _ & HB). destruct (HB NewKVTX eq_refl) as (tx & Eb & _).
  unfold ExecuteQuery. rstep Ep. destruct Hs as [->|[->|[->|[->| ->]]]]; by rstep Eb.
Qed.
End Claims.

(** ** Instances: the table of people, and a query that inserts Ann *)

#[local] Existing Instances bits_json people_json.
Definition demo_env : Env := mkEnv (fun tx => elements (writes tx)) (fun tx => elements (deletes tx)) to_list [] 0 [].
Lemma demo_env_ok : env_ok demo_env.
Proof. by split. Qed.
Definition def_entry : bytes * bytes := (def_key (gostr "people"), def_val people).
Definition bare_people : gmap bytes bytes := {[def_key (gostr "people") := def_val people]}.
Lemma people_in : table_in (gostr "people") people 1 ∅ bare_people.
Proof.
  split; [exact people_td|exact people_wf|by split|apply lookup_singleton_eq|apply (bool_decide_eq_false (2 ∈ tPrefixes people)); reflexivity|].
  split; [done|]. intros key v (q & rest & Hq & ->). split; [|by intros (pk & rest' & Hr & _)]. unfold bare_people. intros [E _]%lookup_singleton_Some. exfalso.
  apply app_inj_1 in E as [E _]; [|by rewrite !length_be_split].
  assert (H3 : 3 <= q < 6) by (cbn in Hq; apply elem_of_seqZ in Hq; lia). apply (be_split_inj 4) in E; lia.
Qed.
Definition ann_rows : gmap (list Value) (list Value) := <[take 1 ann := drop 1 ann]> ∅.
Definition ann_people : gmap bytes bytes := set_entries (row_entries people 1 ann) bare_people.
Lemma ann_in : table_in (gostr "people") people 1 ann_rows ann_people.
Proof.
  destruct people_in as [Htd Hwf Hn Hc Ha Hrep]. split; [done..| |done|].
  - unfold ann_people. rewrite set_entries_other; [done|]. rewrite row_entries_keys. by apply def_key_free.
  - apply (table_rep_insert people 1 people_td ∅ bare_people (take 1 ann) (drop 1 ann) Hrep); [done|done|exact ann_row].
Qed.
Lemma size_set_entries (es : list (bytes * bytes)) : forall m : gmap bytes bytes, (size (set_entries es m) <= length es + size m)%nat.
Proof.
  induction es as [|kv es IH]; intros m; [done|]. cbn [length]. change (set_entries (kv :: es) m) with (set_entries es (<[kv.1 := kv.2]> m)).
  pose proof (IH (<[kv.1 := kv.2]> m)) as Hs. assert (Hi : (size (<[kv.1 := kv.2]> m) <= S (size m))%nat) by (rewrite map_size_insert; destruct (m !! kv.1); cbn; lia). lia.
Qed.

(** Databases with these maps. *)
Lemma demo_db es : (length es <= 10)%nat -> Forall user_kv ((def_key (gostr "people"), def_val people) :: es) ->
  exists db h, kv_holds 4800 h db (set_entries es bare_people) /\ (h <= 11)%nat.
Proof.
  intros Hl Hu. destruct (KVSets_spec 60 ((def_key (gostr "people"), def_val people) :: es) 4800 0 new_db ∅) as (db & h & _ & Hdb & Hh);
    [apply new_db_holds; cbn [length]; nia|done|cbn [length]; lia|].
  exists db, h. cbn [length] in Hh. split; [exact Hdb|lia].
Qed.

Definition ann_query : bytes := gostr "insert into people (id, name, age) values (7, ann, 30);".
Definition ann_req : QLInsert :=
  mkInsert (gostr "people") [gostr "id"; gostr "name"; gostr "age"] [mkNode (IntVal 7) []; mkNode (BytesVal (gostr "ann")) []; mkNode (IntVal 30) []] false.
Lemma ann_parses : exists p', PStmt 60 (new_parser ann_query []) = Ok (p', SInsert (Some ann_req)).
Proof. eexists. vm_compute. reflexivity. Qed.
Lemma insert_query_witness : exists db h db' ok m', kv_holds 4800 h db bare_people /\ ExecuteQuery 60 demo_env ann_query db = Ok (db', RNil, ok) /\
  table_in (gostr "people") people 1 ann_rows m'.
Proof.
  destruct (demo_db [] ltac:(cbn; lia)) as (db & h & Hdb & Hh); [apply list.Forall_singleton; apply fits; by vm_compute|].
  destruct ann_parses as (p' & Ep).
  pose proof (insert_query 60 demo_env db bare_people ann_query p' ann_req people 1 ∅ ann h 0 demo_env_ok Ep eq_refl eq_refl people_in ann_row ann_fits) as HI.
  cbn zeta in HI. change (length (tIndexes people)) with 3%nat in HI. rewrite lookup_empty in HI.
  destruct HI as (db' & ok & m' & E & [Ht _] & _); [done|eapply kv_holds_mono; [|exact Hdb]; lia|lia|].
  exists db, h, db', ok, m'. exact (conj Hdb (conj E Ht)).
Defined.

Lemma ann_only row : has_row 1 ann_rows row -> row = ann.
Proof.
  unfold has_row, ann_rows. intros [[E1 E2]|[_ Hr]]%lookup_insert_Some; [|done].
  rewrite <- (take_drop 1 row), <- E1, <- E2. reflexivity.
Qed.
Lemma ann_db : exists db h, kv_holds 4800 h db ann_people /\ (h <= 11)%nat /\ (size ann_people <= 4)%nat.
Proof.
  destruct (demo_db (row_entries people 1 ann) ltac:(rewrite (row_entries_length people 1 people_td); cbn; lia)) as (db & h & Hdb & Hh).
  { apply list.Forall_cons. split; [apply fits; by vm_compute|exact ann_fits]. }
  exists db, h. split; [done|]. split; [done|].
  pose proof (size_set_entries (row_entries people 1 ann) bare_people) as Hsz. change (size ann_people <= 3 + size bare_people)%nat in Hsz.
  unfold bare_people in Hsz. by rewrite map_size_singleton in Hsz.
Qed.
Lemma people_types : Forall key_type (tTypes people).
Proof. repeat constructor; done. Qed.
Lemma ann_found sp i : spLoInc sp = false -> (i < 3)%nat -> blt (lo_key people sp) (idx_key people 1 i ann) -> starts people sp ann_people.
Proof.
  intros E Hi Hlt. unfold starts. rewrite E. exists (idx_key people 1 i ann). split; [|done]. exists (idx_entry people 1 i ann).2.
  apply (has_row_stored people 1 people_td ann_rows ann_people (ti_rep _ _ _ _ _ ann_in) i ann); [done|]. apply lookup_insert_eq.
Qed.
Lemma ann_between rs sp : in_span people 1 sp ann -> rows_between people 1 ann_rows sp rs -> rs = [ann].
Proof.
  intros Hsp [Hs Hel]. assert (Hall : forall row, row ∈ rs -> row = ann) by (intros row Hin; by apply ann_only, Hel).
  assert (Hann : ann ∈ rs) by (apply Hel; split; [apply lookup_insert_eq|exact Hsp]).
  destruct rs as [|r1 [|r2 rs]]; [by apply not_elem_of_nil in Hann|by rewrite (Hall r1) by by left|].
  apply StronglySorted_inv in Hs as [_ Hf]. apply list.Forall_cons in Hf as [Hlt _].
  rewrite (Hall r1), (Hall r2) in Hlt by (by left || by right; left). rewrite vals_cmp_refl in Hlt. discriminate Hlt.
Qed.
(** A condition on a secondary index. *)
Definition some_query : bytes := gostr "select * from people index by name >= adam;".
Definition str_node (s : string) : QLNode := mkNode (BytesVal (gostr s)) [].
Definition some_cond : QLNode := mkNode (valWithType QL_CMP_GE) [str_node "name"; str_node "adam"].
Definition some_scan : QLScan := mkScan (gostr "people") (Some some_cond) None None 0 MaxInt64.
Definition some_span : span := mkSpan 1 [BytesVal (gostr "adam")] [max_val TYPE_BYTES] true false.
Lemma some_scans : scans people some_scan some_span.
Proof.
  apply (scans_one people some_scan some_cond (str_node "name") (str_node "adam") [] 1); try done.
  - split; [by eexists|]. intros [|j] cols Hj Ec; [vm_compute in Ec; injection Ec as <-; by eexists _, _|lia].
  - by apply (bool_decide_eq_true (QL_CMP_GE ∈ cmp_types)).
  - by constructor.
Qed.
Definition some_req : QLSelect := mkSelect some_scan [gostr "*"] [].
Lemma some_parses : exists p', PStmt 60 (new_parser some_query []) = Ok (p', SSelect (Some some_req)).
Proof. eexists. vm_compute. reflexivity. Qed.
Lemma select_query_witness : exists db h db' ok, kv_holds 4800 h db ann_people /\
  ExecuteQuery 60 demo_env some_query db = Ok (db', RRecords [row_rec people ann], ok).
Proof.
  destruct ann_db as (db & h & Hdb & Hh & Hsz). destruct some_parses as (p' & Ep).
  destruct (select_query 60 demo_env db ann_people some_query p' some_req some_span people 1 ann_rows (fun _ => true) (fun row => Some (row_rec people row)) h 4800
    demo_env_ok Ep some_scans ann_in ltac:(lia) eq_refl people_types) as (rs & Hrs & HE).
  - exact Hdb.
  - lia.
  - lia.
  - lia.
  - done.
  - done.
  - done.
  - assert (Hin : in_span people 1 some_span ann) by (split; by vm_compute).
    pose proof (ann_between rs some_span Hin Hrs) as ->. clear Hin Hrs. cbn in HE. destruct HE as (db' & ok & E & _); [lia|].
    exists db, h, db', ok. exact (conj Hdb E).
Defined.
Lemma syntax_error_panics_witness : ExecuteQuery 5 demo_env (gostr "select * people;") new_db = Crash NilDereference.
Proof.
  assert (Ep : exists p', PStmt 5 (new_parser (gostr "select * people;") []) = Ok (p', SSelect None)) by (eexists; vm_compute; reflexivity).
  destruct Ep as [p' Ep]. apply (syntax_error_panics 5 demo_env (gostr "select * people;") new_db p' (SSelect None) Ep). by left.
Defined.
