(* ===== verification/Modify.v ===== *)
(** * What a delete and an update do

    Statements that change the rows a scan on an index lists: how many rows a
    delete removes and which, and what an update makes of a row, in the transaction
    they run in and, as queries, in the file. *)
From Stdlib Require Import ZArith Lia Sorted.
From stdpp Require Import base gmap list strings countable sorting.
From coqutil Require Import Byte Word.LittleEndianList.
From S2P Require Import Prelude KVList Schema SecIndex BNode Disk Commit BTree TreeRep TreeGet TreeRoot TreeSpec TreeMap Iter Cursor KVStore Tx Db Tables Catalog TxTable Scanner Range Lexer Parser ParserFacts Eval Planner Exec Select IndexKeys TableScan Spans Listing Query.

(** ** Records as association lists *)

Lemma find_col_shift cols col : forall i k, find_col cols col (i + k) = (fun j => (j + k)%nat) <$> find_col cols col i.
Proof.
  induction cols as [|c cols IH]; intros i k; [done|]. cbn [find_col]. case_decide; [done|]. apply (IH (S i) k).
Qed.
Lemma Get_nil vs col : Get (mkRec [] vs) col = Ok None.
Proof. done. Qed.
Lemma Get_cons c cols v vs col : Get (mkRec (c :: cols) (v :: vs)) col = if decide (c = col) then Ok (Some v) else Get (mkRec cols vs) col.
Proof.
  unfold Get, GetIdx. cbn [rCols rVals find_col]. case_decide; [done|]. change 1%nat with (0 + 1)%nat. rewrite (find_col_shift cols col 0 1).
  destruct (find_col cols col 0) as [j|]; [|done]. cbn [fmap option_fmap option_map].
  rewrite Nat.add_1_r. destruct (vs !! j) as [w|] eqn:E.
  - by rewrite (index_Ok (v :: vs) (S j) w), (index_Ok vs j w).
  - apply lookup_ge_None in E. by rewrite !index_out by (cbn [length]; lia).
Qed.
Lemma Get_app cols1 : forall vs1 cols2 vs2 col, length cols1 = length vs1 -> Get (mkRec (cols1 ++ cols2) (vs1 ++ vs2)) col =
  if decide (col ∈ cols1) then Get (mkRec cols1 vs1) col else Get (mkRec cols2 vs2) col.
Proof.
  induction cols1 as [|c cols1 IH]; intros [|v vs1] cols2 vs2 col Hl; try done.
  injection Hl as Hl. cbn [app]. rewrite !Get_cons. destruct (decide (c = col)) as [->|Hc]; [by rewrite decide_True by by left|].
  rewrite (IH _ _ _ _ Hl). destruct (decide (col ∈ cols1)); [by rewrite decide_True by by right|].
  rewrite decide_False; [done|]. rewrite elem_of_cons. by intros [->|].
Qed.
Lemma Get_map (f : bytes -> Value) cols col : Get (mkRec cols (map f cols)) col = if decide (col ∈ cols) then Ok (Some (f col)) else Ok None.
Proof.
  induction cols as [|c cols IH]; [by rewrite decide_False by apply not_elem_of_nil|]. cbn [map]. rewrite Get_cons, IH.
  destruct (decide (c = col)) as [->|Hc]; [by rewrite decide_True by by left|].
  destruct (decide (col ∈ cols)); [by rewrite decide_True by by right|]. rewrite decide_False; [done|]. rewrite elem_of_cons. by intros [->|].
Qed.
Lemma Get_in cols : forall vs col, length cols = length vs -> col ∈ cols -> exists v, v ∈ vs /\ Get (mkRec cols vs) col = Ok (Some v).
Proof.
  induction cols as [|c cols IH]; intros [|v vs] col Hl Hin; try done; [by apply not_elem_of_nil in Hin|].
  injection Hl as Hl. rewrite Get_cons. case_decide as Hc; [exists v; split; [by left|done]|].
  apply elem_of_cons in Hin as [->|Hin]; [done|]. destruct (IH vs col Hl Hin) as (w & Hw & E). exists w. split; [by right|done].
Qed.

(** ** The columns of an update *)

Lemma keep_cols cols : forall names values, NoDup cols -> foldl keep_col (names, values) cols =
  (names ++ filter (fun c => c ∉ names) cols, values ++ map (fun c => mkNode (mkValue QL_SYM 0 c) []) (filter (fun c => c ∉ names) cols)).
Proof.
  induction cols as [|c cols IH]; intros names values Hnd; [by rewrite !app_nil_r|]. apply list.NoDup_cons in Hnd as [Hc Hnd]. cbn [foldl keep_col].
  destruct (decide (c ∈ names)) as [Hin|Hin]; [by rewrite IH, filter_cons_False by (done || by intros Hn)|].
  rewrite IH, filter_cons_True by done. cbn [map]. rewrite <- !(assoc_L app). cbn [app].
  rewrite (list_filter_ext (fun x => x ∉ names ++ [c]) (fun x => x ∉ names) cols); [done|]. intros x Hx.
  rewrite not_elem_of_app, list_elem_of_singleton. split; [by intros [Hn _]|]. intros Hn. split; [done|]. by intros ->.
Qed.

(** Expressions that have values make the record of these values. *)
Lemma outputs_eval rec es ws : Forall2 (outputs rec) es ws -> forall names i out, (i + length es <= length names)%nat ->
  eval_outputs rec es names i out = Ok (Some (mkRec (rCols out ++ take (length es) (drop i names)) (rVals out ++ ws))).
Proof.
  induction 1 as [|e w es ws (v & Hv & Ho) _ IH]; intros names i out Hi; cbn [eval_outputs length] in *; [by rewrite !app_nil_r; destruct out|].
  apply evals_qlEval in Hv. rewrite Hv. unfold value_ctx. cbn [mbind res_bind cErr cOut]. destruct (lookup_lt_is_Some_2 names i) as [x Hx]; [lia|].
  assert (Hn : index names (Z.of_nat i) = Ok x) by (by apply index_Ok).
  unfold out_value in Ho. destruct ((vType v =? QL_BOOL) || (vType v =? QL_I64)).
  - injection Ho as <-. rstep Hn. rewrite IH by lia. cbn [AddI64 rCols rVals]. rewrite (drop_S _ _ _ Hx), <- !(assoc_L app). done.
  - destruct (vType v =? QL_STR); [|done]. injection Ho as <-. rstep Hn. rewrite IH by lia. cbn [AddStr rCols rVals].
    rewrite (drop_S _ _ _ Hx), <- !(assoc_L app). done.
Qed.

(** ** The row an update makes *)

Section NewRow.
Context (tdef : TableDef) (p : nat) (Htd : tdef_ok tdef p) (names : list bytes).

(** The value of a column: the expression the statement has for it, or the old
    value. *)
Definition new_col (ws row : list Value) (col : bytes) : Value :=
  match Get (mkRec names ws) col with Ok (Some w) => w | _ => col_val tdef row col end.
Definition new_row (ws row : list Value) : list Value := zip_with (fun col t => as_col t (new_col ws row col)) (tCols tdef) (tTypes tdef).

Lemma reorder_cols rec (g : bytes -> Value) cols : forall ts k cs vs, Forall key_type ts -> drop k (tTypes tdef) = ts -> length ts = length cols ->
  Forall (fun col => Get rec col = Ok (Some (g col))) cols ->
  foldM (reorder_col tdef rec) (Some (mkRec cs vs)) (imap (fun i col => ((k + i)%nat, col)) cols) =
    Ok (Some (mkRec (cs ++ cols) (vs ++ zip_with (fun col t => as_col t (g col)) cols ts))).
Proof.
  induction cols as [|col cols IH]; intros ts k cs vs Hts Hk Hl HG; [by rewrite !app_nil_r|].
  destruct ts as [|t ts]; [done|]. apply list.Forall_cons in Hts as [Ht Hts]. apply list.Forall_cons in HG as [Hg HG]. injection Hl as Hl.
  rewrite imap_cons. cbn [foldM reorder_col]. rewrite Nat.add_0_r.
  assert (Hi : tTypes tdef !! k = Some t) by (rewrite <- (Nat.add_0_r k), <- lookup_drop, Hk; done). rstep (index_Ok _ _ _ Hi).
  assert (Hd : drop (S k) (tTypes tdef) = ts) by (by rewrite <- Nat.add_1_r, <- drop_drop, Hk).
  rewrite Hg. rewrite (imap_ext _ (fun i c => ((S k + i)%nat, c))) by (intros i x _; cbn; f_equal; lia).
  pose proof (fun vs => IH ts (S k) (cs ++ [col]) vs Hts Hd Hl HG) as E. cbn in E. destruct Ht as [->| ->]; cbn; unfold AddStr, AddI64; cbn;
    rewrite E; by rewrite <- !(assoc_L app).
Qed.

Context (row : list Value) (Hrow : row_ok tdef p row) (es : list QLNode) (ws : list Value).
Context (Hes : Forall2 (outputs (row_rec tdef row)) es ws) (Hlen : length es = length names) (Hstar : gostr "*" ∉ names ++ tCols tdef).
Abbreviation others := (filter (fun c => c ∉ names) (tCols tdef)).

Lemma Get_row col : col ∈ tCols tdef -> Get (row_rec tdef row) col = Ok (Some (col_val tdef row col)) /\ built (col_val tdef row col).
Proof.
  intros Hc. unfold Get, GetIdx, row_rec, col_val. cbn [rCols rVals]. destruct (find_col_in _ _ 0 Hc) as [j Hj]. rewrite Hj.
  destruct (find_col_Some _ _ _ _ Hj) as [_ Hcj]. rewrite Nat.sub_0_r in Hcj. apply lookup_lt_Some in Hcj.
  rewrite <- (row_length tdef p Htd row Hrow) in Hcj. apply lookup_lt_is_Some in Hcj as [v Hv]. rewrite (index_Ok _ _ _ Hv), Hv.
  split; [done|]. pose proof (wf_built _ _ (proj1 Hrow)) as Hb. rewrite list.Forall_lookup in Hb. by eapply Hb.
Qed.
Lemma kept_outputs cols : Forall (fun c => c ∈ tCols tdef) cols ->
  Forall2 (outputs (row_rec tdef row)) (map (fun c => mkNode (mkValue QL_SYM 0 c) []) cols) (map (col_val tdef row) cols).
Proof.
  induction 1 as [|c cols Hc _ IH]; [constructor|]. cbn [map]. constructor; [|done]. destruct (Get_row c Hc) as [E Hb].
  exists (col_val tdef row c). split; [by apply ev_sym|]. by destruct Hb as [[b ->]|[i ->]].
Qed.
Lemma new_record : QLEvalOutput (row_rec tdef row) (es ++ map (fun c => mkNode (mkValue QL_SYM 0 c) []) others) (names ++ others) =
  Ok (Some (mkRec (names ++ others) (ws ++ map (col_val tdef row) others))).
Proof.
  assert (Hk : Forall (fun c => c ∈ tCols tdef) others) by (apply list.Forall_forall; intros c; by intros [_ Hc]%list_elem_of_filter).
  pose proof (outputs_eval _ _ _ (Forall2_app Hes (kept_outputs _ Hk)) (names ++ others) 0 emptyRec) as E.
  rewrite drop_0, take_ge in E by (rewrite !length_app, length_map; lia). specialize (E ltac:(rewrite !length_app, length_map; lia)).
  unfold QLEvalOutput. destruct (names ++ others) as [|c cs] eqn:Ec; [exact E|]. rewrite bool_decide_eq_false_2; [exact E|].
  intros ->. apply Hstar. assert (Hin : gostr "*" ∈ names ++ others) by (rewrite Ec; by left).
  apply elem_of_app in Hin as [Hin|[_ Hin]%list_elem_of_filter]; apply elem_of_app; tauto.
Qed.
Lemma new_reordered : Forall key_type (tTypes tdef) ->
  reorder tdef (mkRec (names ++ others) (ws ++ map (col_val tdef row) others)) = Ok (Some (row_rec tdef (new_row ws row))).
Proof.
  intros Ht. unfold reorder, row_rec, new_row. rewrite (imap_ext pair (fun i c => ((0 + i)%nat, c))) by done. unfold emptyRec.
  rewrite (reorder_cols _ (new_col ws row) _ (tTypes tdef)); try done; [by apply (td_types _ _ Htd)|].
  apply Forall2_length in Hes. apply list.Forall_forall. intros col Hc. rewrite Get_app by lia. unfold new_col.
  destruct (decide (col ∈ names)) as [Hn|Hn]; [destruct (Get_in names ws col ltac:(lia) Hn) as (w & _ & E); by rewrite !E|].
  rewrite Get_map, decide_True by by apply list_elem_of_filter.
  pose proof (Get_app names ws [] [] col ltac:(lia)) as E. rewrite !app_nil_r, decide_False in E by done. by rewrite E.
Qed.
End NewRow.

(** ** The tables after the statements *)

Section Maps.
Context (p : nat).
Abbreviation rowmap := (gmap (list Value) (list Value)).
(** A table without certain rows, and one with what an update makes of them. *)
Definition without (ds : list (list Value)) (rows : rowmap) : rowmap := filter (fun kv => kv.1 ∉ map (take p) ds) rows.
Definition updated (upd : list Value -> list Value) (ds : list (list Value)) (rows : rowmap) : rowmap :=
  map_imap (fun pk rest => Some (if decide (pk ∈ map (take p) ds) then drop p (upd (pk ++ rest)) else rest)) rows.

Lemma without_lookup ds rows pk : without ds rows !! pk = if decide (pk ∈ map (take p) ds) then None else rows !! pk.
Proof.
  unfold without. rewrite map_lookup_filter. destruct (rows !! pk); cbn; [|by case_decide].
  case_decide as Hd; [by rewrite option_guard_False by (intros Hn; by apply Hn)|by rewrite option_guard_True].
Qed.
Lemma without_nil rows : without [] rows = rows.
Proof. apply map_eq. intros pk. by rewrite without_lookup, decide_False by apply not_elem_of_nil. Qed.
Lemma without_cons row ds rows : without (row :: ds) rows = without ds (delete (take p row) rows).
Proof.
  apply map_eq. intros pk. rewrite !without_lookup. cbn [map]. destruct (decide (pk = take p row)) as [->|Hne].
  - rewrite decide_True by by left. rewrite lookup_delete_eq. by case_decide.
  - rewrite lookup_delete_ne by done. apply decide_ext. rewrite elem_of_cons. naive_solver.
Qed.
Lemma updated_nil upd rows : updated upd [] rows = rows.
Proof.
  apply map_eq. intros pk. unfold updated. rewrite map_lookup_imap. destruct (rows !! pk); [|done]. cbn. by rewrite decide_False by apply not_elem_of_nil.
Qed.
Lemma updated_cons upd row ds rows : has_row p rows row -> take p row ∉ map (take p) ds ->
  updated upd (row :: ds) rows = updated upd ds (<[take p row := drop p (upd row)]> rows).
Proof.
  intros Hr Hn. apply map_eq. intros pk. unfold updated. rewrite !map_lookup_imap. cbn [map]. destruct (decide (pk = take p row)) as [->|Hne].
  - rewrite lookup_insert_eq, Hr. cbn. by rewrite decide_True, decide_False, take_drop by (done || by left).
  - rewrite lookup_insert_ne by done. destruct (rows !! pk); [|done]. cbn. f_equal. apply decide_ext. rewrite elem_of_cons. naive_solver.
Qed.
Lemma has_row_other rows row row' rest : has_row p rows row -> take p row <> take p row' -> has_row p (<[take p row' := rest]> rows) row /\
  has_row p (delete (take p row') rows) row.
Proof. intros Hr Hne. unfold has_row. by rewrite lookup_insert_ne, lookup_delete_ne by done. Qed.
Lemma has_row_keys rows row row' : has_row p rows row -> has_row p rows row' -> take p row = take p row' -> row = row'.
Proof.
  unfold has_row. intros Hr Hr' E. rewrite <- (take_drop p row), <- (take_drop p row'), E. f_equal. rewrite E in Hr. congruence.
Qed.
End Maps.

(** ** The keys of a table *)

Section Keys.
Context `{JsonVals} (tdef : TableDef) (p : nat) (Htd : tdef_ok tdef p).
(** The keys of the rows, in all indexes. *)
Definition key_in (rows : gmap (list Value) (list Value)) (k : bytes) : Prop := exists pk rest, rows !! pk = Some rest /\ k ∈ row_keys tdef p (pk ++ rest).

#[export] Instance owned_dec key : Decision (owned tdef key).
Proof.
  refine (cast_if (decide (take 4 key ∈ map (be_split 4) (tPrefixes tdef)))).
  - match goal with X : _ |- _ => apply list_elem_of_fmap in X as (q & E & Hq) end. exists q, (drop 4 key). by rewrite <- E, take_drop.
  - intros (q & rest & Hq & ->). match goal with X : _ ∉ _ |- _ => apply X end. rewrite take_app_length' by by rewrite length_be_split.
    by apply list_elem_of_fmap_2.
Defined.
Lemma key_stored rows m k : table_rep tdef p rows m -> owned tdef k -> is_Some (m !! k) <-> key_in rows k.
Proof.
  intros [HR HM] Ho. split.
  - intros [v (pk & rest & Hr & Hin)%(HM k v Ho)]. exists pk, rest. split; [done|]. by eapply entry_key.
  - intros (pk & rest & Hr & Hin). rewrite <- row_entries_keys in Hin. apply list_elem_of_fmap in Hin as ([k' v] & -> & Hin).
    exists v. apply HM; [done|]. by exists pk, rest.
Qed.
Lemma key_in_owned rows k : key_in rows k -> owned tdef k.
Proof. intros (pk & rest & _ & Hin). by eapply (row_keys_owned tdef p Htd). Qed.

(** What is stored when the rows have changed and nothing else. *)
Context (rows rows' : gmap (list Value) (list Value)) (ms m : gmap bytes bytes).
Context (Hms : table_rep tdef p rows ms) (Hm : table_rep tdef p rows' m) (Ho : forall key, ~ owned tdef key -> m !! key = ms !! key).
Lemma stored_after k : is_Some (m !! k) <-> is_Some (ms !! k) /\ ~ key_in rows k \/ key_in rows' k.
Proof.
  destruct (decide (owned tdef k)) as [Hk|Hk].
  - rewrite (key_stored rows' m k Hm Hk), (key_stored rows ms k Hms Hk). tauto.
  - rewrite (Ho k Hk). pose proof (key_in_owned rows k). pose proof (key_in_owned rows' k). tauto.
Qed.
(** Of the keys there before or after, those that follow a key that goes, up to
    the next that is there after, are not longer than it. *)
Definition rows_fit : Prop := forall d, key_in rows d -> ~ key_in rows' d ->
  run_fits d (fun k => is_Some (ms !! k) \/ key_in rows' k) (fun q => is_Some (ms !! q) /\ ~ key_in rows q \/ key_in rows' q).
Lemma rows_fit_deleted d : rows_fit -> is_Some (ms !! d) -> m !! d = None -> run_fits d (fun k => is_Some (ms !! k) \/ is_Some (m !! k)) (stored m).
Proof.
  intros HF Hd Hn. assert (Hn' : ~ is_Some (m !! d)) by (rewrite Hn; by intros []). rewrite stored_after in Hn'.
  destruct (decide (owned tdef d)) as [Hod|Hod]; [|rewrite <- (Ho d Hod) in Hd; rewrite Hn in Hd; by destruct Hd].
  eapply run_fits_mono; [| |apply HF]; [intros k Hk; rewrite stored_after in Hk; tauto|intros q; by rewrite stored_after|by apply (key_stored rows ms)|tauto].
Qed.
End Keys.

(** ** The loops *)

Section Loops.
Context {St pages} `{PageLaws St pages}.
Context (n : nat) (s : St) (M : gmap Z bytes) (Hpages : pages n s M) (root : Z) (L : kvl) (HL : kv_sorted L).
Context {T : Type} {holds : nat -> T -> gmap bytes bytes -> gset bytes -> Prop} `{TxLaws T holds} `{JsonVals} `{JsonTable} `{!TxDelLaws T holds}.
Context (name : bytes) (tdef : TableDef) (p : nat) (Htd : tdef_ok tdef p) (fuel : nat) (req : QLScan) (ent : list Value -> bytes * bytes) (keep : list Value -> bool).
Abbreviation has := (has_in tdef p holds name).
Abbreviation f_at := (f_at M root L fuel req ent (row_rec tdef) keep (reads tdef p holds name) has).
Abbreviation changed := (@changed T holds _ _ name tdef p).
Abbreviation indexes := (length (tIndexes tdef)).

(** The rows still listed, in the transaction as it is. *)
Record listing (k : nat) (tx : T) (f : qlScanFilter) (m : gmap bytes bytes) (W : gset bytes) (rows : gmap (list Value) (list Value)) (rs : list (list Value)) : Prop := {
  ls_at : f_at tx f rs;
  ls_idx : 0 <= fIdx f /\ fIdx f + Z.of_nat (length rs) < 9223372036854775808;
  ls_holds : holds k tx m W;
  ls_table : table_in name tdef p rows m;
  ls_rows : Forall (has_row p rows) rs;
  ls_keys : NoDup (map (take p) rs);
  ls_free : Forall (untouched tdef p W) (map (take p) rs)
}.
Lemma listing_ends k tx f m W rows rs : listing k tx f m W rows rs -> rs = [] \/ fLimit f <= fIdx f ->
  fValid root f = Ok false /\ take (Z.to_nat (fLimit f - fIdx f)) rs = [].
Proof.
  intros [Hat _ _ _ _ _ _] He. rewrite (f_valid M root L HL fuel req ent (row_rec tdef) keep _ _ _ _ _ Hat).
  destruct He as [->|He]; [by rewrite andb_false_r, take_nil|]. rewrite (proj2 (Z.ltb_ge _ _)) by done. by replace (Z.to_nat _) with 0%nat by lia.
Qed.
(** What the transaction can read are the rows of the table. *)
Lemma has_row_of k tx m W rows row : has tx row -> holds k tx m W -> table_in name tdef p rows m -> has_row p rows row.
Proof.
  intros (n' & m' & W' & rows' & Hh' & Ht' & Hr) Hh Ht. pose proof (has_row_ok tdef p rows' m' (ti_rep _ _ _ _ _ Ht') row Hr) as Hrow.
  destruct (row_pks tdef p row Htd Hrow) as (Hl & Hw & _).
  destruct (get_pk_row name tdef p n' tx m' W' rows' (take p row) Hh' Ht' Hl Hw) as (tx1 & E1 & _).
  destruct (get_pk_row name tdef p k tx m W rows (take p row) Hh Ht Hl Hw) as (tx2 & E2 & _). unfold has_row in *. rewrite Hr in E1. rewrite E1 in E2.
  destruct (rows !! take p row) as [rest|]; [|by injection E2]. injection E2 as _ E2. by apply app_inj_1 in E2 as [_ ->].
Qed.
Lemma listing_reads k tx tx' f m W rows rs : listing k tx f m W rows rs -> holds k tx' m W -> listing k tx' f m W rows rs.
Proof.
  intros [Hat Hi Hh Hin HF Hnd HW] Hh'. split; try done. eapply f_at_change; [exact Hat|]. intros row Hr. exists k, m, W, rows.
  split; [done|]. split; [done|]. by eapply has_row_of.
Qed.
(** A step of the loops: the row at the iterator, and the iterator after it,
    whatever the row has become. *)
Lemma listing_step k tx f m W rows row rs : listing k tx f m W rows (row :: rs) -> fIdx f < fLimit f ->
  fValid root f = Ok true /\
  (exists tx1 f1, fDeref root tx f = Ok (tx1, f1, inl (row_rec tdef row)) /\ holds k tx1 m W /\
    forall k' (tx' : T) m' W' rows', holds k' tx' m' W' -> table_in name tdef p rows' m' ->
      (forall y, has_row p rows y -> take p y <> take p row -> has_row p rows' y) -> Forall (untouched tdef p W') (map (take p) rs) ->
      exists tx2 f2, fNext fuel s root tx' f1 = Ok (tx2, f2) /\ fIdx f2 = fIdx f + 1 /\ fLimit f2 = fLimit f /\ listing k' tx2 f2 m' W' rows' rs) /\
  take (Z.to_nat (fLimit f - fIdx f)) (row :: rs) = row :: take (Z.to_nat (fLimit f - (fIdx f + 1))) rs.
Proof.
  intros [Hat [Hi Hmax] Hh Hin HF Hnd HW] Hlt. cbn [length] in Hmax. split; [|split].
  - rewrite (f_valid M root L HL fuel req ent (row_rec tdef) keep _ _ _ _ _ Hat). by rewrite (proj2 (Z.ltb_lt _ _)), bool_decide_eq_true_2 by done.
  - destruct (f_deref M root L HL fuel req ent (row_rec tdef) keep _ _ (has_reads tdef p name) tx f _ _ Hat) as (tx1 & f1 & E1 & HR1 & Hb1 & Ei1 & El1).
    pose proof (HR1 _ _ _ _ Hin Hh) as Hh1. exists tx1, f1. split; [exact E1|]. split; [exact Hh1|]. intros k' tx' m' W' rows' Hh' Hin' Hrows HW'.
    apply list.Forall_cons in HF as [Hr HF]. apply list.NoDup_cons in Hnd as [Hnr Hnd].
    assert (Hb' : f_behind M root L fuel req ent (row_rec tdef) keep (reads tdef p holds name) has tx' f1 row rs).
    { eapply f_behind_change; [exact Hb1|]. intros y Hy Hhas. exists k', m', W', rows'. split; [done|]. split; [done|].
      pose proof (has_row_of k tx1 m W rows y Hhas Hh1 Hin) as Hry. apply (Hrows y Hry). intros Ey. by apply Hy, (has_row_keys p rows). }
    destruct (f_next n s M Hpages root L HL fuel req ent (row_rec tdef) keep _ _ (has_reads tdef p name) tx' f1 row rs Hb') as (tx2 & f2 & E2 & HR2 & Hat2 & Ei2 & El2);
      [rewrite Ei1; unfold in_i64; lia|].
    exists tx2, f2. split; [exact E2|]. split; [by rewrite Ei2, Ei1|]. split; [by rewrite El2|]. split; try done; [rewrite Ei2, Ei1; lia|by eapply HR2|].
    rewrite list.Forall_forall in HF. apply list.Forall_forall. intros y Hy. apply (Hrows y (HF y Hy)). intros Ey. apply Hnr. rewrite <- Ey.
    by apply list_elem_of_fmap_2.
  - by replace (Z.to_nat (fLimit f - fIdx f)) with (S (Z.to_nat (fLimit f - (fIdx f + 1)))) by lia.
Qed.

Lemma delete_rows_spec rs : forall fl (tx : T) f m W rows k count, listing (length rs * indexes + k) tx f m W rows rs -> (length rs <= fl)%nat ->
  0 <= count -> count + Z.of_nat (length rs) < 9223372036854775808 ->
  let ds := take (Z.to_nat (fLimit f - fIdx f)) rs in
  exists tx', delete_rows fuel s root fl tx name f count = Ok (tx', count + Z.of_nat (length ds), true) /\ changed k tx' (without p ds rows) m W.
Proof.
  induction rs as [|row rs IH]; intros fl tx f m W rows k count Hls Hfl Hc Hcm; cbn zeta.
  - destruct (listing_ends _ _ _ _ _ _ _ Hls) as [EV ->]; [by left|]. exists tx. rewrite without_nil, Z.add_0_r. destruct fl; cbn [delete_rows]; rstep EV;
      (split; [done|]); destruct Hls; by exists m.
  - destruct (Z.lt_ge_cases (fIdx f) (fLimit f)) as [Hlt|Hge]; cycle 1.
    { destruct (listing_ends _ _ _ _ _ _ _ Hls) as [EV ->]; [by right|]. exists tx. rewrite without_nil, Z.add_0_r. destruct fl; cbn [delete_rows]; rstep EV;
        (split; [done|]); destruct Hls as [_ _ Hh Hin _ _ _]; (exists m; split; [eapply holds_mono; [|exact Hh]; lia|done]). }
    destruct (listing_step _ _ _ _ _ _ _ _ Hls Hlt) as (EV & (tx0 & f1 & E1 & Hh & HN) & Etake). rewrite Etake. destruct fl as [|fl]; [cbn in Hfl; lia|].
    cbn [delete_rows length]. rstep EV. rstep E1. pose proof Hls as [_ _ _ Hin HF Hnd HW]. cbn [length] in Hh, Hcm, Hfl. cbn [map] in Hnd, HW.
    apply list.Forall_cons in HF as [Hr HF]. apply list.NoDup_cons in Hnd as [Hnr Hnd]. apply list.Forall_cons in HW as [HWr HW].
    pose proof (has_row_ok tdef p rows m (ti_rep _ _ _ _ _ Hin) row Hr) as Hrow. unfold DBDelete.
    destruct (GetTableDef_spec _ tx0 m W name tdef p rows Hh Hin) as (tx1 & Eg & Hh1). rstep Eg. destruct (row_pks tdef p row Htd Hrow) as (Hl & _).
    destruct (delete_row name tdef p (length rs * indexes + k) tx1 m W rows (take p row) (drop p row) (row_rec tdef row) (drop p (tCols tdef)) (drop p row))
      as (tx2 & E2 & m2 & Hh2 & Hin2 & Hm2); try done; [eapply holds_mono; [|exact Hh1]; lia|apply Htd|cbn; by rewrite take_drop|intros key Hk; rewrite take_drop in Hk; by apply (HWr row key Hrow)|].
    rstep E2. cbn [negb]. destruct (HN _ tx2 m2 W _ Hh2 Hin2) as (tx3 & f2 & E3 & Ei & El & Hls2);
      [intros y Hy Hne; by apply (has_row_other p rows y row [] Hy Hne)|done|]. rstep E3. rewrite i64_small by (unfold in_i64; lia).
    destruct (IH fl tx3 f2 m2 W _ k (count + 1) Hls2 ltac:(lia) ltac:(lia) ltac:(lia)) as (tx4 & E4 & HC). rewrite Ei, El in E4, HC. exists tx4.
    split; [rewrite E4; do 3 f_equal; lia|]. rewrite without_cons. by eapply changed_trans.
Qed.

(** The record of the expressions makes a row with the same key. *)
Record updates (names : list bytes) (values : list QLNode) (upd : list Value -> list Value) (row : list Value) : Prop := {
  up_row : exists newrec, QLEvalOutput (row_rec tdef row) values names = Ok (Some newrec) /\ reorder tdef newrec = Ok (Some (row_rec tdef (upd row)));
  up_ok : row_ok tdef p (upd row) /\ Forall user_kv (row_entries tdef p (upd row));
  up_key : take p (upd row) = take p row
}.
Lemma update_rows_spec names values upd rs : forall fl (tx : T) f m W rows k, listing (length rs * (2 * indexes) + k) tx f m W rows rs -> (length rs <= fl)%nat ->
  Forall (updates names values upd) rs ->
  exists tx' W', update_rows fuel s root fl tx name tdef names values f = Ok (tx', true) /\
    changed k tx' (updated p upd (take (Z.to_nat (fLimit f - fIdx f)) rs) rows) m W'.
Proof.
  induction rs as [|row rs IH]; intros fl tx f m W rows k Hls Hfl Hup.
  - destruct (listing_ends _ _ _ _ _ _ _ Hls) as [EV ->]; [by left|]. exists tx, W. rewrite updated_nil. destruct fl; cbn [update_rows]; rstep EV;
      (split; [done|]); destruct Hls; by exists m.
  - destruct (Z.lt_ge_cases (fIdx f) (fLimit f)) as [Hlt|Hge]; cycle 1.
    { destruct (listing_ends _ _ _ _ _ _ _ Hls) as [EV ->]; [by right|]. exists tx, W. rewrite updated_nil. destruct fl; cbn [update_rows]; rstep EV;
        (split; [done|]); destruct Hls as [_ _ Hh Hin _ _ _]; (exists m; split; [eapply holds_mono; [|exact Hh]; lia|done]). }
    destruct (listing_step _ _ _ _ _ _ _ _ Hls Hlt) as (EV & (tx0 & f1 & E1 & Hh & HN) & Etake). rewrite Etake. destruct fl as [|fl]; [cbn in Hfl; lia|].
    cbn [update_rows]. rstep EV. rstep E1. pose proof Hls as [_ _ _ Hin HF Hnd HW]. cbn [length] in Hh, Hfl. cbn [map] in Hnd, HW.
    apply list.Forall_cons in HF as [Hr HF]. apply list.NoDup_cons in Hnd as [Hnr Hnd]. apply list.Forall_cons in HW as [HWr HW].
    apply list.Forall_cons in Hup as [[(newrec & Eo & Er) Hok Hkey] Hup]. rstep Eo. rstep Er. rewrite <- Hkey in HWr, Hnr.
    destruct (DBUpdate_spec name tdef p (length rs * (2 * indexes) + k) tx0 m W rows (upd row)) as (tx2 & rec' & E2 & HC);
      [eapply holds_mono; [|exact Hh]; lia|done|done|done|].
    rewrite Hkey in E2, HC, Hnr. unfold has_row in Hr. rewrite Hr in E2, HC. rstep E2. cbn [negb]. rewrite decide_True in HC by done.
    destruct HC as (m2 & Hh2 & Hin2 & Hm2).
    assert (HW2 : Forall (untouched tdef p (list_to_set (row_keys tdef p (upd row)) ∪ W)) (map (take p) rs)).
    { rewrite list.Forall_forall in HW. apply list.Forall_forall. intros pk Hpk.
      apply untouched_set; [apply Hin|apply Hok|rewrite Hkey; by intros ->|by apply HW]. }
    destruct (HN _ tx2 m2 _ _ Hh2 Hin2 (fun y Hy Hne => proj1 (has_row_other p rows y row (drop p (upd row)) Hy Hne)) HW2) as (tx3 & f2 & E3 & Ei & El & Hls2). rstep E3.
    destruct (IH fl tx3 f2 m2 _ _ k Hls2 ltac:(lia) Hup) as (tx4 & W4 & E4 & HC). rewrite Ei, El in HC. exists tx4, W4.
    split; [exact E4|]. rewrite updated_cons; [by eapply changed_trans|done|]. rewrite <- firstn_map.
    by intros Hk%subseteq_take.
Qed.
End Loops.

(** ** The statements *)

Section Statements.
Context {St pages} `{PageLaws St pages}.
Context {T : Type} {holds : nat -> T -> gmap bytes bytes -> gset bytes -> Prop} `{TxLaws T holds} `{JsonVals} `{JsonTable} `{!TxDelLaws T holds}.
Context (tdef : TableDef) (p : nat) (Htd : tdef_ok tdef p) (Hp0 : (0 < p)%nat).
Context (Hprimary : head (tIndexes tdef) = Some (take p (tCols tdef))) (Htypes : Forall key_type (tTypes tdef)).
Context (req : QLScan) (sp : span) (Hsp : scans tdef req sp) (keep : list Value -> bool).
Context (h fuel n : nat) (s : St) (M : gmap Z bytes) (root : Z) (l : kvl) (rows : gmap (list Value) (list Value)).
Context (Ht : tree_any M root h l) (Hp : pages n s M) (Hu : user_kvs l) (Hroot : root <> 0) (Hfuel : (h < fuel)%nat).
Context (Hlen : (length l < fuel)%nat) (Hf64 : Z.of_nat fuel < 9223372036854775808) (Hrep : table_rep tdef p rows (kv_map l)).
Context (Hstart : starts_in tdef sp l).
Context (Hfilter : forall row, has_row p rows row ->
  match sFilter req with None => Ok true | Some f => QLEvalRecordBool (row_rec tdef row) f end = Ok (keep row)).
Abbreviation changed := (@changed T holds _ _ (sTable req) tdef p).
Abbreviation rest := (after_offset keep (sOffset req)).

(** The scan of a statement in a transaction that has not written yet. *)
Lemma listing_start : exists L rs, rows_between tdef p rows sp rs /\ (length rs <= length l)%nat /\
  forall (k : nat) (tx : T) (m : gmap bytes bytes), holds k tx m ∅ -> table_in (sTable req) tdef p rows m ->
    0 <= sOffset req <= Z.of_nat (length (filter (fun row => keep row = true) rs)) ->
    kv_sorted L /\ exists tx' f, newQlScanFilter fuel s root tx req = Ok (tx', Some f) /\ fIdx f = sOffset req /\ fLimit f = sLimit req /\
      listing (holds := holds) M root L (sTable req) tdef p fuel req (idx_entry tdef p (spIdx sp)) keep k tx' f m ∅ rows (rest rs).
Proof.
  destruct (span_filter tdef p Htd Hp0 Hprimary Htypes req sp Hsp keep h fuel n s M root l rows Ht Hp Hu Hroot Hfuel Hlen Hf64 Hrep Hstart Hfilter)
    as (L & rs & Hrs & Hrl & HS).
  exists L, rs. split; [done|]. split; [done|]. intros k tx m Hh Hin Ho. destruct (HS k tx m ∅ Hh Hin Ho) as (tx' & f & E & Hh' & [HsL Hat Hi Hl Hle]).
  split; [done|]. exists tx', f. split; [done|]. split; [done|]. split; [done|]. split; try done; [rewrite Hi; lia| | |].
  - apply list.Forall_forall. intros row Hr. apply Hrs. by eapply sublist_subseteq; [apply after_offset_sublist|].
  - eapply sublist_NoDup; [by eapply (between_keys tdef p)|]. apply (fmap_sublist (take p)), after_offset_sublist.
  - apply list.Forall_forall. intros pk _ row key _ _ _. apply not_elem_of_empty.
Qed.
Lemma rest_length rs : (length (rest rs) <= length rs)%nat.
Proof. apply sublist_length, after_offset_sublist. Qed.

Lemma delete_statement : exists rs, rows_between tdef p rows sp rs /\ (length rs <= length l)%nat /\
  forall spare (k : nat) (tx : T) (m : gmap bytes bytes), holds (length rs * length (tIndexes tdef) + k) tx m ∅ -> table_in (sTable req) tdef p rows m ->
    0 <= sOffset req <= Z.of_nat (length (filter (fun row => keep row = true) rs)) ->
    let ds := listed keep (sOffset req) (sLimit req) rs in
    exists tx', qlStmt fuel s root spare tx (SDelete (Some (mkDelete req))) = Ok (tx', Some (RCount (Z.of_nat (length ds)))) /\
      changed k tx' (without p ds rows) m ∅.
Proof.
  destruct listing_start as (L & rs & Hrs & Hrl & HS). exists rs. split; [done|]. split; [done|]. intros spare k tx m Hh Hin Ho ds.
  pose proof (rest_length rs) as Hle. destruct (HS (length (rest rs) * length (tIndexes tdef) + k)%nat tx m) as (HsL & tx1 & f & E & Hi & Hl & Hls);
    [eapply holds_mono; [|exact Hh]; nia|done|done|].
  destruct (delete_rows_spec n s M Hp root L HsL (sTable req) tdef p Htd fuel req _ _ _ fuel tx1 f m ∅ rows k 0 Hls ltac:(lia) ltac:(lia) ltac:(lia)) as (tx2 & E2 & HC).
  rewrite Hi, Hl in E2, HC. exists tx2. split; [|exact HC]. unfold qlStmt, deref, qlDelete. cbn [mbind res_bind delScan]. rstep E. by rstep E2.
Qed.
Lemma update_statement names es ws : length es = length names -> gostr "*" ∉ names ++ tCols tdef ->
  (forall row, has_row p rows row -> Forall2 (outputs (row_rec tdef row)) es (ws row) /\ let row' := new_row tdef names (ws row) row in
     row_ok tdef p row' /\ Forall user_kv (row_entries tdef p row') /\ take p row' = take p row) ->
  exists rs, rows_between tdef p rows sp rs /\ (length rs <= length l)%nat /\
  forall spare (k : nat) (tx : T) (m : gmap bytes bytes), holds (length rs * (2 * length (tIndexes tdef)) + k) tx m ∅ -> table_in (sTable req) tdef p rows m ->
    0 <= sOffset req <= Z.of_nat (length (filter (fun row => keep row = true) rs)) ->
    let ds := listed keep (sOffset req) (sLimit req) rs in
    exists tx' W, qlStmt fuel s root spare tx (SUpdate (Some (mkUpdate req names es))) = Ok (tx', Some RNil) /\
      changed k tx' (updated p (fun row => new_row tdef names (ws row) row) ds rows) m W.
Proof.
  intros Hes Hstar Hnew. destruct listing_start as (L & rs & Hrs & Hrl & HS). exists rs. split; [done|]. split; [done|]. intros spare k tx m Hh Hin Ho ds.
  pose proof (rest_length rs) as Hle. destruct (HS (length (rest rs) * (2 * length (tIndexes tdef)) + k)%nat tx m) as (HsL & tx1 & f & E & Hi & Hl & Hls);
    [eapply holds_mono; [|exact Hh]; nia|done|done|].
  pose proof Hls as [Hat Hid Hh1 _ HF Hnd HW]. destruct (GetTableDef_spec _ tx1 m ∅ (sTable req) tdef p rows Hh1 Hin) as (tx2 & Eg & Hh2).
  assert (Hls2 : listing (holds := holds) M root L (sTable req) tdef p fuel req (idx_entry tdef p (spIdx sp)) keep
    (length (rest rs) * (2 * length (tIndexes tdef)) + k) tx2 f m ∅ rows (rest rs)) by by eapply listing_reads.
  destruct (update_rows_spec n s M Hp root L HsL (sTable req) tdef p Htd fuel req _ _
    (names ++ filter (fun c => c ∉ names) (tCols tdef)) (es ++ map (fun c => mkNode (mkValue QL_SYM 0 c) []) (filter (fun c => c ∉ names) (tCols tdef)))
    (fun row => new_row tdef names (ws row) row) _ fuel tx2 f m ∅ rows k Hls2 ltac:(lia)) as (tx3 & W & E3 & HC).
  { eapply list.Forall_impl; [exact HF|]. intros row Hr. pose proof (has_row_ok tdef p rows (kv_map l) Hrep row Hr) as Hrow.
    destruct (Hnew row Hr) as (Hout & Hrow' & Hfit & Hkey). split; [|done..]. eexists.
    split; [by apply (new_record tdef p Htd names row Hrow es (ws row))|by apply (new_reordered tdef p Htd names row es (ws row))]. }
  rewrite Hi, Hl in HC. exists tx3, W. split; [|exact HC]. unfold qlStmt, deref, qlUpdate. cbn [mbind res_bind updScan updName updValues].
  rstep E. rstep Eg. rewrite keep_cols by apply Htd. by rstep E3.
Qed.
End Statements.

Section Claims.
Context `{JsonVals} `{JsonTable} (fuel : nat) (db : KV) (N h : nat) (ms : gmap bytes bytes).
Context (req : QLScan) (sp : span) (tdef : TableDef) (p : nat) (rows : gmap (list Value) (list Value)) (keep : list Value -> bool).
(** The database has the table, with the key columns as its first index, and
    the key at which the scan starts. *)
Context (Hin : table_in (sTable req) tdef p rows ms) (Hp0 : (0 < p)%nat).
Context (Hprimary : head (tIndexes tdef) = Some (take p (tCols tdef))) (Htypes : Forall key_type (tTypes tdef)).
Context (Hdb : kv_holds N h db ms) (Hh : (h < fuel)%nat) (Hsize : (size ms < fuel)%nat) (Hf64 : Z.of_nat fuel < 9223372036854775808).
Context (Hsp : scans tdef req sp) (Hstart : starts tdef sp ms).
Context (Hfilter : forall row, has_row p rows row ->
  match sFilter req with None => Ok true | Some f => QLEvalRecordBool (row_rec tdef row) f end = Ok (keep row)).
Abbreviation run := (@qlStmt KV kv_store fuel db (kRoot db) KVTX (kvtx_ops fuel db) _ _).
Abbreviation get := (@DBGet KVTX (kvtx_ops fuel db) _ _).
Abbreviation kept rs := (filter (fun row => keep row = true) rs).

(** What Get finds in a transaction. *)
Definition reads_as (tx : KVTX) (rows' : gmap (list Value) (list Value)) : Prop :=
  forall pk, length pk = p -> Forall2 wf_key_val (take p (tTypes tdef)) pk ->
    exists tx', get tx (sTable req) (pk_rec tdef p pk) = Ok (tx', match rows' !! pk with Some rest => row_rec tdef (pk ++ rest) | None => pk_rec tdef p pk end,
      bool_decide (is_Some (rows' !! pk))).
Lemma begin_stmt ops : (ops < fuel)%nat -> Z.of_nat (room ops 0) < 18446744073709551616 -> exists tx, Begin db NewKVTX = Ok tx /\ kvtx_holds fuel db ms ops tx ms ∅.
Proof.
  intros Hf Hr. destruct (Begin_holds fuel db h ms (kv_holds_snapshot _ _ _ _ Hdb) Hh ops NewKVTX Hf Hr eq_refl) as (tx & E & Hs & _). by exists tx.
Qed.
Lemma changed_reads n tx rows' W : @changed KVTX (kvtx_holds fuel db ms) _ _ (sTable req) tdef p n tx rows' ms W -> reads_as tx rows'.
Proof.
  intros (m & Hm & Ht & _) pk Hl Hw. pose proof (kvtx_laws fuel db h ms (kv_holds_snapshot _ _ _ _ Hdb) Hh) as HL.
  by apply (@DBGet_spec KVTX _ _ HL _ _ (sTable req) tdef p n tx m W rows' pk).
Qed.

(** C7: A delete on an index, in a transaction of its own.  It returns
    the number of rows that are between the bounds of its conditions, pass the
    filter and are listed from the offset to the limit, and exactly
    these are gone: Get in the transaction finds the other rows unchanged, the
    table with all its indexes stands for them, and no other table has changed. *)
Theorem delete_listed spare : let ops := (size ms * length (tIndexes tdef))%nat in (ops < fuel)%nat -> Z.of_nat (room ops 0) < 18446744073709551616 ->
  exists rs tx, rows_between tdef p rows sp rs /\ Begin db NewKVTX = Ok tx /\
    (0 <= sOffset req <= Z.of_nat (length (kept rs)) ->
     let ds := listed keep (sOffset req) (sLimit req) rs in
     exists tx' m', run spare tx (SDelete (Some (mkDelete req))) = Ok (tx', Some (RCount (Z.of_nat (length ds)))) /\ kvtx_holds fuel db ms 0 tx' m' ∅ /\
       reads_as tx' (without p ds rows) /\ table_in (sTable req) tdef p (without p ds rows) m' /\ forall key, ~ owned tdef key -> m' !! key = ms !! key).
Proof.
  intros ops Hf Hr. destruct (begin_stmt ops Hf Hr) as (tx & Eb & Htx). pose proof (kv_holds_snapshot _ _ _ _ Hdb) as Hsnap.
  destruct (scan_parts _ _ _ _ _ _ _ _ _ _ Hdb Hin Hstart) as (M & l & Ht & Hp & Hu & Hm & Hr0 & Hln & Hl). pose proof (ti_rep _ _ _ _ _ Hin) as Hrep. rewrite <- Hm in Hrep.
  pose proof (kvtx_laws fuel db h ms Hsnap Hh) as HL. pose proof (kvtx_del_laws fuel db h ms Hsnap Hh) as HD.
  destruct (@delete_statement KV readable _ readable_laws _ _ _ HL _ _ HD tdef p (ti_ok _ _ _ _ _ Hin) Hp0 Hprimary Htypes req sp Hsp keep h fuel 0 db M (kRoot db) l rows
    Ht Hp Hu Hr0 Hh ltac:(lia) Hf64 Hrep Hl Hfilter) as (rs & Hrs & Hrl & HS).
  exists rs, tx. split; [done|]. split; [done|]. intros Ho ds.
  destruct (HS spare 0%nat tx ms) as (tx' & E & HC); [eapply (holds_mono (H0 := HL) ops); [subst ops; nia|exact Htx]|done|done|].
  pose proof HC as (m' & Hm' & Ht' & Ho'). exists tx', m'. split; [exact E|]. split; [exact Hm'|]. split; [by eapply changed_reads|done].
Qed.

(** C8: An update on an index, in a transaction of its own.  The rows
    listed, and no others, get in the columns it names the values of its
    expressions on the old row, stored as the type of the column, whatever their
    own type; the other columns keep their values.  Get in the transaction finds
    the new rows, the table with all its indexes stands for them, and no other
    table has changed.  This is provided that the new rows are rows of the table
    under the same key. *)
Theorem update_listed spare names es ws : length es = length names -> gostr "*" ∉ names ++ tCols tdef ->
  (forall row, has_row p rows row -> Forall2 (outputs (row_rec tdef row)) es (ws row) /\ let row' := new_row tdef names (ws row) row in
     row_ok tdef p row' /\ Forall user_kv (row_entries tdef p row') /\ take p row' = take p row) ->
  let ops := (size ms * (2 * length (tIndexes tdef)))%nat in (ops < fuel)%nat -> Z.of_nat (room ops 0) < 18446744073709551616 ->
  exists rs tx, rows_between tdef p rows sp rs /\ Begin db NewKVTX = Ok tx /\
    (0 <= sOffset req <= Z.of_nat (length (kept rs)) ->
     let rows' := updated p (fun row => new_row tdef names (ws row) row) (listed keep (sOffset req) (sLimit req) rs) rows in
     exists tx' m' W, run spare tx (SUpdate (Some (mkUpdate req names es))) = Ok (tx', Some RNil) /\ kvtx_holds fuel db ms 0 tx' m' W /\
       reads_as tx' rows' /\ table_in (sTable req) tdef p rows' m' /\ forall key, ~ owned tdef key -> m' !! key = ms !! key).
Proof.
  intros Hes Hstar Hnew ops Hf Hr. destruct (begin_stmt ops Hf Hr) as (tx & Eb & Htx). pose proof (kv_holds_snapshot _ _ _ _ Hdb) as Hsnap.
  destruct (scan_parts _ _ _ _ _ _ _ _ _ _ Hdb Hin Hstart) as (M & l & Ht & Hp & Hu & Hm & Hr0 & Hln & Hl). pose proof (ti_rep _ _ _ _ _ Hin) as Hrep. rewrite <- Hm in Hrep.
  pose proof (kvtx_laws fuel db h ms Hsnap Hh) as HL. pose proof (kvtx_del_laws fuel db h ms Hsnap Hh) as HD.
  destruct (@update_statement KV readable _ readable_laws _ _ _ HL _ _ HD tdef p (ti_ok _ _ _ _ _ Hin) Hp0 Hprimary Htypes req sp Hsp keep h fuel 0 db M (kRoot db) l rows
    Ht Hp Hu Hr0 Hh ltac:(lia) Hf64 Hrep Hl Hfilter names es ws Hes Hstar Hnew) as (rs & Hrs & Hrl & HS).
  exists rs, tx. split; [done|]. split; [done|]. intros Ho rows'.
  destruct (HS spare 0%nat tx ms) as (tx' & W & E & HC); [eapply (holds_mono (H0 := HL) ops); [subst ops; nia|exact Htx]|done|done|].
  pose proof HC as (m' & Hm' & Ht' & Ho'). exists tx', m', W. split; [exact E|]. split; [exact Hm'|]. split; [by eapply changed_reads|done].
Qed.

(** A statement that changes the rows of the table, as a query, when the
    database has room for the operations it takes. *)
Lemma changing_query env query p' stmt r rows' B N' : env_ok env -> PStmt fuel (new_parser query (eInput env)) = Ok (p', stmt) -> stmt <> SNil ->
  (h + B < fuel)%nat -> Z.of_nat (room B 0) < 18446744073709551616 -> (B * (3 * (h + B) + 5) + (B * (2 * (h + B) + 2) + N') <= N)%nat ->
  rows_fit tdef p rows rows' ms ->
  (forall tx, kvtx_dels fuel db ms B B tx ms ∅ -> exists tx' W, run (eSpare env) tx stmt = Ok (tx', Some r) /\
    @changed KVTX (kvtx_dels fuel db ms B) _ _ (sTable req) tdef p 0 tx' rows' ms W) ->
  exists db' ok m', ExecuteQuery fuel env query db = Ok (db', r, ok) /\
    (table_in (sTable req) tdef p rows' m' /\ forall key, ~ owned tdef key -> m' !! key = ms !! key) /\ (ok = true -> leaves tree_any N' (h + B) db' m').
Proof.
  intros Henv Ep Hs Hf Hr HN Hfit Hrun.
  apply (run_query_dels fuel env Henv db h ms (kv_holds_snapshot _ _ _ _ Hdb) Hh query p' stmt B h N' r _ Ep Hs); [lia|done| | |by eapply kv_holds_mono|done].
  - intros tx Htx. destruct (Hrun tx Htx) as (tx' & W & E & m' & Hm' & Ht' & Ho'). by exists tx', m', W.
  - intros m' [Ht' Ho']. split; [intros Hn; pose proof (ti_cat _ _ _ _ _ Ht') as Hc; by rewrite Hn, lookup_empty in Hc|].
    intros d. apply (rows_fit_deleted tdef p (ti_ok _ _ _ _ _ Hin) rows rows'); [apply Hin|apply Ht'|done|done].
Qed.

(** C5: A delete, from its text to the file.  A query whose text parses to a
    delete on an index returns the number of rows that it lists, and, when it
    reports success, the table has the other rows in the running process and in one that
    opens the file, and no other table has changed.  This is provided that the offset is within the rows that pass,
    and that of the stored keys after one that goes, up to the next that stays, none is longer, which keeps the nodes of the
    tree in their pages. *)
Theorem delete_query env query p' N' : env_ok env -> PStmt fuel (new_parser query (eInput env)) = Ok (p', SDelete (Some (mkDelete req))) ->
  let B := (size ms * length (tIndexes tdef))%nat in (h + B < fuel)%nat -> Z.of_nat (room B 0) < 18446744073709551616 ->
  (B * (3 * (h + B) + 5) + (B * (2 * (h + B) + 2) + N') <= N)%nat ->
  exists rs, rows_between tdef p rows sp rs /\
    (0 <= sOffset req <= Z.of_nat (length (kept rs)) ->
     let ds := listed keep (sOffset req) (sLimit req) rs in let rows' := without p ds rows in rows_fit tdef p rows rows' ms ->
     exists db' ok m', ExecuteQuery fuel env query db = Ok (db', RCount (Z.of_nat (length ds)), ok) /\
       (table_in (sTable req) tdef p rows' m' /\ forall key, ~ owned tdef key -> m' !! key = ms !! key) /\ (ok = true -> leaves tree_any N' (h + B) db' m')).
Proof.
  intros Henv Ep B Hf Hr HN. pose proof (kv_holds_snapshot _ _ _ _ Hdb) as Hsnap.
  destruct (scan_parts _ _ _ _ _ _ _ _ _ _ Hdb Hin Hstart) as (M & l & Ht & Hp & Hu & Hm & Hr0 & Hln & Hl). pose proof (ti_rep _ _ _ _ _ Hin) as Hrep. rewrite <- Hm in Hrep.
  pose proof (kvtx_dels_laws fuel db h ms Hsnap Hh B) as HL. pose proof (kvtx_dels_del_laws fuel db h ms Hsnap Hh B) as HD.
  destruct (@delete_statement KV readable _ readable_laws _ _ _ HL _ _ HD tdef p (ti_ok _ _ _ _ _ Hin) Hp0 Hprimary Htypes req sp Hsp keep h fuel 0 db M (kRoot db) l rows
    Ht Hp Hu Hr0 Hh ltac:(lia) Hf64 Hrep Hl Hfilter) as (rs & Hrs & Hrl & HS).
  exists rs. split; [done|]. intros Ho ds rows' Hfit. eapply (changing_query env query p' _ _ rows' B N' Henv Ep); try done. intros tx Htx.
  destruct (HS (eSpare env) 0%nat tx ms) as (tx' & E & HC); [eapply (holds_mono (H0 := HL) B); [subst B; nia|exact Htx]|done|done|by exists tx', ∅].
Qed.

(** C6: An update, from its text to the file.  A query whose text parses to
    an update on an index makes of the rows that it lists those that its expressions
    give, and, when it reports success, the table has them in the running process
    and in one that opens the file, and no other table has changed.  This is provided
    that the new rows are rows of the table under the same key, that the offset is within
    the rows that pass, and that of the keys stored before or after
    that follow one that goes, up to the next that is there after, none is
    longer. *)
Theorem update_query env query p' names es ws N' : env_ok env ->
  PStmt fuel (new_parser query (eInput env)) = Ok (p', SUpdate (Some (mkUpdate req names es))) ->
  length es = length names -> gostr "*" ∉ names ++ tCols tdef ->
  (forall row, has_row p rows row -> Forall2 (outputs (row_rec tdef row)) es (ws row) /\ let row' := new_row tdef names (ws row) row in
     row_ok tdef p row' /\ Forall user_kv (row_entries tdef p row') /\ take p row' = take p row) ->
  let B := (size ms * (2 * length (tIndexes tdef)))%nat in (h + B < fuel)%nat -> Z.of_nat (room B 0) < 18446744073709551616 ->
  (B * (3 * (h + B) + 5) + (B * (2 * (h + B) + 2) + N') <= N)%nat ->
  exists rs, rows_between tdef p rows sp rs /\
    (0 <= sOffset req <= Z.of_nat (length (kept rs)) ->
     let rows' := updated p (fun row => new_row tdef names (ws row) row) (listed keep (sOffset req) (sLimit req) rs) rows in rows_fit tdef p rows rows' ms ->
     exists db' ok m', ExecuteQuery fuel env query db = Ok (db', RNil, ok) /\
       (table_in (sTable req) tdef p rows' m' /\ forall key, ~ owned tdef key -> m' !! key = ms !! key) /\ (ok = true -> leaves tree_any N' (h + B) db' m')).
Proof.
  intros Henv Ep Hes Hstar Hnew B Hf Hr HN. pose proof (kv_holds_snapshot _ _ _ _ Hdb) as Hsnap.
  destruct (scan_parts _ _ _ _ _ _ _ _ _ _ Hdb Hin Hstart) as (M & l & Ht & Hp & Hu & Hm & Hr0 & Hln & Hl). pose proof (ti_rep _ _ _ _ _ Hin) as Hrep. rewrite <- Hm in Hrep.
  pose proof (kvtx_dels_laws fuel db h ms Hsnap Hh B) as HL. pose proof (kvtx_dels_del_laws fuel db h ms Hsnap Hh B) as HD.
  destruct (@update_statement KV readable _ readable_laws _ _ _ HL _ _ HD tdef p (ti_ok _ _ _ _ _ Hin) Hp0 Hprimary Htypes req sp Hsp keep h fuel 0 db M (kRoot db) l rows
    Ht Hp Hu Hr0 Hh ltac:(lia) Hf64 Hrep Hl Hfilter names es ws Hes Hstar Hnew) as (rs & Hrs & Hrl & HS).
  exists rs. split; [done|]. intros Ho rows' Hfit. eapply (changing_query env query p' _ _ rows' B N' Henv Ep); try done. intros tx Htx.
  destruct (HS (eSpare env) 0%nat tx ms) as (tx' & W & E & HC); [eapply (holds_mono (H0 := HL) B); [subst B; nia|exact Htx]|done|done|by exists tx', W].
Qed.
End Claims.

(** ** Instances: the table of people with Ann *)

#[local] Existing Instances bits_json people_json.
(** A delete of every row, and an update of the ages of some. *)
Definition people_scan : QLScan := mkScan (gostr "people") None None None 0 MaxInt64.
Lemma people_scans : scans people people_scan (full_span people 0).
Proof. by apply scans_all. Qed.
Lemma delete_listed_witness : exists db tx tx' tx'', Begin db NewKVTX = Ok tx /\
  @qlStmt KV kv_store 60 db (kRoot db) KVTX (kvtx_ops 60 db) _ _ 0 tx (SDelete (Some (mkDelete people_scan))) = Ok (tx', Some (RCount 1)) /\
  @DBGet KVTX (kvtx_ops 60 db) _ _ tx' (gostr "people") (pk_rec people 1 [IntVal 7]) = Ok (tx'', pk_rec people 1 [IntVal 7], false).
Proof.
  destruct ann_db as (db & h & Hdb & Hh & Hsz).
  destruct (delete_listed 60 db 4800 h ann_people people_scan (full_span people 0) people 1 ann_rows (fun _ => true) ann_in ltac:(lia) eq_refl people_types Hdb ltac:(lia) ltac:(lia)
    ltac:(lia) people_scans (ann_found (full_span people 0) 0 eq_refl ltac:(lia) ltac:(by vm_compute)) ltac:(done) 0) as (rs & tx & Hrs & Eb & HD); [change (length (tIndexes people)) with 3%nat; lia|change (length (tIndexes people)) with 3%nat; unfold room; nia|].
  assert (Hsp : in_span people 1 (full_span people 0) ann) by (split; by vm_compute). pose proof (ann_between rs _ Hsp Hrs) as ->. destruct HD as (tx' & m' & E & _ & HG & _); [by vm_compute|].
  destruct (HG [IntVal 7] eq_refl (one_int 7 ltac:(done) ltac:(done))) as (tx'' & Eg). rewrite without_lookup in Eg.
  rewrite decide_True in Eg by (apply list_elem_of_singleton; reflexivity). exists db, tx, tx', tx''. exact (conj Eb (conj E Eg)).
Defined.

Definition older : list QLNode := [bin QL_ADD (col "age") (int_lit 1)].
Lemma older_row row : has_row 1 ann_rows row -> Forall2 (outputs (row_rec people row)) older [IntVal 31] /\
  let row' := new_row people [gostr "age"] [IntVal 31] row in
  row_ok people 1 row' /\ Forall user_kv (row_entries people 1 row') /\ take 1 row' = take 1 row.
Proof.
  intros ->%ann_only. split.
  - constructor; [|constructor]. exists (IntVal 31). split; [|done].
    apply (ev_num _ QL_ADD (col "age") (int_lit 1) (IntVal 30) (IntVal 1) 31); [by apply ev_sym|apply ev_lit; set_solver|done|done|exact (op_add 30 1)].
  - change (new_row people [gostr "age"] [IntVal 31] ann) with [IntVal 7; BytesVal (gostr "ann"); IntVal 31]. split; [|split; [|done]].
    + split; [repeat constructor; done|by repeat constructor].
    + apply (bool_decide_eq_true (Forall user_kv (row_entries people 1 [IntVal 7; BytesVal (gostr "ann"); IntVal 31]))). by vm_compute.
Qed.
Lemma update_listed_witness : exists db tx tx' tx'', Begin db NewKVTX = Ok tx /\
  @qlStmt KV kv_store 60 db (kRoot db) KVTX (kvtx_ops 60 db) _ _ 0 tx (SUpdate (Some (mkUpdate some_scan [gostr "age"] older))) = Ok (tx', Some RNil) /\
  @DBGet KVTX (kvtx_ops 60 db) _ _ tx' (gostr "people") (pk_rec people 1 [IntVal 7]) =
    Ok (tx'', row_rec people [IntVal 7; BytesVal (gostr "ann"); IntVal 31], true).
Proof.
  destruct ann_db as (db & h & Hdb & Hh & Hsz).
  destruct (update_listed 60 db 4800 h ann_people some_scan some_span people 1 ann_rows (fun _ => true) ann_in ltac:(lia) eq_refl people_types Hdb ltac:(lia) ltac:(lia)
    ltac:(lia) some_scans ltac:(done) ltac:(done) 0 [gostr "age"] older (fun _ => [IntVal 31]) eq_refl
    ltac:(apply (bool_decide_eq_true (gostr "*" ∉ [gostr "age"] ++ tCols people)); reflexivity) older_row)
    as (rs & tx & Hrs & Eb & HD); [change (length (tIndexes people)) with 3%nat; lia|change (length (tIndexes people)) with 3%nat; unfold room; nia|].
  assert (Hsp : in_span people 1 some_span ann) by (split; by vm_compute). pose proof (ann_between rs _ Hsp Hrs) as ->. destruct HD as (tx' & m' & W & E & _ & HG & _); [by vm_compute|].
  destruct (HG [IntVal 7] eq_refl (one_int 7 ltac:(done) ltac:(done))) as (tx'' & Eg).
  change (listed (fun _ => true) (sOffset some_scan) (sLimit some_scan) [ann]) with [ann] in Eg.
  rewrite (updated_cons 1 _ ann [] ann_rows), updated_nil in Eg; [|apply lookup_insert_eq|by apply not_elem_of_nil].
  change (take 1 ann) with [IntVal 7] in Eg. rewrite lookup_insert_eq in Eg. exists db, tx, tx', tx''. exact (conj Eb (conj E Eg)).
Defined.

(** A check of the condition on the keys, on the list of all keys. *)
Definition fits_before (keys : list bytes) (d q : bytes) : bool :=
  bool_decide (blt d q) && bool_decide (Forall (fun k => ~ (blt d k /\ ~ blt q k) \/ blen k <= blen d) keys).
Lemma rows_fit_check (tdef : TableDef) (p : nat) (rows rows' : gmap (list Value) (list Value)) (ms : gmap bytes bytes) (keys : list bytes) : (forall k, is_Some (ms !! k) \/ key_in tdef p rows' k -> k ∈ keys) ->
  (forall d, key_in tdef p rows d -> ~ key_in tdef p rows' d -> exists q, key_in tdef p rows' q /\ fits_before keys d q = true) -> rows_fit tdef p rows rows' ms.
Proof.
  intros Hall Hq d Hd Hn k Hk Hlt Hno. destruct (Hq d Hd Hn) as (q & Hq' & [H1 H2]%andb_prop). apply bool_decide_eq_true in H1, H2.
  rewrite list.Forall_forall in H2. destruct (H2 k (Hall k Hk)) as [Hb|]; [|done]. destruct Hb. split; [done|]. apply Hno; [by right|done].
Qed.
Lemma stored_entries (es : list (bytes * bytes)) (m : gmap bytes bytes) (k : bytes) : is_Some (set_entries es m !! k) -> k ∈ es.*1 \/ is_Some (m !! k).
Proof.
  intros Hk. destruct (decide (k ∈ es.*1)) as [Hin|Hin]; [by left|right]. by rewrite set_entries_other in Hk.
Qed.
Lemma in_keys (k : bytes) (ks1 ks2 : list bytes) : k ∈ ks1 -> bool_decide (ks1 ⊆ ks2) = true -> k ∈ ks2.
Proof. intros Hk Hs%bool_decide_eq_true. by apply Hs. Qed.

(** A second row, so that the keys of Ann are followed by keys that stay. *)
Definition bob : list Value := [IntVal 8; BytesVal (gostr "bob"); IntVal 31].
Definition two_rows : gmap (list Value) (list Value) := <[take 1 bob := drop 1 bob]> ann_rows.
Definition two_people : gmap bytes bytes := set_entries (row_entries people 1 bob) ann_people.
Lemma bob_row : row_ok people 1 bob.
Proof. split; [repeat constructor; done|by repeat constructor]. Qed.
Lemma two_in : table_in (gostr "people") people 1 two_rows two_people.
Proof.
  destruct ann_in as [Htd Hwf Hn Hc Ha Hrep]. split; [done..| |done|].
  - unfold two_people. rewrite set_entries_other; [done|]. rewrite row_entries_keys. by apply def_key_free.
  - apply (table_rep_insert people 1 people_td ann_rows ann_people (take 1 bob) (drop 1 bob) Hrep); [|done|exact bob_row].
    unfold ann_rows. by rewrite lookup_insert_ne by discriminate.
Qed.
Lemma two_db : exists db h, kv_holds 4800 h db two_people /\ (h <= 11)%nat /\ (size two_people <= 7)%nat.
Proof.
  destruct (demo_db (row_entries people 1 ann ++ row_entries people 1 bob) ltac:(rewrite length_app, !(row_entries_length people 1 people_td); cbn; lia)) as (db & h & Hdb & Hh).
  { apply (bool_decide_eq_true (Forall user_kv _)). by vm_compute. }
  exists db, h. unfold set_entries in Hdb. rewrite foldl_app in Hdb. split; [exact Hdb|]. split; [done|].
  pose proof (size_set_entries (row_entries people 1 bob) ann_people) as Hb. change (size two_people <= 3 + size ann_people)%nat in Hb.
  pose proof (size_set_entries (row_entries people 1 ann) bare_people) as Hsz. change (size ann_people <= 3 + size bare_people)%nat in Hsz.
  unfold bare_people in Hsz. rewrite map_size_singleton in Hsz. lia.
Qed.
Definition two_keys : list bytes := (row_entries people 1 bob).*1 ++ (row_entries people 1 ann).*1 ++ [def_key (gostr "people")].
Lemma ann_stored (k : bytes) : is_Some (ann_people !! k) -> k ∈ (row_entries people 1 ann).*1 ++ [def_key (gostr "people")].
Proof.
  intros Hk. rewrite elem_of_app. destruct (stored_entries _ _ _ Hk) as [|[v Hv]]; [by left|right].
  unfold bare_people in Hv. apply lookup_singleton_Some in Hv as [<- _]. by left.
Qed.
Lemma two_stored (k : bytes) : is_Some (two_people !! k) -> k ∈ two_keys.
Proof.
  intros Hk. unfold two_keys. rewrite elem_of_app. destruct (stored_entries _ _ _ Hk) as [|Hk2%ann_stored]; [by left|by right].
Qed.
Lemma two_cases row : has_row 1 two_rows row -> row = bob \/ row = ann.
Proof.
  unfold has_row, two_rows. intros [[E1 E2]|[_ Hr]]%lookup_insert_Some; [left|right; by apply ann_only].
  rewrite <- (take_drop 1 row), <- E1, <- E2. reflexivity.
Qed.
Lemma key_cases (rows : gmap (list Value) (list Value)) k : (forall pk rest, rows !! pk = Some rest -> length pk = 1%nat) -> key_in people 1 rows k -> exists row, has_row 1 rows row /\ k ∈ row_keys people 1 row.
Proof.
  intros Hl (pk & rest & Hr & Hin). exists (pk ++ rest). split; [|done]. unfold has_row. by rewrite take_app_length', drop_app_length' by (symmetry; by eapply Hl).
Qed.
Lemma row_key_in (rows : gmap (list Value) (list Value)) row k : has_row 1 rows row -> k ∈ row_keys people 1 row -> key_in people 1 rows k.
Proof. intros Hr Hk. exists (take 1 row), (drop 1 row). rewrite take_drop. by split. Qed.

(** A delete by name, of Ann. *)
Definition anna_query : bytes := gostr "delete from people index by name <= anna;".
Definition anna_cond : QLNode := mkNode (valWithType QL_CMP_LE) [str_node "name"; str_node "anna"].
Definition anna_scan : QLScan := mkScan (gostr "people") (Some anna_cond) None None 0 MaxInt64.
Definition anna_span : span := ordered 1 [BytesVal (gostr "anna")] [end_val TYPE_BYTES QL_CMP_LE (BytesVal (gostr "anna"))] (incl QL_CMP_LE || (QL_CMP_LE =? QL_CMP_EQ)) (QL_CMP_LE =? QL_CMP_EQ).
Lemma anna_scans : scans people anna_scan anna_span.
Proof.
  apply (scans_one people anna_scan anna_cond (str_node "name") (str_node "anna") [] 1); try done.
  - split; [by eexists|]. intros [|j] cols Hj Ec; [vm_compute in Ec; injection Ec as <-; by eexists _, _|lia].
  - by apply (bool_decide_eq_true (QL_CMP_LE ∈ cmp_types)).
  - by constructor.
Qed.
Lemma anna_parses : exists p', PStmt 60 (new_parser anna_query []) = Ok (p', SDelete (Some (mkDelete anna_scan))).
Proof. eexists. vm_compute. reflexivity. Qed.
Lemma anna_lists rs : rows_between people 1 two_rows anna_span rs -> rs = [ann].
Proof.
  intros [Hs Hel]. apply ann_between with (sp := anna_span); [split; by vm_compute|]. split; [done|]. intros row. rewrite Hel. split; intros [Hr Hsp]; (split; [|done]).
  - destruct (two_cases row Hr) as [->| ->]; [|apply lookup_insert_eq]. destruct Hsp as [_ Hhi]. vm_compute in Hhi. by destruct Hhi.
  - unfold has_row, two_rows. rewrite lookup_insert_ne; [done|]. apply ann_only in Hr as ->. discriminate.
Qed.
Lemma anna_starts : starts people anna_span two_people.
Proof.
  unfold starts. change (spLoInc anna_span) with false. exists (idx_key people 1 1 bob). split; [|by vm_compute]. exists (idx_entry people 1 1 bob).2.
  apply (has_row_stored people 1 people_td two_rows two_people (ti_rep _ _ _ _ _ two_in) 1 bob); [cbn; lia|apply lookup_insert_eq].
Qed.
Lemma anna_fits : rows_fit people 1 two_rows (without 1 [ann] two_rows) two_people.
Proof.
  assert (Hl : forall pk rest, two_rows !! pk = Some rest -> length pk = 1%nat) by (intros pk rest Hr; by apply (tb_rows _ _ _ _ (ti_rep _ _ _ _ _ two_in) pk rest)).
  assert (Hbob : has_row 1 (without 1 [ann] two_rows) bob).
  { unfold has_row. rewrite without_lookup, decide_False; [apply lookup_insert_eq|]. intros Hin%list_elem_of_singleton. discriminate Hin. }
  apply (rows_fit_check _ _ _ _ _ two_keys).
  - intros k [Hk|Hk]; [by apply two_stored|]. apply two_stored, (key_stored people 1 two_rows); [apply two_in|by eapply (key_in_owned people 1 people_td)|].
    destruct Hk as (pk & rest & Hr & Hk). rewrite without_lookup in Hr. case_decide; [discriminate Hr|]. exists pk, rest. exact (conj Hr Hk).
  - intros d Hd Hn. destruct (key_cases _ d Hl Hd) as (row & Hr & Hk). destruct (two_cases row Hr) as [->| ->]; [destruct Hn; exact (row_key_in _ bob d Hbob Hk)|].
    assert (Hf : Forall (fun d => Exists (fun q => fits_before two_keys d q = true) (row_keys people 1 bob)) (row_keys people 1 ann)).
    { refine (bool_decide_eq_true_1 _ _). by vm_compute. }
    rewrite list.Forall_forall in Hf. pose proof (Hf d Hk) as (q & Hq & Hfd)%list.Exists_exists. exists q. split; [exact (row_key_in _ bob q Hbob Hq)|exact Hfd].
Qed.
Lemma delete_query_witness : exists db h db' ok m', kv_holds 4800 h db two_people /\ ExecuteQuery 60 demo_env anna_query db = Ok (db', RCount 1, ok) /\
  table_in (gostr "people") people 1 (without 1 [ann] two_rows) m'.
Proof.
  destruct two_db as (db & h & Hdb & Hh & Hsz). destruct anna_parses as (p' & Ep).
  destruct (delete_query 60 db 4800 h two_people anna_scan anna_span people 1 two_rows (fun _ => true) two_in ltac:(lia) eq_refl people_types Hdb ltac:(lia) ltac:(lia)
    ltac:(lia) anna_scans anna_starts ltac:(done) demo_env anna_query p' 0 demo_env_ok Ep) as (rs & Hrs & HD);
    [change (length (tIndexes people)) with 3%nat; lia|change (length (tIndexes people)) with 3%nat; unfold room; nia|change (length (tIndexes people)) with 3%nat; nia|].
  pose proof (anna_lists rs Hrs) as ->. change (listed (fun _ => true) (sOffset anna_scan) (sLimit anna_scan) [ann]) with [ann] in HD.
  clear Hrs. destruct HD as (db' & ok & m' & E & [Ht _] & _); [split; [done|by vm_compute]|exact anna_fits|].
  exists db, h, db', ok, m'. exact (conj Hdb (conj E Ht)).
Defined.

(** An update of the age of Ann. *)
Definition older_query : bytes := gostr "update people set @age = @age + 1 index by name >= adam;".
Lemma older_parses : exists p', PStmt 60 (new_parser older_query []) = Ok (p', SUpdate (Some (mkUpdate some_scan [gostr "age"] older))).
Proof. eexists. vm_compute. reflexivity. Qed.
Definition ann31 : list Value := [IntVal 7; BytesVal (gostr "ann"); IntVal 31].
Definition older_rows : gmap (list Value) (list Value) := <[take 1 ann := drop 1 ann31]> ann_rows.
Definition older_keys : list bytes := (row_entries people 1 ann31).*1 ++ (row_entries people 1 ann).*1 ++ [def_key (gostr "people")].
Lemma older_only row : has_row 1 older_rows row -> row = ann31.
Proof.
  unfold has_row, older_rows. intros [[E1 E2]|[Hne Hr]]%lookup_insert_Some; [by rewrite <- (take_drop 1 row), <- E1, <- E2|].
  pose proof (ann_only row Hr) as ->. by destruct Hne.
Qed.
Lemma older_fits : rows_fit people 1 ann_rows older_rows ann_people.
Proof.
  assert (Hl : forall pk rest, ann_rows !! pk = Some rest -> length pk = 1%nat) by (intros pk rest Hr; by apply (tb_rows _ _ _ _ (ti_rep _ _ _ _ _ ann_in) pk rest)).
  assert (Hl' : forall pk rest, older_rows !! pk = Some rest -> length pk = 1%nat) by (intros pk rest Hr; unfold older_rows in Hr; apply lookup_insert_Some in Hr as [[<- _]|[_ Hr]]; [reflexivity|exact (Hl _ _ Hr)]).
  assert (Hann : has_row 1 older_rows ann31) by apply lookup_insert_eq.
  apply (rows_fit_check _ _ _ _ _ older_keys).
  - unfold older_keys. intros k [Hk|Hk].
    + apply ann_stored in Hk. rewrite elem_of_app. by right.
    + destruct (key_cases _ k Hl' Hk) as (row & Hr & Hin). apply older_only in Hr as ->. rewrite elem_of_app. left. by rewrite row_entries_keys.
  - intros d Hd Hn. destruct (key_cases _ d Hl Hd) as (row & Hr & Hk). apply ann_only in Hr as ->.
    assert (Hf : Forall (fun d => d ∈ row_keys people 1 ann31 \/ Exists (fun q => fits_before older_keys d q = true) (row_keys people 1 ann31)) (row_keys people 1 ann)).
    { refine (bool_decide_eq_true_1 _ _). by vm_compute. }
    rewrite list.Forall_forall in Hf. destruct (Hf d Hk) as [Hin|(q & Hq & Hfd)%list.Exists_exists]; [destruct Hn; exact (row_key_in _ ann31 d Hann Hin)|].
    exists q. split; [exact (row_key_in _ ann31 q Hann Hq)|exact Hfd].
Qed.
Lemma update_query_witness : exists db h db' ok m', kv_holds 4800 h db ann_people /\ ExecuteQuery 60 demo_env older_query db = Ok (db', RNil, ok) /\
  table_in (gostr "people") people 1 older_rows m'.
Proof.
  destruct ann_db as (db & h & Hdb & Hh & Hsz). destruct older_parses as (p' & Ep).
  destruct (update_query 60 db 4800 h ann_people some_scan some_span people 1 ann_rows (fun _ => true) ann_in ltac:(lia) eq_refl people_types Hdb ltac:(lia) ltac:(lia)
    ltac:(lia) some_scans ltac:(done) ltac:(done) demo_env older_query p' [gostr "age"] older (fun _ => [IntVal 31]) 0 demo_env_ok Ep eq_refl
    ltac:(apply (bool_decide_eq_true (gostr "*" ∉ [gostr "age"] ++ tCols people)); reflexivity) older_row) as (rs & Hrs & HD);
    [change (length (tIndexes people)) with 3%nat; lia|change (length (tIndexes people)) with 3%nat; unfold room; nia|change (length (tIndexes people)) with 3%nat; nia|].
  assert (Hsp : in_span people 1 some_span ann) by (split; by vm_compute). pose proof (ann_between rs _ Hsp Hrs) as ->.
  change (listed (fun _ => true) (sOffset some_scan) (sLimit some_scan) [ann]) with [ann] in HD.
  rewrite (updated_cons 1 _ ann [] ann_rows), updated_nil in HD; [|apply lookup_insert_eq|by apply not_elem_of_nil]. clear Hrs Hsp.
  destruct HD as (db' & ok & m' & E & [Ht _] & _); [split; [done|by vm_compute]|exact older_fits|].
  exists db, h, db', ok, m'. exact (conj Hdb (conj E Ht)).
Defined.
