(* ===== verification/Cli.v ===== *)
(** * cmd/auroradb.go and db/cli.go: the interactive client

    The client reads queries from the standard input, opens databases and runs
    queries on the one it has open.  The standard input is the list of what the
    calls to read return; an empty one is an end of file, as is every call after
    the last.  The files are a map from paths to contents, and the output a list
    of what is printed, with tables as their header and cells: how they are drawn
    is the business of the table writer.  The greeting is left out. *)
From Stdlib Require Import ZArith Lia.
From stdpp Require Import base gmap list strings countable pretty.
From coqutil Require Import Byte Word.LittleEndianList.
From S2P Require Import Prelude Schema SecIndex Disk Commit KVStore Tx Db TxTable Lexer Parser Eval Planner Exec.

(** ** The standard library *)

(** The UTF-8 encodings of the code points [unicode.IsSpace] accepts. *)
Definition spaces : list bytes :=
  map (fun c => [byte.of_Z c]) [9; 10; 11; 12; 13; 32] ++ map (map byte.of_Z)
    ([[194; 133]; [194; 160]; [225; 154; 128]] ++ map (fun c => [226; 128; c]) [128; 129; 130; 131; 132; 133; 134; 135; 136; 137; 138; 168; 169; 175] ++
     [[226; 129; 159]; [227; 128; 128]]).
Fixpoint skip_prefixes (fuel : nat) (ps : list bytes) (s : bytes) : bytes :=
  match fuel with
  | O => s
  | S fuel =>
      match List.find (fun e => bool_decide (e = take (length e) s)) ps with
      | Some e => skip_prefixes fuel ps (drop (length e) s)
      | None => s
      end
  end.
Definition trim_left (ps : list bytes) (s : bytes) : bytes := skip_prefixes (length s) ps s.
Definition trim_right (ps : list bytes) (s : bytes) : bytes := reverse (trim_left (map reverse ps) (reverse s)).
Definition TrimSpace (s : bytes) : bytes := trim_right spaces (trim_left spaces s).
(** [strings.Trim(s, ";")] and [strings.HasSuffix(s, ";")]. *)
Definition semicolon : byte := Byte.x3b.
Definition Trim_semicolons (s : bytes) : bytes := trim_right [[semicolon]] (trim_left [[semicolon]] s).
Definition HasSuffix_semicolon (s : bytes) : bool := bool_decide (last s = Some semicolon).
(** [strings.Split(s, " ")] *)
Fixpoint Split (s : bytes) : list bytes :=
  match s with
  | [] => [[]]
  | c :: s' => if decide (c = Byte.x20) then [] :: Split s' else
      match Split s' with w :: ws => (c :: w) :: ws | [] => [[c]] end
  end.

(** [ReadString('\n')] of a new reader on the standard input: what it has read
    up to the newline, and the input that is left.  What a call to read has
    returned after the newline stays in the buffer of the reader.  [None] is an
    error: the input has ended before a newline. *)
Definition newline : byte := Byte.x0a.
Fixpoint up_to_newline (s : bytes) : option bytes :=
  match s with
  | [] => None
  | c :: s' => if decide (c = newline) then Some [c] else option_map (cons c) (up_to_newline s')
  end.
Fixpoint ReadString (stdin : list bytes) (read : bytes) : option bytes * list bytes :=
  match stdin with
  | [] => (None, [])
  | [] :: stdin' => (None, stdin')
  | chunk :: stdin' =>
      match up_to_newline chunk with
      | Some line => (Some (read ++ line), stdin')
      | None => ReadString stdin' (read ++ chunk)
      end
  end.

(** ** Records and databases *)

Definition ToString (r : Rec) : list bytes :=
  map (fun v => if vType v =? TYPE_BYTES then vStr v else gostr (pretty (vI64 v))) (rVals r).

Record DB := mkDB { dbPath : bytes; dbKv : KV }.
Definition NewDB (path : bytes) (kv : KV) : DB := mkDB path kv.
Abbreviation files := (gmap bytes bytes).

(** Opening the directory, opening or making the file, and writing the
    directory to the disk. *)
Definition createFileSync (faults : list bool) : bool * list bool :=
  let '(ok, faults) := syscall faults in
  if negb ok then (false, faults) else
  let '(ok, faults) := syscall faults in
  if negb ok then (false, faults) else syscall faults.
(** [db.Open()], from the path. *)
Definition KVOpen (faults : list bool) (fs : files) (path : bytes) : res (KV * bool) :=
  let '(ok, faults) := createFileSync faults in
  let file := default [] (fs !! path) in
  if negb ok then Ok (mkKV 0 0 0 ∅ (mkFree 0 0 0 0 0) 0 [] file, false) else
  let '(ok, faults) := syscall faults in
  if negb ok then Ok (mkKV 0 0 0 ∅ (mkFree 0 0 0 0 0) 0 [] file, false) else
  Open faults file.
(** [db.Close()]: the calls it makes, whose results it does not look at; the file
    is open when its descriptor is not 0. *)
Inductive release := CloseFile | Munmap (chunk : Z).
Definition KVClose (fd : Z) (db : KV) : list release := (if negb (fd =? 0) then [CloseFile] else []) ++ map Munmap (kChunks db).
Definition unmapped (r : release) : Z := match r with CloseFile => 0 | Munmap chunk => chunk end.
Definition OpenDB (faults : list bool) (fs : files) (loc : bytes) : res DB :=
  '(kvstore, ok) ← KVOpen faults fs loc;
  if negb ok then Crash FatalExit else Ok (NewDB loc kvstore).

(** ** The client *)

Inductive output :=
  | OPrompt | OReadError | OUsage | OOpening (name : bytes) | OConnected | OExiting | ORunOpen
  | OError | OSuccess | ONoRecords | OTable (header : list bytes) (rows : list (list bytes)) | OAffected (count : Z).
Record Cli := mkCli { cStdin : list bytes; cFiles : files; cDatabase : option DB; cOutput : list output }.
Definition print (o : output) (c : Cli) : Cli := mkCli (cStdin c) (cFiles c) (cDatabase c) (cOutput c ++ [o]).
Definition set_stdin (s : list bytes) (c : Cli) : Cli := mkCli s (cFiles c) (cDatabase c) (cOutput c).
(** The database a client has open; what it writes is in its file. *)
Definition set_database (d : DB) (c : Cli) : Cli :=
  mkCli (cStdin c) (<[dbPath d := kFile (dbKv d)]> (cFiles c)) (Some d) (cOutput c).

Fixpoint query_input (fuel : nat) (c : Cli) (res : bytes) : Prelude.res (Cli * bytes) :=
  match fuel with
  | O => Crash OutOfFuel
  | S fuel =>
      let c := print OPrompt c in
      let '(line, stdin) := ReadString (cStdin c) [] in
      let c := set_stdin stdin c in
      match line with
      | None => Ok (print OReadError c, [])
      | Some line =>
          let line := TrimSpace line in
          let res := res ++ Byte.x20 :: line in
          if HasSuffix_semicolon line then Ok (c, TrimSpace res) else query_input fuel c res
      end
  end.
Definition getQueryInput (c : Cli) : res (Cli * bytes) := query_input (S (length (cStdin c))) c [].

Definition printRecords (recs : list Rec) (c : Cli) : Cli :=
  match recs with
  | [] => print ONoRecords c
  | r :: _ => print (OTable (rCols r) (map ToString recs)) c
  end.
Section Client.
Context `{JsonVals} `{JsonTable} (fuel : nat).

Definition execQuery (env : Env) (query : bytes) (database : DB) (c : Cli) : res Cli :=
  '(kv, r, ok) ← ExecuteQuery fuel env query (dbKv database);
  let c := set_database (mkDB (dbPath database) kv) c in
  if negb ok then Ok (print OError c) else
  Ok match r with RNil => print OSuccess c | RRecords recs => printRecords recs c | RCount n => print (OAffected n) c end.

(** A turn of the loop of [main]; the boolean is false when the process exits. *)
Definition main_turn (env : Env) (c : Cli) : res (Cli * bool) :=
  '(c, input) ← getQueryInput c;
  if decide (input = []) then Ok (c, true) else
  let inputArr := Split input in
  first ← index inputArr 0;
  if decide (first = gostr "open") then
    if Z.of_nat (length inputArr) <? 2 then Ok (print OUsage c, true) else
    arg ← index inputArr 1;
    let name := Trim_semicolons arg in
    let c := print (OOpening name) c in
    database ← OpenDB (eFaults env) (cFiles c) name;
    Ok (print OConnected (set_database database c), true)
  else if decide (first = gostr "exit;") then Ok (print OExiting c, false)
  else
    match cDatabase c with
    | None => Ok (print ORunOpen c, true)
    | Some database => c ← execQuery env input database c; Ok (c, true)
    end.
(** The loop, with what the system chooses in each turn from the first on. *)
Fixpoint main (turns : nat) (envs : nat -> Env) (c : Cli) : res Cli :=
  match turns with
  | O => Crash OutOfFuel
  | S turns =>
      '(c, running) ← main_turn (envs 0%nat) c;
      if (running : bool) then main turns (fun i => envs (S i)) c else Ok c
  end.
End Client.

(** ** Trimming *)

(** The byte [a] starts none of the strings [ps]. *)
Definition starts_none (ps : list bytes) (a : byte) : bool := forallb (fun e => match e with b :: _ => negb (bool_decide (b = a)) | [] => false end) ps.
(** Closing gives back every byte that is mapped. *)
Lemma close_unmaps fd db : mmap_ok db -> sum_Z (map unmapped (KVClose fd db)) = kTotal db.
Proof.
  intros (-> & _). unfold KVClose. rewrite map_app, map_map. cbn [unmapped]. rewrite map_id. by destruct (fd =? 0).
Qed.
Lemma find_none ps a s : starts_none ps a = true -> List.find (fun e => bool_decide (e = take (length e) (a :: s))) ps = None.
Proof.
  unfold starts_none. induction ps as [|e ps IH]; [done|]. cbn [forallb List.find]. intros [He Hps]%andb_prop. rewrite bool_decide_eq_false_2; [by apply IH|].
  destruct e as [|b e]; [done|]. cbn. intros [= E _]. subst b. by rewrite bool_decide_eq_true_2 in He.
Qed.
Lemma skip_none ps a s n : starts_none ps a = true -> skip_prefixes n ps (a :: s) = a :: s.
Proof. intros Ha. destruct n as [|n]; [done|]. cbn [skip_prefixes]. by rewrite find_none. Qed.
(** A query that starts and ends as queries do. *)
Definition tidy (q : bytes) : Prop := exists a s, q = a :: s /\ starts_none spaces a = true /\ last q = Some semicolon.
Lemma tidy_reverse q : tidy q -> exists r, reverse q = semicolon :: r.
Proof.
  intros (a & s & _ & _ & Hl). apply last_Some in Hl as [q' ->]. exists (reverse q'). by rewrite reverse_app.
Qed.
Lemma tidy_left q : tidy q -> forall n s, skip_prefixes n spaces (q ++ s) = q ++ s.
Proof. intros (a & s & -> & Ha & _) n s'. by apply skip_none. Qed.
Lemma tidy_right q : tidy q -> trim_right spaces q = q.
Proof.
  intros Hq. destruct (tidy_reverse q Hq) as [r Hr]. unfold trim_right, trim_left. rewrite Hr, skip_none by reflexivity.
  by rewrite <- Hr, reverse_involutive.
Qed.
Lemma find_newline s : List.find (fun e => bool_decide (e = take (length e) (newline :: semicolon :: s))) (map reverse spaces) = Some [newline].
Proof. by vm_compute. Qed.
Lemma find_blank s : List.find (fun e => bool_decide (e = take (length e) (Byte.x20 :: s))) spaces = Some [Byte.x20].
Proof. by vm_compute. Qed.
Lemma skip_newline n s : skip_prefixes (S n) (map reverse spaces) (newline :: semicolon :: s) = skip_prefixes n (map reverse spaces) (semicolon :: s).
Proof. cbn [skip_prefixes]. by rewrite find_newline. Qed.
Lemma TrimSpace_line q : tidy q -> TrimSpace (q ++ [newline]) = q.
Proof.
  intros Hq. unfold TrimSpace. change (trim_left spaces (q ++ [newline])) with (skip_prefixes (length (q ++ [newline])) spaces (q ++ [newline])).
  rewrite (tidy_left q Hq). unfold trim_right, trim_left. rewrite reverse_app. destruct (tidy_reverse q Hq) as [r Hr]. rewrite Hr.
  change (reverse [newline] ++ semicolon :: r) with (newline :: semicolon :: r).
  change (length (newline :: semicolon :: r)) with (S (length (semicolon :: r))). rewrite skip_newline, skip_none by reflexivity.
  by rewrite <- Hr, reverse_involutive.
Qed.
Lemma TrimSpace_blank q : tidy q -> TrimSpace (Byte.x20 :: q) = q.
Proof.
  intros Hq. unfold TrimSpace, trim_left. cbn [length skip_prefixes]. rewrite find_blank. cbn [length drop]. rewrite drop_0.
  pose proof (tidy_left q Hq (length q) []) as E. rewrite app_nil_r in E. rewrite E. by apply tidy_right.
Qed.

(** ** Reading a query *)

(** The chunks in which a line arrives; [lost] comes with its end. *)
Definition arrives (line : bytes) (chunks : list bytes) : Prop := exists front tail lost,
  chunks = front ++ [tail ++ newline :: lost] /\ line = concat front ++ tail /\ (newline ∉ line) /\ ([] ∉ front).
Definition trimmed (line : bytes) : bytes := TrimSpace (line ++ [newline]).

Lemma up_to_newline_app s lost : newline ∉ s -> up_to_newline (s ++ newline :: lost) = Some (s ++ [newline]).
Proof.
  induction s as [|c s IH]; intros Hn; [done|]. apply not_elem_of_cons in Hn as [Hc Hn]. cbn [app up_to_newline].
  rewrite decide_False by done. by rewrite IH.
Qed.
Lemma up_to_newline_none s : newline ∉ s -> up_to_newline s = None.
Proof.
  induction s as [|c s IH]; intros Hn; [done|]. apply not_elem_of_cons in Hn as [Hc Hn]. cbn. rewrite decide_False by done. by rewrite IH.
Qed.
Lemma ReadString_line line chunks rest read : arrives line chunks -> ReadString (chunks ++ rest) read = (Some (read ++ line ++ [newline]), rest).
Proof.
  intros (front & tail & lost & -> & -> & Hn & Hf). revert read. induction front as [|chunk front IH]; intros read.
  - cbn [app concat] in *. destruct tail as [|c tail]; [done|]. change ((c :: tail) ++ newline :: lost) with (c :: (tail ++ newline :: lost)).
    cbn [ReadString]. change (c :: tail ++ newline :: lost) with ((c :: tail) ++ newline :: lost). by rewrite up_to_newline_app.
  - apply not_elem_of_cons in Hf as [Hc Hf]. cbn [concat] in *. rewrite <- (assoc_L app) in Hn. apply not_elem_of_app in Hn as [Hn1 Hn2].
    destruct chunk as [|c chunk]; [done|]. cbn [app ReadString]. rewrite up_to_newline_none by done.
    rewrite (IH Hn2 Hf (read ++ c :: chunk)). by rewrite <- !(assoc_L app).
Qed.
Lemma ReadString_shorter : forall stdin read, stdin <> [] -> (length (ReadString stdin read).2 < length stdin)%nat.
Proof.
  induction stdin as [|chunk stdin IH]; intros read Hn; [done|]. cbn [ReadString length]. destruct chunk as [|c chunk]; [cbn; lia|].
  destruct (up_to_newline _); [cbn; lia|]. destruct stdin as [|d stdin]; [cbn; lia|]. specialize (IH (read ++ c :: chunk) ltac:(done)). cbn in *. lia.
Qed.
(** The loop over the lines ends. *)
Lemma query_input_total : forall fuel c res, (length (cStdin c) < fuel)%nat -> exists c' q, query_input fuel c res = Ok (c', q) /\
  cFiles c' = cFiles c /\ cDatabase c' = cDatabase c.
Proof.
  induction fuel as [|fuel IH]; intros c res Hf; [lia|]. cbn [query_input print cStdin set_stdin].
  destruct (cStdin c) as [|chunk stdin] eqn:Es; [by eexists _, _|]. pose proof (ReadString_shorter (chunk :: stdin) [] ltac:(done)) as Hl.
  destruct (ReadString (chunk :: stdin) []) as [[line|] stdin']; [|by eexists _, _]. cbn [snd] in Hl.
  destruct (HasSuffix_semicolon _); [by eexists _, _|]. apply (IH (set_stdin stdin' (print OPrompt c)) (res ++ Byte.x20 :: TrimSpace line)). cbn in *. lia.
Qed.

(** The lines a query is typed in: the last one ends in a semicolon. *)
Definition query_text (lines : list bytes) : bytes := TrimSpace (concat (map (fun line => Byte.x20 :: trimmed line) lines)).
Lemma query_input_lines lines css : Forall2 arrives lines css -> forall lst cl fuel c res rest, arrives lst cl ->
  Forall (fun line => HasSuffix_semicolon (trimmed line) = false) lines -> HasSuffix_semicolon (trimmed lst) = true ->
  cStdin c = concat css ++ cl ++ rest -> (length lines < fuel)%nat ->
  query_input fuel c res = Ok (mkCli rest (cFiles c) (cDatabase c) (cOutput c ++ replicate (S (length lines)) OPrompt),
    TrimSpace (res ++ concat (map (fun line => Byte.x20 :: trimmed line) (lines ++ [lst])))).
Proof.
  induction 1 as [|line cs lines css Hl _ IH]; intros lst cl fuel c res rest Hlst HF Hs Hstd Hf; (destruct fuel as [|fuel]; [cbn in Hf; lia|]); cbn [query_input print cStdin set_stdin].
  - rewrite Hstd. cbn [concat app]. rewrite (ReadString_line lst cl rest [] Hlst). cbn [app]. unfold trimmed in Hs. rewrite Hs. cbn. by rewrite app_nil_r.
  - apply list.Forall_cons in HF as [Hn HF]. rewrite Hstd. cbn [concat]. rewrite <- (assoc_L app), (ReadString_line line cs _ [] Hl). cbn [app]. unfold trimmed in Hn. rewrite Hn.
    rewrite (IH lst cl fuel _ _ rest Hlst HF Hs) by (done || cbn in *; lia). unfold set_stdin, print.
    cbn [cFiles cDatabase cOutput app map concat length]. rewrite <- (assoc_L app (cOutput c)).
    by rewrite <- (assoc_L app res).
Qed.

(** ** The turns of the loop *)

Section Turns.
Context `{JsonVals} `{JsonTable} (fuel : nat).

Lemma main_turn_input env c c1 q : getQueryInput c = Ok (c1, q) -> main_turn fuel env c =
  if decide (q = []) then Ok (c1, true) else
  first ← index (Split q) 0;
  if decide (first = gostr "open") then
    if Z.of_nat (length (Split q)) <? 2 then Ok (print OUsage c1, true) else
    arg ← index (Split q) 1;
    let name := Trim_semicolons arg in
    let c := print (OOpening name) c1 in
    database ← OpenDB (eFaults env) (cFiles c) name;
    Ok (print OConnected (set_database database c), true)
  else if decide (first = gostr "exit;") then Ok (print OExiting c1, false)
  else
    match cDatabase c1 with
    | None => Ok (print ORunOpen c1, true)
    | Some database => c ← execQuery fuel env q database c1; Ok (c, true)
    end.
Proof. intros E. unfold main_turn. by rewrite E. Qed.

(** The results of queries on a database, one after the other, and what the
    client shows of a result. *)
Fixpoint run_queries (envs : nat -> Env) (qs : list bytes) (kv : KV) : res (KV * list (StmtResult * bool)) :=
  match qs with
  | [] => Ok (kv, [])
  | q :: qs =>
      '(kv, r, ok) ← ExecuteQuery fuel (envs 0%nat) q kv;
      '(kv, rs) ← run_queries (fun i => envs (S i)) qs kv;
      Ok (kv, (r, ok) :: rs)
  end.
Definition shown (r : StmtResult * bool) : output :=
  match r with
  | (_, false) => OError
  | (RNil, true) => OSuccess
  | (RRecords [], true) => ONoRecords
  | (RRecords ((rec :: _) as recs), true) => OTable (rCols rec) (map ToString recs)
  | (RCount n, true) => OAffected n
  end.
(** A query on one line, other than a command of the client. *)
Definition plain_query (q : bytes) : Prop :=
  tidy q /\ (newline ∉ q) /\ hd [] (Split q) <> gostr "open" /\ hd [] (Split q) <> gostr "exit;".
Lemma arrives_at_once line lost : newline ∉ line -> arrives line [line ++ newline :: lost].
Proof. intros Hn. exists [], line, lost. do 3 (split; [done|]). apply not_elem_of_nil. Qed.
Lemma tidy_line c q lost rest : tidy q -> newline ∉ q -> cStdin c = (q ++ newline :: lost) :: rest ->
  getQueryInput c = Ok (mkCli rest (cFiles c) (cDatabase c) (cOutput c ++ [OPrompt]), q).
Proof.
  intros Hq Hn Hs. unfold getQueryInput.
  rewrite (query_input_lines [] [] ltac:(constructor) q [q ++ newline :: lost] _ c [] rest); [|by apply arrives_at_once|done| |by rewrite Hs|cbn; lia].
  - cbn [app map concat length replicate]. unfold trimmed. rewrite (TrimSpace_line q Hq), app_nil_r. by rewrite (TrimSpace_blank q Hq).
  - unfold trimmed. rewrite (TrimSpace_line q Hq). destruct Hq as (_ & _ & _ & _ & Hl). by apply bool_decide_eq_true.
Qed.
Lemma Split_cons q : exists w ws, Split q = w :: ws.
Proof. induction q as [|c q (w & ws & IH)]; [by exists [], []|]. cbn. case_decide; [by eexists _, _|]. rewrite IH. by eexists _, _. Qed.
Lemma query_turn env c q lost rest path kv kv' r ok : plain_query q -> cStdin c = (q ++ newline :: lost) :: rest -> cDatabase c = Some (mkDB path kv) ->
  ExecuteQuery fuel env q kv = Ok (kv', r, ok) ->
  main_turn fuel env c = Ok (mkCli rest (<[path := kFile kv']> (cFiles c)) (Some (mkDB path kv')) (cOutput c ++ [OPrompt; shown (r, ok)]), true).
Proof.
  intros (Hq & Hn & Ho & He) Hs Hd E. rewrite (main_turn_input env c _ q (tidy_line c q lost rest Hq Hn Hs)).
  rewrite decide_False by (destruct Hq as (a & s & -> & _); done). destruct (Split_cons q) as (w & ws & Es). rewrite Es in *.
  change (index (w :: ws) 0) with (Ok w). cbn [mbind res_bind hd] in *. rewrite !decide_False by done. cbn [cDatabase]. rewrite Hd.
  unfold execQuery. cbn [dbKv dbPath]. rewrite E. cbn [mbind res_bind]. unfold set_database, print, printRecords.
  destruct ok, r as [|[|rec recs]|count]; cbn; unfold print; cbn; by rewrite <- (assoc_L app).
Qed.
End Turns.

(** ** Sessions *)

Lemma Split_word w s : Byte.x20 ∉ w -> Split (w ++ Byte.x20 :: s) = w :: Split s.
Proof.
  induction w as [|c w IH]; intros Hn; [done|]. apply not_elem_of_cons in Hn as [Hc Hn]. cbn [app Split]. rewrite decide_False by done. by rewrite (IH Hn).
Qed.
Lemma Split_last w : Byte.x20 ∉ w -> Split w = [w].
Proof. induction w as [|c w IH]; intros Hn; [done|]. apply not_elem_of_cons in Hn as [Hc Hn]. cbn [Split]. rewrite decide_False by done. by rewrite (IH Hn). Qed.
(** A path without blanks, newlines and semicolons. *)
Definition plain_path (name : bytes) : Prop := name <> [] /\ Forall (fun c => c <> Byte.x20 /\ c <> newline /\ c <> semicolon) name.
Lemma plain_path_not name x : plain_path name -> x = Byte.x20 \/ x = newline \/ x = semicolon -> x ∉ name.
Proof. intros [_ HF] Hx Hin. rewrite list.Forall_forall in HF. destruct (HF x Hin) as (H1 & H2 & H3). naive_solver. Qed.
Lemma Trim_path name : plain_path name -> Trim_semicolons (name ++ [semicolon]) = name.
Proof.
  intros [Hn HF]. assert (Hstart : forall a, a ∈ name -> starts_none [[semicolon]] a = true).
  { intros a Ha. rewrite list.Forall_forall in HF. destruct (HF a Ha) as (_ & _ & Ha'). cbn. by rewrite bool_decide_eq_false_2 by congruence. }
  unfold Trim_semicolons, trim_left at 1. destruct name as [|a name]; [done|]. cbn [app]. rewrite skip_none by (apply Hstart; by left).
  change (a :: name ++ [semicolon]) with ((a :: name) ++ [semicolon]). unfold trim_right, trim_left. rewrite reverse_app.
  change (reverse [semicolon] ++ reverse (a :: name)) with (semicolon :: reverse (a :: name)). change (map reverse [[semicolon]]) with [[semicolon]].
  assert (E : forall n s, skip_prefixes (S n) [[semicolon]] (semicolon :: s) = skip_prefixes n [[semicolon]] s) by done.
  cbn [length]. rewrite E. destruct (reverse (a :: name)) as [|b s] eqn:Er; [by apply (f_equal length) in Er; rewrite length_reverse in Er|].
  rewrite skip_none; [by rewrite <- Er, reverse_involutive|]. apply Hstart. apply elem_of_reverse. rewrite Er. by left.
Qed.

Section Claims.
Context `{JsonVals} `{JsonTable} (fuel : nat).

(** The line of an open. *)
Lemma open_tidy name : plain_path name -> tidy (gostr "open " ++ name ++ [semicolon]).
Proof.
  intros _. exists Byte.x6f, (gostr "pen " ++ name ++ [semicolon]). split; [done|]. split; [reflexivity|]. rewrite (assoc_L app). apply last_snoc.
Qed.
Lemma open_turn env c name lost rest kv : plain_path name -> cStdin c = (gostr "open " ++ name ++ semicolon :: newline :: lost) :: rest ->
  OpenDB (eFaults env) (cFiles c) name = Ok (mkDB name kv) ->
  main_turn fuel env c = Ok (mkCli rest (<[name := kFile kv]> (cFiles c)) (Some (mkDB name kv)) (cOutput c ++ [OPrompt; OOpening name; OConnected]), true).
Proof.
  intros Hp Hs Ho. assert (Hnl : newline ∉ gostr "open " ++ name ++ [semicolon]).
  { rewrite !not_elem_of_app. split; [apply (bool_decide_eq_true (newline ∉ gostr "open ")); reflexivity|]. split; [apply plain_path_not; tauto|].
    by intros Hx%list_elem_of_singleton. }
  rewrite (main_turn_input fuel env c _ _ (tidy_line c _ lost rest (open_tidy name Hp) Hnl ltac:(rewrite Hs; by rewrite <- !(assoc_L app)))).
  rewrite decide_False by done.
  assert (Es : Split (gostr "open " ++ name ++ [semicolon]) = [gostr "open"; name ++ [semicolon]]).
  { change (gostr "open " ++ name ++ [semicolon]) with (gostr "open" ++ Byte.x20 :: (name ++ [semicolon])).
    rewrite Split_word by (apply (bool_decide_eq_true (Byte.x20 ∉ gostr "open")); reflexivity). f_equal. apply Split_last.
    apply not_elem_of_app. split; [apply plain_path_not; tauto|]. by intros Hx%list_elem_of_singleton. }
  rewrite Es. change (index [gostr "open"; name ++ [semicolon]] 0) with (Ok (gostr "open")). cbn [mbind res_bind]. rewrite decide_True by done.
  change (index [gostr "open"; name ++ [semicolon]] 1) with (Ok (name ++ [semicolon])). cbn [length Z.of_nat Z.ltb Z.compare Pos.of_succ_nat Pos.succ Pos.compare Pos.compare_cont mbind res_bind].
  rewrite (Trim_path name Hp). cbn [print cFiles]. rewrite Ho. cbn [mbind res_bind]. unfold set_database, print. cbn. by rewrite <- !(assoc_L app).
Qed.
Lemma exit_turn env c lost rest : cStdin c = (gostr "exit;" ++ newline :: lost) :: rest ->
  main_turn fuel env c = Ok (mkCli rest (cFiles c) (cDatabase c) (cOutput c ++ [OPrompt; OExiting]), false).
Proof.
  intros Hs. assert (Hq : tidy (gostr "exit;")) by (by exists Byte.x65, (gostr "xit;")).
  rewrite (main_turn_input fuel env c _ _ (tidy_line c _ lost rest Hq ltac:(apply (bool_decide_eq_true (newline ∉ gostr "exit;")); reflexivity) Hs)).
  change (Split (gostr "exit;")) with [gostr "exit;"]. change (index [gostr "exit;"] 0) with (Ok (gostr "exit;")).
  rewrite !decide_False by done. cbn [mbind res_bind]. rewrite decide_False, decide_True by done. unfold print. cbn. by rewrite <- (assoc_L app).
Qed.
Lemma queries_turns (path : bytes) (qs : list (bytes * bytes)) : forall turns envs c kv kv' rs rest, Forall (fun ql => plain_query ql.1) qs ->
  cStdin c = map (fun ql => ql.1 ++ newline :: ql.2) qs ++ rest -> cDatabase c = Some (mkDB path kv) ->
  cFiles c !! path = Some (kFile kv) -> run_queries fuel envs (map fst qs) kv = Ok (kv', rs) ->
  main fuel (length qs + turns) envs c = main fuel turns (fun i => envs (length qs + i)%nat)
    (mkCli rest (<[path := kFile kv']> (cFiles c)) (Some (mkDB path kv')) (cOutput c ++ concat (map (fun r => [OPrompt; shown r]) rs))).
Proof.
  induction qs as [|[q lost] qs IH]; intros turns envs c kv kv' rs rest HF Hs Hd Hfile E.
  - injection E as <- <-. cbn [length map concat Nat.add] in *. rewrite app_nil_r, insert_id by done. by destruct c; cbn in *; subst.
  - apply list.Forall_cons in HF as [Hq HF]. cbn [map fst run_queries] in E. destruct (ExecuteQuery _ _ _ _) as [[[kv1 r] ok]|] eqn:E1; [|done].
    cbn [mbind res_bind] in E. destruct (run_queries _ _ _ _) as [[kv2 rs2]|] eqn:E2; [|done]. injection E as <- <-.
    cbn [length Nat.add main]. rewrite (query_turn fuel _ c q lost _ path kv kv1 r ok Hq Hs Hd E1). cbn [mbind res_bind].
    erewrite (IH turns (fun i => envs (S i)) _ kv1 kv2 rs2 rest HF); [|reflexivity|reflexivity|by apply lookup_insert_eq|exact E2]. cbn [cFiles cOutput map concat]. rewrite insert_insert_eq.
    by rewrite <- (assoc_L app).
Qed.

(** C12: A session.  When each read returns a line, whatever comes after its
    newline, an open, queries of one line each and an exit run the queries on the
    database of the file one after the other, show their results and leave the
    last state of the database in the file.  What a read returns after a newline is
    lost, queries included. *)
Theorem session envs c name lost0 qs lost1 rest kv0 kv rs : plain_path name ->
  cStdin c = (gostr "open " ++ name ++ semicolon :: newline :: lost0) :: map (fun ql => ql.1 ++ newline :: ql.2) qs ++ (gostr "exit;" ++ newline :: lost1) :: rest ->
  OpenDB (eFaults (envs 0%nat)) (cFiles c) name = Ok (mkDB name kv0) -> Forall (fun ql => plain_query ql.1) qs ->
  run_queries fuel (fun i => envs (S i)) (map fst qs) kv0 = Ok (kv, rs) ->
  main fuel (S (length qs + 1)) envs c = Ok (mkCli rest (<[name := kFile kv]> (cFiles c)) (Some (mkDB name kv))
    (cOutput c ++ [OPrompt; OOpening name; OConnected] ++ concat (map (fun r => [OPrompt; shown r]) rs) ++ [OPrompt; OExiting])).
Proof.
  intros Hp Hs Ho HF E. cbn [main]. rewrite (open_turn _ c name lost0 _ kv0 Hp Hs Ho). cbn [mbind res_bind].
  erewrite (queries_turns name qs 1 (fun i => envs (S i)) _ kv0 kv rs _ HF); [|reflexivity|reflexivity|by apply lookup_insert_eq|exact E]. cbn [main cFiles cOutput].
  rewrite (exit_turn _ _ lost1 rest) by done. cbn [mbind res_bind cFiles cDatabase cOutput]. by rewrite insert_insert_eq, <- !(assoc_L app).
Qed.

(** C37: At the end of the input the client never exits: each turn of its loop
    prints a prompt and a read error, and goes on. *)
Theorem end_of_input_never_exits turns envs c : cStdin c = [] ->
  main_turn fuel (envs 0%nat) c = Ok (mkCli [] (cFiles c) (cDatabase c) (cOutput c ++ [OPrompt; OReadError]), true) /\
  main fuel turns envs c = Crash OutOfFuel.
Proof.
  assert (HT : forall env c, cStdin c = [] ->
    main_turn fuel env c = Ok (mkCli [] (cFiles c) (cDatabase c) (cOutput c ++ [OPrompt; OReadError]), true)).
  { clear. intros env c Hs. rewrite (main_turn_input fuel env c (print OReadError (set_stdin [] (print OPrompt c))) []).
    - rewrite decide_True by done. unfold print, set_stdin. cbn. by rewrite <- (assoc_L app).
    - unfold getQueryInput. cbn [query_input print cStdin]. by rewrite Hs. }
  intros Hs. split; [by apply HT|]. revert envs c Hs. induction turns as [|turns IH]; intros envs c Hs; [done|]. cbn [main].
  rewrite (HT _ c Hs). cbn [mbind res_bind]. by apply IH.
Qed.
End Claims.

(** ** Instances: a session with a statement that does not parse, and one that
    is lost behind it *)

#[local] Existing Instances bits_json people_json.
Definition plain_env : Env := mkEnv (fun tx => elements (writes tx)) (fun tx => elements (deletes tx)) (fun db => map_to_list (kUpdates db)) [] 0 [].
Definition demo_path : bytes := gostr "people.db".
Definition typed (c : list bytes) : Cli := mkCli c ∅ None [].
Lemma demo_plain_path : plain_path demo_path.
Proof. split; [done|]. apply (bool_decide_eq_true (Forall (fun c => c <> Byte.x20 /\ c <> newline /\ c <> semicolon) demo_path)). reflexivity. Qed.
Lemma foo_plain : plain_query (gostr "foo;").
Proof.
  split; [by exists Byte.x66, (gostr "oo;")|]. split; [apply (bool_decide_eq_true (newline ∉ gostr "foo;")); reflexivity|]. done.
Qed.
Lemma session_witness : exists kv, main 60 3 (fun _ => plain_env)
  (typed [gostr "open " ++ demo_path ++ [semicolon; newline]; gostr "foo;" ++ newline :: gostr "drop me;"; gostr "exit;" ++ [newline]]) =
  Ok (mkCli [] (<[demo_path := kFile kv]> ∅) (Some (mkDB demo_path kv))
    [OPrompt; OOpening demo_path; OConnected; OPrompt; OError; OPrompt; OExiting]).
Proof.
  assert (E : run_queries 60 (fun i => plain_env) (map fst [(gostr "foo;", gostr "drop me;")]) new_db = Ok (new_db, [(RNil, false)])) by (vm_compute; reflexivity).
  exists new_db. apply (session 60 (fun _ => plain_env) (typed [gostr "open " ++ demo_path ++ [semicolon; newline]; gostr "foo;" ++ newline :: gostr "drop me;"; gostr "exit;" ++ [newline]])
    demo_path [] [(gostr "foo;", gostr "drop me;")] [] [] new_db new_db [(RNil, false)] demo_plain_path eq_refl); [by vm_compute| |exact E].
  apply list.Forall_singleton. exact foo_plain.
Defined.
Lemma end_of_input_never_exits_witness : main 60 1000 (fun _ => plain_env) (typed []) = Crash OutOfFuel.
Proof. exact (proj2 (end_of_input_never_exits 60 1000 (fun _ => plain_env) (typed []) eq_refl)). Defined.
